(* ===== verification/_CoqProject ===== *)
-Q . S2P
Prelude.v
Mem.v
SharedData.v
SharedQueue.v
Metrics.v
Ctx.v
HostCalls.v
Headers.v
Properties.v
HttpAddr.v
Breaker.v
HttpPool.v
HttpParse.v
HttpIo.v
HttpCall.v
Compat.v
Descriptors.v
Imports.v
Abi.v
StorePool.v
HostFunctions.v
Runtime.v
Engine.v
Execute.v
Vdp.v
Vmod.v
Direct.v
Tick.v
Heap.v
SharedHeap.v
QueueHeap.v
SharedLife.v
EngineLife.v
EngineValues.v
