(* ===== verification/Prelude.v ===== *)
(** * vmod-wasm: a model of the VMOD and its correctness

    vmod-wasm embeds Wasmtime in Varnish: VCL calls a module (a "guest") at
    points of a transaction, the guest calls host functions through imports, and
    the result decides what VCL does.  This library translates the C sources
    (src/src/*.c) into executable definitions, one file per part, and proves
    the properties that make the parts correct.

    ** Parts, files and sources

    - Prelude: machine integers with their wrap-around, byte strings and the C
      string functions, allocation oracles, the outcome of a computation that
      may be undefined, histories and simulations.
    - Mem (proxy_wasm_mem.h): bounds checks, reads, writes and allocation in the
      linear memory of a guest.
    - SharedData, SharedQueue (proxy_wasm_shared.c) and Metrics (proxy_wasm.c,
      vmod_wasm.c): the stores all executions share.
    - Ctx (proxy_wasm.h): the context of an execution, its cleanup, and its
      well-formedness [wf_ctx]; HostCalls (proxy_wasm.c), Headers
      (proxy_wasm_headers.c), Properties (proxy_wasm_properties.c): the host
      functions on it.
    - HttpAddr, Breaker, HttpPool (http_pool.c): the filter of private addresses,
      the circuit breakers, the connection pool with its DNS and response caches;
      HttpParse, HttpIo, HttpCall (proxy_wasm_http.c): validation, socket input
      and output, and the host function proxy_http_call; Compat (compat.h,
      http_pool.c): strlcpy and the options of sockets; Descriptors (http_pool.c):
      destroying the pool, and the file descriptors of a sequence of callouts.
    - Imports (proxy_wasm.c): the table of the imports, and histories of calls;
      Abi: the signatures guests are compiled against.
    - StorePool (store_pool.c): warm instances and the lock-free pool of stores,
      with worker threads interleaved step by step.
    - HostFunctions (host_functions.c, wasi_types.h): the functions for guests
      without Proxy-Wasm and the WASI stubs.
    - Runtime, Engine, Execute (wasm_engine.c, parts of proxy_wasm.c): calling an
      export, the engine and its configuration, and one execution from acquiring
      a store to giving it back.
    - Vdp (vdp_wasm.c): the body filters that finish the execution of a response.
    - Vmod (vmod_wasm.c), Direct (vwasm_engine_call and wasm.execute), Tick
      (tick_timer_thread): the VCL interface, direct calls, timer threads.
    - Heap: a heap of blocks with allocation, free, load and store, and a linear
      separation logic for programs on it, an instance of the logic of Iris.
      SharedHeap, QueueHeap (proxy_wasm_shared.c): the shared stores again, as
      the C code has them (structs, pointers, chains, a lock), from creation to
      destruction; SharedLife (proxy_wasm.c): the process-wide instances.
      EngineLife (wasm_engine.c, store_pool.c, http_pool.c): what an engine owns
      (memory, Wasmtime objects, their errors and traps, threads) from
      vwasm_engine_new to vwasm_engine_destroy, with the epoch thread and the tick
      threads; EngineValues: that this engine
      refines the one of Engine.

    They compose as the code composes them: Vmod calls Execute, which runs a
    guest with Runtime in a store of StorePool; the guest calls the table of
    Imports, whose entries are the functions of HostCalls, Headers, Properties
    and HttpCall on a context of Ctx; HttpCall uses HttpPool, Breaker and
    HttpIo.

    ** How C is modelled

    - A w-bit integer is a [Z]; casts and unsigned arithmetic are written with
      [u32], [u64], [i32].  Bytes are [Z]s; a pointer with its length is an
      [option bytes] ([None] is NULL), a pointer into a buffer an offset.
    - [outcome]: [Done] a result, or [Fault] when the code would do something
      undefined (an access outside an object, a double free, a signed overflow).
      That a function is safe means that it is [Done].
    - Allocations succeed or fail as an oracle says; what Wasmtime, the guest,
      Varnish and the operating system do are parameters: type classes ([Guest],
      [Varnish], [VrtVars], [Wasm], [Program], [DirectProgram], [Net]) and records of
      answers, with the documented behaviour that is relied on as classes of laws
      ([VarnishLaws], [VrtVarsLaws], [WasmLaws], [MemLimit], [ProgramLimit]).
      Each class has an instance, used in the witnesses.
    - Where the lifetime of memory matters (the files on [Heap]), a pointer is a
      location, [free] of anything but a live block and access through a dangling
      or NULL pointer are faults, and so is taking a lock that is held.  The logic
      is linear: a resource is neither copied nor dropped, so that what a
      specification does not return has been freed.
    - Code under a lock is one step.  Where the code is lock-free (the store pool,
      the test and each write of releasing a connection) the steps are
      interleaved.
    - A variable that may be uninitialized or hold a pointer to something already
      deleted (the [trap] of the tick thread and of the body filter chain), and an
      array that is used after its block (a request body of up to 64 KiB), are
      part of the state: using them is a fault.

    ** What the theorems show

    - Safety: no sequence of calls of imports, with any arguments of their types
      but [INT64_MIN] as an increment, is undefined (Imports), nor one of the
      direct and WASI functions where 32-bit sums do not wrap (HostFunctions); no
      execution, delivery of a body or tick is (Execute, Vdp, Tick), under the
      conditions the theorems list, which exclude the defects below; stores are
      exclusive and given back (StorePool, Execute, Vdp), and so are connections,
      as long as no slot is given away between the two writes of its release
      (HttpPool).  The imports have their signatures, and answer with the statuses
      these list (Abi).
    - Resources: a process that uses the shared stores and destroys them frees
      every block once and none twice, whichever allocations fail, and they
      answer as the stores of SharedData and SharedQueue do (SharedLife); an
      engine gives back every block, Wasmtime object and thread, and answers as
      the engine of Engine does (EngineLife, EngineValues);
      callouts and the destruction of the pool close every socket once
      (Descriptors).
    - Security: callouts reach private addresses only for allowlisted upstreams,
      and then only addresses of the upstream their arguments name; requests on
      the wire cannot be injected into, their number is limited (HttpCall,
      HttpPool, HttpAddr, Engine).
    - Refinement: shared data is a map with compare-and-swap counters, queues are
      bounded channels, metrics a registry, breakers one machine per upstream,
      the pool an allocator, the list of engines a map (SharedData, SharedQueue,
      Metrics, Breaker, StorePool, Vmod).
    - Function: framing and delivery of HTTP responses, parsing, serialization
      and its inverse, buffers, caches, statistics, the order of the lifecycle,
      the fail mode (HttpIo, HttpCall, HttpParse, Headers, HostCalls, Mem,
      HttpPool, Metrics, Execute, Vmod).
    - Defects: some theorems show what the code does against its intention or
      documentation, among them [wrapping_pointer_faults],
      [overlong_header_faults], [increment_min_overflows], [release_race],
      [small_body_dangles], [uninitialized_trap_faults], [trapped_tick_faults],
      [refused_calls_keep_open], [zero_limit_never_refuses],
      [nul_key_never_found], [grown_memory_leaks], [allowlist_lost_on_failure],
      [priv_task_failure], [chain_trap_deleted_twice] and
      [chain_drops_local_response].  [second_pool_leaks] shows a leak.

    ** Bounds and fuel

    Recursion over a buffer has the length of the buffer as fuel, which the
    lemmas show to be enough (each round consumes a byte).  Socket input is a
    list of events.  Loops over linked lists have the size of the heap as fuel,
    at least the length of a list in it ([wp_list_fuel]).  The callbacks of an execution have the limit of callouts as
    fuel ([fits]): [execution_safe] assumes a limit that is not 0, and with it
    the fuel never runs out.  [MemLimit M] bounds the memory of a guest by [M]
    bytes, less than 4 GiB as for any 32-bit guest; [ProgramLimit M b] bounds
    by [b] what one callback adds to bodies and tokens, and the budgets of the
    theorems keep the sum below 2^32, where lengths would be truncated.

    ** Not modelled

    - The lifetime of objects outside the stores, the engine, the sockets and the
      array of a small request body; in particular that the names of a chain are
      freed while a task refers to them.
    - A guest whose allocator calls host functions: it runs inside those that
      return data, and could change the context under them ([Guest]).
    - Interruption by the epoch: a callback that exceeds its deadline is a
      callback that fails; that threads race with vwasm_engine_destroy (Varnish
      calls it when no transaction uses the VCL).
    - Messages on standard error, other than those of fd_write.
    - The guest that uses WASI functions in a Proxy-Wasm execution, whose store
      data they take for something else.
    - What wasmtime_func_call does with a trap when it is given no place for it
      (the last callbacks of the body filters). *)

From Stdlib Require Export ZArith Lia.
From stdpp Require Export base list gmap strings option.

#[global] Open Scope Z_scope.

(** ** Machine integers

    A w-bit C integer is a [Z]; the conversions below are the casts the
    source writes ([(uint32_t)x], [(int32_t)x], ...) and the wrap-around of
    unsigned arithmetic. *)

Definition u8 (x : Z) : Z := x mod 256.
Definition u16 (x : Z) : Z := x mod 65536.
Definition u32 (x : Z) : Z := x mod 4294967296.
Definition u64 (x : Z) : Z := x mod 18446744073709551616.

(** Two's complement reinterpretation of a 32-bit pattern. *)
Definition i32 (x : Z) : Z :=
  let y := u32 x in if y <? 2147483648 then y else y - 4294967296.

Definition is_u8 (x : Z) : Prop := 0 <= x < 256.
Definition is_u32 (x : Z) : Prop := 0 <= x < 4294967296.
Definition is_u64 (x : Z) : Prop := 0 <= x < 18446744073709551616.

#[export] Instance is_u8_dec x : Decision (is_u8 x).
Proof. unfold is_u8. apply _. Defined.
#[export] Instance is_u32_dec x : Decision (is_u32 x).
Proof. unfold is_u32. apply _. Defined.

(** ** Bytes

    A byte buffer is the list of its bytes; [len] is its size as a [Z], the
    type in which the source computes offsets. *)

Abbreviation bytes := (list Z).

Definition len {A} (l : list A) : Z := Z.of_nat (length l).

Definition wf_bytes (b : bytes) : Prop := Forall is_u8 b.

(** The bytes of a C string literal (without its terminator). *)
Fixpoint str (s : string) : bytes :=
  match s with
  | EmptyString => []
  | String c s => Z.of_N (Ascii.N_of_ascii c) :: str s
  end.

(** [sub b off n]: the [n] bytes at offset [off]. *)
Definition sub {A} (b : list A) (off n : Z) : list A :=
  take (Z.to_nat n) (drop (Z.to_nat off) b).

(** [upd b off v]: [b] with the bytes [v] stored from offset [off] on. *)
Definition upd {A} (b : list A) (off : Z) (v : list A) : list A :=
  take (Z.to_nat off) b ++ v ++ drop (Z.to_nat off + length v) b.

(** ** Outcomes

    C code that reads or writes outside an object, dereferences NULL or
    overflows a signed integer has no defined behaviour.  The model makes that
    a value: an operation is [Done x], or [Fault] when it did such a thing.
    Proving that an operation never faults is proving that it is memory safe. *)

Inductive outcome (A : Type) : Type :=
| Done (x : A)
| Fault.
Arguments Done {A} _.
Arguments Fault {A}.

Definition obind {A B} (c : outcome A) (k : A -> outcome B) : outcome B :=
  match c with
  | Done x => k x
  | Fault => Fault
  end.

Declare Scope c_scope.
Delimit Scope c_scope with c.
Notation "'let!' x := c 'in' k" := (obind c (fun x => k))
  (at level 10, x name, c at level 200, k at level 200) : c_scope.
Notation "'let!' ' p := c 'in' k" := (obind c (fun x => let 'p := x in k))
  (at level 10, p strict pattern, c at level 200, k at level 200) : c_scope.
#[global] Open Scope c_scope.

(** A bounded read and a bounded write of an object whose bytes are [b]. *)
Definition rd (b : bytes) (off n : Z) : outcome bytes :=
  if (0 <=? off) && (0 <=? n) && (off + n <=? len b) then Done (sub b off n) else Fault.

Definition wr (b : bytes) (off : Z) (v : bytes) : outcome bytes :=
  if (0 <=? off) && (off + len v <=? len b) then Done (upd b off v) else Fault.

(** [oracle]: the outcomes of the allocations of a call, in program order. *)
Abbreviation oracle := (nat -> bool).
Definition all_ok : oracle := fun _ => true.

(** ** Little-endian scalars ([memcpy] of a [uint32_t] or [uint64_t]) *)

Fixpoint le_bytes (n : nat) (z : Z) : bytes :=
  match n with
  | O => []
  | S n => z mod 256 :: le_bytes n (z / 256)
  end.

Fixpoint le_val (b : bytes) : Z :=
  match b with
  | [] => 0
  | x :: b => x + 256 * le_val b
  end.

(** [memcpy(&x, p, 4)] into a [uint32_t]. *)
Definition get_u32 (b : bytes) : Z := u32 (le_val b).

(** ** C strings

    A [char *] is modelled by the bytes of its buffer; the string it denotes
    ends at the first NUL or, the buffer being NUL-terminated, at the end of
    the list. *)

Fixpoint cstr (b : bytes) : bytes :=
  match b with
  | [] => []
  | x :: b => if x =? 0 then [] else x :: cstr b
  end.

Definition strlen (b : bytes) : Z := len (cstr b).

Definition nul_free (b : bytes) : Prop := Forall (fun x => x <> 0) b.

Definition bytes_eqb (a b : bytes) : bool := bool_decide (a = b).

(** [strcmp(a, b) == 0] *)
Definition strcmp_eq (a b : bytes) : bool := bytes_eqb (cstr a) (cstr b).

(** [memcmp(a, b, n) == 0] on buffers of at least [n] bytes. *)
Definition memcmp_eq (a b : bytes) (n : Z) : bool :=
  bytes_eqb (take (Z.to_nat n) a) (take (Z.to_nat n) b).

(** [strlen(stored) == key_len && memcmp(stored, key, key_len) == 0], the
    comparison of a stored NUL-terminated name with a buffer. *)
Definition buf_match (stored key : bytes) : bool :=
  (strlen stored =? len key) && memcmp_eq stored key (len key).

Definition tolower (c : Z) : Z := if (65 <=? c) && (c <=? 90) then c + 32 else c.

(** [strncasecmp(a, b, n) == 0]: a buffer reads as NUL past its end. *)
Fixpoint strncasecmp_eq (n : nat) (a b : bytes) : bool :=
  match n with
  | O => true
  | S n =>
      let x := hd 0 a in
      let y := hd 0 b in
      (tolower x =? tolower y) && ((x =? 0) || strncasecmp_eq n (tail a) (tail b))
  end.

(** [memchr(b, c, len)] as an offset. *)
Fixpoint memchr (c : Z) (b : bytes) : option Z :=
  match b with
  | [] => None
  | x :: b => if x =? c then Some 0 else option_map Z.succ (memchr c b)
  end.

Fixpoint is_prefix (p b : bytes) : bool :=
  match p, b with
  | [], _ => true
  | x :: p, y :: b => (x =? y) && is_prefix p b
  | _ :: _, [] => false
  end.

(** [strstr] with a needle, on the bytes of the C string, as an offset. *)
Fixpoint find_sub (p b : bytes) : option Z :=
  if is_prefix p b then Some 0
  else match b with
       | [] => None
       | _ :: b => option_map Z.succ (find_sub p b)
       end.

Definition strstr (b p : bytes) : option Z := find_sub p (cstr b).

(** Characters skipped as white space: space and tab. *)
Definition is_blank (c : Z) : bool := (c =? 32) || (c =? 9).

Fixpoint skip_blank (b : bytes) : bytes :=
  match b with
  | [] => []
  | x :: r => if is_blank x then skip_blank r else b
  end.

Definition trim_blank (b : bytes) : bytes :=
  reverse (skip_blank (reverse b)).

Definition crlf : bytes := [13; 10].

(** ** Decimal rendering ([%u], [%zu], [%llu]) *)

Fixpoint dec_fuel (fuel : nat) (n : Z) (acc : bytes) : bytes :=
  match fuel with
  | O => acc
  | S fuel =>
      let acc := (48 + n mod 10) :: acc in
      if n <? 10 then acc else dec_fuel fuel (n / 10) acc
  end.

(** Twenty digits are enough for every 64-bit value. *)
Definition dec (n : Z) : bytes := dec_fuel 20 n [].

Definition is_digit (c : Z) : bool := (48 <=? c) && (c <=? 57).

(** The value of a digit string. *)
Definition undec (b : bytes) : Z := foldl (fun v c => v * 10 + (c - 48)) 0 b.

(** ** Histories

    [run step s qs] serves the requests [qs] one after the other and collects
    the responses. *)

Fixpoint run {S Q R} (step : S -> Q -> S * R) (s : S) (qs : list Q) : S * list R :=
  match qs with
  | [] => (s, [])
  | q :: qs =>
      let '(s1, r) := step s q in
      let '(s2, rs) := run step s1 qs in
      (s2, r :: rs)
  end.

(** The same for steps that may fault. *)
Fixpoint run_o {S Q R} (step : S -> Q -> outcome (S * R)) (s : S) (qs : list Q)
    : outcome (S * list R) :=
  match qs with
  | [] => Done (s, [])
  | q :: qs =>
      let! '(s1, r) := step s q in
      let! '(s2, rs) := run_o step s1 qs in
      Done (s2, r :: rs)
  end.

(** ** [snprintf]

    [snprintf(buf + pos, size, ...)] of the text [t]: at most [size - 1] bytes
    and a NUL are stored; the return value is the length of [t]. *)
Definition snprintf (buf : bytes) (pos size : Z) (t : bytes) : outcome (bytes * Z) :=
  if size =? 0 then Done (buf, len t)
  else
    let! b := wr buf pos (take (Z.to_nat (size - 1)) t ++ [0]) in
    Done (b, len t).

(** * Lemmas and automation shared by the components *)

(** [vw]: facts that close the routine side conditions (lengths, ranges). *)
Create HintDb vw.
Create Rewrite HintDb vw.

(** Linear arithmetic in the presence of [/] and [mod] by constants. *)
Ltac zlia := unfold u8, u16, u32, u64, is_u8, is_u32, is_u64, len in *;
             Z.div_mod_to_equations; lia.

(** Case analysis on the tests of a definition, with the arithmetic tests
    turned into propositions. *)
Ltac btest :=
  repeat match goal with
  | H : (_ && _)%bool = true |- _ => apply andb_true_iff in H; destruct H
  | H : (_ || _)%bool = false |- _ => apply orb_false_iff in H; destruct H
  | H : (_ && _)%bool = false |- _ => apply andb_false_iff in H
  | H : (_ || _)%bool = true |- _ => apply orb_true_iff in H
  | H : negb _ = true |- _ => apply negb_true_iff in H
  | H : negb _ = false |- _ => apply negb_false_iff in H
  | H : (_ <? _) = true |- _ => apply Z.ltb_lt in H
  | H : (_ <? _) = false |- _ => apply Z.ltb_ge in H
  | H : (_ <=? _) = true |- _ => apply Z.leb_le in H
  | H : (_ <=? _) = false |- _ => apply Z.leb_gt in H
  | H : (_ =? _) = true |- _ => apply Z.eqb_eq in H
  | H : (_ =? _) = false |- _ => apply Z.eqb_neq in H
  | H : bool_decide _ = true |- _ => apply bool_decide_eq_true in H
  | H : bool_decide _ = false |- _ => apply bool_decide_eq_false in H
  end.

(** Split the outermost test of the goal, remembering the outcome. *)
Ltac split_if :=
  match goal with
  | |- context [if ?b then _ else _] => destruct b eqn:?; btest
  | H : context [if ?b then _ else _] |- _ => destruct b eqn:?; btest
  end.

(** The function at the head of an application. *)
Ltac head_of t := lazymatch t with ?f _ => head_of f | _ => t end.

(** Close a decidable closed goal by evaluation. *)
Ltac by_decide := apply (bool_decide_unpack _); vm_compute; exact I.

(** A forward simulation of single steps gives equal responses on every
    history whose requests satisfy [P], and related final states. *)
Section Simulation.
Context {S1 S2 Q R : Type} (step1 : S1 -> Q -> S1 * R) (step2 : S2 -> Q -> S2 * R).
Context (sim : S1 -> S2 -> Prop) (P : Q -> Prop).
Hypothesis step_sim : forall s1 s2 q, sim s1 s2 -> P q ->
  sim (step1 s1 q).1 (step2 s2 q).1 /\ (step1 s1 q).2 = (step2 s2 q).2.

Lemma run_sim s1 s2 qs : sim s1 s2 -> Forall P qs ->
  sim (run step1 s1 qs).1 (run step2 s2 qs).1 /\
  (run step1 s1 qs).2 = (run step2 s2 qs).2.
Proof.
  revert s1 s2. induction qs as [|q qs IH]; intros s1 s2 Hs Hq; [done|].
  inversion_clear Hq as [|?? Hp Hrest].
  destruct (step_sim s1 s2 q Hs Hp) as [Hs' Hr]. simpl.
  destruct (step1 s1 q) as [t1 r1], (step2 s2 q) as [t2 r2]. simpl in *.
  destruct (IH t1 t2 Hs' Hrest) as [Hs'' Hrs].
  destruct (run step1 t1 qs), (run step2 t2 qs). simpl in *. split; [done|congruence].
Qed.
End Simulation.

(** The same when the first machine may fault: it does not. *)
Section SimulationO.
Context {S1 S2 Q R : Type} (step1 : S1 -> Q -> outcome (S1 * R)) (step2 : S2 -> Q -> S2 * R).
Context (sim : S1 -> S2 -> Prop) (P : Q -> Prop).
Hypothesis step_sim : forall s1 s2 q, sim s1 s2 -> P q ->
  exists t1, step1 s1 q = Done (t1, (step2 s2 q).2) /\ sim t1 (step2 s2 q).1.

Lemma run_o_sim s1 s2 qs : sim s1 s2 -> Forall P qs ->
  exists t1, run_o step1 s1 qs = Done (t1, (run step2 s2 qs).2) /\
             sim t1 (run step2 s2 qs).1.
Proof.
  revert s1 s2. induction qs as [|q qs IH]; intros s1 s2 Hs Hq; [by exists s1|].
  inversion_clear Hq as [|?? Hp Hrest].
  destruct (step_sim s1 s2 q Hs Hp) as (t1 & E1 & Hs1). simpl. rewrite E1. simpl.
  destruct (step2 s2 q) as [t2 r2]. simpl in *.
  destruct (IH t1 t2 Hs1 Hrest) as (u1 & E2 & Hs2). rewrite E2. simpl.
  exists u1. by destruct (run step2 t2 qs).
Qed.
End SimulationO.

(** An invariant of single steps is an invariant of histories. *)
Lemma run_inv {S Q R} (step : S -> Q -> S * R) (I : S -> Prop) s qs :
  (forall s q, I s -> I (step s q).1) -> I s -> I (run step s qs).1.
Proof.
  intros Hstep. revert s. induction qs as [|q qs IH]; intros s Hs; [done|]. simpl.
  specialize (Hstep s q Hs). destruct (step s q) as [s1 r]. simpl in *.
  specialize (IH s1 Hstep). by destruct (run step s1 qs).
Qed.

Section Len.
Context {A : Type}.
Implicit Types l k : list A.

Lemma len_nonneg l : 0 <= len l.
Proof. unfold len. lia. Qed.

Lemma len_nil : len (@nil A) = 0.
Proof. reflexivity. Qed.

Lemma len_cons x l : len (x :: l) = len l + 1.
Proof. unfold len. simpl. lia. Qed.

Lemma len_app l k : len (l ++ k) = len l + len k.
Proof. unfold len. rewrite length_app. lia. Qed.

Lemma len_sub l off n :
  0 <= off -> 0 <= n -> off + n <= len l -> len (sub l off n) = n.
Proof. unfold len, sub. intros. rewrite length_take, length_drop. lia. Qed.

Lemma len_upd l off v :
  0 <= off -> off + len v <= len l -> len (upd l off v) = len l.
Proof.
  unfold len, upd. intros. rewrite !length_app, length_take, length_drop. lia.
Qed.

Lemma len_take l n : 0 <= n <= len l -> len (take (Z.to_nat n) l) = n.
Proof. unfold len. intros. rewrite length_take. lia. Qed.

Lemma len_0_nil l : len l = 0 -> l = [].
Proof. destruct l; [done|]. unfold len. simpl. lia. Qed.

Lemma sub_all l : sub l 0 (len l) = l.
Proof. unfold sub, len. rewrite Nat2Z.id. simpl. by rewrite firstn_all. Qed.

(** Reading back the bytes just stored. *)
Lemma sub_upd_same l off v :
  0 <= off -> off + len v <= len l -> sub (upd l off v) off (len v) = v.
Proof.
  unfold sub, upd, len. intros. rewrite Nat2Z.id.
  rewrite drop_app_length'; [by rewrite take_app_length|].
  rewrite length_take. lia.
Qed.

(** A store leaves every disjoint region as it was. *)
Lemma sub_upd_disjoint l off v o n :
  0 <= off -> off + len v <= len l -> 0 <= o -> 0 <= n ->
  o + n <= off \/ off + len v <= o ->
  sub (upd l off v) o n = sub l o n.
Proof.
  unfold sub, upd, len. intros Hoff Hlen Ho Hn Hd.
  apply list_eq. intros i.
  destruct (decide (i < Z.to_nat n)%nat).
  2:{ rewrite !lookup_take_ge by lia. done. }
  rewrite !lookup_take_lt, !lookup_drop by lia.
  destruct Hd.
  - rewrite lookup_app_l by (rewrite length_take; lia).
    by rewrite lookup_take_lt by lia.
  - rewrite lookup_app_r by (rewrite length_take; lia).
    rewrite lookup_app_r by (rewrite length_take; lia).
    rewrite lookup_drop, length_take. f_equal. lia.
Qed.
End Len.

#[export] Hint Rewrite @len_nil @len_cons @len_app : vw.
#[export] Hint Resolve len_nonneg : vw.

Lemma Forall_elem {A} (P : A -> Prop) l x : Forall P l -> x ∈ l -> P x.
Proof. rewrite list.Forall_forall. auto. Qed.

Lemma wf_bytes_app a b : wf_bytes (a ++ b) <-> wf_bytes a /\ wf_bytes b.
Proof. apply Forall_app. Qed.

Lemma wf_bytes_sub b off n : wf_bytes b -> wf_bytes (sub b off n).
Proof. intros. unfold sub. apply Forall_take, Forall_drop, H. Qed.

Lemma wf_bytes_upd b off v : wf_bytes b -> wf_bytes v -> wf_bytes (upd b off v).
Proof.
  intros. unfold upd, wf_bytes. rewrite !Forall_app.
  split_and!; [by apply Forall_take|done|by apply Forall_drop].
Qed.

#[export] Hint Resolve wf_bytes_sub wf_bytes_upd : vw.

(** ** Bounded accesses *)

Lemma rd_done b off n :
  0 <= off -> 0 <= n -> off + n <= len b -> rd b off n = Done (sub b off n).
Proof. intros. unfold rd. by rewrite !(proj2 (Z.leb_le _ _)) by lia. Qed.

Lemma wr_done b off v :
  0 <= off -> off + len v <= len b -> wr b off v = Done (upd b off v).
Proof. intros. unfold wr. by rewrite !(proj2 (Z.leb_le _ _)) by lia. Qed.

Lemma wr_len b off v b' : wr b off v = Done b' -> len b' = len b.
Proof.
  unfold wr. split_if; [|done]. intros [= <-]. apply len_upd; lia.
Qed.

Lemma wr_fault b off v :
  0 <= off -> len b < off + len v -> wr b off v = Fault.
Proof.
  intros. unfold wr. rewrite (proj2 (Z.leb_gt (off + len v) (len b))) by lia.
  by rewrite andb_false_r.
Qed.

(** ** Little-endian scalars *)

Lemma length_le_bytes n z : length (le_bytes n z) = n.
Proof. revert z. induction n; intros; simpl; [done|]. by rewrite IHn. Qed.

Lemma len_le_bytes n z : len (le_bytes n z) = Z.of_nat n.
Proof. unfold len. by rewrite length_le_bytes. Qed.

Lemma le_val_le_bytes n z :
  0 <= z < 256 ^ Z.of_nat n -> le_val (le_bytes n z) = z.
Proof.
  revert z. induction n as [|n IH]; intros z Hz; simpl.
  - simpl in Hz. lia.
  - rewrite Nat2Z.inj_succ, Z.pow_succ_r in Hz by lia.
    rewrite IH; [zlia|]. split; [zlia|].
    apply Z.div_lt_upper_bound; lia.
Qed.

Lemma le_val_u32 z : is_u32 z -> le_val (le_bytes 4 z) = z.
Proof. intros. apply le_val_le_bytes. done. Qed.

Lemma le_val_u64 z : is_u64 z -> le_val (le_bytes 8 z) = z.
Proof. intros. apply le_val_le_bytes. done. Qed.

Lemma wf_le_bytes n z : wf_bytes (le_bytes n z).
Proof. revert z. induction n; intros; constructor; [zlia|apply IHn]. Qed.

Lemma le_val_bound b : wf_bytes b -> 0 <= le_val b < 256 ^ len b.
Proof.
  induction 1 as [|x b Hx _ IH]; [done|].
  rewrite len_cons, Z.pow_add_r by (auto with vw; lia). cbn [le_val].
  unfold is_u8 in Hx. change (256 ^ 1) with 256. lia.
Qed.

#[export] Hint Rewrite len_le_bytes : vw.
#[export] Hint Resolve wf_le_bytes : vw.

(** ** C strings *)

#[export] Instance nul_free_dec b : Decision (nul_free b).
Proof. unfold nul_free. apply _. Defined.

Lemma nul_free_cstr b : nul_free (cstr b).
Proof.
  induction b as [|x b IH]; simpl; [constructor|].
  destruct (x =? 0) eqn:E; constructor; btest; done.
Qed.

Lemma cstr_nul_free b : nul_free b -> cstr b = b.
Proof.
  induction 1 as [|x b Hx _ IH]; simpl; [done|].
  rewrite (proj2 (Z.eqb_neq x 0)) by done. by rewrite IH.
Qed.

Lemma cstr_app a b : nul_free a -> cstr (a ++ b) = a ++ cstr b.
Proof.
  induction 1 as [|x a Hx _ IH]; simpl; [done|].
  rewrite (proj2 (Z.eqb_neq x 0)) by done. by rewrite IH.
Qed.

Lemma cstr_idem b : cstr (cstr b) = cstr b.
Proof. apply cstr_nul_free, nul_free_cstr. Qed.

Lemma len_cstr_le b : len (cstr b) <= len b.
Proof.
  induction b as [|x b IH]; [done|]. rewrite len_cons. simpl.
  destruct (x =? 0); [rewrite len_nil; pose proof (len_nonneg b); lia|].
  rewrite len_cons. lia.
Qed.

(** A buffer whose string is as long as the buffer has no NUL inside. *)
Lemma cstr_full b : strlen b = len b -> cstr b = b.
Proof.
  unfold strlen. induction b as [|x b IH]; [done|]. simpl.
  destruct (x =? 0) eqn:E; rewrite ?len_cons.
  - rewrite len_nil. pose proof (len_nonneg b). lia.
  - intros. f_equal. apply IH. lia.
Qed.

#[export] Hint Resolve nul_free_cstr len_cstr_le : vw.

Lemma take_strlen b : take (Z.to_nat (strlen b)) b = cstr b.
Proof.
  unfold strlen, len. rewrite Nat2Z.id.
  induction b as [|x b IH]; simpl; [done|].
  destruct (x =? 0); simpl; [done|]. by rewrite IH.
Qed.

Lemma bytes_eqb_eq a b : bytes_eqb a b = true <-> a = b.
Proof. apply bool_decide_eq_true. Qed.

Lemma bytes_eqb_refl a : bytes_eqb a a = true.
Proof. by apply bytes_eqb_eq. Qed.

Lemma bytes_eqb_neq a b : bytes_eqb a b = false <-> a <> b.
Proof. apply bool_decide_eq_false. Qed.

(** What is compared is the C string at the start of the stored buffer. *)
Lemma buf_match_iff stored key : buf_match stored key = true <-> cstr stored = key.
Proof.
  unfold buf_match, memcmp_eq. rewrite andb_true_iff, Z.eqb_eq, bytes_eqb_eq.
  assert (take (Z.to_nat (len key)) key = key) as Hk
    by (unfold len; rewrite Nat2Z.id; apply firstn_all).
  rewrite Hk. split.
  - intros [Hl Hm]. rewrite <- Hl, take_strlen in Hm. done.
  - intros <-. split; [done|]. apply take_strlen.
Qed.

Lemma buf_match_neq stored key : buf_match stored key = false <-> cstr stored <> key.
Proof. rewrite <- buf_match_iff. destruct (buf_match stored key); naive_solver. Qed.

#[global] Arguments buf_match : simpl never.
#[global] Arguments le_bytes : simpl never.
#[global] Arguments le_val : simpl never.
#[global] Arguments u32 : simpl never.
#[global] Arguments u64 : simpl never.
#[global] Arguments i32 : simpl never.
#[global] Arguments len : simpl never.
#[global] Arguments sub : simpl never.
#[global] Arguments upd : simpl never.

(** ** [snprintf] with room for the text *)
Lemma snprintf_fits buf pos size t :
  0 <= pos -> len t < size -> pos + size <= len buf ->
  snprintf buf pos size t = Done (upd buf pos (t ++ [0]), len t).
Proof.
  intros Hp Hs Hb. unfold snprintf. pose proof (len_nonneg t).
  rewrite (proj2 (Z.eqb_neq size 0)) by lia.
  rewrite take_ge by (unfold len in *; lia).
  rewrite wr_done; [done|lia|]. rewrite len_app. change (len [0]) with 1. lia.
Qed.

(** Appending at the end of what was written so far. *)
Lemma take_upd_end {A} (l : list A) n v :
  0 <= n -> n + len v <= len l ->
  take (Z.to_nat (n + len v)) (upd l n v) = take (Z.to_nat n) l ++ v.
Proof.
  intros Hn Hv. unfold upd, len in *. rewrite app_assoc.
  apply take_app_length'. rewrite length_app, length_take. lia.
Qed.

Lemma take_upd_prefix {A} (l : list A) n m v :
  0 <= n <= m -> m <= len l -> take (Z.to_nat n) (upd l m v) = take (Z.to_nat n) l.
Proof.
  intros Hn Hm. unfold upd, len in *.
  rewrite take_app_le by (rewrite length_take; lia). rewrite take_take. f_equal. lia.
Qed.

(** Decimal renderings have at least one digit and at most twenty. *)
Lemma dec_fuel_len fuel n acc :
  len acc <= len (dec_fuel fuel n acc) <= len acc + Z.of_nat fuel.
Proof.
  revert n acc. induction fuel as [|fuel IH]; intros n acc; cbn [dec_fuel]; [lia|].
  destruct (_ <? _); [rewrite len_cons; lia|].
  specialize (IH (n / 10) ((48 + n mod 10) :: acc)). rewrite len_cons in IH. lia.
Qed.

Lemma dec_len n : 0 < len (dec n) <= 20.
Proof.
  pose proof (dec_fuel_len 19 (n / 10) [48 + n mod 10]) as H.
  assert (dec n = if n <? 10 then [48 + n mod 10] else dec_fuel 19 (n / 10) [48 + n mod 10])
    as -> by reflexivity.
  change (len [48 + n mod 10]) with 1 in H. destruct (_ <? _); [done|lia].
Qed.

Lemma dec_fuel_nul_free fuel n acc : nul_free acc -> nul_free (dec_fuel fuel n acc).
Proof.
  revert n acc. induction fuel as [|fuel IH]; intros n acc Ha; cbn [dec_fuel]; [done|].
  assert (nul_free ((48 + n mod 10) :: acc)).
  { constructor; [|done]. pose proof (Z.mod_pos_bound n 10). lia. }
  split_if; [done|by apply IH].
Qed.

Lemma dec_nul_free n : nul_free (dec n).
Proof. apply dec_fuel_nul_free. constructor. Qed.
#[global] Arguments dec : simpl never.

Lemma is_u32_u32 x : is_u32 (u32 x).
Proof. zlia. Qed.
#[export] Hint Resolve is_u32_u32 : vw.

(** ** Buffers that are filled or read front to back *)

Lemma sub_app {A} (a x b : list A) : sub (a ++ x ++ b) (len a) (len x) = x.
Proof.
  unfold sub, len. rewrite !Nat2Z.id, drop_app_length. apply take_app_length.
Qed.

Lemma rd_app a x b : rd (a ++ x ++ b) (len a) (len x) = Done x.
Proof.
  rewrite rd_done; [by rewrite sub_app|auto with vw..|].
  rewrite !len_app. pose proof (len_nonneg b). lia.
Qed.

Lemma u32_small x : is_u32 x -> u32 x = x.
Proof. zlia. Qed.

Lemma i32_small x : 0 <= x < 2147483648 -> i32 x = x.
Proof.
  intros. unfold i32. rewrite u32_small by (unfold is_u32; lia).
  by rewrite (proj2 (Z.ltb_lt _ _)) by lia.
Qed.

(** [filled buf acc]: the buffer begins with [acc]. *)
Definition filled (buf acc : bytes) : Prop := take (length acc) buf = acc.

Lemma wr_append buf acc v :
  filled buf acc -> len acc + len v <= len buf ->
  exists buf', wr buf (len acc) v = Done buf' /\ filled buf' (acc ++ v) /\ len buf' = len buf.
Proof.
  intros Hf Hl. pose proof (len_nonneg acc). rewrite wr_done by lia. eexists. split; [done|].
  split; [|by apply len_upd]. unfold filled in *.
  pose proof (take_upd_end buf (len acc) v ltac:(lia) Hl) as Ht.
  unfold len in Ht at 4. rewrite Nat2Z.id, Hf in Ht. rewrite <- Ht at 2. f_equal.
  rewrite length_app. unfold len. lia.
Qed.

Lemma filled_all buf acc : filled buf acc -> len acc <= len buf -> rd buf 0 (len acc) = Done acc.
Proof.
  intros Hf Hl. rewrite rd_done by (auto with vw; lia). unfold sub. rewrite drop_0.
  unfold len. rewrite Nat2Z.id. by rewrite Hf.
Qed.

Lemma get_u32_range b : is_u32 (get_u32 b).
Proof. apply is_u32_u32. Qed.

Lemma get_u32_le_bytes z : is_u32 z -> get_u32 (le_bytes 4 z) = z.
Proof. intros Hz. unfold get_u32. rewrite le_val_u32 by done. unfold is_u32 in Hz. zlia. Qed.
