(* ===== verification/Mem.v ===== *)
(** * Wasm linear memory helpers (src/proxy_wasm_mem.h)

    The helpers every Proxy-Wasm host function uses to reach the guest's
    linear memory: bounds checks, string reads, scalar writes, and returning a
    buffer allocated by the guest.  Wasmtime and the guest module are
    parameters: [wasmtime_memory_data] and [wasmtime_memory_data_size] are the
    bytes held in [memory], and calling the guest's allocator export is
    [guest_malloc], which may change (and grow) the memory, return a pointer,
    or fail with an error or a trap. *)

From S2P Require Import Prelude.

(** The guest module as its host sees it. *)
Class Guest : Type := {
  (** [wasmtime_func_call] on the allocator export with an [i32] size:
      the memory afterwards, and the [i32] result unless it failed.  The
      allocator is assumed to call no host function: the context and the
      stores are as before. *)
  guest_malloc : option bytes -> Z -> option bytes * option Z
}.

(** The fields of [struct vwasm_proxy_ctx] the helpers use. *)
Record wctx := WCtx {
  memory_valid : bool;
  wasm_ctx : bool;              (** [wasm_ctx != NULL] *)
  memory : option bytes;        (** [None]: [wasmtime_memory_data] is NULL *)
  allocator_valid : bool
}.

Definition set_memory (c : wctx) (m : option bytes) : wctx :=
  WCtx (memory_valid c) (wasm_ctx c) m (allocator_valid c).

(** ** The helpers *)

Definition pw_mem_base (c : wctx) : option bytes :=
  if negb (memory_valid c) || negb (wasm_ctx c) then None else memory c.

Definition pw_validate_region (c : wctx) (offset n : Z) : bool :=
  match pw_mem_base c with
  | None => false
  | Some b => if len b <? u64 (offset + n) then false else true
  end.

(** A pointer into linear memory is its offset from the base. *)
Definition pw_mem_ptr (c : wctx) (offset : Z) : option Z :=
  match pw_mem_base c with
  | None => None
  | Some _ => Some offset
  end.

(** [memcpy] from and to a pointer [pw_mem_ptr] returned. *)
Definition mem_read (c : wctx) (ptr : option Z) (n : Z) : outcome bytes :=
  match ptr, pw_mem_base c with
  | Some off, Some b => rd b off n
  | _, _ => Fault
  end.

Definition mem_write (c : wctx) (ptr : option Z) (v : bytes) : outcome wctx :=
  match ptr, pw_mem_base c with
  | Some off, Some b =>
      let! b' := wr b off v in
      Done (set_memory c (Some b'))
  | _, _ => Fault
  end.

(** [Some s]: returns 0 with [s] in [buf]; [None]: returns -1. *)
Definition pw_read_string (c : wctx) (ptr n bufsz : Z) : outcome (option bytes) :=
  if n =? 0 then Done (Some [])
  else if bufsz <=? n then Done None
  else if negb (pw_validate_region c ptr n) then Done None
  else
    match pw_mem_ptr c ptr with
    | None => Done None
    | Some src =>
        let! s := mem_read c (Some src) n in
        Done (Some s)
    end.

Definition pw_alloc_wasm `{Guest} (c : wctx) (size : Z) : wctx * option Z :=
  if negb (allocator_valid c) then (c, None)
  else
    let '(m, r) := guest_malloc (memory c) (i32 size) in
    (set_memory c m, match r with Some v => Some (u32 v) | None => None end).

(** Returns the context and 0, or -1. *)
Definition pw_write_u32 (c : wctx) (offset value : Z) : outcome (wctx * Z) :=
  if negb (pw_validate_region c offset 4) then Done (c, -1)
  else
    match pw_mem_ptr c offset with
    | None => Done (c, -1)
    | Some dst =>
        let! c' := mem_write c (Some dst) (le_bytes 4 value) in
        Done (c', 0)
    end.

(** Two [pw_write_u32] in a row, the second only after the first succeeded. *)
Definition write_pair (c : wctx) (off1 v1 off2 v2 : Z) : outcome (wctx * Z) :=
  let! '(c1, r1) := pw_write_u32 c off1 v1 in
  if negb (r1 =? 0) then Done (c1, -1)
  else
    let! '(c2, r2) := pw_write_u32 c1 off2 v2 in
    if negb (r2 =? 0) then Done (c2, -1) else Done (c2, 0).

(** [data = None] is a NULL [data]; its length is the [len] argument. *)
Definition pw_return_bytes `{Guest} (c : wctx) (data : option bytes)
    (ret_data_offset ret_size_offset : Z) : outcome (wctx * Z) :=
  match data with
  | None | Some [] => write_pair c ret_data_offset 0 ret_size_offset 0
  | Some d =>
      let '(c1, p) := pw_alloc_wasm c (u32 (len d)) in
      match p with
      | None => Done (c1, -1)
      | Some wasm_ptr =>
          if negb (pw_validate_region c1 wasm_ptr (u32 (len d))) then Done (c1, -1)
          else
            let! c2 := mem_write c1 (pw_mem_ptr c1 wasm_ptr) d in
            write_pair c2 ret_data_offset wasm_ptr ret_size_offset (u32 (len d))
      end
  end.

Definition pw_return_string `{Guest} (c : wctx) (s : option bytes)
    (ret_data_offset ret_size_offset : Z) : outcome (wctx * Z) :=
  pw_return_bytes c s ret_data_offset ret_size_offset.

#[global] Arguments mem_read : simpl never.
#[global] Arguments mem_write : simpl never.
#[global] Arguments pw_mem_ptr : simpl never.

(** * Properties *)

(** The bytes a context can reach. *)
Definition mem_bytes (c : wctx) : bytes :=
  match pw_mem_base c with Some b => b | None => [] end.

(** [region c off n]: [off, off+n) lies inside linear memory. *)
Definition region (c : wctx) (off n : Z) : Prop :=
  exists b, pw_mem_base c = Some b /\ 0 <= off /\ 0 <= n /\ off + n <= len b.

#[export] Instance region_dec c off n : Decision (region c off n).
Proof.
  unfold region. destruct (pw_mem_base c) as [b|].
  - destruct (decide (0 <= off /\ 0 <= n /\ off + n <= len b)); [left|right]; naive_solver.
  - right. naive_solver.
Defined.

Lemma set_memory_base c b b' :
  pw_mem_base c = Some b -> pw_mem_base (set_memory c (Some b')) = Some b'.
Proof. unfold pw_mem_base, set_memory. simpl. by destruct (_ || _). Qed.

Lemma set_memory_valid c m :
  memory_valid (set_memory c m) = memory_valid c /\
  wasm_ctx (set_memory c m) = wasm_ctx c /\
  allocator_valid (set_memory c m) = allocator_valid c.
Proof. done. Qed.

(** The bounds check accepts exactly the regions inside memory: the 64-bit sum
    of two 32-bit operands cannot wrap. *)
Lemma validate_region_iff c off n :
  is_u32 off -> is_u32 n -> pw_validate_region c off n = true <-> region c off n.
Proof.
  unfold pw_validate_region, region. intros Ho Hn.
  destruct (pw_mem_base c) as [b|]; [|by split; [|intros (? & ? & _)]].
  destruct (len b <? u64 (off + n)) eqn:E; btest.
  - split; [done|]. intros (? & [= <-] & ?). zlia.
  - split; [|done]. intros _. exists b. split_and!; [done|zlia..].
Qed.

Lemma validate_region_reject c off n :
  is_u32 off -> is_u32 n -> pw_validate_region c off n = false <-> ~ region c off n.
Proof.
  intros Ho Hn. rewrite <- (validate_region_iff c off n Ho Hn).
  destruct (pw_validate_region c off n); naive_solver.
Qed.

Lemma region_mem_ptr c off n : region c off n -> pw_mem_ptr c off = Some off.
Proof. intros (b & Hb & _). unfold pw_mem_ptr. by rewrite Hb. Qed.

Lemma mem_read_region c off n :
  region c off n -> mem_read c (Some off) n = Done (sub (mem_bytes c) off n).
Proof.
  intros (b & Hb & ? & ? & ?). unfold mem_read, mem_bytes. rewrite Hb.
  by apply rd_done.
Qed.

Lemma mem_write_region c off v :
  region c off (len v) ->
  mem_write c (Some off) v = Done (set_memory c (Some (upd (mem_bytes c) off v))).
Proof.
  intros (b & Hb & ? & ? & ?). unfold mem_write, mem_bytes. rewrite Hb.
  by rewrite wr_done.
Qed.

Lemma mem_bytes_set c off v n :
  region c off n -> mem_bytes (set_memory c (Some v)) = v.
Proof.
  intros (b & Hb & _). unfold mem_bytes. by erewrite set_memory_base.
Qed.

(** Regions survive a store: its length does not change. *)
Lemma region_store c off v o n :
  region c off (len v) -> region c o n ->
  region (set_memory c (Some (upd (mem_bytes c) off v))) o n.
Proof.
  intros (b & Hb & ? & ? & ?) (b' & Hb' & ? & ? & ?).
  rewrite Hb in Hb'. injection Hb' as <-. unfold mem_bytes. rewrite Hb.
  exists (upd b off v). split; [by erewrite set_memory_base|].
  rewrite len_upd by lia. lia.
Qed.

(** [pw_read_string] on every branch: it never faults, and it returns the
    bytes exactly when the length fits the buffer and the region is in
    bounds. *)
Lemma read_string_spec c ptr n bufsz :
  is_u32 ptr -> is_u32 n -> 0 < bufsz ->
  pw_read_string c ptr n bufsz =
    Done (if decide (n = 0) then Some []
          else if decide (n < bufsz /\ region c ptr n)
          then Some (sub (mem_bytes c) ptr n) else None).
Proof.
  intros Hp Hn Hb. unfold pw_read_string.
  destruct (n =? 0) eqn:E0; btest; [by rewrite decide_True by done|].
  rewrite decide_False by done.
  destruct (bufsz <=? n) eqn:E1; btest.
  { rewrite decide_False; [done|lia]. }
  destruct (pw_validate_region c ptr n) eqn:E2; simpl.
  - apply validate_region_iff in E2; [|done..].
    rewrite (region_mem_ptr _ _ _ E2). cbn iota. rewrite mem_read_region by done. cbn [obind].
    by rewrite decide_True by (split; [lia|done]).
  - apply validate_region_reject in E2; [|done..].
    rewrite decide_False; [done|naive_solver].
Qed.

(** What the callers use: a string that was read is shorter than its buffer. *)
Lemma read_string_len c ptr n bufsz s :
  is_u32 ptr -> is_u32 n -> 0 < bufsz ->
  pw_read_string c ptr n bufsz = Done (Some s) -> len s = n /\ n < bufsz.
Proof.
  intros Hp Hn Hb. rewrite read_string_spec by done.
  repeat case_decide; intros [= <-]; simplify_eq; [by split|].
  destruct H0 as [? (b & Hbase & ? & ? & ?)]. split; [|done].
  apply len_sub; unfold mem_bytes; try rewrite Hbase; lia.
Qed.

Lemma write_u32_spec c off v :
  is_u32 off ->
  pw_write_u32 c off v =
    Done (if decide (region c off 4)
          then (set_memory c (Some (upd (mem_bytes c) off (le_bytes 4 v))), 0)
          else (c, -1)).
Proof.
  intros Ho. unfold pw_write_u32.
  destruct (pw_validate_region c off 4) eqn:E; simpl.
  - apply validate_region_iff in E; [|done..].
    rewrite (region_mem_ptr _ _ _ E). cbn iota.
    rewrite mem_write_region by by rewrite len_le_bytes. cbn [obind].
    by rewrite decide_True by done.
  - apply validate_region_reject in E; [|done..]. by rewrite decide_False by done.
Qed.

(** Neither the store of a scalar nor a returned buffer can fault, whatever
    the guest's allocator does, for data of less than 4 GiB. *)
Lemma write_u32_no_fault c off v : is_u32 off -> pw_write_u32 c off v <> Fault.
Proof. intros. by rewrite write_u32_spec. Qed.

Lemma write_pair_no_fault c o1 v1 o2 v2 :
  is_u32 o1 -> is_u32 o2 -> write_pair c o1 v1 o2 v2 <> Fault.
Proof.
  intros H1 H2. unfold write_pair. rewrite write_u32_spec by done. cbn [obind].
  case_decide; simpl; [|done].
  rewrite write_u32_spec by done. simpl. by case_decide.
Qed.

(** The little-endian word a guest reads at an offset. *)
Definition word_at (c : wctx) (off : Z) : Z := le_val (sub (mem_bytes c) off 4).

Lemma write_u32_word c off v c' :
  is_u32 off -> is_u32 v -> pw_write_u32 c off v = Done (c', 0) -> word_at c' off = v.
Proof.
  intros Ho Hv. rewrite write_u32_spec by done. case_decide as R; intros [= <-].
  unfold word_at. rewrite (mem_bytes_set c off _ 4 R). destruct R as (b & Hb & ? & ? & ?).
  unfold mem_bytes. rewrite Hb. replace 4 with (len (le_bytes 4 v)) by apply len_le_bytes.
  rewrite sub_upd_same; [by apply le_val_u32|lia|rewrite len_le_bytes; lia].
Qed.

(** The second word is stored last, so it is read back wherever the two are. *)
Lemma write_pair_word c o1 v1 o2 v2 c' :
  is_u32 o1 -> is_u32 o2 -> is_u32 v2 -> write_pair c o1 v1 o2 v2 = Done (c', 0) -> word_at c' o2 = v2.
Proof.
  intros H1 H2 Hv. unfold write_pair. rewrite write_u32_spec by done. cbn [obind].
  case_decide; cbn [negb Z.eqb]; [|done].
  destruct (pw_write_u32 _ o2 v2) as [[c2 r2]|] eqn:E; [|done]. cbn [obind].
  destruct (r2 =? 0) eqn:Er; [|done]. apply Z.eqb_eq in Er as ->. intros [= <-].
  by eapply write_u32_word.
Qed.

Section Return.
Context `{G : Guest}.

Lemma return_bytes_word c data o1 o2 c' :
  is_u32 o1 -> is_u32 o2 -> len (default [] data) < 4294967296 ->
  pw_return_bytes c data o1 o2 = Done (c', 0) -> word_at c' o2 = len (default [] data).
Proof.
  intros H1 H2 Hd. unfold pw_return_bytes.
  destruct data as [[|x d]|]; [by apply write_pair_word| |by apply write_pair_word].
  simpl in Hd |- *. set (dd := x :: d) in *. pose proof (len_nonneg dd).
  assert (u32 (len dd) = len dd) as -> by zlia.
  destruct (pw_alloc_wasm c (len dd)) as [c1 [p|]]; [|done]. split_if; [done|].
  destruct (mem_write _ _ _) as [c2|]; [|done]. cbn [obind]. apply write_pair_word; [done|done|zlia].
Qed.

Lemma return_bytes_no_fault c data o1 o2 :
  is_u32 o1 -> is_u32 o2 -> len (default [] data) < 4294967296 ->
  pw_return_bytes c data o1 o2 <> Fault.
Proof.
  intros H1 H2 Hd. unfold pw_return_bytes.
  destruct data as [[|x d]|]; [by apply write_pair_no_fault| |by apply write_pair_no_fault].
  set (dd := x :: d) in *. simpl in Hd.
  unfold pw_alloc_wasm. destruct (allocator_valid c); simpl; [|done].
  destruct (guest_malloc (memory c) _) as [m [p|]]; [|done].
  destruct (pw_validate_region _ _ _) eqn:E; simpl; [|done].
  assert (u32 (len dd) = len dd) as Hl by (pose proof (len_nonneg dd); zlia).
  rewrite Hl in *.
  apply validate_region_iff in E; [|zlia..].
  rewrite (region_mem_ptr _ _ _ E), mem_write_region by done. cbn [obind].
  by apply write_pair_no_fault.
Qed.

(** The buffer a guest reads by following the pointer and the size that were
    stored at [o1] and [o2]. *)
Definition guest_view (c : wctx) (o1 o2 : Z) : bytes :=
  let m := mem_bytes c in
  sub m (le_val (sub m o1 4)) (le_val (sub m o2 4)).

Definition apart (a n b m : Z) : Prop := a + n <= b \/ b + m <= a.

(** Two scalar stores at separate places: both are read back, and every
    region apart from them is unchanged. *)
Lemma write_pair_ok c o1 v1 o2 v2 c' :
  is_u32 o1 -> is_u32 o2 -> apart o1 4 o2 4 -> is_u32 v1 -> is_u32 v2 ->
  write_pair c o1 v1 o2 v2 = Done (c', 0) ->
  le_val (sub (mem_bytes c') o1 4) = v1 /\
  le_val (sub (mem_bytes c') o2 4) = v2 /\
  (forall o n, region c o n -> apart o n o1 4 -> apart o n o2 4 ->
               sub (mem_bytes c') o n = sub (mem_bytes c) o n).
Proof.
  intros H1 H2 Hap Hv1 Hv2. unfold write_pair.
  rewrite write_u32_spec by done. cbn [obind]. case_decide as R1; simpl; [|done].
  rewrite write_u32_spec by done. cbn [obind]. case_decide as R2; simpl; [|done].
  intros [= <-].
  set (c1 := set_memory c _) in *.
  assert (mem_bytes c1 = upd (mem_bytes c) o1 (le_bytes 4 v1)) as E1
    by (by eapply mem_bytes_set).
  rewrite (mem_bytes_set c1 o2 _ 4 R2), E1.
  destruct R1 as (b & Hb & ? & ? & Hb1). destruct R2 as (b2 & Hb2 & ? & ? & Hb2').
  assert (len (mem_bytes c) = len b) as Hm by (unfold mem_bytes; by rewrite Hb).
  assert (len b2 = len b) as Hm2.
  { pose proof (set_memory_base _ _ (upd (mem_bytes c) o1 (le_bytes 4 v1)) Hb) as Hs.
    fold c1 in Hs. rewrite Hb2 in Hs. injection Hs as ->.
    rewrite len_upd; rewrite ?len_le_bytes; lia. }
  assert (len (upd (mem_bytes c) o1 (le_bytes 4 v1)) = len b) as Hm3
    by (rewrite len_upd; rewrite ?len_le_bytes; lia).
  assert (forall v off w, is_u32 w -> 0 <= off -> off + 4 <= len v ->
            le_val (sub (upd v off (le_bytes 4 w)) off 4) = w) as Hsame.
  { intros v off w Hw ??. replace 4 with (len (le_bytes 4 w)) by apply len_le_bytes.
    rewrite sub_upd_same; [by apply le_val_u32|lia|rewrite len_le_bytes; lia]. }
  unfold apart in *. split_and!.
  - rewrite sub_upd_disjoint; rewrite ?len_le_bytes; [apply Hsame|..]; auto; lia.
  - apply Hsame; auto; lia.
  - intros o n (b' & Hb' & ? & ? & ?) ??. rewrite Hb in Hb'. simplify_eq.
    rewrite !sub_upd_disjoint; rewrite ?len_le_bytes; auto; lia.
Qed.

Lemma return_bytes_view c d o1 o2 c' :
  is_u32 o1 -> is_u32 o2 -> apart o1 4 o2 4 -> len d < 4294967296 ->
  (forall p, (pw_alloc_wasm c (len d)).2 = Some p ->
             apart p (len d) o1 4 /\ apart p (len d) o2 4) ->
  pw_return_bytes c (Some d) o1 o2 = Done (c', 0) -> guest_view c' o1 o2 = d.
Proof.
  intros H1 H2 Hap Hd Hal. unfold pw_return_bytes.
  destruct d as [|x d].
  { intros Hw. apply write_pair_ok in Hw as (_ & Es & _); [|done..].
    unfold guest_view. rewrite Es. done. }
  set (dd := x :: d) in *.
  assert (u32 (len dd) = len dd) as Hl by (pose proof (len_nonneg dd); zlia).
  rewrite Hl. pose proof (len_nonneg dd) as Hnn.
  assert (forall p, (pw_alloc_wasm c (len dd)).2 = Some p -> is_u32 p) as Hp32.
  { intros p. unfold pw_alloc_wasm. destruct (allocator_valid c); simpl; [|done].
    destruct (guest_malloc _ _) as [m [v|]]; [|done]. intros [= <-]. zlia. }
  destruct (pw_alloc_wasm c (len dd)) as [c1 [p|]]; [|done].
  destruct (Hal p eq_refl) as [Ha1 Ha2]. specialize (Hp32 p eq_refl).
  destruct (pw_validate_region c1 p (len dd)) eqn:E; simpl; [|done].
  apply validate_region_iff in E; [|done|zlia].
  rewrite (region_mem_ptr _ _ _ E), mem_write_region by done. cbn [obind]. intros Hw.
  apply write_pair_ok in Hw as (Ep & Es & Hf); [|done..|zlia].
  unfold guest_view. rewrite Ep, Es.
  rewrite Hf; [|by apply region_store|done..].
  rewrite (mem_bytes_set c1 p _ (len dd)) by done.
  destruct E as (b & Hb & ? & ? & ?). unfold mem_bytes. rewrite Hb.
  by apply sub_upd_same.
Qed.
End Return.

(** ** Claims *)

Section Claims.
Context `{G : Guest}.

(** C22 A host function that returns a buffer delivers it to the guest: when
    [pw_return_bytes] reports success, following the pointer and the size it
    stored yields exactly the bytes of the host, whatever the allocator of
    the guest did to the memory, provided the block it returned and the two
    result slots do not overlap. *)
Theorem return_bytes_delivers c d o1 o2 c' :
  is_u32 o1 -> is_u32 o2 -> apart o1 4 o2 4 -> len d < 4294967296 ->
  (forall p, (pw_alloc_wasm c (len d)).2 = Some p ->
             apart p (len d) o1 4 /\ apart p (len d) o2 4) ->
  pw_return_bytes c (Some d) o1 o2 = Done (c', 0) -> guest_view c' o1 o2 = d.
Proof. apply return_bytes_view. Qed.
End Claims.

(** A guest whose allocator grows an 80-byte memory and returns offset 64. *)
Definition bump_guest : Guest := {|
  guest_malloc := fun m n =>
    (match m with Some b => Some (b ++ replicate 16 0) | None => None end, Some 64)
|}.

Definition small_ctx : wctx := WCtx true true (Some (replicate 80 0)) true.

Lemma return_bytes_delivers_witness :
  exists c', pw_return_bytes (H := bump_guest) small_ctx (Some (str "hello")) 0 4 = Done (c', 0)
             /\ guest_view c' 0 4 = str "hello".
Proof.
  eexists. split; [vm_compute; reflexivity|].
  apply (return_bytes_delivers (G := bump_guest) small_ctx); try (vm_compute; done).
  - left. lia.
  - intros p. vm_compute. intros [= <-]. split; right; done.
Defined.
