(* ===== verification/SharedData.v ===== *)
(** * Shared data: the process-wide key-value store (src/proxy_wasm_shared.c)

    A hash table of 64 chained buckets under a reader-writer lock, with a
    compare-and-swap counter per key.  The lock makes every operation atomic,
    so an operation is a function on the table.  A key is the buffer the caller
    passes ([key_len] bytes, NULs allowed); what the table compares is the C
    string at its start. *)

From S2P Require Import Prelude.

(** ** Data *)

Definition VWASM_SHARED_DATA_BUCKETS : Z := 64.
Definition VWASM_SHARED_DATA_MAX_KEY : Z := 256.
Definition VWASM_SHARED_DATA_MAX_VALUE : Z := 65536.

(** [struct vwasm_shared_entry]; [e_key] is the [key_len] bytes before the NUL
    the code appends, [e_value = None] a NULL value pointer. *)
Record entry := Entry {
  e_key : bytes;
  e_value : option bytes;
  e_value_len : Z;
  e_cas : Z
}.

(** [struct vwasm_shared_data]: the bucket chains, each from its head. *)
Record shared_data := SharedData { buckets : list (list entry) }.

#[export] Instance entry_eq_dec : EqDecision entry.
Proof. solve_decision. Defined.

(** ** FNV-1a *)

Definition fnv1a_step (hash c : Z) : Z := u32 (Z.lxor hash (u8 c) * 16777619).

Definition fnv1a (key : bytes) : Z := foldl fnv1a_step 2166136261 key.

Definition bucket_of (key : bytes) : nat :=
  Z.to_nat (fnv1a key mod VWASM_SHARED_DATA_BUCKETS).

(** ** Operations *)

Definition vwasm_shared_data_new (ok : oracle) (lock_ok : bool) : option shared_data :=
  if negb (ok 0%nat) then None
  else if negb lock_ok then None
  else Some (SharedData (replicate 64 [])).

(** The test of both loops: [strlen(entry->key) == key_len &&
    memcmp(entry->key, key, key_len) == 0]. *)
Definition key_match (e : entry) (key : bytes) : bool := buf_match (e_key e) key.

Fixpoint chain_find (chain : list entry) (key : bytes) : option entry :=
  match chain with
  | [] => None
  | e :: chain => if key_match e key then Some e else chain_find chain key
  end.

Definition bucket_at (sd : shared_data) (b : nat) : list entry :=
  default [] (buckets sd !! b).

(** [Some (value_out, value_len_out, cas_out)]: returns 0; [None]: returns -1. *)
Definition vwasm_shared_data_get (ok : oracle) (sd : option shared_data)
    (key : option bytes) : option (option bytes * Z * Z) :=
  match sd, key with
  | None, _ | _, None | _, Some [] => None
  | Some sd, Some key =>
      match chain_find (bucket_at sd (bucket_of key)) key with
      | None => None
      | Some e =>
          match e_value e with
          | Some v =>
              if 0 <? e_value_len e then
                if negb (ok 0%nat) then None
                else Some (Some (take (Z.to_nat (e_value_len e)) v), e_value_len e, e_cas e)
              else Some (None, 0, e_cas e)
          | None => Some (None, 0, e_cas e)
          end
      end
  end.

(** The update loop: [None] when no entry matches, otherwise the chain
    afterwards and the return code. *)
Fixpoint chain_update (chain : list entry) (key : bytes) (new_val : option bytes)
    (value_len cas : Z) : option (list entry * Z) :=
  match chain with
  | [] => None
  | e :: chain =>
      if key_match e key then
        if negb (cas =? 0) && negb (e_cas e =? cas) then Some (e :: chain, -1)
        else Some (Entry (e_key e) new_val value_len (u32 (e_cas e + 1)) :: chain, 0)
      else
        match chain_update chain key new_val value_len cas with
        | None => None
        | Some (chain', r) => Some (e :: chain', r)
        end
  end.

(** Allocations, in order: the copy of the value (only when there is one), the
    new entry, its key. *)
Definition vwasm_shared_data_set (ok : oracle) (sd : option shared_data)
    (key : option bytes) (value : option bytes) (value_len cas : Z)
    : option shared_data * Z :=
  match sd, key with
  | None, _ | _, None | _, Some [] => (sd, -2)
  | Some s, Some key =>
      if VWASM_SHARED_DATA_MAX_KEY <? len key then (sd, -2)
      else if VWASM_SHARED_DATA_MAX_VALUE <? value_len then (sd, -2)
      else
        let copied := match value with Some _ => 0 <? value_len | None => false end in
        let new_val :=
          if copied then
            match value with Some v => Some (take (Z.to_nat value_len) v) | None => None end
          else None in
        if copied && negb (ok 0%nat) then (sd, -2)
        else
          let b := bucket_of key in
          match chain_update (bucket_at s b) key new_val value_len cas with
          | Some (chain', r) => (Some (SharedData (<[b := chain']> (buckets s))), r)
          | None =>
              if negb (ok 1%nat) then (sd, -2)
              else if negb (ok 2%nat) then (sd, -2)
              else
                (Some (SharedData
                   (<[b := Entry key new_val value_len 1 :: bucket_at s b]> (buckets s))), 0)
          end
  end.

#[global] Arguments vwasm_shared_data_set : simpl never.
#[global] Arguments vwasm_shared_data_get : simpl never.

(** ** Specification: a finite map of values with their counters *)

Abbreviation cas_map := (gmap (list Z) (list Z * Z)).

Definition spec_set (m : cas_map) (key value : bytes) (cas : Z) : cas_map * Z :=
  if (len key =? 0) || (VWASM_SHARED_DATA_MAX_KEY <? len key) ||
     (VWASM_SHARED_DATA_MAX_VALUE <? len value)
  then (m, -2)
  else
    match m !! key with
    | None => (<[key := (value, 1)]> m, 0)
    | Some (_, c) =>
        if negb (cas =? 0) && negb (c =? cas) then (m, -1)
        else (<[key := (value, u32 (c + 1))]> m, 0)
    end.

(** Requests of one or several contexts, in the order the lock serialises them. *)
Inductive request :=
| Get (key : bytes)
| Set_ (key value : bytes) (cas : Z).

Inductive response :=
| Value (v : option (bytes * Z))
| Code (r : Z).

Definition impl_step (sd : option shared_data) (q : request) : option shared_data * response :=
  match q with
  | Get k =>
      (sd, Value (match vwasm_shared_data_get all_ok sd (Some k) with
                  | Some (v, _, c) => Some (default [] v, c)
                  | None => None
                  end))
  | Set_ k v cas =>
      let '(sd', r) := vwasm_shared_data_set all_ok sd (Some k) (Some v) (len v) cas in
      (sd', Code r)
  end.

Definition spec_step (m : cas_map) (q : request) : cas_map * response :=
  match q with
  | Get k => (m, Value (m !! k))
  | Set_ k v cas => let '(m', r) := spec_set m k v cas in (m', Code r)
  end.

Definition req_key (q : request) : bytes :=
  match q with Get k => k | Set_ k _ _ => k end.

(** * Properties *)

Lemma bucket_of_lt key : (bucket_of key < 64)%nat.
Proof.
  unfold bucket_of, VWASM_SHARED_DATA_BUCKETS.
  pose proof (Z.mod_pos_bound (fnv1a key) 64). lia.
Qed.

Lemma key_match_iff e key : key_match e key = true <-> cstr (e_key e) = key.
Proof. apply buf_match_iff. Qed.

Lemma key_match_neq e key : key_match e key = false <-> cstr (e_key e) <> key.
Proof. apply buf_match_neq. Qed.

(** The invariants: [wf_entry] bounds every entry, whatever the requests were;
    [canonical] holds as long as no key contains a NUL. *)
Definition wf_entry (e : entry) : Prop :=
  0 < len (e_key e) <= VWASM_SHARED_DATA_MAX_KEY /\
  e_value_len e <= VWASM_SHARED_DATA_MAX_VALUE /\ is_u32 (e_cas e) /\
  match e_value e with
  | Some v => len v = e_value_len e /\ 0 < e_value_len e
  | None => e_value_len e = 0
  end.

Definition wf_store (sd : shared_data) : Prop :=
  length (buckets sd) = 64%nat /\ forall b, Forall wf_entry (bucket_at sd b).

Definition canonical (sd : shared_data) : Prop :=
  forall b, Forall (fun e => nul_free (e_key e)) (bucket_at sd b).

Lemma bucket_at_insert sd b c b' :
  (b < length (buckets sd))%nat ->
  bucket_at (SharedData (<[b := c]> (buckets sd))) b' =
    if decide (b = b') then c else bucket_at sd b'.
Proof.
  intros. unfold bucket_at. simpl. case_decide; subst.
  - by rewrite list_lookup_insert_eq.
  - by rewrite list_lookup_insert_ne.
Qed.

(** The update loop finds the entry the lookup finds, and changes only it. *)
Lemma chain_update_spec chain key nv vl cas :
  match chain_find chain key with
  | None => chain_update chain key nv vl cas = None
  | Some e =>
      if negb (cas =? 0) && negb (e_cas e =? cas)
      then chain_update chain key nv vl cas = Some (chain, -1)
      else exists chain', chain_update chain key nv vl cas = Some (chain', 0) /\
             e_key <$> chain' = e_key <$> chain /\
             forall k, chain_find chain' k =
               if decide (k = key) then Some (Entry (e_key e) nv vl (u32 (e_cas e + 1)))
               else chain_find chain k
  end.
Proof.
  induction chain as [|e chain IH]; [done|]. cbn [chain_find chain_update].
  destruct (key_match e key) eqn:E.
  - destruct (negb (cas =? 0) && _); [done|]. eexists. split_and!; [done|done|].
    apply key_match_iff in E. intros k. cbn [chain_find]. case_decide; subst.
    + by rewrite (proj2 (key_match_iff _ _)).
    + rewrite !(proj2 (key_match_neq _ _)) by done. done.
  - destruct (chain_find chain key) as [e'|].
    + destruct (negb (cas =? 0) && _); [by rewrite IH|].
      destruct IH as (chain' & -> & Hk & Hf). eexists. split_and!; [done|by f_equal/=|].
      intros k. cbn [chain_find]. rewrite Hf.
      case_decide; subst; [by rewrite E|done].
    + by rewrite IH.
Qed.

Lemma chain_update_forall (P : entry -> Prop) chain key nv vl cas chain' r :
  Forall P chain ->
  (forall e, P e -> P (Entry (e_key e) nv vl (u32 (e_cas e + 1)))) ->
  chain_update chain key nv vl cas = Some (chain', r) -> Forall P chain'.
Proof.
  intros HP Hupd. revert chain'.
  induction HP as [|e chain He Hc IH]; intros chain'; simpl; [done|].
  destruct (key_match e key).
  - destruct (negb _ && _); intros [= <- <-]; constructor; auto.
  - destruct (chain_update chain key nv vl cas) as [[c1 r1]|]; [|done].
    intros [= <- <-]. constructor; auto.
Qed.

Definition view (e : entry) : bytes * Z := (default [] (e_value e), e_cas e).

Definition refines (sd : shared_data) (m : cas_map) : Prop :=
  wf_store sd /\ canonical sd /\
  forall k, nul_free k ->
    m !! k = view <$> chain_find (bucket_at sd (bucket_of k)) k.

Lemma chain_find_elem chain k e :
  chain_find chain k = Some e -> e ∈ chain /\ cstr (e_key e) = k.
Proof.
  induction chain as [|e' chain IH]; simpl; [done|].
  destruct (key_match e' k) eqn:E.
  - intros [= ->]. apply key_match_iff in E. split; [left|done].
  - intros H. destruct (IH H). split; [by right|done].
Qed.

Lemma wf_store_new : wf_store (SharedData (replicate 64 [])).
Proof.
  split; [done|]. intros b. unfold bucket_at. cbn [buckets].
  destruct (decide (b < 64)%nat).
  - rewrite lookup_replicate_2 by done. constructor.
  - rewrite lookup_ge_None_2 by (rewrite length_replicate; lia). constructor.
Qed.

Lemma wf_new_entry key nv vl c :
  0 < len key <= VWASM_SHARED_DATA_MAX_KEY -> vl <= VWASM_SHARED_DATA_MAX_VALUE ->
  is_u32 c -> match nv with Some v => len v = vl /\ 0 < vl | None => vl = 0 end ->
  wf_entry (Entry key nv vl c).
Proof. unfold wf_entry. simpl. tauto. Qed.

(** The copy of the value the code prepares. *)
Definition new_val_of (value : option bytes) (value_len : Z) : option bytes :=
  match value with
  | Some v => if 0 <? value_len then Some (take (Z.to_nat value_len) v) else None
  | None => None
  end.

#[global] Arguments new_val_of : simpl never.

(** The cases of a successful or failed [set], with the chains abstracted. *)
Lemma set_unfold ok sd key value vl cas :
  key <> [] -> len key <= VWASM_SHARED_DATA_MAX_KEY -> vl <= VWASM_SHARED_DATA_MAX_VALUE ->
  (ok 0%nat = true \/ new_val_of value vl = None) ->
  vwasm_shared_data_set ok (Some sd) (Some key) value vl cas =
    let b := bucket_of key in
    match chain_update (bucket_at sd b) key (new_val_of value vl) vl cas with
    | Some (chain', r) => (Some (SharedData (<[b := chain']> (buckets sd))), r)
    | None =>
        if ok 1%nat && ok 2%nat then
          (Some (SharedData (<[b := Entry key (new_val_of value vl) vl 1 :: bucket_at sd b]>
                               (buckets sd))), 0)
        else (Some sd, -2)
    end.
Proof.
  intros Hk Hl Hv Hok. unfold vwasm_shared_data_set.
  destruct key as [|x key]; [done|].
  rewrite !(proj2 (Z.ltb_ge _ _)) by lia.
  unfold new_val_of in *. destruct value as [v|]; simpl.
  - destruct (0 <? vl) eqn:E; simpl in *.
    + destruct Hok as [->|]; [|done]. simpl.
      destruct (chain_update _ _ _ _ _) as [[]|]; [done|].
      by destruct (ok 1%nat), (ok 2%nat).
    + destruct (chain_update _ _ _ _ _) as [[]|]; [done|].
      by destruct (ok 1%nat), (ok 2%nat).
  - destruct (chain_update _ _ _ _ _) as [[]|]; [done|].
    by destruct (ok 1%nat), (ok 2%nat).
Qed.

(** Oversized keys and values are refused before anything is changed. *)
Lemma set_too_big ok sd key value vl cas :
  VWASM_SHARED_DATA_MAX_KEY < len key \/ VWASM_SHARED_DATA_MAX_VALUE < vl ->
  vwasm_shared_data_set ok (Some sd) (Some key) value vl cas = (Some sd, -2).
Proof.
  intros H. unfold vwasm_shared_data_set. destruct key as [|x key]; [done|].
  destruct (_ <? len (x :: key)) eqn:E1; [done|].
  destruct (_ <? vl) eqn:E2; [done|]. btest. lia.
Qed.

Lemma new_val_of_wf value vl :
  vl = len (default [] value) ->
  match new_val_of value vl with Some v => len v = vl /\ 0 < vl | None => vl = 0 end.
Proof.
  intros ->. unfold new_val_of. destruct value as [v|]; simpl; [|done].
  pose proof (len_nonneg v).
  destruct (0 <? len v) eqn:E; btest; [|lia].
  split; [|done]. apply len_take. lia.
Qed.

(** Every request keeps the table well formed, whatever the key, the value and
    the outcome of the allocations. *)
Lemma set_wf ok sd key value vl cas :
  wf_store sd -> vl = len (default [] value) ->
  exists sd', (vwasm_shared_data_set ok (Some sd) key value vl cas).1 = Some sd' /\ wf_store sd'.
Proof.
  intros Hwf Hvl. pose proof Hwf as [Hlen Hall].
  destruct key as [[|x key]|]; [by exists sd| |by exists sd]. set (k := x :: key).
  destruct (decide (len k <= VWASM_SHARED_DATA_MAX_KEY)) as [Hk|Hk].
  2:{ exists sd. rewrite set_too_big by lia. done. }
  destruct (decide (vl <= VWASM_SHARED_DATA_MAX_VALUE)) as [Hv|Hv].
  2:{ exists sd. rewrite set_too_big by lia. done. }
  destruct (decide (ok 0%nat = true \/ new_val_of value vl = None)) as [Hok|Hok].
  2:{ exists sd. split; [|done]. unfold vwasm_shared_data_set, k in *.
      rewrite !(proj2 (Z.ltb_ge _ _)) by lia.
      unfold new_val_of in Hok. destruct value as [v|]; simpl in *; [|naive_solver].
      destruct (0 <? vl); simpl; [|naive_solver].
      destruct (ok 0%nat); simpl; [naive_solver|done]. }
  rewrite set_unfold by done. cbv zeta.
  pose proof (bucket_of_lt k) as Hb. pose proof (new_val_of_wf value vl Hvl) as Hnv.
  assert (0 < len k) by (unfold k; rewrite len_cons; pose proof (len_nonneg key); lia).
  assert (forall c, Forall wf_entry c -> wf_store (SharedData (<[bucket_of k := c]> (buckets sd)))) as Hins.
  { intros c Hc. split; [simpl; by rewrite length_insert|]. intros b.
    rewrite bucket_at_insert by lia. case_decide; auto. }
  destruct (chain_update _ _ _ _ _) as [[c r]|] eqn:E.
  - eexists. split; [done|]. apply Hins. eapply chain_update_forall; [apply Hall| |exact E].
    intros e (? & ? & ? & ?). apply wf_new_entry; try done. zlia.
  - destruct (ok 1%nat && ok 2%nat); eexists; (split; [done|]); [|done].
    apply Hins. constructor; [by apply wf_new_entry|apply Hall].
Qed.

Lemma find_entry_wf sd b k e :
  wf_store sd -> chain_find (bucket_at sd b) k = Some e -> wf_entry e.
Proof.
  intros [_ Hall] Hf. apply chain_find_elem in Hf as [Hin _].
  exact (Forall_elem _ _ _ (Hall b) Hin).
Qed.

Lemma get_spec sd m k :
  refines sd m -> nul_free k ->
  match vwasm_shared_data_get all_ok (Some sd) (Some k) with
  | Some (v, n, c) => m !! k = Some (default [] v, c) /\ n = len (default [] v)
  | None => m !! k = None
  end.
Proof.
  intros (Hwf & Hcan & Hm) Hk. specialize (Hm k Hk).
  destruct k as [|x k].
  - simpl. rewrite Hm.
    destruct (chain_find _ []) as [e|] eqn:E; [|done]. exfalso.
    pose proof (find_entry_wf _ _ _ _ Hwf E) as [[Hpos _] _].
    apply chain_find_elem in E as [Hin Hc].
    pose proof (Forall_elem _ _ _ (Hcan _) Hin) as Hn. simpl in Hn. rewrite cstr_nul_free in Hc by done.
    rewrite Hc in Hpos. done.
  - unfold vwasm_shared_data_get. rewrite Hm.
    destruct (chain_find _ _) as [e|] eqn:E; [|done].
    pose proof (find_entry_wf _ _ _ _ Hwf E) as (_ & _ & _ & Hv).
    unfold view. cbn [fmap option_fmap option_map all_ok negb].
    destruct (e_value e) as [v|]; [|done]. destruct Hv as [Hl Hp].
    rewrite (proj2 (Z.ltb_lt _ _)) by done. simpl.
    rewrite <- Hl. unfold len. rewrite Nat2Z.id, firstn_all. done.
Qed.

(** Replacing one chain by one that answers [key] with [e'] and every other
    key as before is an insertion in the abstract map. *)
Lemma refines_insert sd m key chain e' :
  refines sd m -> nul_free key ->
  Forall wf_entry chain -> Forall (fun e => nul_free (e_key e)) chain ->
  (forall k, chain_find chain k =
             if decide (k = key) then Some e'
             else chain_find (bucket_at sd (bucket_of key)) k) ->
  refines (SharedData (<[bucket_of key := chain]> (buckets sd))) (<[key := view e']> m).
Proof.
  intros ([Hlen Hwf] & Hcan & Hm) Hk Hc1 Hc2 Hf.
  pose proof (bucket_of_lt key) as Hb.
  split_and!.
  - split; [simpl; by rewrite length_insert|]. intros b.
    rewrite bucket_at_insert by lia. case_decide; auto.
  - intros b. rewrite bucket_at_insert by lia. case_decide; [auto|apply Hcan].
  - intros k Hnk. rewrite bucket_at_insert by lia.
    destruct (decide (k = key)) as [->|Hne].
    + rewrite lookup_insert_eq, decide_True by done. rewrite Hf, decide_True by done. done.
    + rewrite lookup_insert_ne by done. rewrite Hm by done.
      case_decide as Hbk; [|done]. rewrite Hf, decide_False by done. by rewrite Hbk.
Qed.

Lemma insert_same_bucket sd b :
  (b < length (buckets sd))%nat -> SharedData (<[b := bucket_at sd b]> (buckets sd)) = sd.
Proof.
  intros H. destruct sd as [bs]. unfold bucket_at. simpl in *. f_equal.
  apply lookup_lt_is_Some_2 in H as [c Hc]. rewrite Hc. simpl.
  by apply list_insert_id.
Qed.

Lemma set_refines sd m k v cas :
  refines sd m -> nul_free k ->
  exists sd', vwasm_shared_data_set all_ok (Some sd) (Some k) (Some v) (len v) cas =
                (Some sd', (spec_set m k v cas).2) /\
              refines sd' (spec_set m k v cas).1.
Proof.
  intros Href Hk. pose proof Href as (Hwf & Hcan & Hm). pose proof Hwf as [Hlen Hall].
  unfold spec_set.
  destruct k as [|x k]; [by exists sd|]. set (key := x :: k) in *.
  assert (0 < len key) as Hpos
    by (unfold key; rewrite len_cons; pose proof (len_nonneg k); lia).
  rewrite (proj2 (Z.eqb_neq (len key) 0)) by lia. simpl orb.
  destruct (VWASM_SHARED_DATA_MAX_KEY <? len key) eqn:E1; btest.
  { exists sd. rewrite set_too_big by lia. done. }
  destruct (VWASM_SHARED_DATA_MAX_VALUE <? len v) eqn:E2; btest.
  { exists sd. rewrite set_too_big by lia. done. }
  rewrite set_unfold; [|done..|by left]. cbv zeta.
  pose proof (bucket_of_lt key) as Hb.
  pose proof (new_val_of_wf (Some v) (len v) eq_refl) as Hnv.
  assert (default [] (new_val_of (Some v) (len v)) = v) as Hview.
  { unfold new_val_of. pose proof (len_nonneg v). destruct (0 <? len v) eqn:E; btest.
    - unfold len. by rewrite Nat2Z.id, firstn_all.
    - symmetry. apply len_0_nil. lia. }
  pose proof (chain_update_spec (bucket_at sd (bucket_of key)) key
                (new_val_of (Some v) (len v)) (len v) cas) as Hupd.
  rewrite (Hm key Hk).
  destruct (chain_find _ key) as [e|] eqn:Ef; simpl.
  - destruct (negb (cas =? 0) && negb (e_cas e =? cas)).
    + rewrite Hupd. eexists. split; [done|]. by rewrite insert_same_bucket by lia.
    + destruct Hupd as (chain' & Hu & Hkeys & Hfind). rewrite Hu. eexists. split; [done|].
      pose proof (find_entry_wf _ _ _ _ Hwf Ef) as (? & ? & ? & ?).
      set (e' := Entry (e_key e) (new_val_of (Some v) (len v)) (len v) (u32 (e_cas e + 1))).
      replace (v, u32 (e_cas e + 1)) with (view e')
        by (unfold view, e'; simpl; by rewrite Hview).
      apply refines_insert; [done|done| | |done].
      * eapply chain_update_forall; [apply Hall| |exact Hu].
        intros e'' (? & ? & ? & ?). apply wf_new_entry; try done. zlia.
      * eapply chain_update_forall; [apply Hcan|done|exact Hu].
  - rewrite Hupd. simpl. eexists. split; [done|].
    set (e' := Entry key (new_val_of (Some v) (len v)) (len v) 1).
    replace (v, 1) with (view e') by (unfold view, e'; simpl; by rewrite Hview).
    apply refines_insert; [done|done| | |].
    + constructor; [by apply wf_new_entry|apply Hall].
    + constructor; [done|apply Hcan].
    + intros k'. cbn [chain_find]. case_decide; subst.
      * by rewrite (proj2 (key_match_iff _ _)) by by apply cstr_nul_free.
      * rewrite (proj2 (key_match_neq _ _)); [done|].
        change (cstr key <> k'). rewrite cstr_nul_free by exact Hk. congruence.
Qed.

(** ** Interface: a store with compare-and-swap

    What the rest of the system may assume of the shared store.  The laws are
    stated on the observable [cas_get]; clients are verified against them. *)

Class CasStore (S : Type) : Type := {
  cas_get : S -> bytes -> option (bytes * Z);
  cas_set : S -> bytes -> bytes -> Z -> S * Z;
  cas_inv : S -> Prop;
  cas_key : bytes -> Prop;
  cas_val : bytes -> Prop
}.

Class CasStoreLaws (S : Type) `{CasStore S} : Prop := {
  (** a set whose expected counter is 0, current, or unneeded succeeds *)
  cas_set_ok s k v cas :
    cas_inv s -> cas_key k -> cas_val v ->
    (forall v0 c, cas_get s k = Some (v0, c) -> cas = 0 \/ cas = c) ->
    exists s', cas_set s k v cas = (s', 0) /\ cas_inv s' /\
      cas_get s' k = Some (v, match cas_get s k with
                              | Some (_, c) => u32 (c + 1) | None => 1 end) /\
      (forall k', cas_key k' -> k' <> k -> cas_get s' k' = cas_get s k');
  (** a stale counter is refused and changes nothing observable *)
  cas_set_stale s k v cas v0 c :
    cas_inv s -> cas_key k -> cas_val v -> cas_get s k = Some (v0, c) ->
    cas <> 0 -> cas <> c ->
    exists s', cas_set s k v cas = (s', -1) /\ cas_inv s' /\
      (forall k', cas_key k' -> cas_get s' k' = cas_get s k')
}.

Definition table_get (sd : shared_data) (k : bytes) : option (bytes * Z) :=
  match vwasm_shared_data_get all_ok (Some sd) (Some k) with
  | Some (v, _, c) => Some (default [] v, c)
  | None => None
  end.

#[export] Instance table_store : CasStore shared_data := {
  cas_get := table_get;
  cas_set sd k v cas :=
    let '(sd', r) := vwasm_shared_data_set all_ok (Some sd) (Some k) (Some v) (len v) cas in
    (default sd sd', r);
  cas_inv sd := exists m, refines sd m;
  cas_key k := nul_free k /\ 0 < len k <= VWASM_SHARED_DATA_MAX_KEY;
  cas_val v := len v <= VWASM_SHARED_DATA_MAX_VALUE
}.

Lemma table_get_refines sd m k : refines sd m -> nul_free k -> table_get sd k = m !! k.
Proof.
  intros Hr Hk. pose proof (get_spec _ _ _ Hr Hk) as H. unfold table_get.
  destruct (vwasm_shared_data_get _ _ _) as [[[v n] c]|]; [|done].
  by destruct H as [-> _].
Qed.

Lemma spec_set_in_range (m : cas_map) k v cas :
  0 < len k <= VWASM_SHARED_DATA_MAX_KEY -> len v <= VWASM_SHARED_DATA_MAX_VALUE ->
  spec_set m k v cas =
    match m !! k with
    | None => (<[k := (v, 1)]> m, 0)
    | Some (_, c) =>
        if negb (cas =? 0) && negb (c =? cas) then (m, -1)
        else (<[k := (v, u32 (c + 1))]> m, 0)
    end.
Proof.
  intros Hk Hv. unfold spec_set.
  rewrite (proj2 (Z.eqb_neq _ 0)), !(proj2 (Z.ltb_ge _ _)) by lia. done.
Qed.

#[export] Instance table_laws : CasStoreLaws shared_data.
Proof.
  split; simpl.
  - intros sd k v cas [m Hr] [Hk Hkl] Hv Hc.
    destruct (set_refines sd m k v cas Hr Hk) as (sd' & -> & Hr'). simpl.
    rewrite spec_set_in_range in * by done. rewrite (table_get_refines sd m) in * by done.
    exists sd'. destruct (m !! k) as [[v0 c]|] eqn:E; simpl in *.
    + assert (negb (cas =? 0) && negb (c =? cas) = false) as Hc'.
      { destruct (Hc v0 c eq_refl) as [->| ->]; [done|]. by rewrite Z.eqb_refl, andb_false_r. }
      rewrite Hc' in *. simpl in *. split_and!; [done|by eexists| |].
      * rewrite (table_get_refines _ _ _ Hr') by done. apply lookup_insert_eq.
      * intros k' [Hk' _] Hne.
        rewrite (table_get_refines _ _ _ Hr'), (table_get_refines _ _ _ Hr) by done.
        by apply lookup_insert_ne.
    + split_and!; [done|by eexists| |].
      * rewrite (table_get_refines _ _ _ Hr') by done. apply lookup_insert_eq.
      * intros k' [Hk' _] Hne.
        rewrite (table_get_refines _ _ _ Hr'), (table_get_refines _ _ _ Hr) by done.
        by apply lookup_insert_ne.
  - intros sd k v cas v0 c [m Hr] [Hk Hkl] Hv Hg H0 Hne.
    destruct (set_refines sd m k v cas Hr Hk) as (sd' & -> & Hr'). simpl.
    rewrite (table_get_refines sd m) in Hg by done.
    rewrite spec_set_in_range, Hg in * by done.
    rewrite (proj2 (Z.eqb_neq cas 0)), (proj2 (Z.eqb_neq c cas)) in * by auto. simpl in *.
    exists sd'. split_and!; [done|by eexists|].
    intros k' [Hk' _].
    by rewrite (table_get_refines _ _ _ Hr'), (table_get_refines _ _ _ Hr).
Qed.

(** Clients of the interface: two contexts read the same version of a key and
    both try to replace it. *)
Section Client.
Context {S : Type} `{L : CasStoreLaws S}.

Lemma second_writer_refused s k v0 c vA vB :
  cas_inv s -> cas_key k -> cas_val vA -> cas_val vB ->
  cas_get s k = Some (v0, c) -> is_u32 c -> c <> 0 ->
  let '(sA, rA) := cas_set s k vA c in
  let '(sB, rB) := cas_set sA k vB c in
  rA = 0 /\ rB = -1 /\ cas_get sB k = Some (vA, u32 (c + 1)).
Proof.
  intros Hi Hk HvA HvB Hg Hc Hc0.
  destruct (cas_set_ok s k vA c Hi Hk HvA) as (sA & -> & HiA & HgA & _).
  { intros ?? Hg'. rewrite Hg in Hg'. naive_solver. }
  rewrite Hg in HgA.
  destruct (cas_set_stale sA k vB c _ _ HiA Hk HvB HgA Hc0) as (sB & -> & _ & Hsame).
  { unfold is_u32, u32 in *. Z.div_mod_to_equations; lia. }
  split_and!; [done|done|]. by rewrite Hsame.
Qed.
End Client.

Lemma refines_new : refines (SharedData (replicate 64 [])) ∅.
Proof.
  assert (forall b, bucket_at (SharedData (replicate 64 [])) b = []) as Hb.
  { intros b. unfold bucket_at. cbn [buckets]. destruct (decide (b < 64)%nat).
    - by rewrite lookup_replicate_2.
    - by rewrite lookup_ge_None_2 by (rewrite length_replicate; lia). }
  split_and!; [apply wf_store_new| |]; intros k; rewrite ?Hb; [constructor|done].
Qed.

Lemma step_refines sd m q :
  refines sd m -> nul_free (req_key q) ->
  exists sd', (impl_step (Some sd) q).1 = Some sd' /\ refines sd' (spec_step m q).1 /\
              (impl_step (Some sd) q).2 = (spec_step m q).2.
Proof.
  intros Hr Hk. destruct q as [k|k v cas]; simpl in *.
  - exists sd. split_and!; [done|done|]. f_equal.
    exact (table_get_refines _ _ _ Hr Hk).
  - destruct (set_refines sd m k v cas Hr Hk) as (sd' & -> & Hr').
    destruct (spec_set m k v cas) as [m' r]. by exists sd'.
Qed.

Definition refines_opt (sd : option shared_data) (m : cas_map) : Prop :=
  exists s, sd = Some s /\ refines s m.

Lemma run_refines sd m qs :
  refines_opt sd m -> Forall (fun q => nul_free (req_key q)) qs ->
  (run impl_step sd qs).2 = (run spec_step m qs).2.
Proof.
  intros Hr Hq.
  apply (run_sim impl_step spec_step refines_opt (fun q => nul_free (req_key q))); [|done..].
  intros s1 s2 q (s & -> & Hs) Hk.
  destruct (step_refines s s2 q Hs Hk) as (s' & E1 & Hs' & E2).
  split; [|done]. by exists s'.
Qed.

(** A key with a NUL inside matches no entry: the C string of a stored key is
    never longer than its prefix. *)
Lemma chain_find_nul chain key : ~ nul_free key -> chain_find chain key = None.
Proof.
  intros Hk. destruct (chain_find chain key) as [e|] eqn:E; [|done].
  apply chain_find_elem in E as [_ <-]. destruct Hk. apply nul_free_cstr.
Qed.

(** ** Claims *)

(** C7 Refinement: for every sequence of requests whose keys contain no NUL byte,
    served from a freshly created store with no allocation failing, the hash
    table answers exactly as a finite map from keys to values with counters does
    (values, counters, CAS mismatches and refusals of oversized arguments alike).
    A key with a NUL byte is stored and never found: [nul_key_never_found]. *)
Theorem shared_data_refines_map qs :
  Forall (fun q => nul_free (req_key q)) qs ->
  (run impl_step (vwasm_shared_data_new all_ok true) qs).2 = (run spec_step ∅ qs).2.
Proof. apply run_refines. eexists. split; [done|apply refines_new]. Qed.

Lemma shared_data_refines_map_witness :
  (run impl_step (vwasm_shared_data_new all_ok true)
     [Set_ (str "k") (str "one") 0; Get (str "k"); Set_ (str "k") (str "two") 1;
      Set_ (str "k") (str "three") 1; Get (str "k"); Get (str "other")]).2 =
  [Code 0; Value (Some (str "one", 1)); Code 0; Code (-1);
   Value (Some (str "two", 2)); Value None].
Proof.
  rewrite (shared_data_refines_map
     [Set_ (str "k") (str "one") 0; Get (str "k"); Set_ (str "k") (str "two") 1;
      Set_ (str "k") (str "three") 1; Get (str "k"); Get (str "other")]).
  - vm_compute. reflexivity.
  - repeat constructor; simpl; lia.
Defined.

(** Invariant: whatever the arguments (NULL or not, of any length, with any
    bytes) and whatever allocations fail, [vwasm_shared_data_set] leaves a table
    of 64 chains whose entries respect the limits on keys and values, store a
    value of the recorded length and carry a 32-bit counter. *)
Theorem shared_data_set_wf ok sd key value cas :
  wf_store sd ->
  exists sd', (vwasm_shared_data_set ok (Some sd) key value (len (default [] value)) cas).1
              = Some sd' /\ wf_store sd'.
Proof. intros. by apply set_wf. Qed.

Lemma shared_data_set_wf_witness :
  exists sd', (vwasm_shared_data_set (fun _ => false) (Some (SharedData (replicate 64 [])))
                 (Some [7; 0; 7]) None (len (default [] (None : option bytes))) 5).1 = Some sd' /\ wf_store sd'.
Proof. apply (shared_data_set_wf _ _ _ None). apply wf_store_new. Defined.

(** C28 No lost update: when two contexts read the same non-zero counter of a key
    and both write with it, the first write succeeds, the second is refused
    with a CAS mismatch, and the value of the first remains. *)
Theorem cas_no_lost_update sd m k v0 c vA vB :
  refines sd m -> nul_free k -> 0 < len k <= VWASM_SHARED_DATA_MAX_KEY ->
  len vA <= VWASM_SHARED_DATA_MAX_VALUE -> len vB <= VWASM_SHARED_DATA_MAX_VALUE ->
  vwasm_shared_data_get all_ok (Some sd) (Some k) = Some (Some v0, len v0, c) ->
  is_u32 c -> c <> 0 ->
  exists sA sB,
    vwasm_shared_data_set all_ok (Some sd) (Some k) (Some vA) (len vA) c = (Some sA, 0) /\
    vwasm_shared_data_set all_ok (Some sA) (Some k) (Some vB) (len vB) c = (Some sB, -1) /\
    table_get sB k = Some (vA, u32 (c + 1)).
Proof.
  intros Hr Hk Hkl HA HB Hg Hc Hc0.
  pose proof (second_writer_refused sd k v0 c vA vB (ex_intro _ m Hr)
                (conj Hk Hkl) HA HB) as H. simpl in H.
  destruct (set_refines sd m k vA c Hr Hk) as (sA & EA & HrA). rewrite EA in H. simpl in H.
  destruct (set_refines sA _ k vB c HrA Hk) as (sB & EB & _). rewrite EB in H. simpl in H.
  destruct H as (HA' & HB' & Hget); [unfold table_get; by rewrite Hg|done|done|].
  exists sA, sB. by rewrite EA, EB, HA', HB'.
Qed.

Lemma cas_no_lost_update_witness :
  exists sd m sA sB,
    refines sd m /\
    vwasm_shared_data_set all_ok (Some sd) (Some (str "n")) (Some (str "A")) 1 1 = (Some sA, 0) /\
    vwasm_shared_data_set all_ok (Some sA) (Some (str "n")) (Some (str "B")) 1 1 = (Some sB, -1) /\
    table_get sB (str "n") = Some (str "A", 2).
Proof.
  destruct (set_refines (SharedData (replicate 64 [])) ∅ (str "n") (str "0") 0 refines_new)
    as (sd & E & Hr); [by_decide|].
  assert (sd = default (SharedData []) (vwasm_shared_data_set all_ok
            (Some (SharedData (replicate 64 []))) (Some (str "n")) (Some (str "0")) 1 0).1) as ->
    by (change 1 with (len (str "0")); by rewrite E).
  destruct (cas_no_lost_update _ _ (str "n") (str "0") 1 (str "A") (str "B") Hr)
    as (sA & sB & HA & HB & Hg);
    [by_decide|by_decide|by_decide|by_decide|vm_compute; reflexivity|by_decide|by_decide|].
  by eexists _, _, sA, sB.
Defined.

(** Keys with an embedded NUL are unreachable: the lookup fails for such a
    key in every table, although storing it reports success (by adding one
    more entry each time). *)
Theorem nul_key_never_found ok sd key :
  ~ nul_free key ->
  vwasm_shared_data_get ok (Some sd) (Some key) = None /\
  (len key <= VWASM_SHARED_DATA_MAX_KEY ->
   forall v cas, len v <= VWASM_SHARED_DATA_MAX_VALUE ->
     (vwasm_shared_data_set all_ok (Some sd) (Some key) (Some v) (len v) cas).2 = 0).
Proof.
  intros Hk. destruct key as [|x key]; [by destruct Hk; constructor|]. split.
  - unfold vwasm_shared_data_get. by rewrite chain_find_nul.
  - intros Hl v cas Hv. rewrite set_unfold by (try done; by left). cbv zeta.
    pose proof (chain_update_spec (bucket_at sd (bucket_of (x :: key))) (x :: key)
                  (new_val_of (Some v) (len v)) (len v) cas) as Hu.
    rewrite chain_find_nul in Hu by done. by rewrite Hu.
Qed.

Lemma nul_key_never_found_witness :
  let sd := SharedData (replicate 64 []) in
  vwasm_shared_data_get all_ok (Some sd) (Some [97; 0; 98]) = None /\
  (vwasm_shared_data_set all_ok (Some sd) (Some [97; 0; 98]) (Some [1]) (len [1]) 0).2 = 0.
Proof.
  assert (~ nul_free [97; 0; 98]) as Hn.
  { intros H. inversion_clear H as [|?? _ H']. inversion_clear H'. done. }
  destruct (nul_key_never_found all_ok (SharedData (replicate 64 [])) [97; 0; 98] Hn) as [H1 H2].
  split; [exact H1|]. apply H2; vm_compute; done.
Defined.
