(* ===== verification/SharedQueue.v ===== *)
(** * Shared queues: named FIFO channels (src/proxy_wasm_shared.c)

    The queue store is a linked list of queues under one mutex; a queue is a
    linked list of messages with a depth counter.  Lists are modelled from
    their heads; a queue's head and tail pointers are the ends of [q_msgs]. *)

From S2P Require Import Prelude.

(** ** Data *)

Definition VWASM_QUEUE_MAX_NAME : Z := 256.
Definition VWASM_QUEUE_MAX_MSG : Z := 65536.
Definition VWASM_QUEUE_MAX_DEPTH : Z := 1024.
Definition VWASM_QUEUE_MAX_COUNT : Z := 64.

(** [struct vwasm_queue_msg] *)
Record queue_msg := QueueMsg { m_data : option bytes; m_len : Z }.

(** [struct vwasm_queue]; [q_name] is the [name_len] bytes before the NUL. *)
Record queue := Queue {
  q_name : bytes;
  q_id : Z;
  q_msgs : list queue_msg;
  q_depth : Z
}.

(** [struct vwasm_queue_store] *)
Record queue_store := QueueStore { queues : list queue; next_id : Z }.

(** ** Operations *)

Definition vwasm_queue_store_new (ok : oracle) (lock_ok : bool) : option queue_store :=
  if negb (ok 0%nat) then None
  else if negb lock_ok then None
  else Some (QueueStore [] 1).

Definition name_match (q : queue) (name : bytes) : bool := buf_match (q_name q) name.

(** The loops over [qs->queues]: by name, and by id. *)
Fixpoint find_name (l : list queue) (name : bytes) : option queue :=
  match l with
  | [] => None
  | q :: l => if name_match q name then Some q else find_name l name
  end.

Fixpoint find_id (l : list queue) (id : Z) : option queue :=
  match l with
  | [] => None
  | q :: l => if q_id q =? id then Some q else find_id l id
  end.

(** Writing through the pointer [find_id] returned. *)
Fixpoint update_id (l : list queue) (id : Z) (q' : queue) : list queue :=
  match l with
  | [] => []
  | q :: l => if q_id q =? id then q' :: l else q :: update_id l id q'
  end.

Definition vwasm_queue_register (ok : oracle) (qs : option queue_store) (name : option bytes)
    : option queue_store * Z :=
  match qs, name with
  | None, _ | _, None | _, Some [] => (qs, 0)
  | Some s, Some name =>
      if VWASM_QUEUE_MAX_NAME <? len name then (qs, 0)
      else
        match find_name (queues s) name with
        | Some q => (qs, q_id q)
        | None =>
            if VWASM_QUEUE_MAX_COUNT <? next_id s then (qs, 0)
            else if negb (ok 0%nat) then (qs, 0)
            else if negb (ok 1%nat) then (qs, 0)
            else
              let id := next_id s in
              (Some (QueueStore (Queue name id [] 0 :: queues s) (u32 (next_id s + 1))), id)
        end
  end.

(** [vm_id] and [vm_id_len] are ignored by the source. *)
Definition vwasm_queue_resolve (qs : option queue_store) (vm_id : option bytes)
    (name : option bytes) : Z :=
  match qs, name with
  | None, _ | _, None | _, Some [] => 0
  | Some s, Some name =>
      match find_name (queues s) name with
      | Some q => q_id q
      | None => 0
      end
  end.

Definition vwasm_queue_enqueue (ok : oracle) (qs : option queue_store) (queue_id : Z)
    (data : option bytes) (n : Z) : option queue_store * Z :=
  match qs with
  | None => (qs, -1)
  | Some s =>
      if queue_id =? 0 then (qs, -1)
      else if VWASM_QUEUE_MAX_MSG <? n then (qs, -1)
      else
        match find_id (queues s) queue_id with
        | None => (qs, -1)
        | Some q =>
            if VWASM_QUEUE_MAX_DEPTH <=? q_depth q then (qs, -1)
            else if negb (ok 0%nat) then (qs, -1)
            else
              let copied := match data with Some _ => 0 <? n | None => false end in
              if copied && negb (ok 1%nat) then (qs, -1)
              else
                let msg :=
                  match data with
                  | Some d => if 0 <? n then QueueMsg (Some (take (Z.to_nat n) d)) n
                              else QueueMsg None 0
                  | None => QueueMsg None 0
                  end in
                let q' := Queue (q_name q) (q_id q) (q_msgs q ++ [msg]) (u32 (q_depth q + 1)) in
                (Some (QueueStore (update_id (queues s) queue_id q') (next_id s)), 0)
        end
  end.

(** [Some msg]: returns 0 with [msg]'s data and length; [None]: returns -1. *)
Definition vwasm_queue_dequeue (qs : option queue_store) (queue_id : Z)
    : option queue_store * option queue_msg :=
  match qs with
  | None => (qs, None)
  | Some s =>
      if queue_id =? 0 then (qs, None)
      else
        match find_id (queues s) queue_id with
        | None => (qs, None)
        | Some q =>
            match q_msgs q with
            | [] => (qs, None)
            | msg :: rest =>
                let q' := Queue (q_name q) (q_id q) rest (u32 (q_depth q - 1)) in
                (Some (QueueStore (update_id (queues s) queue_id q') (next_id s)), Some msg)
            end
        end
  end.

(** ** Specification: channels named by byte strings *)

Record chans := Chans {
  names : gmap (list Z) Z;            (** name to channel id *)
  contents : gmap Z (list (list Z))   (** channel id to its messages, oldest first *)
}.

Inductive request :=
| Register (name : bytes)
| Resolve (name : bytes)
| Enqueue (id : Z) (data : bytes)
| Dequeue (id : Z).

Inductive response :=
| Id (id : Z)
| Code (r : Z)
| Msg (m : option bytes).

Definition spec_step (s : chans) (r : request) : chans * response :=
  match r with
  | Register name =>
      if (len name =? 0) || (VWASM_QUEUE_MAX_NAME <? len name) then (s, Id 0)
      else
        match names s !! name with
        | Some id => (s, Id id)
        | None =>
            let id := Z.of_nat (size (contents s)) + 1 in
            if VWASM_QUEUE_MAX_COUNT <? id then (s, Id 0)
            else (Chans (<[name := id]> (names s)) (<[id := []]> (contents s)), Id id)
        end
  | Resolve name =>
      if len name =? 0 then (s, Id 0) else (s, Id (default 0 (names s !! name)))
  | Enqueue id data =>
      match contents s !! id with
      | None => (s, Code (-1))
      | Some ms =>
          if (VWASM_QUEUE_MAX_MSG <? len data) || (VWASM_QUEUE_MAX_DEPTH <=? len ms)
          then (s, Code (-1))
          else (Chans (names s) (<[id := ms ++ [data]]> (contents s)), Code 0)
      end
  | Dequeue id =>
      match contents s !! id with
      | None | Some [] => (s, Msg None)
      | Some (m :: ms) => (Chans (names s) (<[id := ms]> (contents s)), Msg (Some m))
      end
  end.

Definition msg_bytes (m : queue_msg) : bytes := default [] (m_data m).

(** One request, served while the allocations of [ok] succeed. *)
Definition serve (s : option queue_store) (q : oracle * request)
    : option queue_store * response :=
  let '(ok, r) := q in
  match r with
  | Register name => let '(s', id) := vwasm_queue_register ok s (Some name) in (s', Id id)
  | Resolve name => (s, Id (vwasm_queue_resolve s None (Some name)))
  | Enqueue id data =>
      let '(s', c) := vwasm_queue_enqueue ok s id (Some data) (len data) in (s', Code c)
  | Dequeue id =>
      let '(s', m) := vwasm_queue_dequeue s id in (s', Msg (msg_bytes <$> m))
  end.

Definition impl_step (s : option queue_store) (r : request) : option queue_store * response :=
  serve s (all_ok, r).

Definition req_ok (r : request) : Prop :=
  match r with
  | Register name | Resolve name => nul_free name
  | Enqueue id _ | Dequeue id => True
  end.

#[global] Arguments vwasm_queue_register : simpl never.
#[global] Arguments vwasm_queue_resolve : simpl never.
#[global] Arguments vwasm_queue_enqueue : simpl never.
#[global] Arguments vwasm_queue_dequeue : simpl never.

(** * Properties *)

Definition wf_msg (m : queue_msg) : Prop :=
  match m_data m with
  | Some d => len d = m_len m /\ 0 < m_len m <= VWASM_QUEUE_MAX_MSG
  | None => m_len m = 0
  end.

(** The depth counter is the number of messages, at most 1024. *)
Definition wf_queue (q : queue) : Prop :=
  0 < len (q_name q) <= VWASM_QUEUE_MAX_NAME /\
  q_depth q = len (q_msgs q) /\ q_depth q <= VWASM_QUEUE_MAX_DEPTH /\
  Forall wf_msg (q_msgs q).

(** Queue ids are handed out once, from 1 to at most 64. *)
Definition wf_qs (s : queue_store) : Prop :=
  Forall wf_queue (queues s) /\ NoDup (q_id <$> queues s) /\
  Forall (fun q => 1 <= q_id q < next_id s) (queues s) /\
  next_id s = len (queues s) + 1 /\ next_id s <= VWASM_QUEUE_MAX_COUNT + 1.

Lemma find_id_elem l id q : find_id l id = Some q -> q ∈ l /\ q_id q = id.
Proof.
  induction l as [|q' l IH]; simpl; [done|]. destruct (q_id q' =? id) eqn:E; btest.
  - intros [= ->]. split; [left|done].
  - intros H. destruct (IH H). split; [by right|done].
Qed.

Lemma find_name_elem l n q : find_name l n = Some q -> q ∈ l /\ cstr (q_name q) = n.
Proof.
  induction l as [|q' l IH]; simpl; [done|]. destruct (name_match q' n) eqn:E.
  - intros [= ->]. apply buf_match_iff in E. split; [left|done].
  - intros H. destruct (IH H). split; [by right|done].
Qed.

Lemma find_id_update l id q q' id' :
  find_id l id = Some q -> q_id q' = id ->
  find_id (update_id l id q') id' = if decide (id' = id) then Some q' else find_id l id'.
Proof.
  intros Hf Hq. induction l as [|q0 l IH]; simpl in *; [done|].
  destruct (q_id q0 =? id) eqn:E; btest; simpl.
  - case_decide; [by rewrite (proj2 (Z.eqb_eq _ _)) by congruence|].
    rewrite !(proj2 (Z.eqb_neq _ _)) by congruence. done.
  - rewrite IH by done. case_decide; [|done].
    by rewrite (proj2 (Z.eqb_neq _ _)) by congruence.
Qed.

(** Updating a queue in place keeps every name bound to its id. *)
Lemma find_name_update l id q q' n :
  find_id l id = Some q -> q_id q' = q_id q -> q_name q' = q_name q ->
  q_id <$> find_name (update_id l id q') n = q_id <$> find_name l n.
Proof.
  intros Hf Hi Hn. induction l as [|q0 l IH]; simpl in *; [done|].
  destruct (q_id q0 =? id) eqn:E; simpl.
  - injection Hf as ->. unfold name_match. rewrite Hn.
    destruct (buf_match _ _); simpl; [by rewrite Hi|done].
  - destruct (name_match q0 n); [done|]. by apply IH.
Qed.

Lemma update_id_ids l id q q' :
  find_id l id = Some q -> q_id q' = q_id q -> q_id <$> update_id l id q' = q_id <$> l.
Proof.
  intros Hf Hi. induction l as [|q0 l IH]; simpl in *; [done|].
  destruct (q_id q0 =? id) eqn:E; simpl; [by simplify_eq; rewrite Hi|f_equal; by apply IH].
Qed.

Lemma update_id_forall (P : queue -> Prop) l id q' :
  Forall P l -> P q' -> Forall P (update_id l id q').
Proof.
  intros Hl Hq. induction Hl; simpl; [constructor|].
  destruct (_ =? _); constructor; auto.
Qed.

Lemma update_id_len l id q' : len (update_id l id q') = len l.
Proof.
  induction l as [|q0 l IH]; simpl; [done|].
  destruct (_ =? _); rewrite !len_cons; [done|by rewrite IH].
Qed.

Lemma wf_update s id q q' :
  wf_qs s -> find_id (queues s) id = Some q -> q_id q' = q_id q -> wf_queue q' ->
  wf_qs (QueueStore (update_id (queues s) id q') (next_id s)).
Proof.
  intros (Hw & Hnd & Hr & Hn & Hm) Hf Hi Hq'. split_and!; simpl.
  - by apply update_id_forall.
  - by erewrite update_id_ids.
  - apply update_id_forall; [done|]. rewrite Hi.
    apply find_id_elem in Hf as [Hin _]. exact (Forall_elem _ _ _ Hr Hin).
  - by rewrite update_id_len.
  - done.
Qed.

(** ** Every operation preserves the invariant, whatever its arguments *)

Lemma register_wf ok s name :
  wf_qs s -> exists s', (vwasm_queue_register ok (Some s) name).1 = Some s' /\ wf_qs s'.
Proof.
  intros Hwf. pose proof Hwf as (Hw & Hnd & Hr & Hn & Hm). unfold vwasm_queue_register.
  destruct name as [[|x name]|]; [by exists s| |by exists s]. set (n := x :: name).
  destruct (_ <? len n) eqn:E1; btest; [by exists s|].
  destruct (find_name _ _); [by exists s|].
  destruct (_ <? next_id s) eqn:E2; btest; [by exists s|].
  destruct (ok 0%nat), (ok 1%nat); [|by exists s..]. eexists. split; [done|].
  unfold VWASM_QUEUE_MAX_COUNT in *. pose proof (len_nonneg (queues s)).
  assert (u32 (next_id s + 1) = next_id s + 1) as Hu by zlia.
  assert (0 < len n) by (unfold n; rewrite len_cons; pose proof (len_nonneg name); lia).
  split_and!; simpl; rewrite ?Hu, ?len_cons.
  - constructor; [|done]. unfold wf_queue, VWASM_QUEUE_MAX_DEPTH. simpl. split_and!; done || constructor.
  - constructor; [|done]. intros Hin. apply list_elem_of_fmap in Hin as (q & Hq & Hin).
    pose proof (Forall_elem _ _ _ Hr Hin). simpl in *. lia.
  - constructor; [simpl; lia|]. eapply list.Forall_impl; [exact Hr|]. simpl. lia.
  - lia.
  - unfold VWASM_QUEUE_MAX_COUNT. lia.
Qed.

(** The queue [enqueue] stores back is well formed. *)
Lemma wf_queue_push q m :
  wf_queue q -> q_depth q < VWASM_QUEUE_MAX_DEPTH -> wf_msg m ->
  wf_queue (Queue (q_name q) (q_id q) (q_msgs q ++ [m]) (u32 (q_depth q + 1))).
Proof.
  intros (Hn & Hd & Hb & Hm) Hlt Hwm. unfold VWASM_QUEUE_MAX_DEPTH in *.
  assert (u32 (q_depth q + 1) = q_depth q + 1) as Hu
    by (pose proof (len_nonneg (q_msgs q)); zlia).
  unfold wf_queue, VWASM_QUEUE_MAX_DEPTH. cbn [q_name q_depth q_msgs].
  rewrite Hu, len_app. change (len [m]) with 1. split_and!; try (done || lia).
  apply Forall_app. split; [done|]. by constructor.
Qed.

Lemma wf_queue_pop q m rest :
  wf_queue q -> q_msgs q = m :: rest ->
  wf_queue (Queue (q_name q) (q_id q) rest (u32 (q_depth q - 1))).
Proof.
  intros (Hn & Hd & Hb & Hm) Hq. unfold VWASM_QUEUE_MAX_DEPTH in *.
  rewrite Hq in *. rewrite len_cons in Hd. inversion_clear Hm.
  pose proof (len_nonneg rest).
  assert (u32 (q_depth q - 1) = q_depth q - 1) as Hu by zlia.
  unfold wf_queue, VWASM_QUEUE_MAX_DEPTH. cbn [q_name q_depth q_msgs]. rewrite Hu.
  split_and!; done || lia.
Qed.

(** The message [enqueue] builds. *)
Definition msg_of (data : option bytes) (n : Z) : queue_msg :=
  match data with
  | Some d => if 0 <? n then QueueMsg (Some (take (Z.to_nat n) d)) n else QueueMsg None 0
  | None => QueueMsg None 0
  end.

Lemma wf_msg_of data n :
  n = len (default [] data) -> n <= VWASM_QUEUE_MAX_MSG ->
  wf_msg (msg_of data n) /\ msg_bytes (msg_of data n) = default [] data.
Proof.
  intros -> Hn. destruct data as [d|]; [|done]. unfold msg_of, wf_msg, msg_bytes. simpl in *.
  pose proof (len_nonneg d). destruct (0 <? len d) eqn:E; btest; simpl.
  - rewrite firstn_all2 by (unfold len; lia). auto with lia.
  - assert (d = []) as -> by (apply len_0_nil; lia). done.
Qed.

(** [enqueue], by cases: refused without a change, or appended. *)
Lemma enqueue_cases ok s id data n :
  (vwasm_queue_enqueue ok (Some s) id data n = (Some s, -1)) \/
  (exists q, find_id (queues s) id = Some q /\ n <= VWASM_QUEUE_MAX_MSG /\
     q_depth q < VWASM_QUEUE_MAX_DEPTH /\ id <> 0 /\
     vwasm_queue_enqueue ok (Some s) id data n =
       (Some (QueueStore (update_id (queues s) id
          (Queue (q_name q) (q_id q) (q_msgs q ++ [msg_of data n]) (u32 (q_depth q + 1))))
          (next_id s)), 0)).
Proof.
  unfold vwasm_queue_enqueue. repeat (split_if; [by left|]).
  destruct (find_id _ _) as [q|]; [|by left].
  destruct (_ <=? q_depth q) eqn:E; btest; [by left|].
  destruct (ok 0%nat); simpl; [|by left].
  destruct (_ && negb (ok 1%nat)); [by left|]. right. exists q. by split_and!.
Qed.

Lemma enqueue_wf ok s id data :
  wf_qs s ->
  exists s', (vwasm_queue_enqueue ok (Some s) id data (len (default [] data))).1 = Some s' /\
             wf_qs s'.
Proof.
  intros Hwf.
  destruct (enqueue_cases ok s id data (len (default [] data)))
    as [->|(q & Hf & Hn & Hd & _ & ->)]; [by exists s|].
  eexists. split; [done|]. eapply wf_update; try done.
  apply wf_queue_push; [|done|by apply wf_msg_of].
  apply find_id_elem in Hf as [Hin _]. exact (Forall_elem _ _ _ (proj1 Hwf) Hin).
Qed.

Lemma dequeue_wf s id :
  wf_qs s -> exists s', (vwasm_queue_dequeue (Some s) id).1 = Some s' /\ wf_qs s'.
Proof.
  intros Hwf. unfold vwasm_queue_dequeue. split_if; [by exists s|].
  destruct (find_id _ _) as [q|] eqn:Hf; [|by exists s].
  destruct (q_msgs q) as [|m rest] eqn:Hm; [by exists s|].
  eexists. split; [done|]. eapply wf_update; try done. eapply wf_queue_pop; [|done].
  apply find_id_elem in Hf as [Hin _]. exact (Forall_elem _ _ _ (proj1 Hwf) Hin).
Qed.

Lemma serve_wf s q : wf_qs s -> exists s', (serve (Some s) q).1 = Some s' /\ wf_qs s'.
Proof.
  intros Hwf. destruct q as [ok [n|n|id d|id]]; simpl; [|by exists s|..].
  - destruct (register_wf ok s (Some n) Hwf) as (s' & H & ?). exists s'.
    by destruct (vwasm_queue_register _ _ _).
  - destruct (enqueue_wf ok s id (Some d) Hwf) as (s' & H & ?). exists s'.
    simpl in H. by destruct (vwasm_queue_enqueue _ _ _ _ _).
  - destruct (dequeue_wf s id Hwf) as (s' & H & ?). exists s'.
    by destruct (vwasm_queue_dequeue _ _).
Qed.

(** ** Simulation of the channels *)

(** Names and contents of the channels are those the lookups see. *)
Definition sim (s : queue_store) (c : chans) : Prop :=
  wf_qs s /\
  Forall (fun q => nul_free (q_name q)) (queues s) /\
  (forall n, nul_free n -> names c !! n = q_id <$> find_name (queues s) n) /\
  (forall id, contents c !! id = (fun q => msg_bytes <$> q_msgs q) <$> find_id (queues s) id) /\
  Z.of_nat (size (contents c)) = len (queues s).

Definition sim_opt (s : option queue_store) (c : chans) : Prop :=
  exists s', s = Some s' /\ sim s' c.

Lemma find_id_range s id q : wf_qs s -> find_id (queues s) id = Some q ->
  wf_queue q /\ q_id q = id /\ 1 <= id < next_id s.
Proof.
  intros (Hw & _ & Hr & _) Hf. apply find_id_elem in Hf as [Hin <-].
  split; [exact (Forall_elem _ _ _ Hw Hin)|]. split; [done|]. exact (Forall_elem _ _ _ Hr Hin).
Qed.

(** Replacing the messages of a queue replaces the contents of its channel. *)
Lemma sim_update s c id q ms d ml :
  sim s c -> find_id (queues s) id = Some q ->
  wf_queue (Queue (q_name q) (q_id q) ms d) -> ml = msg_bytes <$> ms ->
  sim (QueueStore (update_id (queues s) id (Queue (q_name q) (q_id q) ms d)) (next_id s))
      (Chans (names c) (<[id := ml]> (contents c))).
Proof.
  intros (Hwf & Hnul & Hn & Hc & Hs) Hf Hq ->.
  pose proof (find_id_range _ _ _ Hwf Hf) as (_ & Hid & _).
  split_and!; cbn [queues names contents].
  - by eapply wf_update.
  - apply update_id_forall; [done|]. apply find_id_elem in Hf as [Hin _].
    exact (Forall_elem _ _ _ Hnul Hin).
  - intros n Hnn. erewrite find_name_update by done. by apply Hn.
  - intros id'. erewrite find_id_update by done. destruct (decide (id' = id)) as [->|].
    + by rewrite lookup_insert_eq.
    + by rewrite lookup_insert_ne.
  - rewrite update_id_len, map_size_insert_Some; [done|].
    rewrite Hc, Hf. done.
Qed.

Lemma sim_register s c n :
  sim s c -> nul_free n ->
  sim_opt (impl_step (Some s) (Register n)).1 (spec_step c (Register n)).1 /\
  (impl_step (Some s) (Register n)).2 = (spec_step c (Register n)).2.
Proof.
  intros Hsim Hn. pose proof Hsim as (Hwf & Hnul & Hnm & Hc & Hs).
  pose proof (register_wf all_ok s (Some n) Hwf) as (s' & Es' & Hwf').
  pose proof Hwf as (Hw & _ & Hr & Hnext & Hmax).
  unfold impl_step, serve, spec_step, vwasm_queue_register in *.
  destruct n as [|x n]; [split; [by exists s|done]|]. set (nm := x :: n) in *.
  rewrite (proj2 (Z.eqb_neq (len nm) 0))
    by (unfold nm; rewrite len_cons; pose proof (len_nonneg n); lia). simpl orb.
  split_if; [split; [by exists s|done]|].
  rewrite (Hnm nm Hn). destruct (find_name _ _) as [q|] eqn:Ef; simpl; [split; [by exists s|done]|].
  rewrite Hs, <- Hnext. split_if; [split; [by exists s|done]|]. simpl in *.
  split; [|done]. eexists. split; [done|]. simplify_eq.
  split_and!; cbn [queues names contents]; [done| | | |].
  - by constructor.
  - intros n' Hn'. cbn [find_name]. unfold name_match at 1. cbn [q_name].
    destruct (decide (nm = n')) as [<-|Hne].
    + rewrite lookup_insert_eq, (proj2 (buf_match_iff _ _)); [done|]. by apply cstr_nul_free.
    + rewrite lookup_insert_ne, (proj2 (buf_match_neq _ _)) by (rewrite ?cstr_nul_free; done).
      by apply Hnm.
  - intros id. cbn [find_id q_id]. destruct (decide (id = next_id s)) as [->|].
    + by rewrite lookup_insert_eq, Z.eqb_refl.
    + rewrite lookup_insert_ne, (proj2 (Z.eqb_neq _ _)) by done. apply Hc.
  - rewrite map_size_insert_None; [rewrite len_cons; lia|]. rewrite Hc.
    destruct (find_id _ _) as [q|] eqn:Hf; [|done].
    apply (find_id_range _ _ _ Hwf) in Hf as (_ & _ & ?). lia.
Qed.

Lemma sim_step s c r :
  sim s c -> req_ok r ->
  sim_opt (impl_step (Some s) r).1 (spec_step c r).1 /\
  (impl_step (Some s) r).2 = (spec_step c r).2.
Proof.
  intros Hsim Hr. pose proof Hsim as (Hwf & Hnul & Hnm & Hc & Hs).
  destruct r as [n|n|id d|id]; [by apply sim_register|..]; unfold impl_step;
    cbn [serve spec_step].
  - unfold vwasm_queue_resolve. destruct n as [|x n]; [split; [by exists s|done]|].
    rewrite (proj2 (Z.eqb_neq (len (x :: n)) 0))
      by (rewrite len_cons; pose proof (len_nonneg n); lia).
    rewrite (Hnm _ Hr). split; [by exists s|]. by destruct (find_name _ _).
  - rewrite Hc. unfold vwasm_queue_enqueue.
    destruct (id =? 0) eqn:E0; btest.
    { destruct (find_id _ id) eqn:Hf; [|split; [by exists s|done]].
      apply (find_id_range _ _ _ Hwf) in Hf as (_ & _ & ?). lia. }
    destruct (find_id _ id) as [q|] eqn:Hf; simpl; [|split_if; (split; [by exists s|done])].
    pose proof (find_id_range _ _ _ Hwf Hf) as (Hq & Hid & _).
    pose proof Hq as (_ & Hd & _).
    assert (len (msg_bytes <$> q_msgs q) = q_depth q) as ->
      by (rewrite Hd; unfold len; by rewrite length_fmap).
    split_if; simpl; [split; [by exists s|done]|].
    split_if; simpl; [split; [by exists s|done]|]. rewrite andb_false_r. split; [|done].
    eexists. split; [done|].
    destruct (wf_msg_of (Some d) (len d) eq_refl) as [Hm1 Hm2]; [done|].
    apply sim_update; [done|done| |].
    + by apply wf_queue_push.
    + rewrite fmap_app. do 2 f_equal. simpl. f_equal. symmetry. exact Hm2.
  - rewrite Hc. unfold vwasm_queue_dequeue.
    destruct (id =? 0) eqn:E0; btest.
    { destruct (find_id _ id) eqn:Hf; [|split; [by exists s|done]].
      apply (find_id_range _ _ _ Hwf) in Hf as (_ & _ & ?). lia. }
    destruct (find_id _ id) as [q|] eqn:Hf; simpl; [|split; [by exists s|done]].
    pose proof (find_id_range _ _ _ Hwf Hf) as (Hq & Hid & _).
    destruct (q_msgs q) as [|m rest] eqn:Hm; simpl; [split; [by exists s|done]|].
    split; [|done]. eexists. split; [done|]. apply sim_update; [done|done| |done].
    by eapply wf_queue_pop.
Qed.

Lemma queue_sim_new : sim (QueueStore [] 1) (Chans ∅ ∅).
Proof.
  split_and!; cbn [queues names contents]; try done.
  split_and!; cbn [queues next_id]; try done; constructor.
Qed.

Lemma find_name_nul l n : ~ nul_free n -> find_name l n = None.
Proof.
  intros Hn. destruct (find_name l n) as [q|] eqn:E; [|done].
  apply find_name_elem in E as [_ <-]. destruct Hn. apply nul_free_cstr.
Qed.

(** ** Claims *)

(** C12 Refinement: from a new store, every sequence of register, resolve,
    enqueue and dequeue requests, whose names contain no NUL byte and in which no
    allocation fails, is answered exactly as by named FIFO channels: one id per
    name (1, 2, ... up to 64), messages of a channel delivered once, in the order
    they were enqueued and unchanged, and refusals for unknown ids, full channels
    and oversized messages.  A name with a NUL byte is registered as a new queue
    each time: [nul_name_registered_afresh]. *)
Theorem queues_refine_channels qs :
  Forall req_ok qs ->
  (run impl_step (vwasm_queue_store_new all_ok true) qs).2 =
  (run spec_step (Chans ∅ ∅) qs).2.
Proof.
  intros Hq. apply (run_sim impl_step spec_step sim_opt req_ok); [|eexists; split; [done|apply queue_sim_new]|done].
  intros s1 s2 q (s & -> & Hs) Hr. by apply sim_step.
Qed.

Lemma queues_refine_channels_witness :
  (run impl_step (vwasm_queue_store_new all_ok true)
     [Register (str "jobs"); Enqueue 1 (str "a"); Enqueue 1 []; Register (str "jobs");
      Register (str "x"); Resolve (str "x"); Dequeue 1; Dequeue 1; Dequeue 1; Enqueue 9 []]).2 =
  [Id 1; Code 0; Code 0; Id 1; Id 2; Id 2; Msg (Some (str "a")); Msg (Some []); Msg None;
   Code (-1)].
Proof.
  rewrite (queues_refine_channels
     [Register (str "jobs"); Enqueue 1 (str "a"); Enqueue 1 []; Register (str "jobs");
      Register (str "x"); Resolve (str "x"); Dequeue 1; Dequeue 1; Dequeue 1; Enqueue 9 []]).
  - vm_compute. reflexivity.
  - repeat (constructor; [first [by_decide|exact I]|]). constructor.
Defined.

(** Invariant: after any sequence of requests, with any bytes as names and
    whichever allocations fail, ids are distinct, lie between 1 and 64 and are
    handed out consecutively, the depth counter of each queue is its number of
    messages, at most 1024, and every message is stored with its own length,
    at most 64 KiB. *)
Theorem queue_histories_wf qs :
  exists s, (run serve (vwasm_queue_store_new all_ok true) qs).1 = Some s /\ wf_qs s.
Proof.
  apply (run_inv serve (fun o => exists s, o = Some s /\ wf_qs s)).
  - intros s q (s' & -> & Hwf). by apply serve_wf.
  - eexists. split; [done|]. apply queue_sim_new.
Qed.

(** A queue name with an embedded NUL is never found again: each
    registration of it creates a new queue, and resolving it answers 0. *)
Theorem nul_name_registered_afresh s name :
  ~ nul_free name -> len name <= VWASM_QUEUE_MAX_NAME -> next_id s < VWASM_QUEUE_MAX_COUNT ->
  1 <= next_id s ->
  exists s1 s2, vwasm_queue_register all_ok (Some s) (Some name) = (Some s1, next_id s) /\
    vwasm_queue_register all_ok (Some s1) (Some name) = (Some s2, next_id s + 1) /\
    vwasm_queue_resolve (Some s2) None (Some name) = 0.
Proof.
  intros Hn Hl Hid Hid1. unfold vwasm_queue_register, vwasm_queue_resolve.
  unfold VWASM_QUEUE_MAX_COUNT in *.
  destruct name as [|x name]; [by destruct Hn; constructor|].
  rewrite !find_name_nul by done. rewrite !(proj2 (Z.ltb_ge _ _)) by lia. simpl negb.
  cbn iota. eexists _, _. split; [done|]. rewrite !find_name_nul by done.
  cbn [next_id]. replace (u32 (next_id s + 1)) with (next_id s + 1) by zlia.
  rewrite !(proj2 (Z.ltb_ge _ _)) by lia. by split.
Qed.

Lemma nul_name_registered_afresh_witness :
  exists s1 s2, vwasm_queue_register all_ok (Some (QueueStore [] 1)) (Some [113; 0]) = (Some s1, 1) /\
    vwasm_queue_register all_ok (Some s1) (Some [113; 0]) = (Some s2, 2) /\
    vwasm_queue_resolve (Some s2) None (Some [113; 0]) = 0.
Proof.
  apply (nul_name_registered_afresh (QueueStore [] 1)); [|by_decide..].
  intros H. inversion_clear H as [|?? _ H']. inversion_clear H'. done.
Defined.
