(* ===== verification/Metrics.v ===== *)
(** * Metrics (src/proxy_wasm.h, src/proxy_wasm.c, src/vmod_wasm.c)

    The process-wide metric store is an array of 256 slots with a count, under
    a reader-writer lock.  The locked part of each Proxy-Wasm metric function
    is one operation here; the host functions around them are in [HostCalls].
    [vmod_get_metrics_json] renders the store into a buffer whose size it
    computes from the count. *)

From S2P Require Import Prelude.

(** ** Data *)

Definition VWASM_MAX_METRICS : Z := 256.
Definition VWASM_METRIC_MAX_NAME : Z := 128.
Definition PROXY_METRIC_COUNTER : Z := 0.
Definition PROXY_METRIC_GAUGE : Z := 1.
Definition PROXY_METRIC_HISTOGRAM : Z := 2.

(** [struct vwasm_metric]; [mt_name] is the whole 128-byte array. *)
Record metric := Metric { mt_name : bytes; mt_name_len : Z; mt_type : Z; mt_value : Z }.

(** [struct vwasm_metric_store] *)
Record metric_store := MetricStore { metrics : list metric; count : Z }.

(** [calloc]: every slot zero. *)
Definition metric_store_new : metric_store :=
  MetricStore (replicate 256 (Metric (replicate 128 0) 0 0 0)) 0.

Definition metric_at (s : metric_store) (i : Z) : outcome metric :=
  if i <? 0 then Fault
  else match metrics s !! Z.to_nat i with Some m => Done m | None => Fault end.

(** ** Operations under the lock *)

(** The loop over the defined metrics, from [i], with [n] slots left. *)
Fixpoint metric_scan (n : nat) (s : metric_store) (i : Z) (name_buf : bytes) (name_len : Z)
    : outcome (option Z) :=
  match n with
  | O => Done None
  | S n =>
      let! m := metric_at s i in
      if (mt_name_len m =? name_len) && memcmp_eq (mt_name m) name_buf (mt_name_len m)
      then Done (Some (i + 1))
      else metric_scan n s (i + 1) name_buf name_len
  end.

(** [None]: the store is full. *)
Definition metric_define (s : metric_store) (metric_type : Z) (name_buf : bytes)
    : outcome (metric_store * option Z) :=
  let! found := metric_scan (Z.to_nat (count s)) s 0 name_buf (len name_buf) in
  match found with
  | Some metric_id => Done (s, Some metric_id)
  | None =>
      if VWASM_MAX_METRICS <=? count s then Done (s, None)
      else
        let! m := metric_at s (count s) in
        let! name := wr (mt_name m) 0 name_buf in
        let m' := Metric name (len name_buf) metric_type 0 in
        Done (MetricStore (<[Z.to_nat (count s) := m']> (metrics s)) (u32 (count s + 1)),
              Some (count s + 1))
  end.

Definition set_value (s : metric_store) (i : Z) (m : metric) (v : Z) : metric_store :=
  MetricStore (<[Z.to_nat i := Metric (mt_name m) (mt_name_len m) (mt_type m) v]> (metrics s))
              (count s).

Definition INT64_MIN : Z := -9223372036854775808.

(** [-offset] overflows for the least [int64_t]. *)
Definition neg_i64 (x : Z) : outcome Z := if x =? INT64_MIN then Fault else Done (- x).

(** [false]: the id is not that of a metric. *)
Definition metric_increment (s : metric_store) (metric_id offset : Z)
    : outcome (metric_store * bool) :=
  if (metric_id =? 0) || (count s <? metric_id) then Done (s, false)
  else
    let! m := metric_at s (metric_id - 1) in
    let! v :=
      (if 0 <=? offset then Done (u64 (mt_value m + offset))
       else
         let! n := neg_i64 offset in
         Done (if u64 n <=? mt_value m then u64 (mt_value m - u64 n) else 0)) in
    Done (set_value s (metric_id - 1) m v, true).

Definition metric_record (s : metric_store) (metric_id value : Z)
    : outcome (metric_store * bool) :=
  if (metric_id =? 0) || (count s <? metric_id) then Done (s, false)
  else
    let! m := metric_at s (metric_id - 1) in
    Done (set_value s (metric_id - 1) m value, true).

Definition metric_get (s : metric_store) (metric_id : Z) : outcome (option Z) :=
  if (metric_id =? 0) || (count s <? metric_id) then Done None
  else
    let! m := metric_at s (metric_id - 1) in
    Done (Some (mt_value m)).

(** ** [vmod_get_metrics_json] *)

Definition quote : Z := 34.

Definition type_str (t : Z) : bytes :=
  if t =? PROXY_METRIC_COUNTER then str "counter"
  else if t =? PROXY_METRIC_GAUGE then str "gauge"
  else if t =? PROXY_METRIC_HISTOGRAM then str "histogram"
  else str "unknown".

(** The text of one metric; [%.*s] stops at [name_len] or at a NUL. *)
Definition metric_text (name : bytes) (name_len type value : Z) : bytes :=
  [quote] ++ cstr (take (Z.to_nat name_len) name) ++ [quote] ++ str ":{" ++
  [quote] ++ str "type" ++ [quote] ++ str ":" ++ [quote] ++ type_str type ++ [quote] ++
  str "," ++ [quote] ++ str "value" ++ [quote] ++ str ":" ++ dec value ++ str "}".

(** The loop of [vmod_get_metrics_json] over the [n] metrics from [i] on. *)
Fixpoint json_loop (n : nat) (s : metric_store) (i : Z) (buf_size : Z) (buf : bytes) (pos : Z)
    : outcome (bytes * Z) :=
  match n with
  | O => Done (buf, pos)
  | S n =>
      let! '(buf1, pos1) :=
        (if 0 <? i then
           let! b := wr buf pos (str ",") in Done (b, pos + 1)
         else Done (buf, pos)) in
      let! m := metric_at s i in
      let! '(buf2, n2) :=
        snprintf buf1 pos1 (u64 (buf_size - pos1))
          (metric_text (mt_name m) (mt_name_len m) (mt_type m) (mt_value m)) in
      json_loop n s (i + 1) buf_size buf2 (pos1 + n2)
  end.

(** [ws_copy] is Varnish's [WS_Copy] into the request workspace, [None] when
    the workspace is full; [malloc_ok] whether [malloc] succeeds, [uninit] the
    bytes it returns. *)
Definition vmod_get_metrics_json (ws_copy : bytes -> option bytes) (malloc_ok : bool)
    (uninit : nat -> bytes) (store : option metric_store) : outcome bytes :=
  match store with
  | None => Done (str "{}")
  | Some s =>
      if count s =? 0 then Done (str "{}")
      else
        let buf_size := u64 (2 + count s * 200) in
        if negb malloc_ok then Done (str "{}")
        else
          let! buf := wr (uninit (Z.to_nat buf_size)) 0 (str "{") in
          let! '(buf, pos) := json_loop (Z.to_nat (count s)) s 0 buf_size buf 1 in
          let! buf := wr buf pos (str "}") in
          let! buf := wr buf (pos + 1) [0] in
          let! text := rd buf 0 (pos + 2) in
          match ws_copy text with
          | None => Done (str "{}")
          | Some r => Done r
          end
  end.

(** ** Specification: a registry of named values, ids in order of definition *)

Abbreviation registry := (list (list Z * Z * Z)).   (** name, type, value *)

Inductive request :=
| Define (type : Z) (name : bytes)
| Increment (id offset : Z)
| Record_ (id value : Z)
| Get (id : Z).

Inductive response :=
| Id (id : option Z)
| Flag (b : bool)
| Val (v : option Z).

Fixpoint index_of (r : registry) (name : bytes) : option Z :=
  match r with
  | [] => None
  | (n, _, _) :: r => if bytes_eqb n name then Some 1 else option_map Z.succ (index_of r name)
  end.

(** Counters stop at zero when decremented and wrap when incremented. *)
Definition spec_increment (v offset : Z) : Z :=
  if 0 <=? offset then u64 (v + offset) else Z.max 0 (v + offset).

Definition spec_update (r : registry) (id : Z) (f : Z -> Z) : registry * bool :=
  if id <? 1 then (r, false)
  else
    match r !! Z.to_nat (id - 1) with
    | None => (r, false)
    | Some (n, t, v) => (<[Z.to_nat (id - 1) := (n, t, f v)]> r, true)
    end.

Definition spec_step (r : registry) (q : request) : registry * response :=
  match q with
  | Define t name =>
      match index_of r name with
      | Some id => (r, Id (Some id))
      | None =>
          if VWASM_MAX_METRICS <=? len r then (r, Id None)
          else (r ++ [(name, t, 0)], Id (Some (len r + 1)))
      end
  | Increment id off => let '(r', b) := spec_update r id (fun v => spec_increment v off) in (r', Flag b)
  | Record_ id v => let '(r', b) := spec_update r id (fun _ => v) in (r', Flag b)
  | Get id =>
      (r, Val (if id <? 1 then None
               else match r !! Z.to_nat (id - 1) with Some (_, _, v) => Some v | None => None end))
  end.

Definition impl_step (s : metric_store) (q : request) : outcome (metric_store * response) :=
  match q with
  | Define t name => let! '(s', id) := metric_define s t name in Done (s', Id id)
  | Increment id off => let! '(s', b) := metric_increment s id off in Done (s', Flag b)
  | Record_ id v => let! '(s', b) := metric_record s id v in Done (s', Flag b)
  | Get id => let! v := metric_get s id in Done (s, Val v)
  end.

(** What the host functions pass: a name shorter than 128 bytes, a 32-bit id, a
    64-bit operand other than the least one. *)
Definition req_ok (q : request) : Prop :=
  match q with
  | Define _ name => len name < VWASM_METRIC_MAX_NAME
  | Increment id off => is_u32 id /\ INT64_MIN < off <= 9223372036854775807
  | Record_ id v => is_u32 id /\ is_u64 v
  | Get id => is_u32 id
  end.

#[global] Arguments metric_define : simpl never.
#[global] Arguments metric_increment : simpl never.
#[global] Arguments metric_record : simpl never.
#[global] Arguments metric_get : simpl never.

(** * Properties *)

Definition wf_metric (m : metric) : Prop :=
  len (mt_name m) = VWASM_METRIC_MAX_NAME /\
  0 <= mt_name_len m < VWASM_METRIC_MAX_NAME /\ is_u64 (mt_value m).

Definition wf_metrics (s : metric_store) : Prop :=
  length (metrics s) = 256%nat /\ 0 <= count s <= VWASM_MAX_METRICS /\
  Forall wf_metric (metrics s).

Definition abs_metric (m : metric) : bytes * Z * Z :=
  (take (Z.to_nat (mt_name_len m)) (mt_name m), mt_type m, mt_value m).

Definition abs (s : metric_store) : registry :=
  abs_metric <$> take (Z.to_nat (count s)) (metrics s).

Definition sim (s : metric_store) (r : registry) : Prop := wf_metrics s /\ r = abs s.

Lemma metric_at_done s i m :
  0 <= i -> metrics s !! Z.to_nat i = Some m -> metric_at s i = Done m.
Proof. intros Hi Hm. unfold metric_at. by rewrite (proj2 (Z.ltb_ge i 0)), Hm by lia. Qed.

Lemma slot_exists s i :
  wf_metrics s -> 0 <= i < 256 ->
  exists m, metrics s !! Z.to_nat i = Some m /\ wf_metric m.
Proof.
  intros (Hl & _ & Hf) Hi.
  destruct (lookup_lt_is_Some_2 (metrics s) (Z.to_nat i)) as [m Hm]; [lia|].
  exists m. split; [done|]. exact (Forall_lookup_1 _ _ _ _ Hf Hm).
Qed.

Lemma len_abs s : wf_metrics s -> len (abs s) = count s.
Proof.
  intros (Hl & Hc & _). unfold abs, len, VWASM_MAX_METRICS in *.
  rewrite length_fmap, length_take. lia.
Qed.

Lemma abs_lookup s i m :
  0 <= i < count s -> metrics s !! Z.to_nat i = Some m ->
  abs s !! Z.to_nat i = Some (abs_metric m).
Proof.
  intros Hi Hm. unfold abs. rewrite list_lookup_fmap, lookup_take_lt by lia. by rewrite Hm.
Qed.

(** The comparison of the loop is equality of names. *)
Lemma scan_test m name :
  wf_metric m ->
  (mt_name_len m =? len name) && memcmp_eq (mt_name m) name (mt_name_len m) =
  bytes_eqb (abs_metric m).1.1 name.
Proof.
  intros (Hn & Hl & _). unfold memcmp_eq, abs_metric, bytes_eqb, VWASM_METRIC_MAX_NAME in *. simpl.
  destruct (mt_name_len m =? len name) eqn:E; btest; simpl.
  - rewrite E. by rewrite (take_ge name) by (unfold len; lia).
  - symmetry. apply bool_decide_eq_false. intros <-. destruct E.
    rewrite len_take; [done|lia].
Qed.

Lemma scan_spec n s i name :
  wf_metrics s -> 0 <= i -> i + Z.of_nat n <= 256 ->
  metric_scan n s i name (len name) =
  Done (Z.add i <$> index_of (abs_metric <$> take n (drop (Z.to_nat i) (metrics s))) name).
Proof.
  intros Hwf. revert i. induction n as [|n IH]; intros i Hi Hn; [done|].
  destruct (slot_exists s i Hwf) as (m & Hm & Hw); [lia|]. cbn [metric_scan].
  rewrite (metric_at_done _ _ _ Hi Hm). cbn [obind]. rewrite scan_test by done.
  rewrite (drop_S _ _ _ Hm). cbn [take fmap list_fmap index_of].
  destruct (abs_metric m) as [[nm t] v] eqn:E. simpl. destruct (bytes_eqb nm name); [done|].
  rewrite IH by lia. replace (Z.to_nat (i + 1)) with (S (Z.to_nat i)) by lia.
  f_equal. destruct (index_of _ _); simpl; [f_equal; lia|done].
Qed.

Lemma scan_all s name :
  wf_metrics s ->
  metric_scan (Z.to_nat (count s)) s 0 name (len name) = Done (index_of (abs s) name).
Proof.
  intros Hwf. pose proof Hwf as (_ & Hc & _). unfold VWASM_MAX_METRICS in *.
  rewrite scan_spec by (done || lia). unfold abs. rewrite drop_0. f_equal.
  by destruct (index_of _ _).
Qed.

(** Storing into a slot keeps the invariant. *)
Lemma wf_insert s i m c :
  wf_metrics s -> wf_metric m -> 0 <= c <= VWASM_MAX_METRICS ->
  wf_metrics (MetricStore (<[i := m]> (metrics s)) c).
Proof.
  intros (Hl & Hc & Hf) Hm Hc'. split_and!; simpl; [by rewrite length_insert|lia|lia|].
  by apply Forall_insert.
Qed.

Lemma define_sim s r t name :
  sim s r -> len name < VWASM_METRIC_MAX_NAME ->
  exists s', impl_step s (Define t name) = Done (s', (spec_step r (Define t name)).2) /\
             sim s' (spec_step r (Define t name)).1.
Proof.
  intros [Hwf ->] Hn. unfold impl_step, spec_step, metric_define.
  rewrite scan_all by done. cbn [obind].
  destruct (index_of (abs s) name) as [id|]; [by exists s|].
  rewrite (len_abs s Hwf). destruct (VWASM_MAX_METRICS <=? count s) eqn:E; btest; [by exists s|].
  pose proof Hwf as (Hl & Hc & _). unfold VWASM_MAX_METRICS in *.
  destruct (slot_exists s (count s) Hwf) as (m & Hm & Hw); [lia|].
  rewrite (metric_at_done _ _ _ (proj1 Hc) Hm). cbn [obind].
  pose proof Hw as (Hnm & _). unfold VWASM_METRIC_MAX_NAME in *.
  rewrite wr_done by lia. cbn [obind]. eexists. split; [done|].
  replace (u32 (count s + 1)) with (count s + 1) by zlia.
  pose proof (len_nonneg name). split; simpl.
  - apply wf_insert; [done| |unfold VWASM_MAX_METRICS; lia].
    unfold wf_metric, VWASM_METRIC_MAX_NAME, is_u64. simpl. rewrite len_upd by lia. lia.
  - unfold abs. cbn [metrics count].
    replace (Z.to_nat (count s + 1)) with (S (Z.to_nat (count s))) by lia.
    erewrite take_S_r by (apply list_lookup_insert_eq; lia).
    rewrite fmap_app, take_insert_ge by lia. f_equal.
    unfold abs_metric. cbn [list_fmap fmap mt_name mt_name_len mt_type mt_value].
    unfold upd. simpl. by rewrite take_app_length' by (unfold len; lia).
Qed.

(** An update through an id, on the array and in the registry. *)
Lemma update_sim s r id (f : Z -> Z) :
  sim s r -> is_u32 id -> (forall v, is_u64 v -> is_u64 (f v)) ->
  if (id =? 0) || (count s <? id) then spec_update r id f = (r, false)
  else exists m, metric_at s (id - 1) = Done m /\ is_u64 (mt_value m) /\
       (spec_update r id f).2 = true /\
       sim (set_value s (id - 1) m (f (mt_value m))) (spec_update r id f).1.
Proof.
  intros [Hwf ->] Hid Hf. pose proof Hwf as (Hl & Hc & _). unfold VWASM_MAX_METRICS in *.
  unfold spec_update. pose proof (len_abs s Hwf) as Hla.
  destruct ((id =? 0) || (count s <? id)) eqn:E; btest.
  - split_if; [done|].
    rewrite lookup_ge_None_2; [done|]. unfold len, is_u32 in *. destruct E; btest; lia.
  - unfold is_u32 in *. destruct (slot_exists s (id - 1) Hwf) as (m & Hm & Hw); [lia|].
    rewrite (proj2 (Z.ltb_ge id 1)) by lia.
    rewrite (abs_lookup s (id - 1) m) by (done || lia). simpl. exists m.
    pose proof Hw as (Hn & Hnl & Hv).
    split_and!; [apply metric_at_done; done || lia|exact Hv|done|].
    split; simpl.
    + apply wf_insert; [done| |unfold VWASM_MAX_METRICS; lia]. 
      split_and!; simpl; try apply Hnl; auto.
    + unfold abs, set_value. cbn [metrics count]. rewrite take_insert_lt by lia.
      by rewrite list_fmap_insert.
Qed.

Lemma spec_increment_u64 v off : is_u64 v -> INT64_MIN < off -> is_u64 (spec_increment v off).
Proof. unfold spec_increment, INT64_MIN. intros Hv Ho. split_if; unfold is_u64 in *; zlia. Qed.

Lemma metric_step_sim s r q :
  sim s r -> req_ok q ->
  exists s', impl_step s q = Done (s', (spec_step r q).2) /\ sim s' (spec_step r q).1.
Proof.
  intros Hs Hq. destruct q as [t name|id off|id v|id]; [by apply define_sim|..]; simpl in *.
  - destruct Hq as [Hid Ho]. unfold metric_increment.
    pose proof (update_sim s r id (fun v => spec_increment v off) Hs Hid) as Hu.
    specialize (Hu (fun v Hv => spec_increment_u64 v off Hv (proj1 Ho))).
    destruct ((id =? 0) || (count s <? id)); [exists s; by rewrite Hu|].
    destruct Hu as (m & -> & Hv & Hb & Hsim). cbn [obind].
    destruct (spec_update r id _) as [r' b]. simpl in *. subst b.
    eexists. split; [|exact Hsim]. unfold spec_increment, INT64_MIN, neg_i64 in *.
    destruct (0 <=? off) eqn:E; btest; simpl; [done|].
    rewrite (proj2 (Z.eqb_neq off INT64_MIN)) by (unfold INT64_MIN; lia). simpl.
    unfold is_u64 in *. replace (u64 (- off)) with (- off) by zlia.
    do 4 f_equal. split_if; zlia.
  - destruct Hq as [Hid Hv]. unfold metric_record.
    pose proof (update_sim s r id (fun _ => v) Hs Hid (fun _ _ => Hv)) as Hu.
    destruct ((id =? 0) || (count s <? id)); [exists s; by rewrite Hu|].
    destruct Hu as (m & -> & _ & Hb & Hsim). cbn [obind].
    destruct (spec_update r id _) as [r' b]. simpl in *. subst b. by eexists.
  - unfold metric_get.
    pose proof (update_sim s r id (fun v => v) Hs Hq (fun _ H => H)) as Hu.
    unfold spec_update in Hu. exists s. split; [|done].
    destruct ((id =? 0) || (count s <? id)).
    + destruct (id <? 1); [done|]. by destruct (r !! _) as [[[n t] v]|].
    + destruct Hu as (m & Em & _ & Hb & Hsim). rewrite Em. cbn [obind].
      destruct (id <? 1) eqn:E1; [done|]. btest. destruct Hs as [Hwf ->].
      destruct (abs s !! Z.to_nat (id - 1)) as [[[n t] v]|] eqn:El; [|done]. simpl.
      unfold metric_at in Em. rewrite (proj2 (Z.ltb_ge (id - 1) 0)) in Em by lia.
      destruct (metrics s !! Z.to_nat (id - 1)) as [m'|] eqn:Em'; [|done]. injection Em as ->.
      unfold abs in El. rewrite list_lookup_fmap in El.
      apply fmap_Some in El as (m'' & El & Ea). apply lookup_take_Some in El as [El _].
      unfold abs_metric in Ea. by simplify_eq.
Qed.

(** ** The JSON rendering *)

Fixpoint json_body (first : bool) (r : registry) : bytes :=
  match r with
  | [] => []
  | (n, t, v) :: r =>
      (if first then [] else str ",") ++ metric_text n (len n) t v ++ json_body false r
  end.

(** The document the registry denotes. *)
Definition json_of (r : registry) : bytes :=
  match r with
  | [] => str "{}"
  | _ => str "{" ++ json_body true r ++ str "}"
  end.

Lemma type_str_len t : len (type_str t) <= 9.
Proof. unfold type_str. repeat (split_if; [by vm_compute|]). by vm_compute. Qed.

(** A metric takes at most 179 bytes, so 200 with its comma are enough. *)
Lemma metric_text_len m :
  wf_metric m ->
  0 < len (metric_text (mt_name m) (mt_name_len m) (mt_type m) (mt_value m)) <= 179.
Proof.
  intros (Hn & Hl & _). unfold metric_text, VWASM_METRIC_MAX_NAME in *.
  pose proof (len_cstr_le (take (Z.to_nat (mt_name_len m)) (mt_name m))) as H1.
  rewrite len_take in H1 by lia. pose proof (type_str_len (mt_type m)).
  pose proof (dec_len (mt_value m)). pose proof (len_nonneg (type_str (mt_type m))).
  pose proof (len_nonneg (cstr (take (Z.to_nat (mt_name_len m)) (mt_name m)))).
  rewrite !len_app. change (len [quote]) with 1. change (len (str "{")) with 1.
  change (len (str ":{")) with 2. change (len (str "type")) with 4.
  change (len (str ":")) with 1. change (len (str ",")) with 1.
  change (len (str "value")) with 5. change (len (str "}")) with 1. lia.
Qed.

(** What [abs] keeps of a name is what the loop prints. *)
Lemma metric_text_abs m :
  wf_metric m ->
  let '(n, t, v) := abs_metric m in
  metric_text n (len n) t v = metric_text (mt_name m) (mt_name_len m) (mt_type m) (mt_value m).
Proof.
  intros (Hn & Hl & _). unfold abs_metric, metric_text, VWASM_METRIC_MAX_NAME in *.
  rewrite len_take by lia. rewrite take_take. do 3 f_equal. by rewrite Nat.min_id.
Qed.

(** One round of the loop appends at [pos]. *)
Lemma append_at (buf : bytes) pos (t : bytes) :
  0 <= pos -> pos + len t <= len buf ->
  take (Z.to_nat (pos + len t)) (upd buf pos t) = take (Z.to_nat pos) buf ++ t /\
  len (upd buf pos t) = len buf.
Proof. intros. split; [by apply take_upd_end|by apply len_upd]. Qed.

Lemma append_nul_at (buf : bytes) pos (t : bytes) :
  0 <= pos -> pos + len t + 1 <= len buf ->
  take (Z.to_nat (pos + len t)) (upd buf pos (t ++ [0])) = take (Z.to_nat pos) buf ++ t /\
  len (upd buf pos (t ++ [0])) = len buf.
Proof.
  intros Hp Ht. assert (len (t ++ [0]) = len t + 1) as Hl by by rewrite len_app.
  pose proof (len_nonneg t). split; [|apply len_upd; lia].
  pose proof (take_upd_end buf pos (t ++ [0]) Hp ltac:(lia)) as H1.
  apply (f_equal (take (Z.to_nat (pos + len t)))) in H1.
  rewrite take_take, Nat.min_l in H1 by lia. rewrite H1, app_assoc.
  apply take_app_length'. rewrite length_app, length_take. unfold len in *. lia.
Qed.

Lemma json_loop_spec n s i buf pos :
  wf_metrics s -> 0 <= i -> i + Z.of_nat n = count s ->
  len buf = 2 + count s * 200 -> 1 <= pos <= 1 + 180 * i ->
  exists buf', json_loop n s i (len buf) buf pos =
      Done (buf', pos + len (json_body (i =? 0) (drop (Z.to_nat i) (abs s)))) /\
    len buf' = len buf /\
    pos + len (json_body (i =? 0) (drop (Z.to_nat i) (abs s))) <= 1 + 180 * count s /\
    take (Z.to_nat (pos + len (json_body (i =? 0) (drop (Z.to_nat i) (abs s))))) buf' =
    take (Z.to_nat pos) buf ++ json_body (i =? 0) (drop (Z.to_nat i) (abs s)).
Proof.
  intros Hwf. pose proof Hwf as (Hl & Hc & _). unfold VWASM_MAX_METRICS in *.
  revert i buf pos. induction n as [|n IH]; intros i buf pos Hi Hn Hb Hp.
  { rewrite drop_ge by (pose proof (len_abs s Hwf); unfold len in *; lia).
    exists buf. simpl. change (len (@nil Z)) with 0. rewrite Z.add_0_r, app_nil_r. auto with lia. }
  destruct (slot_exists s i Hwf) as (m & Hm & Hw); [lia|].
  pose proof (abs_lookup s i m ltac:(lia) Hm) as Ha. rewrite (drop_S _ _ _ Ha).
  pose proof (metric_text_abs m Hw) as Ht. destruct (abs_metric m) as [[nm t] v].
  cbn [json_body json_loop]. rewrite Ht.
  pose proof (metric_text_len m Hw) as Hlen. clear Ht.
  assert (exists buf1 pos1,
    (if 0 <? i then let! b := wr buf pos (str ",") in Done (b, pos + 1) else Done (buf, pos))
      = Done (buf1, pos1) /\ len buf1 = len buf /\
    pos1 = pos + len (if i =? 0 then [] else str ",") /\
    take (Z.to_nat pos1) buf1 = take (Z.to_nat pos) buf ++ (if i =? 0 then [] else str ","))
    as (buf1 & pos1 & -> & Hb1 & Hp1 & Ht1).
  { destruct (0 <? i) eqn:E; btest.
    - rewrite (proj2 (Z.eqb_neq i 0)) by lia. change (len (str ",")) with 1.
      destruct (append_at buf pos (str ",")) as [E1 E2]; [lia|change (len (str ",")) with 1; lia|].
      rewrite wr_done by (change (len (str ",")) with 1; lia). by eexists _, _.
    - rewrite (proj2 (Z.eqb_eq i 0)) by lia. change (len (@nil Z)) with 0.
      eexists _, _. rewrite app_nil_r, Z.add_0_r. done. }
  assert (len (if i =? 0 then [] else str ",") <= (if decide (i = 0) then 0 else 1)) as Hcomma
    by (case_decide; [by subst|by rewrite (proj2 (Z.eqb_neq i 0))]).
  assert (pos <= pos1 <= 1 + 180 * i + 1) as Hpos1
    by (pose proof (len_nonneg (if i =? 0 then [] else str ",")); case_decide; lia).
  cbn [obind]. rewrite (metric_at_done _ _ _ Hi Hm). cbn [obind].
  set (T := metric_text (mt_name m) _ _ _) in *. clearbody T.
  rewrite <- Hb1. replace (u64 (len buf1 - pos1)) with (len buf1 - pos1) by zlia.
  rewrite snprintf_fits by lia. cbn [obind].
  destruct (append_nul_at buf1 pos1 T) as [E1 E2]; [lia|lia|].
  destruct (IH (i + 1) (upd buf1 pos1 (T ++ [0])) (pos1 + len T)) as (buf' & Ej & Hbl & Hbd & Et);
    [lia|lia|lia|case_decide; lia|].
  rewrite (proj2 (Z.eqb_neq (i + 1) 0)) in * by lia.
  replace (Z.to_nat (i + 1)) with (S (Z.to_nat i)) in * by lia.
  rewrite E2 in Ej. exists buf'. rewrite !len_app.
  replace (pos + _) with (pos1 + len T + len (json_body false (drop (S (Z.to_nat i)) (abs s))))
    by lia.
  split_and!; [exact Ej|lia|done|]. rewrite Et, E1, Ht1. by rewrite <- !app_assoc.
Qed.

Lemma json_spec ws_copy uninit s :
  wf_metrics s -> (forall n, length (uninit n) = n) ->
  vmod_get_metrics_json ws_copy true uninit (Some s) =
  Done (if count s =? 0 then str "{}" else default (str "{}") (ws_copy (json_of (abs s) ++ [0]))).
Proof.
  intros Hwf Hu. pose proof Hwf as (Hl & Hc & _). unfold VWASM_MAX_METRICS in *.
  unfold vmod_get_metrics_json. destruct (count s =? 0) eqn:E; btest; [done|]. cbn [negb].
  set (bs := u64 (2 + count s * 200)). assert (bs = 2 + count s * 200) as Hbs by (unfold bs; zlia).
  assert (len (uninit (Z.to_nat bs)) = bs) as Hlu by (unfold len; rewrite Hu; lia).
  rewrite wr_done; [|lia|change (len (str "{")) with 1; lia]. cbn [obind].
  assert (forall u, take (Z.to_nat 1) (upd u 0 (str "{")) = str "{") as H1 by done.
  specialize (H1 (uninit (Z.to_nat bs))).
  assert (len (upd (uninit (Z.to_nat bs)) 0 (str "{")) = bs) as Hb
    by (rewrite len_upd; [done|lia|change (len (str "{")) with 1; lia]).
  set (buf := upd _ _ _) in *. clearbody buf.
  destruct (json_loop_spec (Z.to_nat (count s)) s 0 buf 1 Hwf) as (buf' & Ej & Hbl & Hbd & Et);
    [lia|lia|lia|lia|].
  rewrite <- Hb, Ej. cbn [obind]. change (0 =? 0) with true in *. rewrite drop_0 in *.
  set (body := json_body true (abs s)) in *. set (pos := 1 + len body) in *.
  pose proof (len_nonneg body).
  destruct (append_at buf' pos (str "}")) as [F1 F2];
    [lia|change (len (str "}")) with 1; lia|]. change (len (str "}")) with 1 in F1.
  rewrite wr_done by (change (len (str "}")) with 1; lia). cbn [obind].
  set (buf2 := upd buf' pos (str "}")) in *. clearbody buf2.
  destruct (append_at buf2 (pos + 1) [0]) as [G1 G2]; [lia|change (len [0]) with 1; lia|].
  change (len [0]) with 1 in G1.
  rewrite wr_done by (change (len [0]) with 1; lia). cbn [obind].
  rewrite rd_done by lia. cbn [obind]. unfold sub. rewrite drop_0.
  replace (pos + 2) with (pos + 1 + 1) by lia. rewrite G1, F1, Et, H1.
  assert (json_of (abs s) = str "{" ++ body ++ str "}") as ->.
  { unfold json_of, body. destruct (abs s) eqn:Ea; [|done].
    pose proof (len_abs s Hwf) as Hla. rewrite Ea in Hla. by change (len (@nil Z)) with 0 in Hla. }
  rewrite <- !app_assoc. by destruct (ws_copy _).
Qed.

Lemma abs_new : sim metric_store_new [].
Proof.
  split; [|done]. split_and!; [done|done|done|].
  apply Forall_replicate. by split_and!.
Qed.

(** ** Claims *)

(** C21 Refinement: from a new store, every sequence of metric operations the
    host functions can issue (names under 128 bytes, 32-bit ids, 64-bit operands,
    but no increment by [INT64_MIN], whose negation overflows) runs without an
    out-of-bounds access and is answered as by a registry of at most 256 named
    values: one id per name, in order of first definition, increments that wrap
    around at 2^64 and decrements that stop at 0. *)
Theorem metrics_refine_registry qs :
  Forall req_ok qs ->
  exists s, run_o impl_step metric_store_new qs = Done (s, (run spec_step [] qs).2) /\
            wf_metrics s /\ abs s = (run spec_step [] qs).1.
Proof.
  intros Hq.
  destruct (run_o_sim impl_step spec_step sim req_ok metric_step_sim metric_store_new [] qs abs_new Hq)
    as (s & E & Hw & Hr).
  by exists s.
Qed.

Lemma metrics_refine_registry_witness :
  exists s, run_o impl_step metric_store_new
     [Define 0 (str "hits"); Increment 1 5; Define 1 (str "hits"); Increment 1 (-7); Get 1;
      Record_ 2 3; Get 0] =
    Done (s, [Id (Some 1); Flag true; Id (Some 1); Flag true; Val (Some 0); Flag false; Val None]).
Proof.
  destruct (metrics_refine_registry
     [Define 0 (str "hits"); Increment 1 5; Define 1 (str "hits"); Increment 1 (-7); Get 1;
      Record_ 2 3; Get 0]) as (s & E & _).
  - repeat (constructor; [vm_compute; by split_and?|]). constructor.
  - exists s. rewrite E. vm_compute. reflexivity.
Defined.

(** C31 The JSON buffer is large enough: for every store the metric functions
    can build, [vmod_get_metrics_json] stays inside the [2 + 200 * count] bytes
    it allocates, and the string it hands to the workspace is the complete JSON
    document of the registry with its terminator. *)
Theorem metrics_json_exact ws_copy uninit s :
  wf_metrics s -> (forall n, length (uninit n) = n) ->
  vmod_get_metrics_json ws_copy true uninit (Some s) =
  Done (if count s =? 0 then str "{}" else default (str "{}") (ws_copy (json_of (abs s) ++ [0]))).
Proof. apply json_spec. Qed.

Lemma metrics_json_exact_witness :
  exists s, metric_define metric_store_new 0 (str "ab") = Done (s, Some 1) /\
  vmod_get_metrics_json Some true (fun n => replicate n 7) (Some s) =
  Done (str "{" ++ [quote] ++ str "ab" ++ [quote] ++ str ":{" ++ [quote] ++ str "type" ++ [quote]
        ++ str ":" ++ [quote] ++ str "counter" ++ [quote] ++ str "," ++ [quote] ++ str "value"
        ++ [quote] ++ str ":0}}" ++ [0]).
Proof.
  destruct (define_sim metric_store_new [] 0 (str "ab") abs_new) as (s & E & Hw & Ha); [by_decide|].
  unfold impl_step in E. destruct (metric_define _ _ _) as [[s' i]|] eqn:Ed; [|done].
  cbn [obind] in E. assert (s' = s /\ i = Some 1) as [-> ->] by (vm_compute in E; naive_solver).
  exists s. split; [done|].
  rewrite (metrics_json_exact Some (fun n => replicate n 7) s Hw (fun n => length_replicate n 7)).
  rewrite <- Ha, <- (len_abs s Hw), <- Ha. vm_compute. reflexivity.
Defined.
