(* ===== verification/Ctx.v ===== *)
(** * The Proxy-Wasm execution context (src/proxy_wasm.h)

    [struct vwasm_proxy_ctx], grouped into sub-records by the functions that
    change them, with the tick timers of the engine it points to.  A pointer
    with its length is [option bytes]; a pointer into another buffer is an
    offset; the global stores are the objects the context points to. *)

From S2P Require Import Prelude Mem SharedData SharedQueue Metrics.

(** ** Status codes, map types, buffer types *)

Definition PROXY_OK : Z := 0.
Definition PROXY_NOT_FOUND : Z := 1.
Definition PROXY_BAD_ARGUMENT : Z := 2.
Definition PROXY_SERIALIZATION : Z := 3.
Definition PROXY_PARSE_FAILURE : Z := 4.
Definition PROXY_EMPTY : Z := 7.
Definition PROXY_CAS_MISMATCH : Z := 8.
Definition PROXY_INTERNAL : Z := 10.
Definition PROXY_UNIMPLEMENTED : Z := 12.

Definition PROXY_LOG_DEBUG : Z := 1.
Definition PROXY_LOG_INFO : Z := 2.
Definition PROXY_LOG_WARN : Z := 3.

Definition PROXY_MAP_HTTP_REQUEST_HEADERS : Z := 0.
Definition PROXY_MAP_HTTP_REQUEST_TRAILERS : Z := 1.
Definition PROXY_MAP_HTTP_RESPONSE_HEADERS : Z := 2.
Definition PROXY_MAP_HTTP_RESPONSE_TRAILERS : Z := 3.
Definition PROXY_MAP_GRPC_CALL_INITIAL_MD : Z := 4.
Definition PROXY_MAP_GRPC_CALL_TRAILING_MD : Z := 5.
Definition PROXY_MAP_HTTP_CALL_RESP_HEADERS : Z := 6.
Definition PROXY_MAP_HTTP_CALL_RESP_TRAILERS : Z := 7.

Definition PROXY_BUFFER_HTTP_REQUEST_BODY : Z := 0.
Definition PROXY_BUFFER_HTTP_RESPONSE_BODY : Z := 1.
Definition PROXY_BUFFER_DOWNSTREAM_DATA : Z := 2.
Definition PROXY_BUFFER_UPSTREAM_DATA : Z := 3.
Definition PROXY_BUFFER_HTTP_CALL_BODY : Z := 4.
Definition PROXY_BUFFER_GRPC_RECV_MSG : Z := 5.
Definition PROXY_BUFFER_VM_CONFIGURATION : Z := 6.
Definition PROXY_BUFFER_PLUGIN_CONFIG : Z := 7.
Definition PROXY_BUFFER_FOREIGN_FUNC_ARGS : Z := 8.

(** ** Varnish as the context sees it

    [struct http]: header lines, each a NUL-terminated string or NULL; the
    first [HTTP_HDR_FIRST] slots hold the parts of the first line.  The
    numbering of those slots and the operations on them are Varnish's. *)

Record http := Http { hd : list (option bytes); nhd : Z }.

Inductive vsl_tag := SLT_Debug | SLT_VCL_Log | SLT_Error.

Record vrt_ctx := VrtCtx {
  http_req : option http;
  http_resp : option http;
  http_beresp : option http;
  vsl : option (list (vsl_tag * bytes))     (** the records logged, [None] for NULL *)
}.

(** Varnish's part: the slots of the first line and the operations on header
    lines.  A [hdr_t] is a length byte followed by the name, a colon and NUL. *)
Class Varnish : Type := {
  HTTP_HDR_METHOD : Z;
  HTTP_HDR_URL : Z;
  HTTP_HDR_STATUS : Z;
  HTTP_HDR_FIRST : Z;
  http_GetHdr : http -> bytes -> option bytes;
  http_Unset : http -> bytes -> http;
  http_SetHeader : http -> bytes -> http
}.

(** The bytes of all the lines. *)
Definition lines_bytes (l : list (option bytes)) : Z :=
  foldr (fun x acc => len (default [] x) + acc) 0 l.

(** What the host functions rely on.  [http_ok] is Varnish's invariant of a
    header object: it stays within its array, whose index has 16 bits, and its
    lines fit a workspace. *)
Class VarnishLaws `{Varnish} : Type := {
  http_ok : http -> Prop;
  hdr_method_lt : 0 <= HTTP_HDR_METHOD < HTTP_HDR_FIRST;
  hdr_url_lt : 0 <= HTTP_HDR_URL < HTTP_HDR_FIRST;
  hdr_status_lt : 0 <= HTTP_HDR_STATUS < HTTP_HDR_FIRST;
  http_ok_bounds hp : http_ok hp ->
    HTTP_HDR_FIRST <= nhd hp <= len (hd hp) /\ len (hd hp) <= 65535 /\
    lines_bytes (hd hp) <= 268435456;
  http_ok_clear hp l : http_ok hp -> length l = length (hd hp) ->
    (forall i x, l !! i = Some (Some x) -> hd hp !! i = Some (Some x)) ->
    http_ok (Http l HTTP_HDR_FIRST);
  http_Unset_ok hp h : http_ok hp -> http_ok (http_Unset hp h);
  http_SetHeader_ok hp h : http_ok hp -> http_ok (http_SetHeader hp h);
  http_GetHdr_small hp h v : http_ok hp -> http_GetHdr hp h = Some v -> len v <= 268435456
}.

(** ** HTTP call responses *)

(** [struct vwasm_http_call_response]: [r_body] is the offset of [body] in
    [raw_buf]. *)
Record call_response := CallResponse {
  raw_buf : option bytes;
  r_body : option Z;
  r_body_len : Z;
  num_headers : Z;
  r_valid : bool
}.

(** The bytes [body .. body + body_len). *)
Definition call_body (r : call_response) : option bytes :=
  match raw_buf r, r_body r with
  | Some raw, Some off => Some (sub raw off (r_body_len r))
  | _, _ => None
  end.

(** [struct vwasm_trailer_entry]: name and value with their lengths. *)
Record trailer_entry := TrailerEntry { t_name : bytes; t_value : bytes }.

(** [struct vwasm_trailer_map]: the entries below [count]. *)
Abbreviation trailer_map := (list trailer_entry).

Definition VWASM_MAX_TRAILERS : Z := 32.

(** ** The tick timers of the engine (src/wasm_engine.c) *)

Definition MAX_MODULES : Z := 64.

(** The names of the loaded modules, and per module the period of its running
    timer. *)
Record tick_engine := TickEngine { module_names : list bytes; tick_timers : list (option Z) }.

Fixpoint find_module_from (l : list bytes) (i : Z) (name : bytes) : option Z :=
  match l with
  | [] => None
  | n :: l => if strcmp_eq n name then Some i else find_module_from l (i + 1) name
  end.

Definition find_module (e : tick_engine) (name : bytes) : option Z :=
  find_module_from (module_names e) 0 name.

(** [caller]: the module whose tick thread executes the call, [None] on a
    worker thread.  A tick thread that stops its own timer frees the structure
    its loop reads next. *)
Definition vwasm_engine_set_tick_period (ok : oracle) (thread_ok : bool) (caller : option Z)
    (engine : option tick_engine) (module_name : option bytes) (period_ms : Z)
    : outcome (option tick_engine * Z) :=
  match engine, module_name with
  | None, _ | _, None => Done (engine, -1)
  | Some e, Some name =>
      match find_module e name with
      | None => Done (engine, -1)
      | Some idx =>
          if (idx <? 0) || (MAX_MODULES <=? idx) then Done (engine, -1)
          else
            let stop (e : tick_engine) : outcome tick_engine :=
              match tick_timers e !! Z.to_nat idx with
              | None => Fault
              | Some None => Done e
              | Some (Some _) =>
                  if bool_decide (caller = Some idx) then Fault
                  else Done (TickEngine (module_names e)
                               (<[Z.to_nat idx := None]> (tick_timers e)))
              end in
            let! e := stop e in
            if period_ms =? 0 then Done (Some e, 0)
            else if negb (ok 0%nat) then Done (Some e, -1)
            else if negb thread_ok then Done (Some e, -1)
            else Done (Some (TickEngine (module_names e)
                               (<[Z.to_nat idx := Some period_ms]> (tick_timers e))), 0)
      end
  end.

(** ** The context *)

Record local_response := LocalResponse {
  local_response_set : bool;
  local_response_code : Z;
  local_response_body : option bytes;
  local_response_body_len : Z;
  local_response_headers : option bytes;
  local_response_headers_len : Z
}.

Record bodies := Bodies {
  request_body : option bytes;
  request_body_heap : bool;
  response_body : option bytes;
  response_body_heap : bool;
  modified_body : option bytes;
  body_modified : bool
}.

Record stores := Stores {
  c_shared_data : option shared_data;
  c_queue_store : option queue_store;
  c_metric_store : option metric_store
}.

Record calls := Calls {
  http_calls : gmap Z call_response;
  http_call_next_token : Z;
  active_http_call : option call_response;
  http_call_count : Z
}.

Record stream := Stream { tick_period_ms : Z; paused : bool; done_ : bool }.

(** Fields no host function writes. *)
Record config := Config {
  root_context_id : Z;
  stream_context_id : Z;
  module_name : option bytes;
  vm_config : option bytes;
  plugin_config : option bytes;
  last_status_code : Z;
  last_status_msg : option bytes;
  http_call_max : Z;
  http_timeout_ms : Z;
  allowed_upstreams : option (list bytes)
}.

Record pctx := PCtx {
  cfg : config;
  vrt : option vrt_ctx;
  engine : option tick_engine;
  w : wctx;
  local : local_response;
  bod : bodies;
  st : stores;
  cl : calls;
  strm : stream;
  request_trailers : trailer_map;
  response_trailers : trailer_map
}.

Definition set_w (c : pctx) (x : wctx) : pctx :=
  PCtx (cfg c) (vrt c) (engine c) x (local c) (bod c) (st c) (cl c) (strm c)
       (request_trailers c) (response_trailers c).
Definition set_vrt (c : pctx) (x : option vrt_ctx) : pctx :=
  PCtx (cfg c) x (engine c) (w c) (local c) (bod c) (st c) (cl c) (strm c)
       (request_trailers c) (response_trailers c).
Definition set_engine (c : pctx) (x : option tick_engine) : pctx :=
  PCtx (cfg c) (vrt c) x (w c) (local c) (bod c) (st c) (cl c) (strm c)
       (request_trailers c) (response_trailers c).
Definition set_local (c : pctx) (x : local_response) : pctx :=
  PCtx (cfg c) (vrt c) (engine c) (w c) x (bod c) (st c) (cl c) (strm c)
       (request_trailers c) (response_trailers c).
Definition set_bod (c : pctx) (x : bodies) : pctx :=
  PCtx (cfg c) (vrt c) (engine c) (w c) (local c) x (st c) (cl c) (strm c)
       (request_trailers c) (response_trailers c).
Definition set_st (c : pctx) (x : stores) : pctx :=
  PCtx (cfg c) (vrt c) (engine c) (w c) (local c) (bod c) x (cl c) (strm c)
       (request_trailers c) (response_trailers c).
Definition set_cl (c : pctx) (x : calls) : pctx :=
  PCtx (cfg c) (vrt c) (engine c) (w c) (local c) (bod c) (st c) x (strm c)
       (request_trailers c) (response_trailers c).
Definition set_strm (c : pctx) (x : stream) : pctx :=
  PCtx (cfg c) (vrt c) (engine c) (w c) (local c) (bod c) (st c) (cl c) x
       (request_trailers c) (response_trailers c).
Definition set_trailers (c : pctx) (rq rs : trailer_map) : pctx :=
  PCtx (cfg c) (vrt c) (engine c) (w c) (local c) (bod c) (st c) (cl c) (strm c) rq rs.

(** ** Cleanup (src/proxy_wasm.c) *)

Definition vwasm_trailer_map_cleanup (tm : trailer_map) : trailer_map := [].

Definition vwasm_proxy_ctx_cleanup (c : pctx) : pctx :=
  let k := cl c in
  let b := bod c in
  let l := local c in
  let free_body (body : option bytes) (heap : bool) :=
    match body with
    | Some _ => if heap then None else body
    | None => None
    end in
  let b' :=
    Bodies (free_body (request_body b) (request_body_heap b)) (request_body_heap b)
           (free_body (response_body b) (response_body_heap b)) (response_body_heap b)
           None
           (match modified_body b with Some _ => false | None => body_modified b end) in
  let l' :=
    LocalResponse (local_response_set l) (local_response_code l)
      None (match local_response_body l with Some _ => 0 | None => local_response_body_len l end)
      None (match local_response_headers l with
            | Some _ => 0 | None => local_response_headers_len l end) in
  set_trailers
    (set_local (set_bod (set_cl c (Calls ∅ (http_call_next_token k) (active_http_call k)
                                          (http_call_count k))) b') l')
    (vwasm_trailer_map_cleanup (request_trailers c))
    (vwasm_trailer_map_cleanup (response_trailers c)).

(** * Well-formed contexts *)

(** A limit on linear memory, which the guest cannot exceed by growing. *)
Class MemLimit `{Guest} (M : Z) : Prop := {
  limit_lt : 1 <= M <= 4294901760;      (** fewer than 65536 pages *)
  malloc_limit m n :
    (forall b, m = Some b -> len b <= M) ->
    forall b, (guest_malloc m n).1 = Some b -> len b <= M
}.

Section Wf.
Context `{G : Guest} `{V : Varnish} `{VL : !VarnishLaws} (M : Z).

Definition mem_le (m : option bytes) : Prop := forall b, m = Some b -> len b <= M.

Definition small (b : option bytes) : Prop := len (default [] b) < 4294967296.

Definition wf_stores (s : stores) : Prop :=
  (forall sd, c_shared_data s = Some sd -> wf_store sd) /\
  (forall qs, c_queue_store s = Some qs -> wf_qs qs) /\
  (forall ms, c_metric_store s = Some ms -> wf_metrics ms).

Definition wf_config (k : config) : Prop :=
  small (vm_config k) /\ small (plugin_config k) /\ small (last_status_msg k).

(** The body lies inside the raw buffer, which is at most 256 KiB. *)
Definition wf_response (r : call_response) : Prop :=
  len (default [] (raw_buf r)) <= 262144 /\
  match raw_buf r, r_body r with
  | Some raw, Some off => 0 <= off /\ 0 <= r_body_len r /\ off + r_body_len r <= len raw
  | _, _ => r_body_len r = 0
  end.

Definition wf_calls (k : calls) : Prop :=
  map_Forall (fun t r => wf_response r /\ 1 <= t <= http_call_next_token k) (http_calls k) /\
  0 <= http_call_next_token k /\
  (forall r, active_http_call k = Some r -> wf_response r).

Definition wf_ticks (e : option tick_engine) : Prop :=
  forall e', e = Some e' -> length (tick_timers e') = 64%nat.

Definition wf_vrt (v : option vrt_ctx) : Prop :=
  forall v', v = Some v' ->
    (forall hp, http_req v' = Some hp -> http_ok hp) /\
    (forall hp, http_resp v' = Some hp -> http_ok hp) /\
    (forall hp, http_beresp v' = Some hp -> http_ok hp).

Definition wf_trailers (tm : trailer_map) : Prop :=
  len tm <= VWASM_MAX_TRAILERS /\
  Forall (fun t => len (t_name t) < 256 /\ len (t_value t) < 4096) tm.

(** The invariant of a context between host calls. *)
Definition wf_ctx (c : pctx) : Prop :=
  mem_le (memory (w c)) /\ wf_stores (st c) /\ wf_config (cfg c) /\ wf_calls (cl c) /\
  wf_ticks (engine c) /\ wf_vrt (vrt c) /\
  wf_trailers (request_trailers c) /\ wf_trailers (response_trailers c).

(** The bodies have at most [n] bytes, and at most [n] tokens were issued. *)
Definition within (n : Z) (c : pctx) : Prop :=
  len (default [] (request_body (bod c))) <= n /\
  len (default [] (response_body (bod c))) <= n /\
  len (default [] (modified_body (bod c))) <= n /\
  http_call_next_token (cl c) <= n.
End Wf.

Lemma call_body_small r : wf_response r -> small (call_body r).
Proof.
  intros [Hs Hb]. unfold call_body, small in *.
  destruct (raw_buf r) as [raw|], (r_body r) as [off|]; simpl in *; try (unfold len; simpl; lia).
  rewrite len_sub by lia. lia.
Qed.

Lemma tick_period_safe ok thread_ok engine name period :
  wf_ticks engine ->
  exists e' r, vwasm_engine_set_tick_period ok thread_ok None engine name period = Done (e', r) /\
               wf_ticks e'.
Proof.
  intros Hw. unfold vwasm_engine_set_tick_period.
  destruct engine as [e|]; [|by eexists _, _]. destruct name as [name|]; [|by eexists _, _].
  destruct (find_module e name) as [idx|]; [|by eexists _, _].
  split_if; [by eexists _, _|]. unfold MAX_MODULES in *. specialize (Hw e eq_refl).
  destruct (lookup_lt_is_Some_2 (tick_timers e) (Z.to_nat idx)) as [t Ht]; [lia|]. rewrite Ht.
  destruct t as [p|]; cbn [obind]; repeat split_if; try discriminate; eexists _, _; (split; [done|]);
    intros e'' He; simplify_eq; simpl; by rewrite ?length_insert.
Qed.
