(* ===== verification/HostCalls.v ===== *)
(** * Host functions of src/proxy_wasm.c

    The imports of the [env] namespace other than headers, properties and HTTP
    calls.  A host function receives the Wasm arguments as a list (an [i32] as
    a signed value) and produces the context afterwards and the status in
    [results[0]]; reading a missing argument faults, so that the arities of the
    import table matter. *)

From S2P Require Import Prelude Mem SharedData SharedQueue Metrics Ctx.

(** What a call takes from its surroundings: the outcomes of its allocations
    and of [pthread_create], the tick thread it runs on, and the clock. *)
Record env := Env {
  ok : oracle;
  thread_ok : bool;
  caller : option Z;
  tv_sec : Z;
  tv_nsec : Z;
  uninit : nat -> bytes           (** the bytes [malloc] returns *)
}.

(** A call from a worker thread. *)
Definition wf_env (e : env) : Prop :=
  caller e = None /\ forall n, length (uninit e n) = n.

Section Handlers.
Context `{G : Guest}.

(** The memory helpers on the context. *)
Definition read_string (c : pctx) (ptr n bufsz : Z) : outcome (option bytes) :=
  pw_read_string (w c) ptr n bufsz.

Definition write_u32 (c : pctx) (off v : Z) : outcome (pctx * Z) :=
  let! '(w', r) := pw_write_u32 (w c) off v in Done (set_w c w', r).

Definition return_bytes (c : pctx) (data : option bytes) (o1 o2 : Z) : outcome (pctx * Z) :=
  let! '(w', r) := pw_return_bytes (w c) data o1 o2 in Done (set_w c w', r).

(** [if (call != 0) { results[0].of.i32 = code; return; } ... PROXY_OK] *)
Definition status (r code : Z) : Z := if r =? 0 then PROXY_OK else code.

(** ** Logging *)

Definition pw_proxy_log (e : env) (c : pctx) (args : list Z) : outcome (pctx * Z) :=
  match args with
  | level :: a1 :: a2 :: _ =>
      match vrt c with
      | None => Done (c, PROXY_INTERNAL)
      | Some v =>
          let! s := read_string c (u32 a1) (u32 a2) 4096 in
          match s with
          | None => Done (c, PROXY_BAD_ARGUMENT)
          | Some buf =>
              let buf := cstr buf in
              match vsl v with
              | None => Done (c, PROXY_OK)
              | Some l =>
                  let mod_ := match module_name (cfg c) with Some m => cstr m | None => str "?" end in
                  let rec :=
                    if level <=? PROXY_LOG_INFO
                    then (SLT_Debug, str "[wasm:" ++ mod_ ++ str "] " ++ buf)
                    else if level <=? PROXY_LOG_WARN
                    then (SLT_Debug, str "[wasm:" ++ mod_ ++ str "] WARN: " ++ buf)
                    else (SLT_Error, str "[wasm:" ++ mod_ ++ str "] " ++ buf) in
                  Done (set_vrt c (Some (VrtCtx (http_req v) (http_resp v) (http_beresp v)
                                               (Some (l ++ [rec])))), PROXY_OK)
              end
          end
      end
  | _ => Fault
  end.

Definition pw_proxy_get_log_level (e : env) (c : pctx) (args : list Z) : outcome (pctx * Z) :=
  match args with
  | a0 :: _ =>
      let! '(c, r) := write_u32 c (u32 a0) PROXY_LOG_DEBUG in
      Done (c, status r PROXY_BAD_ARGUMENT)
  | _ => Fault
  end.

(** ** Local response *)

(** [memcpy] of a guest region into a fresh buffer of [size] bytes, then the
    bytes [tail] after it. *)
Definition copy_out (c : pctx) (ptr n size : Z) (tail : bytes) : outcome bytes :=
  let! s := mem_read (w c) (pw_mem_ptr (w c) ptr) n in
  if len s + len tail <=? size then Done s else Fault.

Definition pw_proxy_send_local_response (e : env) (c : pctx) (args : list Z)
    : outcome (pctx * Z) :=
  match args with
  | a0 :: _ :: _ :: a3 :: a4 :: a5 :: a6 :: _ :: _ =>
      let l := local c in
      let body_ptr := u32 a3 in
      let body_size := u32 a4 in
      let! '(body, body_len) :=
        (if (0 <? body_size) && pw_validate_region (w c) body_ptr body_size then
           if ok e 0%nat then
             let! s := copy_out c body_ptr body_size (u32 (body_size + 1)) [0] in
             Done (Some s, body_size)
           else Done (None, local_response_body_len l)
         else Done (local_response_body l, local_response_body_len l)) in
      let headers_ptr := u32 a5 in
      let headers_size := u32 a6 in
      let! '(headers, headers_len) :=
        (if (0 <? headers_size) && pw_validate_region (w c) headers_ptr headers_size then
           if ok e 1%nat then
             let! s := copy_out c headers_ptr headers_size headers_size [] in
             Done (Some s, headers_size)
           else Done (None, local_response_headers_len l)
         else Done (local_response_headers l, local_response_headers_len l)) in
      Done (set_local c (LocalResponse true a0 body body_len headers headers_len), PROXY_OK)
  | _ => Fault
  end.

(** ** Time, context and stream control *)

Definition pw_proxy_get_current_time (e : env) (c : pctx) (args : list Z) : outcome (pctx * Z) :=
  match args with
  | a0 :: _ =>
      let nanos := u64 (u64 (tv_sec e) * 1000000000 + u64 (tv_nsec e)) in
      if negb (pw_validate_region (w c) (u32 a0) 8) then Done (c, PROXY_BAD_ARGUMENT)
      else
        let! w' := mem_write (w c) (pw_mem_ptr (w c) (u32 a0)) (le_bytes 8 nanos) in
        Done (set_w c w', PROXY_OK)
  | _ => Fault
  end.

Definition pw_stub_not_found (e : env) (c : pctx) (args : list Z) : outcome (pctx * Z) :=
  Done (c, PROXY_NOT_FOUND).

Definition pw_proxy_set_effective_context (e : env) (c : pctx) (args : list Z)
    : outcome (pctx * Z) :=
  match args with
  | a0 :: _ =>
      let context_id := u32 a0 in
      if (context_id =? root_context_id (cfg c)) || (context_id =? stream_context_id (cfg c))
      then Done (c, PROXY_OK) else Done (c, PROXY_BAD_ARGUMENT)
  | _ => Fault
  end.

Definition pw_proxy_set_tick_period (e : env) (c : pctx) (args : list Z) : outcome (pctx * Z) :=
  match args with
  | a0 :: _ =>
      let period_ms := u32 a0 in
      let c := set_strm c (Stream period_ms (paused (strm c)) (done_ (strm c))) in
      match engine c, module_name (cfg c) with
      | Some eng, Some name =>
          let! '(eng', r) := vwasm_engine_set_tick_period (ok e) (thread_ok e) (caller e)
                               (Some eng) (Some name) period_ms in
          Done (set_engine c eng', status r PROXY_INTERNAL)
      | _, _ => Done (c, PROXY_OK)
      end
  | _ => Fault
  end.

Definition pw_proxy_continue_stream (e : env) (c : pctx) (args : list Z) : outcome (pctx * Z) :=
  Done (set_strm c (Stream (tick_period_ms (strm c)) false (done_ (strm c))), PROXY_OK).

Definition pw_proxy_close_stream (e : env) (c : pctx) (args : list Z) : outcome (pctx * Z) :=
  Done (set_strm c (Stream (tick_period_ms (strm c)) (paused (strm c)) true), PROXY_OK).

Definition pw_proxy_done (e : env) (c : pctx) (args : list Z) : outcome (pctx * Z) :=
  Done (set_strm c (Stream (tick_period_ms (strm c)) (paused (strm c)) true), PROXY_OK).

(** ** Buffers *)

Definition SIZE_MAX : Z := 18446744073709551615.

(** The splice of [value] over [replace_len] bytes of [base] at [start];
    [None]: returns -1. *)
Definition pw_replace_bytes (malloc_ok : bool) (base : option bytes) (start replace_len : Z)
    (value : option bytes) (value_len : Z) : outcome (option (option bytes)) :=
  let base_len := len (default [] base) in
  let start := if base_len <? start then u32 base_len else start in
  let prefix_len := start in
  let replace_len :=
    if base_len - prefix_len <? replace_len then u32 (base_len - prefix_len) else replace_len in
  let suffix_offset := prefix_len + replace_len in
  let suffix_len := base_len - suffix_offset in
  if (SIZE_MAX - prefix_len <? value_len) || (SIZE_MAX - suffix_len <? prefix_len + value_len)
  then Done None
  else
    let new_len := prefix_len + value_len + suffix_len in
    if 0 <? new_len then
      if negb malloc_ok then Done None
      else
        let! prefix := rd (default [] base) 0 prefix_len in
        let! middle := rd (default [] value) 0 value_len in
        let! suffix := rd (default [] base) suffix_offset suffix_len in
        Done (Some (Some (prefix ++ middle ++ suffix)))
    else Done (Some None).

(** [active_http_call != NULL && active_http_call->response.valid] *)
Definition active_response (c : pctx) : option call_response :=
  match active_http_call (cl c) with
  | Some r => if r_valid r then Some r else None
  | None => None
  end.

(** The switch of the buffer functions: the bytes of a readable buffer, or the
    status to return. *)
Definition select_buffer (c : pctx) (buffer_type : Z) : option bytes + Z :=
  let b := bod c in
  if buffer_type =? PROXY_BUFFER_VM_CONFIGURATION then inl (vm_config (cfg c))
  else if buffer_type =? PROXY_BUFFER_PLUGIN_CONFIG then inl (plugin_config (cfg c))
  else if buffer_type =? PROXY_BUFFER_HTTP_CALL_BODY then
    match active_response c with
    | Some r => inl (call_body r)
    | None => inr PROXY_NOT_FOUND
    end
  else if buffer_type =? PROXY_BUFFER_HTTP_REQUEST_BODY then
    inl (if body_modified b then modified_body b else request_body b)
  else if buffer_type =? PROXY_BUFFER_HTTP_RESPONSE_BODY then
    inl (if body_modified b then modified_body b else response_body b)
  else if (buffer_type =? PROXY_BUFFER_DOWNSTREAM_DATA)
       || (buffer_type =? PROXY_BUFFER_UPSTREAM_DATA)
       || (buffer_type =? PROXY_BUFFER_GRPC_RECV_MSG)
       || (buffer_type =? PROXY_BUFFER_FOREIGN_FUNC_ARGS) then inr PROXY_NOT_FOUND
  else inr PROXY_BAD_ARGUMENT.

(** Apply [start] and [max_size]. *)
Definition buffer_window (data : option bytes) (start max_size : Z) : option bytes :=
  match data with
  | None => None
  | Some d =>
      if start <? len d then
        let d := drop (Z.to_nat start) d in
        Some (if (0 <? max_size) && (max_size <? len d) then take (Z.to_nat max_size) d else d)
      else None
  end.

Definition pw_proxy_get_buffer_bytes (e : env) (c : pctx) (args : list Z) : outcome (pctx * Z) :=
  match args with
  | buffer_type :: a1 :: a2 :: a3 :: a4 :: _ =>
      match select_buffer c buffer_type with
      | inr code => Done (c, code)
      | inl data =>
          let! '(c, r) := return_bytes c (buffer_window data (u32 a1) (u32 a2)) (u32 a3) (u32 a4) in
          Done (c, status r PROXY_INTERNAL)
      end
  | _ => Fault
  end.

Definition pw_proxy_set_buffer_bytes (e : env) (c : pctx) (args : list Z) : outcome (pctx * Z) :=
  match args with
  | buffer_type :: a1 :: a2 :: a3 :: a4 :: _ =>
      let start := u32 a1 in
      let size := u32 a2 in
      let data_ptr := u32 a3 in
      let data_size := u32 a4 in
      if (0 <? data_size) && negb (pw_validate_region (w c) data_ptr data_size)
      then Done (c, PROXY_BAD_ARGUMENT)
      else
        let! value_data :=
          (if 0 <? data_size then
             let! s := mem_read (w c) (pw_mem_ptr (w c) data_ptr) data_size in Done (Some s)
           else Done None) in
        let b := bod c in
        let replace (orig : option bytes) : outcome (pctx * Z) :=
          let base := if body_modified b then modified_body b else orig in
          let! r := pw_replace_bytes (ok e 0%nat) base start size value_data data_size in
          match r with
          | None => Done (c, PROXY_INTERNAL)
          | Some new_body =>
              Done (set_bod c (Bodies (request_body b) (request_body_heap b) (response_body b)
                                 (response_body_heap b) new_body true), PROXY_OK)
          end in
        if buffer_type =? PROXY_BUFFER_HTTP_REQUEST_BODY then replace (request_body b)
        else if buffer_type =? PROXY_BUFFER_HTTP_RESPONSE_BODY then replace (response_body b)
        else if (0 <=? buffer_type) && (buffer_type <=? PROXY_BUFFER_FOREIGN_FUNC_ARGS)
        then Done (c, PROXY_NOT_FOUND)
        else Done (c, PROXY_BAD_ARGUMENT)
  | _ => Fault
  end.

Definition pw_proxy_get_buffer_status (e : env) (c : pctx) (args : list Z) : outcome (pctx * Z) :=
  match args with
  | buffer_type :: a1 :: a2 :: _ =>
      match select_buffer c buffer_type with
      | inr code => Done (c, code)
      | inl data =>
          let data_len := len (default [] data) in
          let! '(c, r) := write_u32 c (u32 a1) (u32 data_len) in
          if negb (r =? 0) then Done (c, PROXY_BAD_ARGUMENT)
          else
            let! '(c, r) := write_u32 c (u32 a2) 0 in
            Done (c, status r PROXY_BAD_ARGUMENT)
      end
  | _ => Fault
  end.

(** ** Shared data *)

Definition pw_proxy_get_shared_data (e : env) (c : pctx) (args : list Z) : outcome (pctx * Z) :=
  match args with
  | a0 :: a1 :: a2 :: a3 :: a4 :: _ =>
      match c_shared_data (st c) with
      | None => Done (c, PROXY_NOT_FOUND)
      | Some sd =>
          let! key := read_string c (u32 a0) (u32 a1) VWASM_SHARED_DATA_MAX_KEY in
          match key with
          | None => Done (c, PROXY_BAD_ARGUMENT)
          | Some key =>
              match vwasm_shared_data_get (ok e) (Some sd) (Some key) with
              | None => Done (c, PROXY_NOT_FOUND)
              | Some (value, _, cas) =>
                  let! '(c, r) := return_bytes c value (u32 a2) (u32 a3) in
                  if negb (r =? 0) then Done (c, PROXY_INTERNAL)
                  else
                    let! '(c, r) := write_u32 c (u32 a4) cas in
                    Done (c, status r PROXY_INTERNAL)
              end
          end
      end
  | _ => Fault
  end.

(** [if (n > 0) { validate; p = pw_mem_ptr }]: the guest bytes passed by
    pointer, NULL for none; [None] when the region is out of bounds. *)
Definition guest_region (c : pctx) (ptr n : Z) : outcome (option (option bytes)) :=
  if 0 <? n then
    if negb (pw_validate_region (w c) ptr n) then Done None
    else let! s := mem_read (w c) (pw_mem_ptr (w c) ptr) n in Done (Some (Some s))
  else Done (Some None).

Definition set_sd (c : pctx) (sd : option shared_data) : pctx :=
  set_st c (Stores sd (c_queue_store (st c)) (c_metric_store (st c))).
Definition set_qs (c : pctx) (qs : option queue_store) : pctx :=
  set_st c (Stores (c_shared_data (st c)) qs (c_metric_store (st c))).
Definition set_ms (c : pctx) (ms : metric_store) : pctx :=
  set_st c (Stores (c_shared_data (st c)) (c_queue_store (st c)) (Some ms)).

Definition pw_proxy_set_shared_data (e : env) (c : pctx) (args : list Z) : outcome (pctx * Z) :=
  match args with
  | a0 :: a1 :: a2 :: a3 :: a4 :: _ =>
      match c_shared_data (st c) with
      | None => Done (c, PROXY_INTERNAL)
      | Some sd =>
          let! key := read_string c (u32 a0) (u32 a1) VWASM_SHARED_DATA_MAX_KEY in
          match key with
          | None => Done (c, PROXY_BAD_ARGUMENT)
          | Some key =>
              let! value := guest_region c (u32 a2) (u32 a3) in
              match value with
              | None => Done (c, PROXY_BAD_ARGUMENT)
              | Some value_data =>
                  let '(sd', ret) :=
                    vwasm_shared_data_set (ok e) (Some sd) (Some key) value_data (u32 a3) (u32 a4) in
                  let c := set_sd c sd' in
                  if ret =? -1 then Done (c, PROXY_CAS_MISMATCH)
                  else if ret =? -2 then Done (c, PROXY_INTERNAL)
                  else Done (c, PROXY_OK)
              end
          end
      end
  | _ => Fault
  end.

(** ** Shared queues *)

Definition pw_proxy_register_shared_queue (e : env) (c : pctx) (args : list Z)
    : outcome (pctx * Z) :=
  match args with
  | a0 :: a1 :: a2 :: _ =>
      match c_queue_store (st c) with
      | None => Done (c, PROXY_INTERNAL)
      | Some qs =>
          let! name := read_string c (u32 a0) (u32 a1) VWASM_QUEUE_MAX_NAME in
          match name with
          | None => Done (c, PROXY_BAD_ARGUMENT)
          | Some name =>
              let '(qs', queue_id) := vwasm_queue_register (ok e) (Some qs) (Some name) in
              let c := set_qs c qs' in
              if queue_id =? 0 then Done (c, PROXY_INTERNAL)
              else
                let! '(c, r) := write_u32 c (u32 a2) queue_id in
                Done (c, status r PROXY_INTERNAL)
          end
      end
  | _ => Fault
  end.

Definition pw_proxy_resolve_shared_queue (e : env) (c : pctx) (args : list Z)
    : outcome (pctx * Z) :=
  match args with
  | a0 :: a1 :: a2 :: a3 :: a4 :: _ =>
      match c_queue_store (st c) with
      | None => Done (c, PROXY_NOT_FOUND)
      | Some qs =>
          let! vm := read_string c (u32 a0) (u32 a1) 256 in
          match vm with
          | None => Done (c, PROXY_BAD_ARGUMENT)
          | Some vm =>
              let! name := read_string c (u32 a2) (u32 a3) VWASM_QUEUE_MAX_NAME in
              match name with
              | None => Done (c, PROXY_BAD_ARGUMENT)
              | Some name =>
                  let queue_id := vwasm_queue_resolve (Some qs) (Some vm) (Some name) in
                  if queue_id =? 0 then Done (c, PROXY_NOT_FOUND)
                  else
                    let! '(c, r) := write_u32 c (u32 a4) queue_id in
                    Done (c, status r PROXY_INTERNAL)
              end
          end
      end
  | _ => Fault
  end.

Definition pw_proxy_enqueue_shared_queue (e : env) (c : pctx) (args : list Z)
    : outcome (pctx * Z) :=
  match args with
  | a0 :: a1 :: a2 :: _ =>
      match c_queue_store (st c) with
      | None => Done (c, PROXY_NOT_FOUND)
      | Some qs =>
          let! data := guest_region c (u32 a1) (u32 a2) in
          match data with
          | None => Done (c, PROXY_BAD_ARGUMENT)
          | Some data =>
              let '(qs', r) := vwasm_queue_enqueue (ok e) (Some qs) (u32 a0) data (u32 a2) in
              Done (set_qs c qs', status r PROXY_INTERNAL)
          end
      end
  | _ => Fault
  end.

Definition pw_proxy_dequeue_shared_queue (e : env) (c : pctx) (args : list Z)
    : outcome (pctx * Z) :=
  match args with
  | a0 :: a1 :: a2 :: _ =>
      match c_queue_store (st c) with
      | None => Done (c, PROXY_EMPTY)
      | Some qs =>
          let '(qs', m) := vwasm_queue_dequeue (Some qs) (u32 a0) in
          let c := set_qs c qs' in
          match m with
          | None => Done (c, PROXY_EMPTY)
          | Some msg =>
              let! '(c, r) := return_bytes c (m_data msg) (u32 a1) (u32 a2) in
              Done (c, status r PROXY_INTERNAL)
          end
      end
  | _ => Fault
  end.

(** ** Status *)

Definition pw_proxy_get_status (e : env) (c : pctx) (args : list Z) : outcome (pctx * Z) :=
  match args with
  | a0 :: a1 :: a2 :: _ =>
      let! '(c, r) := write_u32 c (u32 a0) (last_status_code (cfg c)) in
      if negb (r =? 0) then Done (c, PROXY_INTERNAL)
      else
        match last_status_msg (cfg c) with
        | Some msg =>
            let! '(c, r) := return_bytes c (Some (cstr msg)) (u32 a1) (u32 a2) in
            Done (c, status r PROXY_INTERNAL)
        | None =>
            let! '(c, r) := write_u32 c (u32 a1) 0 in
            if negb (r =? 0) then Done (c, PROXY_INTERNAL)
            else
              let! '(c, r) := write_u32 c (u32 a2) 0 in
              Done (c, status r PROXY_INTERNAL)
        end
  | _ => Fault
  end.

(** ** Metrics *)

Definition pw_proxy_define_metric (e : env) (c : pctx) (args : list Z) : outcome (pctx * Z) :=
  match args with
  | metric_type :: a1 :: a2 :: a3 :: _ =>
      match c_metric_store (st c) with
      | None => Done (c, PROXY_INTERNAL)
      | Some store =>
          let! name := read_string c (u32 a1) (u32 a2) VWASM_METRIC_MAX_NAME in
          match name with
          | None => Done (c, PROXY_BAD_ARGUMENT)
          | Some name_buf =>
              let! '(store', id) := metric_define store metric_type name_buf in
              let c := set_ms c store' in
              match id with
              | None => Done (c, PROXY_INTERNAL)
              | Some metric_id =>
                  let! '(c, r) := write_u32 c (u32 a3) metric_id in
                  Done (c, status r PROXY_INTERNAL)
              end
          end
      end
  | _ => Fault
  end.

Definition pw_proxy_increment_metric (e : env) (c : pctx) (args : list Z) : outcome (pctx * Z) :=
  match args with
  | a0 :: offset :: _ =>
      match c_metric_store (st c) with
      | None => Done (c, PROXY_INTERNAL)
      | Some store =>
          let! '(store', found) := metric_increment store (u32 a0) offset in
          Done (set_ms c store', if (found : bool) then PROXY_OK else PROXY_BAD_ARGUMENT)
      end
  | _ => Fault
  end.

Definition pw_proxy_record_metric (e : env) (c : pctx) (args : list Z) : outcome (pctx * Z) :=
  match args with
  | a0 :: value :: _ =>
      match c_metric_store (st c) with
      | None => Done (c, PROXY_INTERNAL)
      | Some store =>
          let! '(store', found) := metric_record store (u32 a0) (u64 value) in
          Done (set_ms c store', if (found : bool) then PROXY_OK else PROXY_BAD_ARGUMENT)
      end
  | _ => Fault
  end.

Definition pw_proxy_get_metric (e : env) (c : pctx) (args : list Z) : outcome (pctx * Z) :=
  match args with
  | a0 :: a1 :: _ =>
      match c_metric_store (st c) with
      | None => Done (c, PROXY_INTERNAL)
      | Some store =>
          let! v := metric_get store (u32 a0) in
          match v with
          | None => Done (c, PROXY_BAD_ARGUMENT)
          | Some value =>
              if negb (pw_validate_region (w c) (u32 a1) 8) then Done (c, PROXY_BAD_ARGUMENT)
              else
                match pw_mem_ptr (w c) (u32 a1) with
                | None => Done (c, PROXY_BAD_ARGUMENT)
                | Some dst =>
                    let! w' := mem_write (w c) (Some dst) (le_bytes 8 value) in
                    Done (set_w c w', PROXY_OK)
                end
          end
      end
  | _ => Fault
  end.

End Handlers.

#[global] Arguments write_u32 : simpl never.
#[global] Arguments return_bytes : simpl never.
#[global] Arguments read_string : simpl never.
#[global] Arguments guest_region : simpl never.
#[global] Arguments copy_out : simpl never.

(** * Safety of the host functions *)

Section Safety.
Context `{G : Guest} `{V : Varnish} `{VL : !VarnishLaws} {M : Z} `{L : !MemLimit M}.

(** The call completes, the invariant holds again, and the bodies have at most
    [n] bytes. *)
Definition safe (n : Z) (o : outcome (pctx * Z)) : Prop :=
  exists c' r, o = Done (c', r) /\ wf_ctx M c' /\ within n c'.

Lemma safe_done n c r : wf_ctx M c -> within n c -> safe n (Done (c, r)).
Proof. intros. by exists c, r. Qed.

Lemma within_mono n m c : within n c -> n <= m -> within m c.
Proof. unfold within. intros (? & ? & ?) ?. lia. Qed.

(** Only the contents of linear memory changed. *)
Lemma wf_ctx_mem c m :
  wf_ctx M c -> mem_le M m -> wf_ctx M (set_w c (set_memory (w c) m)).
Proof. intros (_ & H) Hm. by split. Qed.

Lemma set_w_id c : set_w c (w c) = c.
Proof. by destruct c. Qed.

Lemma set_memory_id x : set_memory x (memory x) = x.
Proof. by destruct x. Qed.

Lemma mem_le_base c b : mem_le M (memory (w c)) -> pw_mem_base (w c) = Some b -> len b <= M.
Proof. unfold pw_mem_base. intros Hm. split_if; [done|]. apply Hm. Qed.

Lemma mem_le_upd c off v :
  mem_le M (memory (w c)) -> region (w c) off (len v) ->
  mem_le M (Some (upd (mem_bytes (w c)) off v)).
Proof.
  intros Hm (b & Hb & ? & ? & ?) b' [= <-]. unfold mem_bytes. rewrite Hb, len_upd by lia.
  by eapply mem_le_base.
Qed.

(** ** Safety of the memory helpers, in continuation form *)

Lemma safe_write n c off v k :
  wf_ctx M c -> within n c -> is_u32 off ->
  (forall c' r, wf_ctx M c' -> within n c' -> cfg c' = cfg c -> safe n (k (c', r))) ->
  safe n (obind (write_u32 c off v) k).
Proof.
  intros Hc Hb Ho Hk. unfold write_u32. rewrite write_u32_spec by done. cbn [obind].
  case_decide as Hr; cbn [obind].
  - apply Hk; [|done|done]. apply wf_ctx_mem; [done|]. apply mem_le_upd; [apply Hc|].
    by rewrite len_le_bytes.
  - rewrite set_w_id. by apply Hk.
Qed.

Lemma write_pair_mem x o1 v1 o2 v2 :
  is_u32 o1 -> is_u32 o2 -> mem_le M (memory x) ->
  exists m r, write_pair x o1 v1 o2 v2 = Done (set_memory x m, r) /\ mem_le M m.
Proof.
  intros H1 H2 Hm. unfold write_pair. rewrite write_u32_spec by done. cbn [obind].
  assert (forall y off v, mem_le M (memory y) -> region y off 4 ->
            mem_le M (Some (upd (mem_bytes y) off (le_bytes 4 v)))) as Hu.
  { intros y off v Hy (b & Hb & ? & ? & ?) b' [= <-]. unfold mem_bytes. rewrite Hb.
    rewrite len_upd by (rewrite ?len_le_bytes; lia). unfold pw_mem_base in Hb.
    destruct (_ || _); [done|]. by apply Hy. }
  case_decide as R1; cbn [obind].
  2:{ exists (memory x), (-1). by rewrite set_memory_id. }
  simpl. rewrite write_u32_spec by done. cbn [obind].
  case_decide as R2; simpl; (eexists _, _; split; [done|]).
  - apply Hu; [|done]. by apply Hu.
  - by apply Hu.
Qed.

Lemma return_bytes_mem x data o1 o2 :
  is_u32 o1 -> is_u32 o2 -> mem_le M (memory x) -> small data ->
  exists m r, pw_return_bytes x data o1 o2 = Done (set_memory x m, r) /\ mem_le M m.
Proof.
  intros H1 H2 Hm Hd. unfold pw_return_bytes.
  destruct data as [[|z d]|]; [by apply write_pair_mem| |by apply write_pair_mem].
  unfold small in Hd. cbn [default] in Hd. unfold id in Hd.
  set (dd := z :: d) in *.
  assert (u32 (len dd) = len dd) as -> by (pose proof (len_nonneg dd); zlia).
  unfold pw_alloc_wasm. destruct (allocator_valid x); cbn [negb].
  2:{ exists (memory x), (-1). by rewrite set_memory_id. }
  pose proof (malloc_limit (memory x) (i32 (len dd)) Hm) as Hml.
  destruct (guest_malloc (memory x) _) as [m' p]. cbn [fst] in Hml.
  destruct p as [p|]; [|by exists m', (-1)].
  destruct (pw_validate_region _ _ _) eqn:E; cbn [negb]; [|by exists m', (-1)].
  apply validate_region_iff in E; [|zlia|pose proof (len_nonneg dd); unfold is_u32; lia].
  rewrite (region_mem_ptr _ _ _ E), mem_write_region by done. cbn [obind].
  destruct (write_pair_mem (set_memory (set_memory x m')
      (Some (upd (mem_bytes (set_memory x m')) (u32 p) dd))) o1 (u32 p) o2 (len dd))
    as (m & r & -> & Hm'); [done|done| |by exists m, r].
  intros b'. cbn [memory set_memory]. intros [= <-].
  destruct E as (b & Hb & ? & ? & ?). unfold mem_bytes. rewrite Hb, len_upd by lia.
  unfold pw_mem_base in Hb. destruct (_ || _); [done|]. by apply Hml.
Qed.

Lemma safe_return n c data o1 o2 k :
  wf_ctx M c -> within n c -> is_u32 o1 -> is_u32 o2 -> small data ->
  (forall c' r, wf_ctx M c' -> within n c' -> cfg c' = cfg c -> safe n (k (c', r))) ->
  safe n (obind (return_bytes c data o1 o2) k).
Proof.
  intros Hc Hb H1 H2 Hd Hk. unfold return_bytes.
  destruct (return_bytes_mem (w c) data o1 o2) as (m & r & -> & Hm); try done; [apply Hc|].
  cbn [obind]. apply Hk; [|done|done]. by apply wf_ctx_mem.
Qed.

Lemma safe_read n c ptr sz bufsz k :
  is_u32 ptr -> is_u32 sz -> 0 < bufsz ->
  safe n (k None) ->
  (forall s, len s = sz -> len s < bufsz -> safe n (k (Some s))) ->
  safe n (obind (read_string c ptr sz bufsz) k).
Proof.
  intros Hp Hs Hb HN HS. unfold read_string.
  pose proof (read_string_len (w c) ptr sz bufsz) as Hl.
  rewrite read_string_spec in * by done. cbn [obind].
  destruct (if decide (sz = 0) then _ else _) as [s|]; [|done].
  destruct (Hl s Hp Hs Hb eq_refl). apply HS; [done|lia].
Qed.

Lemma safe_region n c ptr sz k :
  is_u32 ptr -> is_u32 sz -> mem_le M (memory (w c)) ->
  safe n (k None) ->
  (forall v, len (default [] v) = sz -> sz <= M \/ sz = 0 -> safe n (k (Some v))) ->
  safe n (obind (guest_region c ptr sz) k).
Proof.
  intros Hp Hs Hm HN HS. unfold guest_region.
  destruct (0 <? sz) eqn:E; btest; [|apply HS; unfold is_u32 in *; simpl; change (len (@nil Z)) with 0; lia].
  destruct (pw_validate_region _ _ _) eqn:Ev; [|done]. cbn [negb].
  apply validate_region_iff in Ev; [|done..].
  rewrite (region_mem_ptr _ _ _ Ev), mem_read_region by done. cbn [obind].
  destruct Ev as (b & Hb & ? & ? & ?). apply HS.
  - simpl. unfold mem_bytes. rewrite Hb. apply len_sub; lia.
  - left. pose proof (mem_le_base c b Hm Hb). lia.
Qed.

(** ** Each host function *)

Inductive vtype := I32 | I64.

(** The values of a WebAssembly type, as the signed integers the callbacks get. *)
Definition typed (t : vtype) (a : Z) : Prop :=
  match t with
  | I32 => -2147483648 <= a < 2147483648
  | I64 => INT64_MIN <= a < 9223372036854775808
  end.

(** A host function with parameters of types [tys] is safe when, from every
    well-formed context with bodies under 4 GiB and on a worker thread, it
    completes, re-establishes the invariant, and lets the bodies grow by at
    most [g] bytes. *)
Definition import_safe (g : Z) (tys : list vtype) (h : env -> pctx -> list Z -> outcome (pctx * Z)) : Prop :=
  forall n e c args,
    Forall2 typed tys args -> wf_ctx M c -> within n c -> 0 <= n < 4294967295 ->
    wf_env e -> safe (n + g) (h e c args).

End Safety.

#[global] Arguments safe {_ _} M n o.
#[global] Arguments import_safe {_ _} M g tys h.

Ltac start :=
  let n := fresh "n" in let e := fresh "e" in let c := fresh "c" in
  match goal with
  | L : MemLimit ?M |- import_safe ?M ?g _ _ =>
      pose proof (@limit_lt _ M L) as HM;
      intros n e c args Ht Hc Hb Hn [He Hun];
      assert (within (n + g) c) as Hb' by (eapply within_mono; [exact Hb|lia])
  end;
  repeat match goal with
  | H : Forall2 _ (_ :: _) _ |- _ => inversion H; clear H; subst
  | H : Forall2 _ [] _ |- _ => inversion H; clear H; subst
  end.

(** One step of a handler: a helper call, or the final result. *)
Ltac safe_step :=
  match goal with
  | |- safe _ _ (Done (_, _)) => apply safe_done; [done|done]
  | |- safe _ _ (obind (write_u32 _ _ _) _) =>
      apply safe_write; [done|done|auto with vw|intros ?c' ?r ? ? ?]
  | |- safe _ _ (obind (read_string _ _ _ _) _) =>
      apply safe_read; [auto with vw|auto with vw|done| |intros ?s ? ?]
  | |- safe _ _ (obind (guest_region _ _ _) _) =>
      apply safe_region; [auto with vw|auto with vw|match goal with H : wf_ctx _ _ |- _ => apply H end| |intros ?v ? ?]
  | |- safe _ _ (if ?b then _ else _) => destruct b eqn:?
  end.
Ltac safe_steps := repeat (safe_step; cbv beta iota).

Section Imports.
Context `{G : Guest} `{V : Varnish} `{VL : !VarnishLaws} {M : Z} `{L : !MemLimit M}.

Lemma log_safe : import_safe M 0 [I32; I32; I32] pw_proxy_log.
Proof.
  start. unfold pw_proxy_log. destruct (vrt c) as [v|] eqn:Ev; safe_steps.
  destruct (vsl v) as [l|]; safe_steps. apply safe_done; [|done].
  pose proof Hc as (? & ? & ? & ? & ? & Hv & ? & ?). split_and!; try done.
  intros v' Hv'. injection Hv' as <-. specialize (Hv v Ev). apply Hv.
Qed.

Lemma get_log_level_safe : import_safe M 0 [I32] pw_proxy_get_log_level.
Proof. start. unfold pw_proxy_get_log_level. safe_steps. Qed.

Lemma copy_out_done c ptr sz size tail :
  is_u32 ptr -> is_u32 sz -> pw_validate_region (w c) ptr sz = true -> sz + len tail <= size ->
  copy_out c ptr sz size tail = Done (sub (mem_bytes (w c)) ptr sz).
Proof.
  intros Hp Hs Hv Hsz. apply validate_region_iff in Hv; [|done..]. unfold copy_out.
  rewrite (region_mem_ptr _ _ _ Hv), mem_read_region by done. cbn [obind].
  destruct Hv as (b & Hb & ? & ? & ?). unfold mem_bytes. rewrite Hb.
  by rewrite len_sub, (proj2 (Z.leb_le _ _)) by lia.
Qed.

Lemma region_le_limit c ptr sz :
  wf_ctx M c -> is_u32 ptr -> is_u32 sz -> pw_validate_region (w c) ptr sz = true -> sz <= M.
Proof.
  intros Hc Hp Hs Hv. apply validate_region_iff in Hv as (b & Hb & ? & ? & ?); [|done..].
  pose proof (mem_le_base c b (proj1 Hc) Hb). lia.
Qed.

Lemma send_local_response_safe :
  import_safe M 0 [I32; I32; I32; I32; I32; I32; I32; I32] pw_proxy_send_local_response.
Proof.
  start. unfold pw_proxy_send_local_response. cbv zeta.
  assert (forall k, (forall p, safe M (n + 0) (k p)) ->
    forall (size0 ptr : Z) (d : option bytes * Z) (o : bool) (tail : bytes) size,
    is_u32 size0 -> is_u32 ptr ->
    (pw_validate_region (w c) ptr size0 = true -> size0 + len tail <= size) ->
    safe M (n + 0) (obind
      (if (0 <? size0) && pw_validate_region (w c) ptr size0 then
         if o then let! s := copy_out c ptr size0 size tail in Done (Some s, size0)
         else Done (None, d.2)
       else Done d) k)) as Hcopy.
  { intros k Hk size0 ptr d o tail size Hs0 Hp Hsz.
    destruct (0 <? size0), (pw_validate_region _ _ _) eqn:E; cbn [andb obind]; try apply Hk.
    destruct o; cbn [obind]; [|apply Hk]. rewrite copy_out_done by auto. apply Hk. }
  apply (Hcopy _) with (d := (_, _)); [|auto with vw..|].
  - intros [body body_len]. apply (Hcopy _) with (d := (_, _)); [|auto with vw..|].
    + intros [hdr hdr_len]. by apply safe_done.
    + intros _. change (len (@nil Z)) with 0. lia.
  - intros E. apply region_le_limit in E; [|done|auto with vw..].
    change (len [0]) with 1. pose proof (is_u32_u32 y3). zlia.
Qed.

(** A store of eight bytes after its bounds check. *)
Lemma safe_store8 n c off v k :
  wf_ctx M c -> within n c -> is_u32 off -> pw_validate_region (w c) off 8 = true ->
  (forall m, wf_ctx M (set_w c (set_memory (w c) m)) -> safe M n (k (set_memory (w c) m))) ->
  safe M n (obind (mem_write (w c) (Some off) (le_bytes 8 v)) k).
Proof.
  intros Hc Hb Ho Hv Hk. apply validate_region_iff in Hv; [|done..].
  rewrite mem_write_region by by rewrite len_le_bytes. cbn [obind]. apply Hk.
  apply wf_ctx_mem; [done|]. apply mem_le_upd; [apply Hc|]. by rewrite len_le_bytes.
Qed.

Lemma valid_mem_ptr c off n :
  is_u32 off -> is_u32 n -> pw_validate_region (w c) off n = true ->
  pw_mem_ptr (w c) off = Some off.
Proof. intros ?? Hv. apply validate_region_iff in Hv; [|done..]. by eapply region_mem_ptr. Qed.

Lemma get_current_time_safe : import_safe M 0 [I32] pw_proxy_get_current_time.
Proof.
  start. unfold pw_proxy_get_current_time. cbv zeta.
  destruct (pw_validate_region _ _ _) eqn:E; cbn [negb]; [|safe_steps].
  rewrite (valid_mem_ptr c (u32 y) 8) by (done || auto with vw).
  apply safe_store8; [done|done|auto with vw|done|]. intros m Hm. by apply safe_done.
Qed.

Lemma stub_safe tys : import_safe M 0 tys pw_stub_not_found.
Proof. start. by apply safe_done. Qed.

Lemma set_effective_context_safe : import_safe M 0 [I32] pw_proxy_set_effective_context.
Proof. start. unfold pw_proxy_set_effective_context. safe_steps. Qed.

Lemma set_tick_period_safe : import_safe M 0 [I32] pw_proxy_set_tick_period.
Proof.
  start. unfold pw_proxy_set_tick_period. cbv zeta. cbn [engine set_strm cfg].
  destruct (engine c) as [eng|] eqn:Ee; [|by apply safe_done].
  destruct (module_name (cfg c)) as [nm|]; [|by apply safe_done]. rewrite He.
  pose proof Hc as (? & ? & ? & ? & Ht & ? & ? & ?). rewrite Ee in Ht.
  destruct (tick_period_safe (ok e) (thread_ok e) (Some eng) (Some nm) (u32 y) Ht)
    as (e' & r & -> & He').
  cbn [obind]. apply safe_done; [|done]. by split_and!.
Qed.

Lemma continue_stream_safe : import_safe M 0 [I32] pw_proxy_continue_stream.
Proof. start. by apply safe_done. Qed.

Lemma close_stream_safe : import_safe M 0 [I32] pw_proxy_close_stream.
Proof. start. by apply safe_done. Qed.

Lemma proxy_done_safe : import_safe M 0 [] pw_proxy_done.
Proof. start. by apply safe_done. Qed.

(** Every readable buffer is under 4 GiB. *)
Lemma select_buffer_small n c t b :
  wf_ctx M c -> within n c -> n < 4294967296 -> select_buffer c t = inl b -> small b.
Proof.
  intros Hc (H1 & H2 & H3) Hn. pose proof Hc as (_ & _ & (? & ? & _) & (_ & Ha) & _).
  unfold select_buffer, active_response.
  repeat (split_if; [first [by intros [= <-]|idtac]|]); try (by intros [=]).
  2-5: intros [= <-]; unfold small; lia.
  destruct (active_http_call (cl c)) as [r|]; [|done]. destruct (r_valid r); [|done].
  intros [= <-]. by apply call_body_small, Ha.
Qed.

Lemma window_small d start max : small d -> small (buffer_window d start max).
Proof.
  unfold small, buffer_window. destruct d as [d|]; [|done]. simpl.
  split_if; [|done]. simpl. unfold len. split_if; simpl; rewrite ?length_take, !length_drop; lia.
Qed.

Lemma get_buffer_bytes_safe : import_safe M 0 [I32; I32; I32; I32; I32] pw_proxy_get_buffer_bytes.
Proof.
  start. unfold pw_proxy_get_buffer_bytes.
  destruct (select_buffer c y) as [d|code] eqn:E; [|safe_steps].
  apply safe_return; [done|done|auto with vw..| |intros c' r ? ? ?; by apply safe_done].
  apply window_small. by apply (select_buffer_small n c y); try lia.
Qed.

(** The splice: in bounds on both sides, and never longer than both parts. *)
Lemma replace_bytes_safe mok base start size v :
  0 <= start -> 0 <= size -> len (default [] base) < 4294967296 ->
  len (default [] v) < 4294967296 ->
  exists r, pw_replace_bytes mok base start size v (len (default [] v)) = Done r /\
    forall b, r = Some b -> len (default [] b) <= len (default [] base) + len (default [] v).
Proof.
  intros Hs Hz Hb Hv. unfold pw_replace_bytes. cbv zeta.
  set (B := default [] base) in *. set (W := default [] v) in *.
  pose proof (len_nonneg B). pose proof (len_nonneg W).
  replace (u32 (len B)) with (len B) by zlia.
  set (p := if len B <? start then len B else start).
  assert (0 <= p <= len B) as Hp by (unfold p; split_if; lia).
  replace (u32 (len B - p)) with (len B - p) by zlia.
  set (q := if len B - p <? size then len B - p else size).
  assert (0 <= q <= len B - p) as Hq by (unfold q; split_if; lia).
  unfold SIZE_MAX. rewrite !(proj2 (Z.ltb_ge _ _)) by lia. cbn [orb].
  split_if; [|exists (Some None); split; [done|]; intros b [= <-]; simpl;
              change (len (@nil Z)) with 0; lia].
  destruct mok; cbn [negb]; [|exists None; by split].
  rewrite !rd_done by lia. cbn [obind]. eexists. split; [done|].
  intros b [= <-]. simpl. rewrite !len_app, !len_sub by lia. lia.
Qed.

Lemma set_buffer_bytes_safe : import_safe M M [I32; I32; I32; I32; I32] pw_proxy_set_buffer_bytes.
Proof.
  start. unfold pw_proxy_set_buffer_bytes. cbv zeta.
  pose proof (is_u32_u32 y0). pose proof (is_u32_u32 y1).
  destruct ((0 <? u32 y3) && negb _) eqn:E; [safe_steps|].
  assert (exists v, (if 0 <? u32 y3 then
       let! s := mem_read (w c) (pw_mem_ptr (w c) (u32 y2)) (u32 y3) in Done (Some s)
     else Done None) = Done v /\ len (default [] v) = u32 y3 /\ u32 y3 <= M)
    as (v & -> & Hvl & HvM).
  { pose proof (is_u32_u32 y3) as Hy. destruct (0 <? u32 y3) eqn:E0; btest.
    - destruct E as [E|E]; [done|]. apply negb_false_iff in E.
      pose proof (region_le_limit c _ _ Hc (is_u32_u32 y2) Hy E).
      apply validate_region_iff in E; [|auto with vw..].
      rewrite (region_mem_ptr _ _ _ E), mem_read_region by done. cbn [obind].
      eexists. split; [done|]. split; [|done]. destruct E as (b & Hbb & ? & ? & ?).
      simpl. unfold mem_bytes. rewrite Hbb. apply len_sub; lia.
    - exists None. split; [done|]. unfold is_u32 in *. simpl. change (len (@nil Z)) with 0. lia. }
  cbn [obind]. unfold is_u32 in *.
  assert (forall orig, len (default [] orig) <= n ->
    safe M (n + M) (let! r := pw_replace_bytes (ok e 0%nat)
                    (if body_modified (bod c) then modified_body (bod c) else orig)
                    (u32 y0) (u32 y1) v (u32 y3) in
      match r with
      | Some new_body => Done (set_bod c (Bodies (request_body (bod c)) (request_body_heap (bod c))
          (response_body (bod c)) (response_body_heap (bod c)) new_body true), PROXY_OK)
      | None => Done (c, PROXY_INTERNAL)
      end)) as Hrep.
  { intros orig Ho. destruct Hb as (Hb1 & Hb2 & Hb3).
    assert (len (default [] (if body_modified (bod c) then modified_body (bod c) else orig)) <= n)
      as Hbase by (destruct (body_modified (bod c)); lia).
    rewrite <- Hvl. destruct (replace_bytes_safe (ok e 0%nat)
      (if body_modified (bod c) then modified_body (bod c) else orig) (u32 y0) (u32 y1) v)
      as (r & -> & Hr); [lia|lia|lia|lia|]. cbn [obind].
    destruct r as [b|]; [|safe_steps]. specialize (Hr b eq_refl). apply safe_done; [done|].
    split_and!; simpl; lia. }
  destruct Hb as (Hb1 & Hb2 & _).
  split_if; [by apply Hrep|]. split_if; [by apply Hrep|]. safe_steps.
Qed.

Lemma get_buffer_status_safe : import_safe M 0 [I32; I32; I32] pw_proxy_get_buffer_status.
Proof.
  start. unfold pw_proxy_get_buffer_status.
  destruct (select_buffer c y) as [d|code]; safe_steps.
Qed.

(** ** The stores behind the context *)

Lemma wf_ctx_sd c sd :
  wf_ctx M c -> (forall s, sd = Some s -> wf_store s) -> wf_ctx M (set_sd c sd).
Proof. intros (? & (? & ? & ?) & ?) Hs. split; [done|]. split; [|done]. by split_and!. Qed.

Lemma wf_ctx_qs c qs :
  wf_ctx M c -> (forall s, qs = Some s -> wf_qs s) -> wf_ctx M (set_qs c qs).
Proof. intros (? & (? & ? & ?) & ?) Hs. split; [done|]. split; [|done]. by split_and!. Qed.

Lemma wf_ctx_ms c ms : wf_ctx M c -> wf_metrics ms -> wf_ctx M (set_ms c ms).
Proof.
  intros (? & (? & ? & ?) & ?) Hs. split; [done|]. split; [|done]. split; [done|].
  split; [done|]. by intros ? [= <-].
Qed.

Lemma get_value_small sd o key v n cas :
  wf_store sd -> vwasm_shared_data_get o (Some sd) key = Some (v, n, cas) -> small v.
Proof.
  intros [_ Hw]. unfold vwasm_shared_data_get, small. destruct key as [[|x k]|]; [done| |done].
  destruct (chain_find _ _) as [e|] eqn:E; [|done].
  apply chain_find_elem in E as [Hin _].
  pose proof (Forall_elem _ _ _ (Hw _) Hin) as (_ & Hl & _ & He).
  unfold VWASM_SHARED_DATA_MAX_VALUE in *.
  destruct (e_value e) as [ev|]; [|by intros [= <- _ _]].
  repeat split_if; intros Hr; simplify_eq; [|done]. simpl. rewrite len_take by lia. lia.
Qed.

Lemma get_shared_data_safe : import_safe M 0 [I32; I32; I32; I32; I32] pw_proxy_get_shared_data.
Proof.
  start. unfold pw_proxy_get_shared_data.
  destruct (c_shared_data (st c)) as [sd|] eqn:Es; safe_steps.
  destruct (vwasm_shared_data_get _ _ _) as [[[v n'] cas]|] eqn:Eg; safe_steps.
  pose proof Hc as (_ & (Hsd & _) & _).
  apply safe_return; [done|done|auto with vw..| |].
  { eapply get_value_small; [by apply Hsd|done]. }
  intros c' r ? ? ?. cbv beta iota. safe_steps.
Qed.

Lemma set_shared_data_safe : import_safe M 0 [I32; I32; I32; I32; I32] pw_proxy_set_shared_data.
Proof.
  start. unfold pw_proxy_set_shared_data.
  destruct (c_shared_data (st c)) as [sd|] eqn:Es; safe_steps.
  pose proof Hc as (_ & (Hsd & _) & _).
  destruct (set_wf (ok e) sd (Some s) v (len (default [] v)) (u32 y3) (Hsd _ Es) eq_refl) as (sd' & Ew & Hw').
  assert (u32 y2 = len (default [] v)) as -> by done.
  destruct (vwasm_shared_data_set _ _ _ _ _ _) as [sd1 ret]. simpl in Ew. subst sd1.
  assert (wf_ctx M (set_sd c (Some sd'))) by (apply wf_ctx_sd; [done|by intros ? [= <-]]).
  safe_steps.
Qed.

Lemma register_shared_queue_safe : import_safe M 0 [I32; I32; I32] pw_proxy_register_shared_queue.
Proof.
  start. unfold pw_proxy_register_shared_queue.
  destruct (c_queue_store (st c)) as [qs|] eqn:Es; safe_steps.
  pose proof Hc as (_ & (_ & Hqs & _) & _).
  destruct (register_wf (ok e) qs (Some s) (Hqs _ Es)) as (qs' & Ew & Hw').
  destruct (vwasm_queue_register _ _ _) as [qs1 id]. simpl in Ew. subst qs1.
  assert (wf_ctx M (set_qs c (Some qs'))) by (apply wf_ctx_qs; [done|by intros ? [= <-]]).
  safe_steps.
Qed.

Lemma resolve_shared_queue_safe :
  import_safe M 0 [I32; I32; I32; I32; I32] pw_proxy_resolve_shared_queue.
Proof.
  start. unfold pw_proxy_resolve_shared_queue.
  destruct (c_queue_store (st c)) as [qs|] eqn:Es; safe_steps.
Qed.

Lemma enqueue_shared_queue_safe : import_safe M 0 [I32; I32; I32] pw_proxy_enqueue_shared_queue.
Proof.
  start. unfold pw_proxy_enqueue_shared_queue.
  destruct (c_queue_store (st c)) as [qs|] eqn:Es; safe_steps.
  pose proof Hc as (_ & (_ & Hqs & _) & _).
  destruct (enqueue_wf (ok e) qs (u32 y) v (Hqs _ Es)) as (qs' & Ew & Hw').
  assert (u32 y1 = len (default [] v)) as -> by done.
  destruct (vwasm_queue_enqueue _ _ _ _ _) as [qs1 r]. simpl in Ew. subst qs1.
  apply safe_done; [|done]. apply wf_ctx_qs; [done|by intros ? [= <-]].
Qed.

Lemma dequeued_small s id s' m :
  wf_qs s -> vwasm_queue_dequeue (Some s) id = (s', Some m) -> small (m_data m).
Proof.
  intros Hwf. unfold vwasm_queue_dequeue. split_if; [done|].
  destruct (find_id _ _) as [q|] eqn:Hf; [|done].
  destruct (find_id_range _ _ _ Hwf Hf) as ((_ & _ & _ & Hm) & _).
  destruct (q_msgs q) as [|m' rest]; [done|]. intros [= _ <-].
  inversion_clear Hm as [|?? Hm' _]. unfold wf_msg, small, VWASM_QUEUE_MAX_MSG in *.
  destruct (m_data m'); simpl; [lia|done].
Qed.

Lemma dequeue_shared_queue_safe : import_safe M 0 [I32; I32; I32] pw_proxy_dequeue_shared_queue.
Proof.
  start. unfold pw_proxy_dequeue_shared_queue.
  destruct (c_queue_store (st c)) as [qs|] eqn:Es; safe_steps.
  pose proof Hc as (_ & (_ & Hqs & _) & _). specialize (Hqs _ Es).
  destruct (dequeue_wf qs (u32 y) Hqs) as (qs' & Ew & Hw').
  pose proof (dequeued_small qs (u32 y)) as Hsm.
  destruct (vwasm_queue_dequeue _ _) as [qs1 m]. simpl in Ew. subst qs1.
  assert (wf_ctx M (set_qs c (Some qs'))) by (apply wf_ctx_qs; [done|by intros ? [= <-]]).
  destruct m as [m|]; [|safe_steps].
  apply safe_return; [done|done|auto with vw..|by eapply Hsm|].
  intros c' r ? ? ?. by apply safe_done.
Qed.

Lemma cstr_small b : small (Some b) -> small (Some (cstr b)).
Proof. unfold small. simpl. pose proof (len_cstr_le b). lia. Qed.

Lemma get_status_safe : import_safe M 0 [I32; I32; I32] pw_proxy_get_status.
Proof.
  start. unfold pw_proxy_get_status. safe_step. cbv beta iota. safe_step; [safe_steps|].
  destruct (last_status_msg (cfg c')) as [msg|] eqn:Em; safe_steps.
  apply safe_return; [done|done|auto with vw..| |intros ? ? ? ? ?; by apply safe_done].
  match goal with H : wf_ctx M c' |- _ => destruct H as (_ & _ & (_ & _ & Hs) & _) end.
  apply cstr_small. by rewrite <- Em.
Qed.

(** ** Metrics *)

(** The operations on the store, from their simulation by the registry. *)
Lemma metric_step_safe s q :
  wf_metrics s -> req_ok q -> exists s' r, impl_step s q = Done (s', r) /\ wf_metrics s'.
Proof.
  intros Hw Hq. destruct (metric_step_sim s (abs s) q (conj Hw eq_refl) Hq) as (s' & E & Hs' & _).
  by exists s', (spec_step (abs s) q).2.
Qed.

Lemma define_metric_safe : import_safe M 0 [I32; I32; I32; I32] pw_proxy_define_metric.
Proof.
  start. unfold pw_proxy_define_metric.
  destruct (c_metric_store (st c)) as [ms|] eqn:Es; safe_steps.
  pose proof Hc as (_ & (_ & _ & Hms) & _).
  destruct (metric_step_safe ms (Define y s) (Hms _ Es)) as (ms' & r & E & Hw'); [done|].
  simpl in E. destruct (metric_define ms y s) as [[ms1 id]|]; [|done].
  cbn [obind] in *. injection E as -> <-.
  assert (wf_ctx M (set_ms c ms')) by by apply wf_ctx_ms.
  destruct id as [id|]; safe_steps.
Qed.

(** The callback negates a negative offset, which [INT64_MIN] does not survive
    (see [increment_min_overflows]). *)
Lemma increment_metric_safe n e c a0 off :
  typed I64 off -> off <> INT64_MIN -> wf_ctx M c -> within n c ->
  safe M n (pw_proxy_increment_metric e c [a0; off]).
Proof.
  intros Ht Ho Hc Hb. unfold pw_proxy_increment_metric.
  destruct (c_metric_store (st c)) as [ms|] eqn:Es; safe_steps.
  pose proof Hc as (_ & (_ & _ & Hms) & _).
  destruct (metric_step_safe ms (Increment (u32 a0) off) (Hms _ Es)) as (ms' & r & E & Hw').
  { split; [auto with vw|]. unfold typed in *. lia. }
  simpl in E. destruct (metric_increment ms (u32 a0) off) as [[ms1 b]|]; [|done].
  cbn [obind] in *. injection E as -> <-. apply safe_done; [by apply wf_ctx_ms|done].
Qed.

Lemma record_metric_safe : import_safe M 0 [I32; I64] pw_proxy_record_metric.
Proof.
  start. unfold pw_proxy_record_metric.
  destruct (c_metric_store (st c)) as [ms|] eqn:Es; safe_steps.
  pose proof Hc as (_ & (_ & _ & Hms) & _).
  destruct (metric_step_safe ms (Record_ (u32 y) (u64 y0)) (Hms _ Es)) as (ms' & r & E & Hw').
  { split; [auto with vw|zlia]. }
  simpl in E. destruct (metric_record ms (u32 y) (u64 y0)) as [[ms1 b]|]; [|done].
  cbn [obind] in *. injection E as -> <-. apply safe_done; [by apply wf_ctx_ms|done].
Qed.

Lemma get_metric_safe : import_safe M 0 [I32; I32] pw_proxy_get_metric.
Proof.
  start. unfold pw_proxy_get_metric.
  destruct (c_metric_store (st c)) as [ms|] eqn:Es; safe_steps.
  pose proof Hc as (_ & (_ & _ & Hms) & _).
  destruct (metric_step_safe ms (Get (u32 y)) (Hms _ Es)) as (ms' & r & E & _).
  { simpl. auto with vw. }
  simpl in E. destruct (metric_get ms (u32 y)) as [v|]; [|done]. cbn [obind].
  destruct v as [v|]; [|safe_steps].
  destruct (pw_validate_region _ _ _) eqn:Ev; cbn [negb]; [|safe_steps].
  rewrite (valid_mem_ptr c (u32 y0) 8) by (done || auto with vw).
  apply safe_store8; [done|done|auto with vw|done|]. intros m Hm. by apply safe_done.
Qed.
End Imports.

(** ** Claims *)

Section Claims.
Context `{G : Guest}.

(** The splice, with [start] and the length clamped to the body. *)
Lemma replace_bytes_splice base start replace_len value :
  len (default [] base) < 4294967296 -> is_u32 start -> is_u32 replace_len ->
  len value < 4294967296 ->
  exists new, pw_replace_bytes true base start replace_len (Some value) (len value) = Done (Some new) /\
    default [] new = take (Z.to_nat start) (default [] base) ++ value ++
                     drop (Z.to_nat (start + replace_len)) (default [] base).
Proof.
  intros Hb Hs Hr Hv. unfold pw_replace_bytes, is_u32 in *. cbv zeta.
  set (b := default [] base) in *. pose proof (len_nonneg b). pose proof (len_nonneg value).
  set (s := if len b <? start then u32 (len b) else start).
  set (r := if len b - s <? replace_len then u32 (len b - s) else replace_len).
  assert (s = Z.min start (len b)) as Es by (unfold s; destruct (_ <? start) eqn:?; btest; zlia).
  assert (r = Z.min replace_len (len b - s)) as Er.
  { unfold r. destruct (_ <? replace_len) eqn:?; btest; [|lia].
    assert (u32 (len b - s) = len b - s) by zlia. lia. }
  rewrite !(proj2 (Z.ltb_ge _ _)) by (unfold SIZE_MAX; lia). cbn [orb].
  assert (take (Z.to_nat start) b = take (Z.to_nat s) b) as ->.
  { destruct (decide (start <= len b)); [f_equal; lia|].
    rewrite !take_ge by (unfold len in *; lia). done. }
  assert (drop (Z.to_nat (start + replace_len)) b = drop (Z.to_nat (s + r)) b) as ->.
  { destruct (decide (start + replace_len <= len b)); [f_equal; lia|].
    rewrite !drop_ge by (unfold len in *; lia). done. }
  split_if.
  - rewrite !rd_done by (simpl; lia). cbn [obind negb default]. eexists. split; [done|].
    cbn [default]. unfold sub, id. rewrite !drop_0.
    rewrite (take_ge value) by (unfold len in *; lia).
    rewrite (take_ge (drop _ b)) by (rewrite length_drop; unfold len in *; lia). done.
  - eexists. split; [done|]. assert (len value = 0) as Hv0 by lia. apply len_0_nil in Hv0 as ->.
    cbn [default app]. assert (s = 0) as -> by lia. rewrite drop_ge by (unfold len in *; lia). done.
Qed.

(** C27 Editing a body is a splice: after [proxy_set_buffer_bytes] on the
    request or response body, the buffer reads as the old one with the bytes
    from [start] to [start + size] replaced by the guest's data, both ends
    clamped to the old length; further edits apply to the edited body. *)
Theorem set_buffer_splices e c t a1 a2 a3 a4 old :
  (t = PROXY_BUFFER_HTTP_REQUEST_BODY \/ t = PROXY_BUFFER_HTTP_RESPONSE_BODY) ->
  select_buffer c t = inl old -> len (default [] old) < 4294967296 ->
  region (w c) (u32 a3) (u32 a4) -> ok e 0%nat = true ->
  exists c' new, pw_proxy_set_buffer_bytes e c [t; a1; a2; a3; a4] = Done (c', PROXY_OK) /\
    select_buffer c' t = inl new /\
    default [] new = take (Z.to_nat (u32 a1)) (default [] old) ++
                     sub (mem_bytes (w c)) (u32 a3) (u32 a4) ++
                     drop (Z.to_nat (u32 a1 + u32 a2)) (default [] old).
Proof.
  intros Ht Hsel Hlen Hreg Hok. pose proof Hreg as (b & Hb & ? & ? & ?).
  set (data := sub (mem_bytes (w c)) (u32 a3) (u32 a4)).
  assert (len data = u32 a4) as Hd by (unfold data, mem_bytes; rewrite Hb; apply len_sub; lia).
  destruct (replace_bytes_splice old (u32 a1) (u32 a2) data) as (new & Hnew & Hdef);
    [done|auto with vw..|rewrite Hd; apply is_u32_u32|]. rewrite Hd in Hnew.
  unfold pw_proxy_set_buffer_bytes. cbv zeta.
  assert (pw_validate_region (w c) (u32 a3) (u32 a4) = true) as ->
    by (apply validate_region_iff; auto with vw).
  rewrite andb_false_r, (region_mem_ptr _ _ _ Hreg), mem_read_region by done.
  assert (forall base, (let! v := (if 0 <? u32 a4 then Done (Some data) else Done None) in
            pw_replace_bytes (ok e 0%nat) base (u32 a1) (u32 a2) v (u32 a4)) =
          pw_replace_bytes true base (u32 a1) (u32 a2) (Some data) (u32 a4)) as Hrep.
  { intros base. rewrite Hok. destruct (0 <? u32 a4) eqn:E; [done|]. btest. cbn [obind].
    assert (data = []) as -> by (apply len_0_nil; lia). done. }
  exists (set_bod c (Bodies (request_body (bod c)) (request_body_heap (bod c))
            (response_body (bod c)) (response_body_heap (bod c)) new true)), new.
  split_and!; [|by destruct Ht as [->| ->]|done].
  cbn [obind]. unfold select_buffer in Hsel.
  destruct Ht as [-> | ->]; cbn in Hsel; injection Hsel as Hsel; rewrite <- Hsel in Hnew;
    cbn [Z.eqb PROXY_BUFFER_HTTP_REQUEST_BODY PROXY_BUFFER_HTTP_RESPONSE_BODY Pos.eqb];
    rewrite <- Hrep in Hnew; fold data; destruct (0 <? u32 a4); cbn [obind] in *; by rewrite Hnew.
Qed.

(** The one argument [proxy_increment_metric] cannot negate: the offset
    [INT64_MIN] overflows a signed integer, on any defined metric. *)
Theorem increment_min_overflows e c a0 ms v :
  c_metric_store (st c) = Some ms -> metric_get ms (u32 a0) = Done (Some v) ->
  pw_proxy_increment_metric e c [a0; INT64_MIN] = Fault.
Proof.
  intros Hms Hg. unfold pw_proxy_increment_metric. rewrite Hms.
  unfold metric_increment, metric_get in *. destruct (_ || _); [done|].
  destruct (metric_at ms (u32 a0 - 1)) as [m|]; [|done]. done.
Qed.

(** A tick handler that changes its own period: a call of
    [proxy_set_tick_period_milliseconds] from the tick thread of the module
    stops and frees the timer the calling thread still runs on. *)
Theorem tick_handler_frees_own_timer e c a0 eng name i p :
  engine c = Some eng -> module_name (cfg c) = Some name ->
  find_module eng name = Some i -> 0 <= i < MAX_MODULES ->
  tick_timers eng !! Z.to_nat i = Some (Some p) -> caller e = Some i ->
  pw_proxy_set_tick_period e c [a0] = Fault.
Proof.
  intros He Hn Hf Hi Ht Hc. unfold pw_proxy_set_tick_period.
  cbn [engine set_strm cfg]. rewrite He, Hn. unfold vwasm_engine_set_tick_period. rewrite Hf.
  rewrite (proj2 (Z.ltb_ge i 0)), (proj2 (Z.leb_gt MAX_MODULES i)) by lia. cbn [orb].
  rewrite Ht, Hc, bool_decide_eq_true_2 by done. done.
Qed.
End Claims.

(** ** Witnesses *)

Definition still_env (from : option Z) : env := Env all_ok true from 0 0 (fun n => replicate n 0).

(** A context of the module [m] with a body, a metric and a running timer, over
    the memory [XY]. *)
Definition small_ctx : pctx :=
  PCtx (Config 1 2 (Some (str "m")) None None 0 None 0 0 None) None
       (Some (TickEngine [str "m"] (Some 100 :: replicate 63 None)))
       (WCtx true true (Some (str "XY")) false)
       (LocalResponse false 0 None 0 None 0)
       (Bodies None false (Some (str "hello")) true None false)
       (Stores None None (Some (MetricStore [Metric (str "m") 1 0 7] 1)))
       (Calls ∅ 0 None 0) (Stream 0 false false) [] [].

Lemma set_buffer_splices_witness :
  exists c' new, pw_proxy_set_buffer_bytes (still_env None) small_ctx
      [PROXY_BUFFER_HTTP_RESPONSE_BODY; 1; 3; 0; 2] = Done (c', PROXY_OK) /\
    select_buffer c' PROXY_BUFFER_HTTP_RESPONSE_BODY = inl new /\ default [] new = str "hXYo".
Proof.
  apply (set_buffer_splices (still_env None) small_ctx PROXY_BUFFER_HTTP_RESPONSE_BODY 1 3 0 2
           (Some (str "hello"))).
  - right. reflexivity.
  - reflexivity.
  - by_decide.
  - by_decide.
  - reflexivity.
Defined.

Lemma increment_min_overflows_witness :
  pw_proxy_increment_metric (still_env None) small_ctx [1; INT64_MIN] = Fault.
Proof.
  apply (increment_min_overflows (still_env None) small_ctx 1
           (MetricStore [Metric (str "m") 1 0 7] 1) 7); reflexivity.
Defined.

Lemma tick_handler_frees_own_timer_witness :
  pw_proxy_set_tick_period (still_env (Some 0)) small_ctx [50] = Fault.
Proof.
  apply (tick_handler_frees_own_timer (still_env (Some 0)) small_ctx 50
           (TickEngine [str "m"] (Some 100 :: replicate 63 None)) (str "m") 0 100);
    reflexivity || by_decide || (unfold MAX_MODULES; lia).
Defined.
