(* ===== verification/Headers.v ===== *)
(** * Header maps (src/proxy_wasm_headers.c)

    Request and response headers live in Varnish's [struct http]; trailers in
    the context; the headers of an HTTP call response are parsed from the raw
    response.  All of them are exchanged with the guest in the Proxy-Wasm
    serialization: a count, the lengths of every key and value, then the keys
    and values, each followed by a NUL. *)

From S2P Require Import Prelude Mem SharedData SharedQueue Metrics Ctx HostCalls.

Section Headers.
Context `{G : Guest} `{V : Varnish}.

(** ** Map resolution *)

Definition pw_get_header_map (c : pctx) (map_type : Z) : option http :=
  match vrt c with
  | None => None
  | Some v =>
      if map_type =? PROXY_MAP_HTTP_REQUEST_HEADERS then http_req v
      else if map_type =? PROXY_MAP_HTTP_RESPONSE_HEADERS then
        match http_resp v with
        | Some hp => Some hp
        | None => http_beresp v
        end
      else None
  end.

Definition pw_get_header_map_mutable (c : pctx) (map_type : Z) : option http :=
  match vrt c with
  | None => None
  | Some v =>
      if map_type =? PROXY_MAP_HTTP_REQUEST_HEADERS then http_req v
      else if map_type =? PROXY_MAP_HTTP_RESPONSE_HEADERS then
        match http_resp v with
        | Some hp => Some hp
        | None => http_beresp v
        end
      else None
  end.

(** Writing through the pointer [pw_get_header_map_mutable] returned. *)
Definition put_header_map (c : pctx) (map_type : Z) (hp : http) : pctx :=
  match vrt c with
  | None => c
  | Some v =>
      set_vrt c (Some
        (if map_type =? PROXY_MAP_HTTP_REQUEST_HEADERS
         then VrtCtx (Some hp) (http_resp v) (http_beresp v) (vsl v)
         else match http_resp v with
              | Some _ => VrtCtx (http_req v) (Some hp) (http_beresp v) (vsl v)
              | None => VrtCtx (http_req v) None (Some hp) (vsl v)
              end))
  end.

(** ** Trailer maps *)

Definition pw_is_trailer_map (map_type : Z) : bool :=
  (map_type =? PROXY_MAP_HTTP_REQUEST_TRAILERS) || (map_type =? PROXY_MAP_HTTP_RESPONSE_TRAILERS).

Definition pw_is_known_map (map_type : Z) : bool :=
  (map_type =? PROXY_MAP_HTTP_REQUEST_HEADERS) || (map_type =? PROXY_MAP_HTTP_REQUEST_TRAILERS) ||
  (map_type =? PROXY_MAP_HTTP_RESPONSE_HEADERS) || (map_type =? PROXY_MAP_HTTP_RESPONSE_TRAILERS) ||
  (map_type =? PROXY_MAP_GRPC_CALL_INITIAL_MD) || (map_type =? PROXY_MAP_GRPC_CALL_TRAILING_MD) ||
  (map_type =? PROXY_MAP_HTTP_CALL_RESP_HEADERS) || (map_type =? PROXY_MAP_HTTP_CALL_RESP_TRAILERS).

Definition pw_get_trailer_map (c : pctx) (map_type : Z) : option trailer_map :=
  if map_type =? PROXY_MAP_HTTP_REQUEST_TRAILERS then Some (request_trailers c)
  else if map_type =? PROXY_MAP_HTTP_RESPONSE_TRAILERS then Some (response_trailers c)
  else None.

Definition put_trailer_map (c : pctx) (map_type : Z) (tm : trailer_map) : pctx :=
  if map_type =? PROXY_MAP_HTTP_REQUEST_TRAILERS then set_trailers c tm (response_trailers c)
  else set_trailers c (request_trailers c) tm.

(** [name_len == len && strncasecmp(name, key, len) == 0] *)
Definition trailer_match (t : trailer_entry) (name : bytes) : bool :=
  (len (t_name t) =? len name) && strncasecmp_eq (length name) (t_name t) name.

Fixpoint pw_trailer_get (tm : trailer_map) (name : bytes) : option bytes :=
  match tm with
  | [] => None
  | t :: tm => if trailer_match t name then Some (t_value t) else pw_trailer_get tm name
  end.

Definition pw_trailer_add (ok : oracle) (tm : trailer_map) (name value : bytes)
    : trailer_map * Z :=
  if VWASM_MAX_TRAILERS <=? len tm then (tm, -1)
  else if negb (ok 0%nat) then (tm, -1)
  else if negb (ok 1%nat) then (tm, -1)
  else (tm ++ [TrailerEntry name value], 0).

(** The first entry that matches gives its place to the last one. *)
Fixpoint trailer_index (tm : trailer_map) (name : bytes) : option nat :=
  match tm with
  | [] => None
  | t :: tm => if trailer_match t name then Some O else option_map S (trailer_index tm name)
  end.

Definition pw_trailer_remove (tm : trailer_map) (name : bytes) : trailer_map :=
  match trailer_index tm name with
  | None => tm
  | Some i =>
      let n := pred (length tm) in
      let tm :=
        match tm !! n with
        | Some t => if (i <? n)%nat then <[i := t]> tm else tm
        | None => tm
        end in
      take n tm
  end.

Definition pw_trailer_clear (tm : trailer_map) : trailer_map := [].

(** ** Serialization *)

(** [memcpy] of two 32-bit lengths per pair. *)
Fixpoint put_sizes (l : list (bytes * bytes)) (buf : bytes) (offset : Z) : outcome (bytes * Z) :=
  match l with
  | [] => Done (buf, offset)
  | (k, v) :: l =>
      let! buf := wr buf offset (le_bytes 4 (u32 (len k))) in
      let offset := u32 (offset + 4) in
      let! buf := wr buf offset (le_bytes 4 (u32 (len v))) in
      let offset := u32 (offset + 4) in
      put_sizes l buf offset
  end.

(** [memcpy] of each key and value, each followed by a NUL. *)
Fixpoint put_data (l : list (bytes * bytes)) (buf : bytes) (offset : Z) : outcome (bytes * Z) :=
  match l with
  | [] => Done (buf, offset)
  | (k, v) :: l =>
      let! buf := wr buf offset k in
      let offset := u32 (offset + u32 (len k)) in
      let! buf := wr buf offset [0] in
      let offset := u32 (offset + 1) in
      let! buf := wr buf offset v in
      let offset := u32 (offset + u32 (len v)) in
      let! buf := wr buf offset [0] in
      let offset := u32 (offset + 1) in
      put_data l buf offset
  end.

(** The sum of the [total_size] loops. *)
Definition pairs_size (l : list (bytes * bytes)) : Z :=
  foldl (fun acc '(k, v) => acc + (len k + 1 + len v + 1)) (4 + len l * 8) l.

(** Fill a buffer of that size ([uninit] is what [malloc] returns) and return
    its first [offset] bytes. *)
Definition serialize (uninit : nat -> bytes) (l : list (bytes * bytes)) : outcome bytes :=
  let buf := uninit (Z.to_nat (pairs_size l)) in
  let! buf := wr buf 0 (le_bytes 4 (u32 (len l))) in
  let! '(buf, offset) := put_sizes l buf 4 in
  let! '(buf, offset) := put_data l buf offset in
  rd buf 0 offset.

(** ** HTTP call response headers *)

Definition space : Z := 32.
Definition colon : Z := 58.

(** The status code between the first and the second space of the status
    line. *)
Definition status_value (line : bytes) : option bytes :=
  match memchr space line with
  | None => None
  | Some sp =>
      let rest := drop (Z.to_nat (sp + 1)) line in
      match memchr space rest with
      | None => Some rest
      | Some n => Some (take (Z.to_nat n) rest)
      end
  end.

(** The loop over the lines after the status line; [p] is what is left of the
    raw buffer, which a NUL follows. *)
Fixpoint find_header_loop (fuel : nat) (p key : bytes) : option bytes :=
  match fuel with
  | O => None
  | S fuel =>
      match p with
      | [] => None
      | _ =>
          match strstr p crlf with
          | None => None
          | Some n =>
              if n =? 0 then None
              else
                let line := take (Z.to_nat n) p in
                let key_len := len key in
                if (key_len + 1 <? n) && strncasecmp_eq (length key) p key &&
                   (nth (Z.to_nat key_len) p 0 =? colon)
                then Some (skip_blank (drop (Z.to_nat (key_len + 1)) line))
                else find_header_loop fuel (drop (Z.to_nat (n + 2)) p) key
          end
      end
  end.

Definition pw_http_call_response_find_header (c : pctx) (key : bytes) : option bytes :=
  match active_response c with
  | None => None
  | Some r =>
      match raw_buf r with
      | None => None
      | Some raw =>
          match strstr raw crlf with
          | None => None
          | Some n =>
              if strcmp_eq key (str ":status") then status_value (take (Z.to_nat n) raw)
              else find_header_loop (length raw) (drop (Z.to_nat (n + 2)) raw) (cstr key)
          end
      end
  end.

(** The name and the value of a header line with a colon. *)
Definition split_line (line : bytes) : option (bytes * bytes) :=
  match memchr colon line with
  | None => None
  | Some k => Some (take (Z.to_nat k) line, skip_blank (drop (Z.to_nat (k + 1)) line))
  end.

(** The loop that collects [hdrs], with [hcount] entries so far. *)
Fixpoint collect_loop (fuel : nat) (p : bytes) (hdrs : list (bytes * bytes))
    : list (bytes * bytes) :=
  match fuel with
  | O => hdrs
  | S fuel =>
      match p with
      | [] => hdrs
      | _ =>
          if 64 <=? len hdrs then hdrs
          else
            match strstr p crlf with
            | None => hdrs
            | Some n =>
                if n =? 0 then hdrs
                else
                  let hdrs :=
                    match split_line (take (Z.to_nat n) p) with
                    | None => hdrs
                    | Some kv => hdrs ++ [kv]
                    end in
                  collect_loop fuel (drop (Z.to_nat (n + 2)) p) hdrs
            end
      end
  end.

Definition response_pairs (raw : bytes) : list (bytes * bytes) :=
  match strstr raw crlf with
  | None => []
  | Some n =>
      let hdrs :=
        match status_value (take (Z.to_nat n) raw) with
        | Some v => [(str ":status", v)]
        | None => []
        end in
      collect_loop (length raw) (drop (Z.to_nat (n + 2)) raw) hdrs
  end.

(** The same walk, adding up sizes. *)
Fixpoint size_loop (fuel : nat) (p : bytes) (count size : Z) : Z * Z :=
  match fuel with
  | O => (count, size)
  | S fuel =>
      match p with
      | [] => (count, size)
      | _ =>
          if 64 <=? count then (count, size)
          else
            match strstr p crlf with
            | None => (count, size)
            | Some n =>
                if n =? 0 then (count, size)
                else
                  let '(count, size) :=
                    match split_line (take (Z.to_nat n) p) with
                    | None => (count, size)
                    | Some (k, v) => (count + 1, size + (8 + len k + 1 + len v + 1))
                    end in
                  size_loop fuel (drop (Z.to_nat (n + 2)) p) count size
            end
      end
  end.

Definition pw_http_call_response_headers_size (c : pctx) : Z :=
  match active_response c with
  | None => 0
  | Some r =>
      match raw_buf r with
      | None => 0
      | Some raw =>
          let '(count, size) :=
            match strstr raw crlf with
            | None => (0, 4)
            | Some n =>
                let '(count, size) :=
                  match status_value (take (Z.to_nat n) raw) with
                  | Some v => (1, 4 + (8 + strlen (str ":status") + 1 + len v + 1))
                  | None => (0, 4)
                  end in
                size_loop (length raw) (drop (Z.to_nat (n + 2)) raw) count size
            end in
          if count =? 0 then 0 else size
      end
  end.

(** ** [struct http] as pairs *)

Definition hd_at (hp : http) (i : Z) : outcome (option bytes) :=
  if i <? 0 then Fault
  else match hd hp !! Z.to_nat i with Some x => Done x | None => Fault end.

(** The lines [HTTP_HDR_FIRST .. nhd), the [n] from index [i] on. *)
Fixpoint hd_lines (n : nat) (hp : http) (i : Z) : outcome (list (option bytes)) :=
  match n with
  | O => Done []
  | S n =>
      let! x := hd_at hp i in
      let! l := hd_lines n hp (i + 1) in
      Done (x :: l)
  end.

(** Key and value of a line; a NULL line is two empty strings, a line without
    colon a key without value. *)
Definition line_kv (hdr_line : option bytes) : bytes * bytes :=
  match hdr_line with
  | None => ([], [])
  | Some b =>
      let s := cstr b in
      match memchr colon s with
      | None => (s, [])
      | Some k => (take (Z.to_nat k) s, skip_blank (drop (Z.to_nat (k + 1)) s))
      end
  end.

(** The [:authority] value: of the first line that begins with [Host:]. *)
Fixpoint host_value (lines : list (option bytes)) : option bytes :=
  match lines with
  | [] => None
  | Some b :: lines =>
      if strncasecmp_eq 5 b (str "Host:") then Some (skip_blank (drop 5 (cstr b)))
      else host_value lines
  | None :: lines => host_value lines
  end.

Definition pseudo_pair (name : string) (v : option bytes) : list (bytes * bytes) :=
  match v with
  | Some b => [(str name, cstr b)]
  | None => []
  end.

Definition pseudo_pairs (hp : http) (map_type : Z) (lines : list (option bytes))
    : outcome (list (bytes * bytes)) :=
  if map_type =? PROXY_MAP_HTTP_REQUEST_HEADERS then
    let! m := hd_at hp HTTP_HDR_METHOD in
    let! u := hd_at hp HTTP_HDR_URL in
    Done (pseudo_pair ":method" m ++ pseudo_pair ":path" u ++
          pseudo_pair ":authority" (host_value lines))
  else if map_type =? PROXY_MAP_HTTP_RESPONSE_HEADERS then
    let! s := hd_at hp HTTP_HDR_STATUS in
    Done (pseudo_pair ":status" s)
  else Done [].

Definition http_pairs (hp : http) (map_type : Z) : outcome (list (bytes * bytes)) :=
  let! lines := hd_lines (Z.to_nat (nhd hp - HTTP_HDR_FIRST)) hp HTTP_HDR_FIRST in
  let! pseudo := pseudo_pairs hp map_type lines in
  Done (pseudo ++ map line_kv lines).

(** ** The host functions *)

(** [hdr_search]: the length byte, then the [i] bytes [snprintf] produced and
    their NUL. *)
Definition hdr_search (key : bytes) : bytes :=
  let text := cstr key ++ str ":" in
  u8 (len text) :: text ++ [0].

Definition HDR_SEARCH_SIZE : Z := 260.
Definition HDR_LINE_SIZE : Z := 4352.

Definition pw_proxy_get_header_map_value (e : env) (c : pctx) (args : list Z)
    : outcome (pctx * Z) :=
  match args with
  | map_type :: a1 :: a2 :: a3 :: a4 :: _ =>
      let! key := read_string c (u32 a1) (u32 a2) 256 in
      match key with
      | None => Done (c, PROXY_BAD_ARGUMENT)
      | Some key_buf =>
          let give (v : option bytes) : outcome (pctx * Z) :=
            match v with
            | None => Done (c, PROXY_NOT_FOUND)
            | Some val =>
                let! '(c, r) := return_bytes c (Some val) (u32 a3) (u32 a4) in
                Done (c, status r PROXY_INTERNAL)
            end in
          if pw_is_trailer_map map_type then
            match pw_get_trailer_map c map_type with
            | None => Done (c, PROXY_BAD_ARGUMENT)
            | Some tm => give (pw_trailer_get tm (cstr key_buf))
            end
          else if map_type =? PROXY_MAP_HTTP_CALL_RESP_HEADERS then
            give (pw_http_call_response_find_header c key_buf)
          else if (map_type =? PROXY_MAP_HTTP_CALL_RESP_TRAILERS)
               || (map_type =? PROXY_MAP_GRPC_CALL_INITIAL_MD)
               || (map_type =? PROXY_MAP_GRPC_CALL_TRAILING_MD) then Done (c, PROXY_NOT_FOUND)
          else
            match pw_get_header_map c map_type with
            | None => Done (c, PROXY_BAD_ARGUMENT)
            | Some hp =>
                let i := strlen key_buf + 1 in
                if (i <=? 0) || (HDR_SEARCH_SIZE - 1 <=? i) then Done (c, PROXY_BAD_ARGUMENT)
                else
                  give (match http_GetHdr hp (hdr_search key_buf) with
                        | Some val => Some (skip_blank (cstr val))
                        | None => None
                        end)
            end
      end
  | _ => Fault
  end.

(** [snprintf(hdr_line, sizeof(hdr_line), "%s: %s", key, val)] *)
Definition hdr_line (key val : bytes) : bytes :=
  take (Z.to_nat (HDR_LINE_SIZE - 1)) (cstr key ++ str ": " ++ cstr val).

(** [WS_Copy] of the line (the [i]-th allocation), then [http_SetHeader]. *)
Definition add_line (ok : oracle) (i : nat) (hp : http) (line : bytes) : option http :=
  if negb (ok i) then None else Some (http_SetHeader hp line).

Definition pw_proxy_add_header_map_value (e : env) (c : pctx) (args : list Z)
    : outcome (pctx * Z) :=
  match args with
  | map_type :: a1 :: a2 :: a3 :: a4 :: _ =>
      let! key := read_string c (u32 a1) (u32 a2) 256 in
      match key with
      | None => Done (c, PROXY_BAD_ARGUMENT)
      | Some key_buf =>
          let! val := read_string c (u32 a3) (u32 a4) 4096 in
          match val with
          | None => Done (c, PROXY_BAD_ARGUMENT)
          | Some val_buf =>
              if pw_is_trailer_map map_type then
                match pw_get_trailer_map c map_type with
                | None => Done (c, PROXY_BAD_ARGUMENT)
                | Some tm =>
                    let '(tm, r) := pw_trailer_add (ok e) tm (cstr key_buf) (cstr val_buf) in
                    Done (put_trailer_map c map_type tm, status r PROXY_INTERNAL)
                end
              else
                match pw_get_header_map_mutable c map_type with
                | None => Done (c, PROXY_BAD_ARGUMENT)
                | Some hp =>
                    match add_line (ok e) 0 hp (hdr_line key_buf val_buf) with
                    | None => Done (c, PROXY_INTERNAL)
                    | Some hp => Done (put_header_map c map_type hp, PROXY_OK)
                    end
                end
          end
      end
  | _ => Fault
  end.

Definition pw_proxy_replace_header_map_value (e : env) (c : pctx) (args : list Z)
    : outcome (pctx * Z) :=
  match args with
  | map_type :: a1 :: a2 :: a3 :: a4 :: _ =>
      let! key := read_string c (u32 a1) (u32 a2) 256 in
      match key with
      | None => Done (c, PROXY_BAD_ARGUMENT)
      | Some key_buf =>
          let! val := read_string c (u32 a3) (u32 a4) 4096 in
          match val with
          | None => Done (c, PROXY_BAD_ARGUMENT)
          | Some val_buf =>
              if pw_is_trailer_map map_type then
                match pw_get_trailer_map c map_type with
                | None => Done (c, PROXY_BAD_ARGUMENT)
                | Some tm =>
                    let tm := pw_trailer_remove tm (cstr key_buf) in
                    let '(tm, _) := pw_trailer_add (ok e) tm (cstr key_buf) (cstr val_buf) in
                    Done (put_trailer_map c map_type tm, PROXY_OK)
                end
              else
                match pw_get_header_map_mutable c map_type with
                | None => Done (c, PROXY_BAD_ARGUMENT)
                | Some hp =>
                    let i := strlen key_buf + 1 in
                    let hp :=
                      if (0 <? i) && (i <? HDR_SEARCH_SIZE - 1)
                      then http_Unset hp (hdr_search key_buf) else hp in
                    match add_line (ok e) 0 hp (hdr_line key_buf val_buf) with
                    | None => Done (put_header_map c map_type hp, PROXY_INTERNAL)
                    | Some hp => Done (put_header_map c map_type hp, PROXY_OK)
                    end
                end
          end
      end
  | _ => Fault
  end.

Definition pw_proxy_remove_header_map_value (e : env) (c : pctx) (args : list Z)
    : outcome (pctx * Z) :=
  match args with
  | map_type :: a1 :: a2 :: _ =>
      let! key := read_string c (u32 a1) (u32 a2) 256 in
      match key with
      | None => Done (c, PROXY_BAD_ARGUMENT)
      | Some key_buf =>
          if pw_is_trailer_map map_type then
            match pw_get_trailer_map c map_type with
            | None => Done (c, PROXY_BAD_ARGUMENT)
            | Some tm =>
                Done (put_trailer_map c map_type (pw_trailer_remove tm (cstr key_buf)), PROXY_OK)
            end
          else
            match pw_get_header_map_mutable c map_type with
            | None => Done (c, PROXY_BAD_ARGUMENT)
            | Some hp =>
                let i := strlen key_buf + 1 in
                if (i <=? 0) || (HDR_SEARCH_SIZE - 1 <=? i) then Done (c, PROXY_BAD_ARGUMENT)
                else Done (put_header_map c map_type (http_Unset hp (hdr_search key_buf)), PROXY_OK)
            end
      end
  | _ => Fault
  end.

(** Serialize the pairs (the [malloc] may fail) and return them. *)
Definition return_pairs (e : env) (c : pctx) (l : list (bytes * bytes)) (o1 o2 : Z)
    : outcome (pctx * Z) :=
  if negb (ok e 0%nat) then Done (c, PROXY_INTERNAL)
  else
    let! buf := serialize (uninit e) l in
    let! '(c, r) := return_bytes c (Some buf) o1 o2 in
    Done (c, status r PROXY_INTERNAL).

Definition pw_proxy_get_header_map_pairs (e : env) (c : pctx) (args : list Z)
    : outcome (pctx * Z) :=
  match args with
  | map_type :: a1 :: a2 :: _ =>
      let return_none :=
        let! '(c, r) := return_bytes c None (u32 a1) (u32 a2) in
        Done (c, status r PROXY_INTERNAL) in
      if pw_is_trailer_map map_type then
        match pw_get_trailer_map c map_type with
        | None | Some [] => return_none
        | Some tm =>
            return_pairs e c (map (fun t => (t_name t, t_value t)) tm) (u32 a1) (u32 a2)
        end
      else if map_type =? PROXY_MAP_HTTP_CALL_RESP_HEADERS then
        match active_response c with
        | None => return_none
        | Some r =>
            match raw_buf r with
            | None => return_none
            | Some raw => return_pairs e c (response_pairs raw) (u32 a1) (u32 a2)
            end
        end
      else if (map_type =? PROXY_MAP_HTTP_CALL_RESP_TRAILERS)
           || (map_type =? PROXY_MAP_GRPC_CALL_INITIAL_MD)
           || (map_type =? PROXY_MAP_GRPC_CALL_TRAILING_MD) then return_none
      else
        match pw_get_header_map c map_type with
        | None => return_none
        | Some hp =>
            let! l := http_pairs hp map_type in
            return_pairs e c l (u32 a1) (u32 a2)
        end
  | _ => Fault
  end.

(** The loop of [pw_proxy_set_header_map_pairs] for trailers: the [n] pairs
    from [i] on, [offset] the place of the next key in [data]. *)
Fixpoint set_trailers_loop (n : nat) (ok : oracle) (data : bytes) (i offset : Z) (tm : trailer_map)
    : outcome trailer_map :=
  match n with
  | O => Done tm
  | S n =>
      let! ks := rd data (4 + i * 8) 4 in
      let! vs := rd data (4 + i * 8 + 4) 4 in
      let key_size := get_u32 ks in
      let val_size := get_u32 vs in
      if len data <? u32 (offset + key_size + 1 + val_size + 1) then Done tm
      else
        let key := offset in
        let offset := u32 (offset + key_size + 1) in
        let val := offset in
        let offset := u32 (offset + val_size + 1) in
        if (0 <? key_size) && (key_size <? 256) && (val_size <? 4096) then
          let! k := rd data key key_size in
          let! v := rd data val val_size in
          let '(tm, _) := pw_trailer_add (fun j => ok (Z.to_nat i * 2 + j)%nat) tm k v in
          set_trailers_loop n ok data (i + 1) offset tm
        else set_trailers_loop n ok data (i + 1) offset tm
  end.

(** The same loop for headers; [None]: [WS_Copy] failed. *)
Fixpoint set_headers_loop (n : nat) (ok : oracle) (data : bytes) (i offset : Z) (hp : http)
    : outcome (http * bool) :=
  match n with
  | O => Done (hp, true)
  | S n =>
      let! ks := rd data (4 + i * 8) 4 in
      let! vs := rd data (4 + i * 8 + 4) 4 in
      let key_size := get_u32 ks in
      let val_size := get_u32 vs in
      if len data <? u32 (offset + key_size + 1 + val_size + 1) then Done (hp, true)
      else
        let key := offset in
        let offset := u32 (offset + key_size + 1) in
        let val := offset in
        let offset := u32 (offset + val_size + 1) in
        if (0 <? key_size) && (key_size <? 256) && (val_size <? 4096) then
          let! k := rd data key key_size in
          let! v := rd data val val_size in
          match add_line ok (Z.to_nat i) hp (hdr_line k v) with
          | None => Done (hp, false)
          | Some hp => set_headers_loop n ok data (i + 1) offset hp
          end
        else set_headers_loop n ok data (i + 1) offset hp
  end.

(** [hd[i] = NULL] from [HTTP_HDR_FIRST] up to [nhd], then [nhd] reset. *)
Definition clear_headers (hp : http) : http :=
  Http (take (Z.to_nat HTTP_HDR_FIRST) (hd hp) ++
        replicate (Z.to_nat (nhd hp - HTTP_HDR_FIRST)) None ++
        drop (Z.to_nat (Z.max HTTP_HDR_FIRST (nhd hp))) (hd hp)) HTTP_HDR_FIRST.

Definition pw_proxy_set_header_map_pairs (e : env) (c : pctx) (args : list Z)
    : outcome (pctx * Z) :=
  match args with
  | a0 :: a1 :: a2 :: _ =>
      let map_type := i32 a0 in
      let data_ptr := u32 a1 in
      let data_size := u32 a2 in
      if (data_size <? 4) || negb (pw_validate_region (w c) data_ptr data_size)
      then Done (c, PROXY_BAD_ARGUMENT)
      else
        match pw_mem_ptr (w c) data_ptr with
        | None => Done (c, PROXY_INTERNAL)
        | Some p =>
            let! data := mem_read (w c) (Some p) data_size in
            let! np := rd data 0 4 in
            let num_pairs := get_u32 np in
            if 256 <? num_pairs then Done (c, PROXY_BAD_ARGUMENT)
            else if data_size <? u32 (4 + num_pairs * 8) then Done (c, PROXY_BAD_ARGUMENT)
            else if pw_is_trailer_map map_type then
              match pw_get_trailer_map c map_type with
              | None => Done (c, PROXY_BAD_ARGUMENT)
              | Some tm =>
                  let tm := pw_trailer_clear tm in
                  let! tm := set_trailers_loop (Z.to_nat num_pairs) (ok e) data 0
                               (u32 (4 + num_pairs * 8)) tm in
                  Done (put_trailer_map c map_type tm, PROXY_OK)
              end
            else
              match pw_get_header_map_mutable c map_type with
              | None => Done (c, PROXY_BAD_ARGUMENT)
              | Some hp =>
                  let! '(hp, all) := set_headers_loop (Z.to_nat num_pairs) (ok e) data 0
                                       (u32 (4 + num_pairs * 8)) (clear_headers hp) in
                  Done (put_header_map c map_type hp,
                        if (all : bool) then PROXY_OK else PROXY_INTERNAL)
              end
        end
  | _ => Fault
  end.

(** The [serialized_size] of a list of pairs, in 32 bits. *)
Definition pairs_size32 (l : list (bytes * bytes)) : Z :=
  foldl (fun acc '(k, v) => u32 (acc + (u32 (len k) + 1 + u32 (len v) + 1)))
        (u32 (4 + u32 (len l) * 8)) l.

(** A pseudo header in [num_headers] and [data_size]. *)
Definition size_pseudo (name : string) (b : option bytes) (nd : Z * Z) : Z * Z :=
  match b with
  | None => nd
  | Some b => (u32 (nd.1 + 1), u32 (nd.2 + (strlen (str name) + 1 + strlen b + 1)))
  end.

(** The loop that looks for the [Host:] line, over the [n] lines from [i] on. *)
Fixpoint size_host (n : nat) (hp : http) (i : Z) (nd : Z * Z) : outcome (Z * Z) :=
  match n with
  | O => Done nd
  | S n =>
      let! b := hd_at hp i in
      match b with
      | None => size_host n hp (i + 1) nd
      | Some b =>
          if strncasecmp_eq 5 b (str "Host:") then
            let v := skip_blank (drop 5 (cstr b)) in
            Done (u32 (nd.1 + 1), u32 (nd.2 + (strlen (str ":authority") + 1 + strlen v + 1)))
          else size_host n hp (i + 1) nd
      end
  end.

(** The loop that adds the size of every line. *)
Fixpoint size_lines (n : nat) (hp : http) (i data_size : Z) : outcome Z :=
  match n with
  | O => Done data_size
  | S n =>
      let! hdr_line := hd_at hp i in
      let data_size :=
        match hdr_line with
        | None => u32 (data_size + 2)
        | Some b =>
            let s := cstr b in
            match memchr colon s with
            | None => u32 (data_size + (u32 (len s) + 2))
            | Some k =>
                let val := skip_blank (drop (Z.to_nat (k + 1)) s) in
                u32 (data_size + (u32 k + 1 + u32 (len val) + 1))
            end
        end in
      size_lines n hp (i + 1) data_size
  end.

(** The pseudo headers of the map. *)
Definition size_pseudos (hp : http) (map_type : Z) (nd : Z * Z) : outcome (Z * Z) :=
  if map_type =? PROXY_MAP_HTTP_REQUEST_HEADERS then
    let! m := hd_at hp HTTP_HDR_METHOD in
    let! u := hd_at hp HTTP_HDR_URL in
    size_host (Z.to_nat (nhd hp - HTTP_HDR_FIRST)) hp HTTP_HDR_FIRST
      (size_pseudo ":path" u (size_pseudo ":method" m nd))
  else if map_type =? PROXY_MAP_HTTP_RESPONSE_HEADERS then
    let! s := hd_at hp HTTP_HDR_STATUS in
    Done (size_pseudo ":status" s nd)
  else Done nd.

(** [serialized_size] for the header object. *)
Definition http_size (hp : http) (map_type : Z) : outcome Z :=
  let n := Z.to_nat (nhd hp - HTTP_HDR_FIRST) in
  let num_headers := u32 (nhd hp - HTTP_HDR_FIRST) in
  let! '(num_headers, data_size) := size_pseudos hp map_type (num_headers, 0) in
  let! data_size := size_lines n hp HTTP_HDR_FIRST data_size in
  Done (u32 (4 + num_headers * 8 + data_size)).

Definition pw_proxy_get_header_map_size (e : env) (c : pctx) (args : list Z)
    : outcome (pctx * Z) :=
  match args with
  | map_type :: a1 :: _ =>
      let give (serialized_size : Z) : outcome (pctx * Z) :=
        let! '(c, r) := write_u32 c (u32 a1) serialized_size in
        Done (c, status r PROXY_BAD_ARGUMENT) in
      if negb (pw_is_known_map map_type) then Done (c, PROXY_BAD_ARGUMENT)
      else if pw_is_trailer_map map_type then
        match pw_get_trailer_map c map_type with
        | None | Some [] => give 0
        | Some tm => give (pairs_size32 (map (fun t => (t_name t, t_value t)) tm))
        end
      else if map_type =? PROXY_MAP_HTTP_CALL_RESP_HEADERS then
        give (u32 (pw_http_call_response_headers_size c))
      else if map_type =? PROXY_MAP_HTTP_CALL_RESP_TRAILERS then give 0
      else if (map_type =? PROXY_MAP_GRPC_CALL_INITIAL_MD)
           || (map_type =? PROXY_MAP_GRPC_CALL_TRAILING_MD) then Done (c, PROXY_NOT_FOUND)
      else
        match pw_get_header_map c map_type with
        | None => give 0
        | Some hp =>
            let! size := http_size hp map_type in
            give size
        end
  | _ => Fault
  end.

End Headers.

(** * The serialization *)

(** ** Specification of the wire format *)

Fixpoint enc_sizes (l : list (bytes * bytes)) : bytes :=
  match l with
  | [] => []
  | (k, v) :: l => le_bytes 4 (len k) ++ le_bytes 4 (len v) ++ enc_sizes l
  end.

Fixpoint enc_data (l : list (bytes * bytes)) : bytes :=
  match l with
  | [] => []
  | (k, v) :: l => k ++ [0] ++ v ++ [0] ++ enc_data l
  end.

Definition encode (l : list (bytes * bytes)) : bytes :=
  le_bytes 4 (len l) ++ enc_sizes l ++ enc_data l.

Lemma enc_sizes_app l1 l2 : enc_sizes (l1 ++ l2) = enc_sizes l1 ++ enc_sizes l2.
Proof.
  induction l1 as [|[k v] l1 IH]; [done|]. cbn [app enc_sizes]. by rewrite IH, !app_assoc.
Qed.

Lemma enc_data_app l1 l2 : enc_data (l1 ++ l2) = enc_data l1 ++ enc_data l2.
Proof.
  induction l1 as [|[k v] l1 IH]; [done|]. rewrite <- app_comm_cons. cbn [enc_data].
  by rewrite IH, <- !app_assoc.
Qed.

Lemma len_enc_sizes l : len (enc_sizes l) = len l * 8.
Proof.
  induction l as [|[k v] l IH]; [done|]. cbn [enc_sizes].
  rewrite !len_app, !len_le_bytes, IH, len_cons. lia.
Qed.

Lemma len_enc_data_cons k v l :
  len (enc_data ((k, v) :: l)) = len k + 1 + len v + 1 + len (enc_data l).
Proof. cbn [enc_data]. rewrite !len_app. change (len [0]) with 1. lia. Qed.

Lemma fold_size l acc :
  foldl (fun acc '(k, v) => acc + (len k + 1 + len v + 1)) acc l = acc + len (enc_data l).
Proof.
  revert acc. induction l as [|[k v] l IH]; intros acc; simpl foldl.
  - change (len (enc_data [])) with 0. lia.
  - rewrite IH, len_enc_data_cons. lia.
Qed.

(** The buffer size the code computes is the length of the encoding. *)
Lemma len_encode l : len (encode l) = pairs_size l.
Proof.
  unfold encode, pairs_size. rewrite !len_app, len_le_bytes, len_enc_sizes, fold_size. lia.
Qed.

(** Each entry is shorter than the whole. *)
Lemma enc_data_bounds l :
  Forall (fun kv => len kv.1 <= len (enc_data l) /\ len kv.2 <= len (enc_data l)) l.
Proof.
  induction l as [|[k v] l IH]; constructor.
  - rewrite len_enc_data_cons. simpl. pose proof (len_nonneg k). pose proof (len_nonneg v).
    pose proof (len_nonneg (enc_data l)). lia.
  - eapply list.Forall_impl; [exact IH|]. intros kv [? ?]. rewrite len_enc_data_cons.
    pose proof (len_nonneg k). pose proof (len_nonneg v). lia.
Qed.

(** ** The serializer writes the encoding and stays in its buffer *)

Lemma put_sizes_spec l buf acc :
  filled buf acc -> len acc + len (enc_sizes l) <= len buf -> len buf < 4294967296 ->
  Forall (fun kv => len kv.1 < 4294967296 /\ len kv.2 < 4294967296) l ->
  exists buf', put_sizes l buf (len acc) = Done (buf', len (acc ++ enc_sizes l)) /\
               filled buf' (acc ++ enc_sizes l) /\ len buf' = len buf.
Proof.
  revert buf acc. induction l as [|[k v] l IH]; intros buf acc Hf Hl Hb Hs.
  { exists buf. simpl. by rewrite app_nil_r. }
  inversion_clear Hs as [|?? [Hk Hv] Hs']. simpl in Hk, Hv.
  cbn [put_sizes enc_sizes] in *. rewrite !len_app, !len_le_bytes in Hl.
  pose proof (len_nonneg acc). pose proof (len_nonneg (enc_sizes l)).
  pose proof (len_nonneg k). pose proof (len_nonneg v).
  replace (u32 (len k)) with (len k) by zlia. replace (u32 (len v)) with (len v) by zlia.
  destruct (wr_append buf acc (le_bytes 4 (len k)) Hf) as (b1 & -> & Hf1 & Hl1);
    [rewrite len_le_bytes; lia|]. cbn [obind].
  replace (u32 (len acc + 4)) with (len (acc ++ le_bytes 4 (len k)))
    by (rewrite len_app, len_le_bytes; zlia).
  destruct (wr_append b1 _ (le_bytes 4 (len v)) Hf1) as (b2 & -> & Hf2 & Hl2);
    [rewrite len_app, !len_le_bytes; lia|]. cbn [obind].
  replace (u32 _) with (len ((acc ++ le_bytes 4 (len k)) ++ le_bytes 4 (len v)))
    by (rewrite !len_app, !len_le_bytes; zlia).
  destruct (IH b2 _ Hf2) as (b' & -> & Hf' & Hl'); [rewrite !len_app, !len_le_bytes; lia|lia|done|].
  exists b'. rewrite <- !app_assoc in *. split_and!; [done|done|lia].
Qed.

Lemma put_data_spec l buf acc :
  filled buf acc -> len acc + len (enc_data l) <= len buf -> len buf < 4294967296 ->
  exists buf', put_data l buf (len acc) = Done (buf', len (acc ++ enc_data l)) /\
               filled buf' (acc ++ enc_data l) /\ len buf' = len buf.
Proof.
  revert buf acc. induction l as [|[k v] l IH]; intros buf acc Hf Hl Hb.
  { exists buf. simpl. by rewrite app_nil_r. }
  rewrite len_enc_data_cons in Hl. cbn [put_data enc_data] in *.
  pose proof (len_nonneg acc). pose proof (len_nonneg (enc_data l)).
  pose proof (len_nonneg k). pose proof (len_nonneg v).
  assert (forall z : Z, len [z] = 1) as Hone by done.
  replace (u32 (len k)) with (len k) by zlia. replace (u32 (len v)) with (len v) by zlia.
  destruct (wr_append buf acc k Hf) as (b1 & -> & Hf1 & Hl1); [lia|]. cbn [obind].
  replace (u32 (len acc + len k)) with (len (acc ++ k)) by (rewrite len_app; zlia).
  destruct (wr_append b1 _ [0] Hf1) as (b2 & -> & Hf2 & Hl2); [rewrite len_app, Hone; lia|].
  cbn [obind]. replace (u32 (len (acc ++ k) + 1)) with (len ((acc ++ k) ++ [0]))
    by (rewrite !len_app, Hone; zlia).
  destruct (wr_append b2 _ v Hf2) as (b3 & -> & Hf3 & Hl3); [rewrite !len_app, Hone; lia|].
  cbn [obind]. replace (u32 (len ((acc ++ k) ++ [0]) + len v))
    with (len (((acc ++ k) ++ [0]) ++ v)) by (rewrite !len_app, Hone; zlia).
  destruct (wr_append b3 _ [0] Hf3) as (b4 & -> & Hf4 & Hl4); [rewrite !len_app, !Hone; lia|].
  cbn [obind]. replace (u32 _) with (len ((((acc ++ k) ++ [0]) ++ v) ++ [0]))
    by (rewrite !len_app, !Hone; zlia).
  destruct (IH b4 _ Hf4) as (b' & -> & Hf' & Hl'); [rewrite !len_app, !Hone; lia|lia|].
  exists b'. rewrite <- !app_assoc in *. split_and!; [done|done|lia].
Qed.

Lemma serialize_spec un l :
  (forall n, length (un n) = n) -> len (encode l) < 4294967296 ->
  serialize un l = Done (encode l).
Proof.
  intros Hun Hl. unfold serialize. rewrite <- len_encode.
  set (buf := un _). assert (len buf = len (encode l)) as Hb.
  { unfold buf, len at 1. rewrite Hun. pose proof (len_nonneg (encode l)). lia. }
  unfold encode in Hb, Hl. rewrite !len_app, len_le_bytes in Hb, Hl.
  pose proof (len_nonneg l). pose proof (len_nonneg (enc_data l)). rewrite len_enc_sizes in *.
  replace (u32 (len l)) with (len l) by zlia.
  destruct (wr_append buf [] (le_bytes 4 (len l))) as (b1 & E1 & Hf1 & Hl1);
    [done|rewrite len_le_bytes; change (len (@nil Z)) with 0; lia|].
  change (len (@nil Z)) with 0 in E1. rewrite E1. cbn [obind app] in *.
  replace 4 with (len (le_bytes 4 (len l))) at 1 by apply len_le_bytes.
  destruct (put_sizes_spec l b1 _ Hf1) as (b2 & -> & Hf2 & Hl2).
  { rewrite len_le_bytes, len_enc_sizes. lia. }
  { lia. }
  { eapply list.Forall_impl; [apply enc_data_bounds|]. simpl. lia. }
  cbn [obind]. destruct (put_data_spec l b2 _ Hf2) as (b3 & -> & Hf3 & Hl3).
  { rewrite len_app, len_le_bytes, len_enc_sizes. lia. }
  { lia. }
  cbn [obind]. rewrite filled_all; [by rewrite <- app_assoc|done|].
  rewrite !len_app, len_le_bytes, len_enc_sizes. lia.
Qed.

(** ** The sizes reported to the guest *)

Lemma u32_fold_size l acc :
  0 <= acc -> acc + len (enc_data l) < 4294967296 ->
  foldl (fun acc '(k, v) => u32 (acc + (len k + 1 + len v + 1))) acc l = acc + len (enc_data l).
Proof.
  revert acc. induction l as [|[k v] l IH]; intros acc Ha Hl; simpl foldl.
  - change (len (enc_data [])) with 0. lia.
  - rewrite len_enc_data_cons in *. pose proof (len_nonneg k). pose proof (len_nonneg v).
    pose proof (len_nonneg (enc_data l)).
    replace (u32 _) with (acc + (len k + 1 + len v + 1)) by zlia. rewrite IH by lia. lia.
Qed.

Lemma pairs_size32_spec l : len (encode l) < 4294967296 -> pairs_size32 l = len (encode l).
Proof.
  intros Hl. rewrite len_encode in *. unfold pairs_size, pairs_size32 in *.
  rewrite fold_size in *. pose proof (len_nonneg l). pose proof (len_nonneg (enc_data l)).
  replace (u32 (4 + u32 (len l) * 8)) with (4 + len l * 8) by zlia.
  rewrite <- (u32_fold_size l) by lia. pose proof (enc_data_bounds l) as Hf.
  assert (len (enc_data l) < 4294967296) as Hd by lia. clear - Hf Hd.
  revert Hf Hd. generalize (enc_data l). intros d Hf Hd. revert Hf.
  generalize (4 + len l * 8). induction l as [|[k v] l IH]; intros z Hf; [done|].
  inversion_clear Hf as [|?? [Hk Hv] Hf']. simpl in *.
  pose proof (len_nonneg k). pose proof (len_nonneg v).
  replace (u32 (len k)) with (len k) by zlia. replace (u32 (len v)) with (len v) by zlia.
  by apply IH.
Qed.

Lemma size_loop_spec fuel p hdrs :
  size_loop fuel p (len hdrs) (len (encode hdrs)) =
  (len (collect_loop fuel p hdrs), len (encode (collect_loop fuel p hdrs))).
Proof.
  revert p hdrs. induction fuel as [|fuel IH]; intros p hdrs; [done|]. cbn [size_loop collect_loop].
  destruct p as [|x p]; [done|]. set (pp := x :: p). destruct (64 <=? len hdrs); [done|].
  destruct (strstr pp crlf) as [n|]; [|done]. destruct (n =? 0); [done|].
  destruct (split_line _) as [[k v]|]; [|apply IH].
  rewrite <- IH. f_equal; [by rewrite len_app|].
  rewrite !len_encode. unfold pairs_size. rewrite !fold_size, enc_data_app, !len_app.
  rewrite len_enc_data_cons. change (len [(k, v)]) with 1. change (len (enc_data [])) with 0. lia.
Qed.

(** The reported size is that of the pairs, or 0 when there are none. *)
Lemma response_size_spec c r raw :
  active_response c = Some r -> raw_buf r = Some raw ->
  pw_http_call_response_headers_size c =
  if decide (response_pairs raw = []) then 0 else len (encode (response_pairs raw)).
Proof.
  intros Ha Hr. unfold pw_http_call_response_headers_size, response_pairs. rewrite Ha, Hr.
  destruct (strstr raw crlf) as [n|]; [|done].
  assert (match status_value (take (Z.to_nat n) raw) with
          | Some v => (1, 4 + (8 + strlen (str ":status") + 1 + len v + 1))
          | None => (0, 4)
          end =
          (let hdrs := match status_value (take (Z.to_nat n) raw) with
                       | Some v => [(str ":status", v)] | None => [] end in
           (len hdrs, len (encode hdrs)))) as ->.
  { destruct (status_value _) as [v|]; [|done]. cbv zeta. f_equal.
    rewrite len_encode. unfold pairs_size. rewrite fold_size, len_enc_data_cons.
    change (strlen (str ":status")) with 7. change (len (str ":status")) with 7.
    change (len (enc_data [])) with 0. change (len [(str ":status", v)]) with 1. lia. }
  cbv beta iota zeta. rewrite size_loop_spec. set (l := collect_loop _ _ _).
  destruct l as [|kv l]; [done|]. rewrite decide_False by done.
  rewrite (proj2 (Z.eqb_neq _ 0)); [done|]. rewrite len_cons. pose proof (len_nonneg l). lia.
Qed.

(** ** Reading the serialization *)

(** The trailer map keeps its bounds. *)
Lemma trailer_add_wf o tm k v :
  wf_trailers tm -> len k < 256 -> len v < 4096 -> wf_trailers (pw_trailer_add o tm k v).1.
Proof.
  intros [Hl Hf] Hk Hv. unfold pw_trailer_add. repeat (split_if; [by split|]).
  split; simpl; [rewrite len_app; change (len [TrailerEntry k v]) with 1; lia|].
  apply Forall_app. split; [done|]. by constructor.
Qed.

(** A pair that passes the length test lies inside the data, although the test
    is made in 32 bits. *)
Lemma pair_in_bounds (data : bytes) offset ks vs :
  len data <= 4294901760 -> 0 <= offset <= len data -> 0 < ks < 256 -> 0 <= vs < 4096 ->
  u32 (offset + ks + 1 + vs + 1) <= len data ->
  u32 (offset + ks + 1) = offset + ks + 1 /\ offset + ks + 1 + vs + 1 <= len data.
Proof. intros. zlia. Qed.

Lemma set_trailers_loop_safe n o data i offset tm :
  0 <= i -> 4 + (i + Z.of_nat n) * 8 <= len data -> 0 <= offset <= len data ->
  len data <= 4294901760 -> wf_trailers tm ->
  exists tm', set_trailers_loop n o data i offset tm = Done tm' /\ wf_trailers tm'.
Proof.
  revert i offset tm. induction n as [|n IH]; intros i offset tm Hi Hl Ho Hd Ht; [by exists tm|].
  cbn [set_trailers_loop]. rewrite !rd_done by lia. cbn [obind].
  set (ks := get_u32 _). set (vs := get_u32 (sub data (4 + i * 8 + 4) 4)).
  assert (is_u32 ks /\ is_u32 vs) as [Hks Hvs] by (split; apply get_u32_range).
  clearbody ks vs. unfold is_u32 in *.
  destruct (len data <? _) eqn:E; btest; [by exists tm|]. cbv zeta.
  assert (0 <= u32 (u32 (offset + ks + 1) + vs + 1) <= len data) as Ho' by zlia.
  destruct ((0 <? ks) && (ks <? 256) && (vs <? 4096)) eqn:E2; btest; [|apply IH; lia || done].
  destruct (pair_in_bounds data offset ks vs) as [E3 Hin]; [lia..|]. rewrite E3 in *.
  rewrite !rd_done by lia. cbn [obind].
  assert (wf_trailers (pw_trailer_add (fun j => o (Z.to_nat i * 2 + j)%nat) tm
            (sub data offset ks) (sub data (offset + ks + 1) vs)).1) as Hw
    by (apply trailer_add_wf; [done|rewrite len_sub by lia; lia..]).
  destruct (pw_trailer_add _ _ _ _) as [tm' r]. apply IH; lia || done.
Qed.

Section HeaderLoop.
Context `{V : Varnish} `{VL : !VarnishLaws}.

Lemma set_headers_loop_safe n o data i offset hp :
  0 <= i -> 4 + (i + Z.of_nat n) * 8 <= len data -> 0 <= offset <= len data ->
  len data <= 4294901760 -> http_ok hp ->
  exists hp' b, set_headers_loop n o data i offset hp = Done (hp', b) /\ http_ok hp'.
Proof.
  revert i offset hp. induction n as [|n IH]; intros i offset hp Hi Hl Ho Hd Ht;
    [by exists hp, true|].
  cbn [set_headers_loop]. rewrite !rd_done by lia. cbn [obind].
  set (ks := get_u32 _). set (vs := get_u32 (sub data (4 + i * 8 + 4) 4)).
  assert (is_u32 ks /\ is_u32 vs) as [Hks Hvs] by (split; apply get_u32_range).
  clearbody ks vs. unfold is_u32 in *.
  destruct (len data <? _) eqn:E; btest; [by exists hp, true|]. cbv zeta.
  assert (0 <= u32 (u32 (offset + ks + 1) + vs + 1) <= len data) as Ho' by zlia.
  destruct ((0 <? ks) && (ks <? 256) && (vs <? 4096)) eqn:E2; btest; [|apply IH; lia || done].
  destruct (pair_in_bounds data offset ks vs) as [E3 Hin]; [lia..|]. rewrite E3 in *.
  rewrite !rd_done by lia. cbn [obind]. unfold add_line.
  destruct (o (Z.to_nat i)); cbn [negb]; [|by exists hp, false].
  apply IH; try (lia || done). by apply http_SetHeader_ok.
Qed.

Lemma clear_headers_ok hp : http_ok hp -> http_ok (clear_headers hp).
Proof.
  intros Hok. pose proof (http_ok_bounds hp Hok) as (Hn & _). pose proof hdr_method_lt.
  unfold clear_headers. rewrite Z.max_r by lia. unfold len in Hn. apply (http_ok_clear hp); [done| |].
  - rewrite !length_app, length_take, length_replicate, length_drop. lia.
  - intros i x Hx. apply lookup_app_Some in Hx as [Hx|[Hi Hx]].
    { by apply lookup_take_Some in Hx as [? _]. }
    apply lookup_app_Some in Hx as [Hx|[Hi' Hx]].
    { by apply lookup_replicate in Hx as [? _]. }
    rewrite lookup_drop in Hx. rewrite length_take, length_replicate in *.
    replace i with (Z.to_nat (nhd hp) + (i - Z.to_nat (nhd hp)))%nat by lia.
    rewrite <- Hx. f_equal. lia.
Qed.
End HeaderLoop.

(** ** Round trip: reading back what was serialized *)

(** The pieces of an encoding around its entry number [len l1]. *)
Lemma encode_split l1 k v l2 :
  encode (l1 ++ (k, v) :: l2) =
    (le_bytes 4 (len (l1 ++ (k, v) :: l2)) ++ enc_sizes l1) ++ le_bytes 4 (len k) ++
    (le_bytes 4 (len v) ++ enc_sizes l2 ++ enc_data (l1 ++ (k, v) :: l2)).
Proof. unfold encode. rewrite enc_sizes_app. cbn [enc_sizes]. by rewrite <- !app_assoc. Qed.

Lemma encode_split_v l1 k v l2 :
  encode (l1 ++ (k, v) :: l2) =
    (le_bytes 4 (len (l1 ++ (k, v) :: l2)) ++ enc_sizes l1 ++ le_bytes 4 (len k)) ++
    le_bytes 4 (len v) ++ (enc_sizes l2 ++ enc_data (l1 ++ (k, v) :: l2)).
Proof. unfold encode. rewrite enc_sizes_app. cbn [enc_sizes]. by rewrite <- !app_assoc. Qed.

(** Offset of the data of the entry after [l1]. *)
Definition data_off (l l1 : list (bytes * bytes)) : Z := 4 + len l * 8 + len (enc_data l1).

Lemma read_sizes l1 k v l2 :
  rd (encode (l1 ++ (k, v) :: l2)) (4 + len l1 * 8) 4 = Done (le_bytes 4 (len k)) /\
  rd (encode (l1 ++ (k, v) :: l2)) (4 + len l1 * 8 + 4) 4 = Done (le_bytes 4 (len v)).
Proof.
  split; [rewrite encode_split|rewrite encode_split_v];
    etransitivity; try (apply rd_app); f_equal;
    rewrite ?len_app, ?len_le_bytes, ?len_enc_sizes; lia.
Qed.

Lemma read_data l1 k v l2 :
  rd (encode (l1 ++ (k, v) :: l2)) (data_off (l1 ++ (k, v) :: l2) l1) (len k) = Done k /\
  rd (encode (l1 ++ (k, v) :: l2)) (data_off (l1 ++ (k, v) :: l2) l1 + len k + 1) (len v) = Done v.
Proof.
  unfold data_off. set (l := l1 ++ (k, v) :: l2).
  assert (encode l = (le_bytes 4 (len l) ++ enc_sizes l ++ enc_data l1) ++ k ++
            ([0] ++ v ++ [0] ++ enc_data l2)) as E1.
  { unfold encode, l at 3. rewrite enc_data_app. cbn [enc_data]. by rewrite <- !app_assoc. }
  assert (encode l = (le_bytes 4 (len l) ++ enc_sizes l ++ enc_data l1 ++ k ++ [0]) ++ v ++
            ([0] ++ enc_data l2)) as E2.
  { rewrite E1. by rewrite <- !app_assoc. }
  split; [rewrite E1 at 1|rewrite E2 at 1]; etransitivity; try (apply rd_app); f_equal;
    rewrite !len_app, len_le_bytes, len_enc_sizes; change (len [0]) with 1; lia.
Qed.

Definition to_entry (kv : bytes * bytes) : trailer_entry := TrailerEntry kv.1 kv.2.

(** The pairs the loops keep: a name of 1 to 255 bytes, a value under 4096. *)
Definition pair_ok (kv : bytes * bytes) : Prop := 0 < len kv.1 < 256 /\ len kv.2 < 4096.

#[export] Instance pair_ok_dec kv : Decision (pair_ok kv).
Proof. unfold pair_ok. apply _. Defined.

Lemma pair_test k v :
  (0 <? len k) && (len k <? 256) && (len v <? 4096) = bool_decide (pair_ok (k, v)).
Proof.
  unfold pair_ok. simpl.
  destruct (0 <? len k) eqn:E1, (len k <? 256) eqn:E2, (len v <? 4096) eqn:E3; btest; simpl; symmetry;
    first [apply bool_decide_eq_true_2; lia|apply bool_decide_eq_false_2; lia].
Qed.

(** What one round of either loop reads of an encoding, at the entry after
    [l1]: the two sizes, the key and the value; and where it goes on. *)
Lemma encoded_pair l1 (k v : bytes) l2 (l := l1 ++ (k, v) :: l2) (off := data_off l l1) :
  len (encode l) < 4294967296 ->
  (len (encode l) <? u32 (off + len k + 1 + len v + 1)) = false /\
  u32 (off + len k + 1) = off + len k + 1 /\
  u32 (off + len k + 1 + len v + 1) = data_off l (l1 ++ [(k, v)]) /\
  get_u32 (le_bytes 4 (len k)) = len k /\ get_u32 (le_bytes 4 (len v)) = len v.
Proof.
  intros Hlen. pose proof (len_encode l) as Hle. unfold pairs_size in Hle. rewrite fold_size in Hle.
  assert (len (enc_data l) = len (enc_data l1) + (len k + 1 + len v + 1 + len (enc_data l2))) as Hd
    by (unfold l; rewrite enc_data_app, (len_app (enc_data l1)), len_enc_data_cons; lia).
  pose proof (len_nonneg l). pose proof (len_nonneg (enc_data l1)). pose proof (len_nonneg (enc_data l2)).
  pose proof (len_nonneg k). pose proof (len_nonneg v).
  assert (off = 4 + len l * 8 + len (enc_data l1)) as Hoff by done. clearbody off.
  split_and!; [btest; zlia|zlia| |apply get_u32_le_bytes; unfold is_u32; lia..].
  unfold data_off. rewrite enc_data_app, (len_app (enc_data l1)), len_enc_data_cons.
  change (len (enc_data [])) with 0. zlia.
Qed.

(** Moving the entry just read to the front. *)
Lemma next_entry l1 (k v : bytes) l2 :
  l1 ++ (k, v) :: l2 = (l1 ++ [(k, v)]) ++ l2 /\ len l1 + 1 = len (l1 ++ [(k, v)]).
Proof. split; [by rewrite <- app_assoc|by rewrite len_app]. Qed.

(** Reading an encoding from the entry after [l1] on adds the pairs that may be
    kept, as long as there is room. *)
Lemma read_back l1 l2 tm :
  len (encode (l1 ++ l2)) < 4294967296 -> (length tm <= 32)%nat ->
  set_trailers_loop (length l2) all_ok (encode (l1 ++ l2)) (len l1) (data_off (l1 ++ l2) l1) tm =
  Done (tm ++ map to_entry (take (32 - length tm) (filter pair_ok l2))).
Proof.
  revert l1 tm. induction l2 as [|[k v] l2 IH]; intros l1 tm Hlen Htm.
  { cbn [length set_trailers_loop]. rewrite filter_nil, take_nil. by rewrite app_nil_r. }
  cbn [length set_trailers_loop].
  destruct (read_sizes l1 k v l2) as [-> ->]. cbn [obind].
  destruct (encoded_pair l1 k v l2 Hlen) as (E1 & E2 & E3 & E4 & E5).
  rewrite E4, E5, E1. cbv zeta. rewrite E2, E3, pair_test.
  destruct (read_data l1 k v l2) as [-> ->]. cbn [obind].
  destruct (next_entry l1 k v l2) as [Ea Eb]. rewrite Ea, Eb in *. rewrite filter_cons.
  case_bool_decide as Hp; [rewrite decide_True by done|rewrite decide_False by done; by apply IH].
  unfold pw_trailer_add, VWASM_MAX_TRAILERS. destruct (32 <=? len tm) eqn:Ef; btest; unfold len in Ef.
  - rewrite IH by done. by replace (32 - length tm)%nat with O by lia.
  - cbn [negb all_ok]. rewrite IH; [|done|rewrite length_app; simpl; lia].
    rewrite <- app_assoc, length_app. cbn [length].
    replace (32 - length tm)%nat with (S (32 - (length tm + 1))) by lia. done.
Qed.

Section ReadHeaders.
Context `{V : Varnish}.

(** A pair becomes a header line of Varnish. *)
Definition set_pair (hp : http) (kv : bytes * bytes) : http := http_SetHeader hp (hdr_line kv.1 kv.2).

Lemma read_back_headers l1 l2 hp :
  len (encode (l1 ++ l2)) < 4294967296 ->
  set_headers_loop (length l2) all_ok (encode (l1 ++ l2)) (len l1) (data_off (l1 ++ l2) l1) hp =
  Done (foldl set_pair hp (filter pair_ok l2), true).
Proof.
  revert l1 hp. induction l2 as [|[k v] l2 IH]; intros l1 hp Hlen; [done|].
  cbn [length set_headers_loop].
  destruct (read_sizes l1 k v l2) as [-> ->]. cbn [obind].
  destruct (encoded_pair l1 k v l2 Hlen) as (E1 & E2 & E3 & E4 & E5).
  rewrite E4, E5, E1. cbv zeta. rewrite E2, E3, pair_test.
  destruct (read_data l1 k v l2) as [-> ->]. cbn [obind].
  destruct (next_entry l1 k v l2) as [Ea Eb]. rewrite Ea, Eb in *. rewrite filter_cons.
  case_bool_decide; [rewrite decide_True by done|rewrite decide_False by done; by apply IH].
  unfold add_line. cbn [negb all_ok]. by rewrite IH.
Qed.
End ReadHeaders.

(** ** Sizes of the maps *)

Lemma len_skip_blank b : len (skip_blank b) <= len b.
Proof.
  induction b as [|x b IH]; simpl; [done|]. rewrite len_cons. split_if; [lia|].
  rewrite len_cons. lia.
Qed.

Lemma len_drop_le {A} n (b : list A) : len (drop n b) <= len b.
Proof. unfold len. rewrite length_drop. lia. Qed.

Lemma len_take_le {A} n (b : list A) : len (take n b) <= len b.
Proof. unfold len. rewrite length_take. lia. Qed.

Lemma len_take_drop_S {A} k (b : list A) :
  len (take k b) + len (drop (S k) b) <= len b.
Proof. unfold len. rewrite length_take, length_drop. lia. Qed.

Lemma memchr_nonneg ch b k : memchr ch b = Some k -> 0 <= k < len b.
Proof.
  revert k. induction b as [|x b IH]; simpl; [done|]. intros k. rewrite len_cons. split_if.
  - intros [= <-]. pose proof (len_nonneg b). lia.
  - destruct (memchr ch b) as [k'|]; [|done]. simpl. intros [= <-]. specialize (IH k' eq_refl). lia.
Qed.

Lemma line_kv_len x : len (line_kv x).1 + len (line_kv x).2 <= len (default [] x).
Proof.
  destruct x as [b|]; [|done]. unfold line_kv. simpl. pose proof (len_cstr_le b) as Hc.
  destruct (memchr colon (cstr b)) as [k|] eqn:E; simpl.
  - apply memchr_nonneg in E. replace (Z.to_nat (k + 1)) with (S (Z.to_nat k)) by lia.
    pose proof (len_take_drop_S (Z.to_nat k) (cstr b)).
    pose proof (len_skip_blank (drop (S (Z.to_nat k)) (cstr b))). lia.
  - change (len (@nil Z)) with 0. lia.
Qed.

Lemma len_lines_data l :
  len (enc_data (map line_kv l)) <= lines_bytes l + 2 * len l.
Proof.
  induction l as [|x l IH]; [done|]. cbn [map]. pose proof (line_kv_len x) as Hx.
  destruct (line_kv x) as [k v]. rewrite len_enc_data_cons, len_cons. simpl in *.
  fold (lines_bytes l) in *. lia.
Qed.

Lemma lines_bytes_app a b : lines_bytes (a ++ b) = lines_bytes a + lines_bytes b.
Proof. induction a as [|x a IH]; simpl; [done|]. fold (lines_bytes (a ++ b)). rewrite IH. lia. Qed.

Lemma lines_bytes_nonneg l : 0 <= lines_bytes l.
Proof. induction l as [|x l IH]; simpl; [lia|]. pose proof (len_nonneg (default [] x)). lia. Qed.

Lemma lines_bytes_sub l off n : lines_bytes (sub l off n) <= lines_bytes l.
Proof.
  rewrite <- (take_drop (Z.to_nat off) l) at 2. rewrite lines_bytes_app. unfold sub.
  rewrite <- (take_drop (Z.to_nat n) (drop _ l)) at 2. rewrite lines_bytes_app.
  pose proof (lines_bytes_nonneg (take (Z.to_nat off) l)).
  pose proof (lines_bytes_nonneg (drop (Z.to_nat n) (drop (Z.to_nat off) l))). lia.
Qed.

Lemma lines_bytes_elem l i x : l !! i = Some x -> len (default [] x) <= lines_bytes l.
Proof.
  revert i. induction l as [|y l IH]; intros [|i]; simpl; [done|done| |].
  - intros [= ->]. pose proof (lines_bytes_nonneg l). lia.
  - intros H. specialize (IH i H). pose proof (len_nonneg (default [] y)). fold (lines_bytes l). lia.
Qed.

Lemma host_value_len l v : host_value l = Some v -> len v <= lines_bytes l.
Proof.
  induction l as [|[b|] l IH]; cbn [host_value]; [done| |].
  - split_if.
    + intros [= <-]. simpl. pose proof (len_skip_blank (drop 5 (cstr b))).
      pose proof (len_drop_le 5 (cstr b)). pose proof (len_cstr_le b).
      pose proof (lines_bytes_nonneg l). fold (lines_bytes l). lia.
    + intros H. specialize (IH H). simpl. pose proof (len_nonneg b). fold (lines_bytes l). lia.
  - intros H. specialize (IH H). simpl. change (len (@nil Z)) with 0. fold (lines_bytes l). lia.
Qed.

Lemma pseudo_len name v B :
  len (str name) <= 10 -> len (default [] v) <= B ->
  len (pseudo_pair name v) <= 1 /\ len (enc_data (pseudo_pair name v)) <= B + 12.
Proof.
  intros Hn Hv. pose proof (len_nonneg (default [] v)). unfold pseudo_pair. destruct v as [b|].
  - split; [done|]. rewrite len_enc_data_cons. change (len (enc_data [])) with 0.
    pose proof (len_cstr_le b). simpl in Hv. lia.
  - change (len (enc_data [])) with 0. change (len (@nil (bytes * bytes))) with 0. lia.
Qed.

Lemma hd_lines_done n hp i :
  0 <= i -> i + Z.of_nat n <= len (hd hp) ->
  hd_lines n hp i = Done (sub (hd hp) i (Z.of_nat n)).
Proof.
  revert i. induction n as [|n IH]; intros i Hi Hn; [done|]. cbn [hd_lines]. unfold hd_at.
  rewrite (proj2 (Z.ltb_ge i 0)) by lia.
  destruct (lookup_lt_is_Some_2 (hd hp) (Z.to_nat i)) as [x Hx]; [unfold len in Hn; lia|].
  rewrite Hx. cbn [obind]. rewrite IH by lia. cbn [obind]. unfold sub.
  rewrite (drop_S _ _ _ Hx), !Nat2Z.id. cbn [take].
  replace (Z.to_nat (i + 1)) with (S (Z.to_nat i)) by lia. done.
Qed.

(** ** The sizing loops against the pairs *)

(** The 32-bit sum of the sizes of pairs. *)
Definition sum32 (acc : Z) (l : list (bytes * bytes)) : Z :=
  foldl (fun acc '(k, v) => u32 (acc + (len k + 1 + len v + 1))) acc l.

Lemma sum32_app acc l1 l2 : sum32 acc (l1 ++ l2) = sum32 (sum32 acc l1) l2.
Proof. apply foldl_app. Qed.

Lemma size_pseudo_spec name b n acc :
  0 <= n < 4294967295 -> strlen (str name) = len (str name) ->
  size_pseudo name b (n, acc) = (n + len (pseudo_pair name b), sum32 acc (pseudo_pair name b)).
Proof.
  intros Hn Hs. unfold size_pseudo, pseudo_pair. destruct b as [b|]; cbn [fst snd].
  - rewrite Hs. change (len [_]) with 1. unfold sum32. simpl foldl. unfold strlen. f_equal. zlia.
  - change (len []) with 0. by rewrite Z.add_0_r.
Qed.

Lemma size_host_spec k hp i lines n acc :
  hd_lines k hp i = Done lines -> 0 <= n < 4294967295 ->
  size_host k hp i (n, acc) =
  Done (n + len (pseudo_pair ":authority" (host_value lines)),
        sum32 acc (pseudo_pair ":authority" (host_value lines))).
Proof.
  intros Hl Hn. revert i lines Hl. induction k as [|k IH]; intros i lines; cbn [hd_lines size_host].
  { intros [= <-]. cbn. by rewrite Z.add_0_r. }
  destruct (hd_at hp i) as [x|]; [|done]. cbn [obind].
  destruct (hd_lines k hp (i + 1)) as [ls|] eqn:El; [|done]. cbn [obind]. intros [= <-].
  destruct x as [b|]; cbn [host_value]; [|by apply IH].
  destruct (strncasecmp_eq 5 b (str "Host:")); [|by apply IH]. cbv zeta.
  f_equal. apply (size_pseudo_spec ":authority" (Some _)); [done|reflexivity].
Qed.

Lemma hd_lines_len k hp i lines : hd_lines k hp i = Done lines -> len lines = Z.of_nat k.
Proof.
  revert i lines. induction k as [|k IH]; intros i lines; cbn [hd_lines].
  { by intros [= <-]. }
  destruct (hd_at hp i); [|done]. cbn [obind]. destruct (hd_lines k hp (i + 1)) as [ls|] eqn:E; [|done].
  cbn [obind]. intros [= <-]. rewrite len_cons, (IH _ _ E). lia.
Qed.

Lemma size_lines_spec k hp i lines acc :
  hd_lines k hp i = Done lines -> size_lines k hp i acc = Done (sum32 acc (map line_kv lines)).
Proof.
  revert i lines acc. induction k as [|k IH]; intros i lines acc; cbn [hd_lines size_lines].
  { by intros [= <-]. }
  destruct (hd_at hp i) as [x|]; [|done]. cbn [obind].
  destruct (hd_lines k hp (i + 1)) as [ls|] eqn:El; [|done]. cbn [obind]. intros [= <-].
  cbv zeta. rewrite (IH _ _ _ El). f_equal. cbn [map]. unfold sum32 at 2. cbn [foldl].
  fold (sum32 (u32 (acc + (len (line_kv x).1 + 1 + len (line_kv x).2 + 1))) (map line_kv ls)).
  destruct (line_kv x) as [kk vv] eqn:Ekv. f_equal. cbn [fst snd].
  destruct x as [b|]; cbn [line_kv] in Ekv; [|simplify_eq; reflexivity]. revert Ekv. cbv zeta.
  destruct (memchr colon (cstr b)) as [p|] eqn:Ep; intros [= <- <-].
  - apply memchr_nonneg in Ep. replace (len (take (Z.to_nat p) (cstr b))) with p; [zlia|].
    unfold len in *. rewrite length_take. lia.
  - change (len []) with 0. zlia.
Qed.

Section HttpPairs.
Context `{V : Varnish} `{VL : !VarnishLaws}.

Lemma size_pseudos_spec hp t lines ps n :
  hd_lines (Z.to_nat (nhd hp - HTTP_HDR_FIRST)) hp HTTP_HDR_FIRST = Done lines ->
  pseudo_pairs hp t lines = Done ps -> 0 <= n -> n + 3 < 4294967296 ->
  size_pseudos hp t (n, 0) = Done (n + len ps, sum32 0 ps).
Proof.
  intros El. unfold pseudo_pairs, size_pseudos. destruct (t =? _); [|destruct (t =? _)].
  - destruct (hd_at hp HTTP_HDR_METHOD) as [m|]; [|done]. cbn [obind].
    destruct (hd_at hp HTTP_HDR_URL) as [u|]; [|done]. cbn [obind]. intros [= <-] ? ?.
    assert (0 <= len (pseudo_pair ":method" m) <= 1 /\ 0 <= len (pseudo_pair ":path" u) <= 1)
      as [? ?] by (by destruct m, u).
    rewrite size_pseudo_spec by (reflexivity || lia).
    rewrite size_pseudo_spec by (reflexivity || lia).
    rewrite (size_host_spec _ _ _ _ _ _ El) by lia. rewrite !sum32_app, !len_app. do 2 f_equal. lia.
  - destruct (hd_at hp HTTP_HDR_STATUS) as [m|]; [|done]. cbn [obind]. intros [= <-] ? ?.
    by rewrite size_pseudo_spec by (reflexivity || lia).
  - intros [= <-] ? ?. change (len (@nil (bytes * bytes))) with 0. by rewrite Z.add_0_r.
Qed.

(** What the sizing code reports for a header object is the length of the
    encoding of its pairs. *)
Lemma http_size_spec hp t l :
  HTTP_HDR_FIRST <= nhd hp -> http_pairs hp t = Done l -> len (encode l) < 4294967296 ->
  http_size hp t = Done (len (encode l)).
Proof.
  intros Hn Hp Hlen. pose proof (len_encode l) as Hle. unfold pairs_size in Hle.
  rewrite fold_size in Hle. pose proof (len_nonneg (enc_data l)).
  unfold http_pairs in Hp. unfold http_size. cbv zeta.
  destruct (hd_lines _ hp HTTP_HDR_FIRST) as [lines|] eqn:El; [|done]. cbn [obind] in Hp.
  destruct (pseudo_pairs hp t lines) as [ps|] eqn:Eps; [|done]. injection Hp as <-.
  assert (len (map line_kv lines) = nhd hp - HTTP_HDR_FIRST) as Hml.
  { transitivity (len lines); [unfold len; by rewrite length_map|].
    rewrite (hd_lines_len _ _ _ _ El). lia. }
  rewrite len_app, Hml in Hle. pose proof (len_nonneg ps).
  replace (u32 (nhd hp - HTTP_HDR_FIRST)) with (nhd hp - HTTP_HDR_FIRST) by zlia.
  rewrite (size_pseudos_spec hp t lines ps) by (done || lia). cbn [obind].
  rewrite (size_lines_spec _ _ _ _ _ El). cbn [obind]. rewrite <- sum32_app.
  unfold sum32. rewrite u32_fold_size by lia. f_equal. zlia.
Qed.

Lemma hd_at_done hp i :
  http_ok hp -> 0 <= i < HTTP_HDR_FIRST ->
  exists x, hd_at hp i = Done x /\ len (default [] x) <= lines_bytes (hd hp).
Proof.
  intros Hok Hi. pose proof (http_ok_bounds hp Hok) as (Hn & _). unfold hd_at.
  rewrite (proj2 (Z.ltb_ge i 0)) by lia.
  destruct (lookup_lt_is_Some_2 (hd hp) (Z.to_nat i)) as [x Hx]; [unfold len in Hn; lia|].
  rewrite Hx. exists x. split; [done|]. by eapply lines_bytes_elem.
Qed.

(** The pairs of a header object exist and their encoding is under 4 GiB. *)
Lemma http_pairs_ok hp t :
  http_ok hp -> exists l, http_pairs hp t = Done l /\ len (encode l) < 4294967296.
Proof.
  intros Hok. pose proof (http_ok_bounds hp Hok) as (Hn & Hl & Hb).
  pose proof hdr_method_lt as Hm. pose proof hdr_url_lt as Hu. pose proof hdr_status_lt as Hs.
  unfold http_pairs. rewrite hd_lines_done by lia. cbn [obind].
  rewrite Z2Nat.id by lia. set (lines := sub _ _ _).
  assert (len lines <= 65535) as Hll
    by (unfold lines; rewrite len_sub by lia; lia).
  pose proof (lines_bytes_sub (hd hp) HTTP_HDR_FIRST (nhd hp - HTTP_HDR_FIRST)) as Hlb.
  fold lines in Hlb. pose proof (len_lines_data lines) as Hld. clearbody lines.
  assert (exists ps, pseudo_pairs hp t lines = Done ps /\ len ps <= 3 /\ len (enc_data ps) <= 3 * 268435456 + 36)
    as (ps & -> & Hp1 & Hp2).
  { unfold pseudo_pairs. destruct (hd_at_done hp _ Hok Hm) as (xm & -> & Hxm).
    destruct (hd_at_done hp _ Hok Hu) as (xu & -> & Hxu).
    destruct (hd_at_done hp _ Hok Hs) as (xs & -> & Hxs). cbn [obind].
    destruct (pseudo_len ":method" xm 268435456) as [? ?]; [done|lia|].
    destruct (pseudo_len ":path" xu 268435456) as [? ?]; [done|lia|].
    destruct (pseudo_len ":status" xs 268435456) as [? ?]; [done|lia|].
    destruct (pseudo_len ":authority" (host_value lines) 268435456) as [? ?]; [done| |].
    { destruct (host_value lines) as [v|] eqn:Ev; [|done]. apply host_value_len in Ev. simpl. lia. }
    repeat split_if; (eexists; split; [done|]);
      rewrite ?enc_data_app, ?len_app; change (len (enc_data [])) with 0;
      change (len (@nil (bytes * bytes))) with 0; lia. }
  cbn [obind]. eexists. split; [done|].
  rewrite len_encode. unfold pairs_size. rewrite fold_size, enc_data_app, !len_app.
  assert (len (map line_kv lines) = len lines) as -> by (unfold len; by rewrite length_map). lia.
Qed.
End HttpPairs.

(** ** The response of an HTTP call *)

Lemma strstr_lt b p n : p <> [] -> strstr b p = Some n -> 0 <= n < len b.
Proof.
  intros Hp. unfold strstr. intros H. pose proof (len_cstr_le b).
  enough (0 <= n < len (cstr b)) by lia. clear H0. revert n H.
  generalize (cstr b). intros l. induction l as [|x l IH]; intros n; cbn [find_sub].
  - destruct p; [done|]. done.
  - rewrite len_cons. pose proof (len_nonneg l). destruct (is_prefix p (x :: l)).
    + intros [= <-]. lia.
    + destruct (find_sub p l) as [m|]; [|done]. intros [= <-]. specialize (IH m eq_refl). lia.
Qed.

Lemma status_value_len line v : status_value line = Some v -> len v <= len line.
Proof.
  unfold status_value. destruct (memchr space line) as [sp|]; [|done].
  pose proof (len_drop_le (Z.to_nat (sp + 1)) line).
  destruct (memchr space _) as [n|]; intros [= <-]; [|done].
  pose proof (len_take_le (Z.to_nat n) (drop (Z.to_nat (sp + 1)) line)). lia.
Qed.

Lemma find_header_loop_len fuel p key v : find_header_loop fuel p key = Some v -> len v <= len p.
Proof.
  revert p. induction fuel as [|fuel IH]; intros p; [done|]. cbn [find_header_loop].
  destruct p as [|x p]; [done|]. set (pp := x :: p). destruct (strstr pp crlf) as [n|]; [|done].
  repeat split_if; [done| |].
  - intros [= <-]. pose proof (len_skip_blank (drop (Z.to_nat (len key + 1)) (take (Z.to_nat n) pp))).
    pose proof (len_drop_le (Z.to_nat (len key + 1)) (take (Z.to_nat n) pp)).
    pose proof (len_take_le (Z.to_nat n) pp). lia.
  - intros H. apply IH in H. pose proof (len_drop_le (Z.to_nat (n + 2)) pp). lia.
Qed.

Lemma response_find_small c key v :
  (forall r, active_http_call (cl c) = Some r -> wf_response r) ->
  pw_http_call_response_find_header c key = Some v -> small (Some v).
Proof.
  intros Hr. unfold pw_http_call_response_find_header, active_response, small. simpl.
  destruct (active_http_call (cl c)) as [r|]; [|done]. destruct (Hr r eq_refl) as [Hs _].
  destruct (r_valid r); [|done]. destruct (raw_buf r) as [raw|]; [|done].
  simpl in Hs. destruct (strstr raw crlf) as [n|]; [|done]. split_if; intros H.
  - apply status_value_len in H. pose proof (len_take_le (Z.to_nat n) raw). lia.
  - apply find_header_loop_len in H. pose proof (len_drop_le (Z.to_nat (n + 2)) raw). lia.
Qed.

Lemma split_line_len line k v : split_line line = Some (k, v) -> len k + len v + 1 <= len line.
Proof.
  unfold split_line. destruct (memchr colon line) as [i|] eqn:E; [|done]. intros [= <- <-].
  apply memchr_nonneg in E. replace (Z.to_nat (i + 1)) with (S (Z.to_nat i)) by lia.
  pose proof (len_skip_blank (drop (S (Z.to_nat i)) line)). unfold len in *.
  rewrite length_take. rewrite length_drop in *. lia.
Qed.

(** At most 64 pairs are collected, and they are not longer than the raw
    response. *)
Lemma collect_bound fuel p hdrs :
  len (collect_loop fuel p hdrs) <= Z.max 64 (len hdrs) /\
  len (enc_data (collect_loop fuel p hdrs)) <= len (enc_data hdrs) + len p.
Proof.
  revert p hdrs. induction fuel as [|fuel IH]; intros p hdrs; cbn [collect_loop].
  { pose proof (len_nonneg p). lia. }
  pose proof (len_nonneg p). destruct p as [|x p]; [lia|]. set (pp := x :: p) in *.
  destruct (64 <=? len hdrs) eqn:E; btest; [lia|].
  destruct (strstr pp crlf) as [n|] eqn:En; [|lia].
  apply strstr_lt in En; [|done]. destruct (n =? 0) eqn:E0; btest; [lia|].
  assert (len (drop (Z.to_nat (n + 2)) pp) <= len pp - n - 1) as Hd
    by (unfold len; rewrite length_drop; unfold len in *; lia).
  destruct (split_line _) as [[k v]|] eqn:Es.
  - destruct (IH (drop (Z.to_nat (n + 2)) pp) (hdrs ++ [(k, v)])) as [H1 H2].
    rewrite enc_data_app, !len_app, len_enc_data_cons in *.
    change (len (enc_data [])) with 0 in *. change (len [(k, v)]) with 1 in *.
    apply split_line_len in Es. rewrite len_take in Es by lia. lia.
  - destruct (IH (drop (Z.to_nat (n + 2)) pp) hdrs) as [H1 H2]. lia.
Qed.

(** A raw response is at most 256 KiB. *)
Lemma response_pairs_small raw :
  len raw < 4294900000 -> len (encode (response_pairs raw)) < 4294967296.
Proof.
  intros Hr. rewrite len_encode. unfold pairs_size. rewrite fold_size.
  unfold response_pairs. destruct (strstr raw crlf) as [n|] eqn:En; [|by vm_compute].
  apply strstr_lt in En; [|done].
  set (hd0 := match status_value _ with Some v => _ | None => _ end).
  assert (len hd0 <= 1 /\ len (enc_data hd0) <= n + 9) as [H1 H2].
  { unfold hd0. destruct (status_value _) as [v|] eqn:Ev.
    - apply status_value_len in Ev. rewrite len_take in Ev by lia.
      rewrite len_enc_data_cons. change (len (enc_data [])) with 0.
      change (len (str ":status")) with 7. split; [done|lia].
    - change (len (enc_data [])) with 0. change (len (@nil (bytes * bytes))) with 0. lia. }
  destruct (collect_bound (length raw) (drop (Z.to_nat (n + 2)) raw) hd0) as [H3 H4].
  assert (len (drop (Z.to_nat (n + 2)) raw) <= len raw - n - 1)
    by (unfold len; rewrite length_drop; unfold len in *; lia). lia.
Qed.

Section Imports.
Context `{G : Guest} `{V : Varnish} `{VL : !VarnishLaws} {M : Z} `{L : !MemLimit M}.

Lemma header_map_ok c t hp :
  wf_ctx M c -> pw_get_header_map_mutable c t = Some hp -> http_ok hp.
Proof.
  intros (_ & _ & _ & _ & _ & Hv & _). unfold pw_get_header_map_mutable.
  destruct (vrt c) as [v|]; [|done]. destruct (Hv v eq_refl) as (H1 & H2 & H3).
  repeat split_if; [by apply H1| |done].
  destruct (http_resp v) as [r|]; [intros [= <-]; by apply H2|by apply H3].
Qed.

Lemma put_header_map_wf c t hp : wf_ctx M c -> http_ok hp -> wf_ctx M (put_header_map c t hp).
Proof.
  intros Hc Hok. unfold put_header_map. destruct (vrt c) as [v|] eqn:Ev; [|done].
  pose proof Hc as (? & ? & ? & ? & ? & Hv & ? & ?). split_and!; try done.
  destruct (Hv v Ev) as (Hr1 & Hr2 & Hr3). intros v' Hv'. cbn [vrt set_vrt] in Hv'.
  injection Hv' as <-. split_if; [|destruct (http_resp v) eqn:Er]; split_and!; simpl; naive_solver.
Qed.

Lemma trailer_map_wf c t tm : wf_ctx M c -> pw_get_trailer_map c t = Some tm -> wf_trailers tm.
Proof.
  intros (_ & _ & _ & _ & _ & _ & H1 & H2). unfold pw_get_trailer_map.
  repeat split_if; [intros [= <-]; done..|done].
Qed.

Lemma put_trailer_map_wf c t tm :
  wf_ctx M c -> wf_trailers tm -> wf_ctx M (put_trailer_map c t tm).
Proof.
  intros (? & ? & ? & ? & ? & ? & ? & ?) Ht. unfold put_trailer_map. split_if; by split_and!.
Qed.

Lemma put_trailer_body n c t tm : within n c -> within n (put_trailer_map c t tm).
Proof. unfold put_trailer_map. by split_if. Qed.

Lemma put_header_body n c t hp : within n c -> within n (put_header_map c t hp).
Proof. unfold put_header_map. by destruct (vrt c). Qed.

Lemma trailer_remove_wf tm name : wf_trailers tm -> wf_trailers (pw_trailer_remove tm name).
Proof.
  intros [Hl Hf]. unfold pw_trailer_remove. destruct (trailer_index tm name) as [i|]; [|done].
  cbv zeta. set (tm' := match tm !! _ with Some t => _ | None => _ end).
  assert (length tm' = length tm /\ Forall (fun t => len (t_name t) < 256 /\ len (t_value t) < 4096) tm')
    as [Hl' Hf'].
  { unfold tm'. destruct (tm !! _) as [t|] eqn:Et; [|done]. split_if; [|done].
    rewrite length_insert. split; [done|]. apply Forall_insert; [done|].
    exact (Forall_lookup_1 _ _ _ _ Hf Et). }
  split; [|by apply Forall_take]. unfold len in *. rewrite length_take. lia.
Qed.

Lemma trailer_get_small tm name v : wf_trailers tm -> pw_trailer_get tm name = Some v -> small (Some v).
Proof.
  intros [_ Hf]. induction Hf as [|t tm [_ Ht] _ IH]; simpl; [done|]. split_if; [|done].
  intros [= <-]. unfold small. simpl. lia.
Qed.

(** The common end of the lookups. *)
Lemma safe_give n c v o1 o2 :
  wf_ctx M c -> within n c -> is_u32 o1 -> is_u32 o2 -> (forall x, v = Some x -> small (Some x)) ->
  safe M n (match v with
            | None => Done (c, PROXY_NOT_FOUND)
            | Some val => let! '(c, r) := return_bytes c (Some val) o1 o2 in
                          Done (c, status r PROXY_INTERNAL)
            end).
Proof.
  intros Hc Hb H1 H2 Hv. destruct v as [x|]; [|by apply safe_done].
  apply safe_return; [done|done|done|done|by apply Hv|]. intros c' r ? ? ?. by apply safe_done.
Qed.

Lemma get_header_map_value_safe :
  import_safe M 0 [I32; I32; I32; I32; I32] pw_proxy_get_header_map_value.
Proof.
  start. unfold pw_proxy_get_header_map_value. cbv zeta. safe_step; [safe_steps|]. cbv beta iota.
  split_if.
  { destruct (pw_get_trailer_map c y) as [tm|] eqn:Et; [|safe_steps].
    apply safe_give; [done|done|auto with vw..|]. intros x Hx.
    eapply trailer_get_small; [by eapply trailer_map_wf|done]. }
  split_if.
  { apply safe_give; [done|done|auto with vw..|]. intros x. apply response_find_small.
    apply Hc. }
  split_if; [safe_steps|].
  destruct (pw_get_header_map c y) as [hp|] eqn:Eh; [|safe_steps]. split_if; [safe_steps|].
  apply safe_give; [done|done|auto with vw..|]. intros x.
  destruct (http_GetHdr hp (hdr_search s)) as [v|] eqn:Ev; [|done]. intros [= <-].
  apply http_GetHdr_small in Ev; [|by apply (header_map_ok c y)]. unfold small. simpl.
  pose proof (len_skip_blank (cstr v)). pose proof (len_cstr_le v). lia.
Qed.

Lemma cstr_lt s n : len s < n -> len (cstr s) < n.
Proof. pose proof (len_cstr_le s). lia. Qed.

(** The end of the functions that add a header line. *)
Lemma add_line_safe n c t o i hp line (other : pctx * Z) :
  wf_ctx M c -> within n c -> http_ok hp -> wf_ctx M other.1 -> within n other.1 ->
  safe M n (match add_line o i hp line with
            | None => Done other
            | Some hp => Done (put_header_map c t hp, PROXY_OK)
            end).
Proof.
  intros Hc Hb Hok Ho1 Ho2. unfold add_line. destruct other as [c' r].
  destruct (o i); cbn [negb]; [|by apply safe_done].
  apply safe_done; [|by apply put_header_body]. apply put_header_map_wf; [done|].
  by apply http_SetHeader_ok.
Qed.

Lemma add_header_map_value_safe :
  import_safe M 0 [I32; I32; I32; I32; I32] pw_proxy_add_header_map_value.
Proof.
  start. unfold pw_proxy_add_header_map_value. do 2 (safe_step; [safe_steps|]; cbv beta iota).
  split_if.
  - destruct (pw_get_trailer_map c y) as [tm|] eqn:Et; [|safe_steps].
    pose proof (trailer_add_wf (ok e) tm (cstr s) (cstr s0) (trailer_map_wf _ _ _ Hc Et)
                  (cstr_lt s 256 ltac:(assumption)) (cstr_lt s0 4096 ltac:(assumption))) as Hw.
    destruct (pw_trailer_add _ _ _ _) as [tm' r]. apply safe_done;
      [by apply put_trailer_map_wf|by apply put_trailer_body].
  - destruct (pw_get_header_map_mutable c y) as [hp|] eqn:Eh; [|safe_steps].
    apply (add_line_safe _ _ _ _ _ _ _ (c, PROXY_INTERNAL)); try done.
    by eapply header_map_ok.
Qed.

Lemma replace_header_map_value_safe :
  import_safe M 0 [I32; I32; I32; I32; I32] pw_proxy_replace_header_map_value.
Proof.
  start. unfold pw_proxy_replace_header_map_value.
  do 2 (safe_step; [safe_steps|]; cbv beta iota). split_if.
  - destruct (pw_get_trailer_map c y) as [tm|] eqn:Et; [|safe_steps]. cbv zeta.
    pose proof (trailer_add_wf (ok e) (pw_trailer_remove tm (cstr s)) (cstr s) (cstr s0)
                  (trailer_remove_wf _ _ (trailer_map_wf _ _ _ Hc Et))
                  (cstr_lt s 256 ltac:(assumption)) (cstr_lt s0 4096 ltac:(assumption))) as Hw.
    destruct (pw_trailer_add _ _ _ _) as [tm' r]. apply safe_done;
      [by apply put_trailer_map_wf|by apply put_trailer_body].
  - destruct (pw_get_header_map_mutable c y) as [hp|] eqn:Eh; [|safe_steps]. cbv zeta.
    set (hp' := if (0 <? strlen s + 1) && _ then http_Unset hp _ else hp).
    assert (http_ok hp') as Hok.
    { pose proof (header_map_ok _ _ _ Hc Eh). unfold hp'. split_if; [by apply http_Unset_ok|done]. }
    apply (add_line_safe _ _ _ _ _ _ _ (put_header_map c y hp', PROXY_INTERNAL)); try done;
      [by apply put_header_map_wf|by apply put_header_body].
Qed.

Lemma remove_header_map_value_safe :
  import_safe M 0 [I32; I32; I32] pw_proxy_remove_header_map_value.
Proof.
  start. unfold pw_proxy_remove_header_map_value. safe_step; [safe_steps|]. cbv beta iota.
  split_if.
  - destruct (pw_get_trailer_map c y) as [tm|] eqn:Et; [|safe_steps]. apply safe_done;
      [|by apply put_trailer_body]. apply put_trailer_map_wf; [done|].
    apply trailer_remove_wf. by eapply trailer_map_wf.
  - destruct (pw_get_header_map_mutable c y) as [hp|] eqn:Eh; [|safe_steps]. cbv zeta.
    split_if; [safe_steps|]. apply safe_done; [|by apply put_header_body].
    apply put_header_map_wf; [done|]. apply http_Unset_ok. by eapply header_map_ok.
Qed.

Lemma return_pairs_safe n e c l o1 o2 :
  wf_ctx M c -> within n c -> is_u32 o1 -> is_u32 o2 ->
  (forall n, length (uninit e n) = n) -> len (encode l) < 4294967296 ->
  safe M n (return_pairs e c l o1 o2).
Proof.
  intros Hc Hb H1 H2 Hu Hl. unfold return_pairs. destruct (ok e 0%nat); [|by apply safe_done].
  cbn [negb]. rewrite serialize_spec by done. cbn [obind].
  apply safe_return; [done..|]. intros c' r ? ? ?. by apply safe_done.
Qed.

Lemma trailers_encode_small tm :
  wf_trailers tm -> len (encode (map (fun t => (t_name t, t_value t)) tm)) < 4294967296.
Proof.
  intros [Hl Hf]. rewrite len_encode. unfold pairs_size. rewrite fold_size.
  unfold VWASM_MAX_TRAILERS in Hl.
  assert (len (enc_data (map (fun t => (t_name t, t_value t)) tm)) <= len tm * 4354) as Hd.
  { clear Hl. induction Hf as [|t tm [Hn Hv] Hf IH]; [done|]. cbn [map].
    rewrite len_enc_data_cons, len_cons. lia. }
  assert (len (map (fun t => (t_name t, t_value t)) tm) = len tm) as ->
    by (unfold len; by rewrite length_map). lia.
Qed.

Lemma get_header_map_pairs_safe : import_safe M 0 [I32; I32; I32] pw_proxy_get_header_map_pairs.
Proof.
  start. unfold pw_proxy_get_header_map_pairs. cbv zeta.
  assert (safe M (n + 0) (let! '(c, r) := return_bytes c None (u32 y0) (u32 y1) in
                          Done (c, status r PROXY_INTERNAL))) as Hnone.
  { apply safe_return; [done|done|auto with vw..|done|]. intros c' r ? ? ?. by apply safe_done. }
  split_if.
  { destruct (pw_get_trailer_map c y) as [[|t tm]|] eqn:Et; [done| |done].
    apply return_pairs_safe; try done; [auto with vw..|]. apply trailers_encode_small.
    by eapply trailer_map_wf. }
  split_if.
  { destruct (active_response c) as [r|] eqn:Er; [|done].
    destruct (raw_buf r) as [raw|] eqn:Eraw; [|done].
    apply return_pairs_safe; try done; [auto with vw..|]. apply response_pairs_small.
    unfold active_response in Er. destruct (active_http_call (cl c)) as [r'|] eqn:Ea; [|done].
    destruct (r_valid r'); [|done]. injection Er as ->.
    destruct Hc as (_ & _ & _ & (_ & _ & Hr) & _). destruct (Hr _ Ea) as [Hs _].
    rewrite Eraw in Hs. simpl in Hs. lia. }
  split_if; [done|].
  destruct (pw_get_header_map c y) as [hp|] eqn:Eh; [|done].
  destruct (http_pairs_ok hp y) as (l & -> & Hl); [by eapply (header_map_ok c y)|].
  cbn [obind]. apply return_pairs_safe; try done; auto with vw.
Qed.

Lemma set_header_map_pairs_safe : import_safe M 0 [I32; I32; I32] pw_proxy_set_header_map_pairs.
Proof.
  start. unfold pw_proxy_set_header_map_pairs. cbv zeta.
  destruct ((u32 y1 <? 4) || negb _) eqn:E; [safe_steps|]. btest.
  pose proof (region_le_limit c _ _ Hc (is_u32_u32 y0) (is_u32_u32 y1) ltac:(done)) as Hle.
  match goal with H : pw_validate_region _ _ _ = true |- _ =>
    pose proof (proj1 (validate_region_iff _ _ _ (is_u32_u32 y0) (is_u32_u32 y1)) H) as Hr end.
  rewrite (region_mem_ptr _ _ _ Hr), mem_read_region by done. cbn [obind].
  assert (len (sub (mem_bytes (w c)) (u32 y0) (u32 y1)) = u32 y1) as Hdl.
  { destruct Hr as (b & Hbb & ? & ? & ?). unfold mem_bytes. rewrite Hbb. apply len_sub; lia. }
  set (data := sub _ _ _) in *. clearbody data. rewrite rd_done by lia. cbn [obind].
  pose proof (get_u32_range (sub data 0 4)) as Hnp. set (np := get_u32 _) in *. clearbody np.
  unfold is_u32 in Hnp. destruct (256 <? np) eqn:E1; btest; [safe_steps|].
  replace (u32 (4 + np * 8)) with (4 + np * 8) by zlia.
  destruct (u32 y1 <? 4 + np * 8) eqn:E2; btest; [safe_steps|]. split_if.
  - destruct (pw_get_trailer_map c _) as [tm|] eqn:Et; [|safe_steps]. unfold pw_trailer_clear.
    destruct (set_trailers_loop_safe (Z.to_nat np) (ok e) data 0 (4 + np * 8) [])
      as (tm' & -> & Hw); [lia|lia|lia|lia|by split; [|constructor]|]. cbn [obind].
    apply safe_done; [by apply put_trailer_map_wf|by apply put_trailer_body].
  - destruct (pw_get_header_map_mutable c _) as [hp|] eqn:Eh; [|safe_steps].
    destruct (set_headers_loop_safe (Z.to_nat np) (ok e) data 0 (4 + np * 8) (clear_headers hp))
      as (hp' & b & -> & Hw); [lia|lia|lia|lia|by eapply clear_headers_ok, header_map_ok|].
    cbn [obind]. apply safe_done; [by apply put_header_map_wf|by apply put_header_body].
Qed.

Lemma get_header_map_size_safe : import_safe M 0 [I32; I32] pw_proxy_get_header_map_size.
Proof.
  start. unfold pw_proxy_get_header_map_size. cbv zeta. split_if; [safe_steps|].
  split_if; [destruct (pw_get_trailer_map c y) as [[|t tm]|]; safe_steps|].
  do 3 (split_if; [safe_steps|]).
  destruct (pw_get_header_map c y) as [hp|] eqn:Eh; [|safe_steps].
  assert (http_ok hp) as Hok by by eapply (header_map_ok c y).
  destruct (http_pairs_ok hp y Hok) as (l & El & Hl). pose proof (http_ok_bounds hp Hok) as (? & _).
  rewrite (http_size_spec hp y l) by (done || lia). cbn [obind]. safe_steps.
Qed.
End Imports.

(** ** Looking up what was stored *)

Lemma strncasecmp_refl n a : strncasecmp_eq n a a = true.
Proof.
  revert a. induction n as [|n IH]; intros a; [done|]. cbn [strncasecmp_eq].
  rewrite Z.eqb_refl, IH. by rewrite orb_true_r.
Qed.

Lemma trailer_match_self name v : trailer_match (TrailerEntry name v) name = true.
Proof. unfold trailer_match. simpl. by rewrite Z.eqb_refl, strncasecmp_refl. Qed.

Lemma trailer_get_app tm t name :
  pw_trailer_get (tm ++ [t]) name =
  match pw_trailer_get tm name with
  | Some v => Some v
  | None => if trailer_match t name then Some (t_value t) else None
  end.
Proof. induction tm as [|t' tm IH]; simpl; [done|]. by split_if. Qed.

Lemma trailer_index_None tm name :
  trailer_index tm name = None <-> pw_trailer_get tm name = None.
Proof.
  induction tm as [|t tm IH]; simpl; [done|]. split_if; [done|].
  rewrite <- IH. by destruct (trailer_index tm name).
Qed.

(** Removing when at most one entry has the name leaves none. *)
Lemma trailer_remove_unique tm name :
  (forall i j t u, tm !! i = Some t -> tm !! j = Some u ->
     trailer_match t name = true -> trailer_match u name = true -> i = j) ->
  pw_trailer_get (pw_trailer_remove tm name) name = None.
Proof.
  intros Hu. apply trailer_index_None.
  destruct (trailer_index (pw_trailer_remove tm name) name) as [j|] eqn:Ej; [|done]. exfalso.
  assert (forall l i, trailer_index l name = Some i ->
            exists t, l !! i = Some t /\ trailer_match t name = true) as Hidx.
  { induction l as [|t l IH]; intros i; simpl; [done|]. destruct (trailer_match t name) eqn:Et.
    - intros [= <-]. by exists t.
    - destruct (trailer_index l name) as [i'|]; [|done]. intros [= <-]. by apply IH. }
  apply Hidx in Ej as (t & Ht & Hm). unfold pw_trailer_remove in Ht.
  destruct (trailer_index tm name) as [i|] eqn:Ei.
  2:{ rewrite trailer_index_None in Ei.
      revert Ei Ht Hm. clear. revert j. induction tm as [|u tm IH]; intros [|j]; simpl; [done|done|..].
      - intros Hg [= ->] Hm. by rewrite Hm in Hg.
      - split_if; [done|]. intros. by eapply IH. }
  apply Hidx in Ei as (u & Hu1 & Hu2). apply lookup_take_Some in Ht as [Ht Hj].
  destruct (tm !! pred (length tm)) as [z|] eqn:Ez.
  - destruct (i <? pred (length tm))%nat eqn:Ei.
    + apply Nat.ltb_lt in Ei. destruct (decide (j = i)) as [->|Hne].
      * rewrite list_lookup_insert_eq in Ht by (apply lookup_lt_Some in Hu1; lia).
        injection Ht as <-. pose proof (Hu _ _ _ _ Hu1 Ez Hu2 Hm). lia.
      * rewrite list_lookup_insert_ne in Ht by done. by destruct (Hne (Hu _ _ _ _ Ht Hu1 Hm Hu2)).
    + apply Nat.ltb_ge in Ei. pose proof (Hu _ _ _ _ Ht Hu1 Hm Hu2). lia.
  - apply lookup_ge_None in Ez. apply lookup_lt_Some in Hu1. lia.
Qed.

(** ** Claims *)

Section Claims.
Context `{G : Guest} `{V : Varnish}.

End Claims.

Section SizeClaim.
Context `{G : Guest} `{V : Varnish} `{VL : !VarnishLaws} {M : Z} `{L : !MemLimit M}.

Lemma write_u32_status c off v code c1 :
  is_u32 off -> is_u32 v -> code <> PROXY_OK ->
  (let! '(c, r) := write_u32 c off v in Done (c, status r code)) = Done (c1, PROXY_OK) ->
  word_at (w c1) off = v.
Proof.
  intros Ho Hv Hc. unfold write_u32. destruct (pw_write_u32 _ _ _) as [[w' r]|] eqn:E; [|done].
  cbn [obind]. unfold status. destruct (r =? 0) eqn:Er; [|intros; congruence].
  apply Z.eqb_eq in Er as ->. intros [= <-]. by eapply write_u32_word.
Qed.

Lemma return_status c data o1 o2 code c2 :
  is_u32 o1 -> is_u32 o2 -> len (default [] data) < 4294967296 -> code <> PROXY_OK ->
  (let! '(c, r) := return_bytes c data o1 o2 in Done (c, status r code)) = Done (c2, PROXY_OK) ->
  word_at (w c2) o2 = len (default [] data).
Proof.
  intros H1 H2 Hd Hc. unfold return_bytes. destruct (pw_return_bytes _ _ _ _) as [[w' r]|] eqn:E; [|done].
  cbn [obind]. unfold status. destruct (r =? 0) eqn:Er; [|intros; congruence].
  apply Z.eqb_eq in Er as ->. intros [= <-]. exact (return_bytes_word (w c) data o1 o2 w' H1 H2 Hd E).
Qed.

Lemma return_pairs_word e c l o1 o2 c2 :
  (forall n, length (uninit e n) = n) -> len (encode l) < 4294967296 -> is_u32 o1 -> is_u32 o2 ->
  return_pairs e c l o1 o2 = Done (c2, PROXY_OK) -> word_at (w c2) o2 = len (encode l).
Proof.
  intros Hu Hl H1 H2. unfold return_pairs. destruct (ok e 0%nat); cbn [negb]; [|done].
  rewrite serialize_spec by done. cbn [obind].
  by apply (return_status c (Some (encode l)) o1 o2 PROXY_INTERNAL).
Qed.

Lemma raw_bound c r raw :
  wf_ctx M c -> active_response c = Some r -> raw_buf r = Some raw ->
  len (encode (response_pairs raw)) < 4294967296.
Proof.
  intros Hc Er Eraw. apply response_pairs_small. unfold active_response in Er.
  destruct (active_http_call (cl c)) as [r'|] eqn:Ea; [|done].
  destruct (r_valid r'); [|done]. injection Er as ->.
  destruct Hc as (_ & _ & _ & (_ & _ & Hr) & _). destruct (Hr _ Ea) as [Hs _].
  rewrite Eraw in Hs. simpl in Hs. lia.
Qed.

(** The pairs of a map; [None] where the code has no map or an empty list of
    trailers and answers without building a buffer. *)
Definition map_pairs (c : pctx) (t : Z) : option (list (bytes * bytes)) :=
  if pw_is_trailer_map t then
    match pw_get_trailer_map c t with
    | None | Some [] => None
    | Some tm => Some (map (fun x => (t_name x, t_value x)) tm)
    end
  else if t =? PROXY_MAP_HTTP_CALL_RESP_HEADERS then
    match active_response c with
    | None => None
    | Some r => option_map response_pairs (raw_buf r)
    end
  else
    match pw_get_header_map c t with
    | None => None
    | Some hp => match http_pairs hp t with Done l => Some l | Fault => None end
    end.

Lemma map_pairs_small c t l : wf_ctx M c -> map_pairs c t = Some l -> is_u32 (len (encode l)).
Proof.
  intros Hc E. pose proof (len_nonneg (encode l)). split; [done|]. unfold map_pairs in E.
  destruct (pw_is_trailer_map t); [|destruct (t =? _)].
  - destruct (pw_get_trailer_map c t) as [[|x tm]|] eqn:Et; [done| |done]. injection E as <-.
    apply (trailers_encode_small (x :: tm)). by eapply trailer_map_wf.
  - destruct (active_response c) as [r|] eqn:Er; [|done].
    destruct (raw_buf r) as [raw|] eqn:Eraw; [|done]. injection E as <-. by eapply raw_bound.
  - destruct (pw_get_header_map c t) as [hp|] eqn:Eh; [|done].
    destruct (http_pairs_ok hp t) as (l' & El & Hl); [by eapply (header_map_ok c t)|].
    rewrite El in E. by injection E as <-.
Qed.

(** An HTTP call response without any pair. *)
Definition no_call_headers (c : pctx) (t : Z) : Prop :=
  t = PROXY_MAP_HTTP_CALL_RESP_HEADERS /\ map_pairs c t = Some [].

Lemma size_word e c t a c1 :
  wf_ctx M c -> pw_proxy_get_header_map_size e c [t; a] = Done (c1, PROXY_OK) ->
  word_at (w c1) (u32 a) = match map_pairs c t with Some l => len (encode l) | None => 0 end \/
  no_call_headers c t /\ word_at (w c1) (u32 a) = 0.
Proof.
  intros Hc. unfold pw_proxy_get_header_map_size. cbv zeta. unfold no_call_headers.
  pose proof (fun l => map_pairs_small c t l Hc) as Hs. unfold map_pairs in *.
  assert (forall v, is_u32 v -> (let! '(c, r) := write_u32 c (u32 a) v in
    Done (c, status r PROXY_BAD_ARGUMENT)) = Done (c1, PROXY_OK) -> word_at (w c1) (u32 a) = v) as Hw
    by (intros v Hv; by apply write_u32_status; auto with vw).
  destruct (pw_is_known_map t); cbn [negb]; [|done].
  destruct (pw_is_trailer_map t).
  { destruct (pw_get_trailer_map c t) as [[|x tm]|]; [by left; apply Hw| |by left; apply Hw].
    specialize (Hs _ eq_refl). rewrite pairs_size32_spec by apply Hs. left. by apply Hw. }
  destruct (t =? PROXY_MAP_HTTP_CALL_RESP_HEADERS) eqn:Et.
  { apply Z.eqb_eq in Et. destruct (active_response c) as [r|] eqn:Er.
    2:{ unfold pw_http_call_response_headers_size. rewrite Er. left. by apply Hw. }
    destruct (raw_buf r) as [raw|] eqn:Eraw; cbn [option_map] in *.
    2:{ unfold pw_http_call_response_headers_size. rewrite Er, Eraw. left. by apply Hw. }
    rewrite (response_size_spec c r raw Er Eraw). specialize (Hs _ eq_refl).
    destruct (decide (response_pairs raw = [])) as [En|En]; intros H; apply Hw in H; auto with vw.
    - right. by rewrite En.
    - left. by rewrite (u32_small (len _)) in H. }
  destruct (t =? PROXY_MAP_HTTP_CALL_RESP_TRAILERS) eqn:Et2.
  { apply Z.eqb_eq in Et2 as ->. replace (pw_get_header_map c _) with (@None http)
      by (unfold pw_get_header_map; by destruct (vrt c)). left. by apply Hw. }
  destruct (_ || _); [done|].
  destruct (pw_get_header_map c t) as [hp|] eqn:Eh; [|left; by apply Hw].
  assert (http_ok hp) as Hok by by eapply (header_map_ok c t).
  destruct (http_pairs_ok hp t Hok) as (l & El & Hl). pose proof (http_ok_bounds hp Hok) as (? & _).
  rewrite (http_size_spec hp t l) by (done || lia). rewrite El in *. cbn [obind]. left. apply Hw; auto.
Qed.

Lemma pairs_word e c t b1 b2 c2 :
  wf_ctx M c -> (forall n, length (uninit e n) = n) ->
  pw_proxy_get_header_map_pairs e c [t; b1; b2] = Done (c2, PROXY_OK) ->
  word_at (w c2) (u32 b2) = match map_pairs c t with Some l => len (encode l) | None => 0 end.
Proof.
  intros Hc Hu. unfold pw_proxy_get_header_map_pairs. cbv zeta.
  pose proof (fun l => map_pairs_small c t l Hc) as Hs. unfold map_pairs in *.
  assert (forall l, is_u32 (len (encode l)) -> return_pairs e c l (u32 b1) (u32 b2) = Done (c2, PROXY_OK) ->
    word_at (w c2) (u32 b2) = len (encode l)) as Hp
    by (intros l [_ ?]; apply return_pairs_word; auto with vw).
  assert ((let! '(c, r) := return_bytes c None (u32 b1) (u32 b2) in Done (c, status r PROXY_INTERNAL))
          = Done (c2, PROXY_OK) -> word_at (w c2) (u32 b2) = 0) as Hn
    by (by apply (return_status c None); auto with vw).
  destruct (pw_is_trailer_map t).
  { destruct (pw_get_trailer_map c t) as [[|x tm]|]; auto. }
  destruct (t =? PROXY_MAP_HTTP_CALL_RESP_HEADERS).
  { destruct (active_response c) as [r|]; [|done]. destruct (raw_buf r); [|done].
    cbn [option_map] in *. auto. }
  destruct (_ || _) eqn:Eo.
  { replace (pw_get_header_map c t) with (@None http); [done|].
    unfold pw_get_header_map. destruct (vrt c); [|done].
    destruct (t =? PROXY_MAP_HTTP_REQUEST_HEADERS) eqn:E1;
      [apply Z.eqb_eq in E1 as ->; discriminate Eo|].
    destruct (t =? PROXY_MAP_HTTP_RESPONSE_HEADERS) eqn:E2;
      [apply Z.eqb_eq in E2 as ->; discriminate Eo|done]. }
  destruct (pw_get_header_map c t) as [hp|]; [|done].
  destruct (http_pairs hp t) as [l|]; [|done]. cbn [obind]. auto.
Qed.

(** C18 The size and the pairs agree: when [proxy_get_header_map_size] and
    [proxy_get_header_map_pairs], called on the same well-formed context for
    the same map, both succeed, the size the first stores for the guest is the
    size of the buffer the second stores (the length of the encoding of the
    pairs, or 0 without pairs), except for the response of an HTTP call
    without any header, where the size is 0 and the buffer is the four-byte
    empty map. *)
Theorem reported_size_is_length e1 e2 c t a b1 b2 c1 c2 :
  wf_ctx M c -> (forall n, length (uninit e2 n) = n) ->
  pw_proxy_get_header_map_size e1 c [t; a] = Done (c1, PROXY_OK) ->
  pw_proxy_get_header_map_pairs e2 c [t; b1; b2] = Done (c2, PROXY_OK) ->
  word_at (w c2) (u32 b2) = match map_pairs c t with Some l => len (encode l) | None => 0 end /\
  (word_at (w c1) (u32 a) = word_at (w c2) (u32 b2) \/
   no_call_headers c t /\ word_at (w c1) (u32 a) = 0 /\ word_at (w c2) (u32 b2) = 4).
Proof.
  intros Hc Hu H1 H2. apply size_word in H1; [|done]. apply pairs_word in H2; [|done..].
  split; [done|]. destruct H1 as [H1|[Hd H1]]; [left; by rewrite H1, H2|right].
  split; [done|]. split; [done|]. rewrite H2. by destruct Hd as [_ ->].
Qed.
End SizeClaim.

(** ** Replacing a trailer *)

Section Trailers.
Context `{G : Guest} `{V : Varnish}.

(** Replacing a trailer: when at most one trailer has the name and the map
    is not full (or had the name), the value just written is the one a lookup
    of that name returns. *)
Theorem replaced_trailer_found tm name value :
  (forall i j t u, tm !! i = Some t -> tm !! j = Some u ->
     trailer_match t name = true -> trailer_match u name = true -> i = j) ->
  len (pw_trailer_remove tm name) < VWASM_MAX_TRAILERS ->
  pw_trailer_get (pw_trailer_add all_ok (pw_trailer_remove tm name) name value).1 name = Some value.
Proof.
  intros Hu Hl. unfold pw_trailer_add. rewrite (proj2 (Z.leb_gt _ _)) by lia. simpl.
  rewrite trailer_get_app, trailer_remove_unique by done. by rewrite trailer_match_self.
Qed.

(** A replace that is lost: when the trailer map holds 32 entries and none
    has the name, [proxy_replace_header_map_value] reports success and
    changes nothing. *)
Theorem replace_on_full_map_lost e c a1 a2 a3 a4 k v :
  len (request_trailers c) = VWASM_MAX_TRAILERS ->
  read_string c (u32 a1) (u32 a2) 256 = Done (Some k) ->
  read_string c (u32 a3) (u32 a4) 4096 = Done (Some v) ->
  pw_trailer_get (request_trailers c) (cstr k) = None ->
  pw_proxy_replace_header_map_value e c [PROXY_MAP_HTTP_REQUEST_TRAILERS; a1; a2; a3; a4] =
  Done (c, PROXY_OK).
Proof.
  intros Hl Hk Hv Hg. unfold pw_proxy_replace_header_map_value. rewrite Hk. cbn [obind].
  rewrite Hv. cbn [obind]. change (pw_is_trailer_map PROXY_MAP_HTTP_REQUEST_TRAILERS) with true.
  change (pw_get_trailer_map c PROXY_MAP_HTTP_REQUEST_TRAILERS) with (Some (request_trailers c)).
  cbn iota. cbv zeta. unfold pw_trailer_remove.
  rewrite (proj2 (trailer_index_None _ _) Hg). unfold pw_trailer_add.
  rewrite Hl, Z.leb_refl. cbv beta iota. do 2 f_equal. unfold put_trailer_map. simpl.
  by destruct c.
Qed.
End Trailers.

(** A context without Varnish, engine or stores over a memory. *)
Definition bare_ctx (mem : bytes) (rq rs : trailer_map) : pctx :=
  PCtx (Config 1 2 None None None 0 None 0 0 None) None None (WCtx true true (Some mem) false)
       (LocalResponse false 0 None 0 None 0) (Bodies None false None false None false)
       (Stores None None None) (Calls ∅ 0 None 0) (Stream 0 false false) rq rs.

Definition quiet_env : env := Env all_ok true None 0 0 (fun n => replicate n 0).

Definition plain_varnish : Varnish := {|
  HTTP_HDR_METHOD := 0; HTTP_HDR_URL := 1; HTTP_HDR_STATUS := 3; HTTP_HDR_FIRST := 5;
  http_GetHdr := fun _ _ => None;
  http_Unset := fun hp _ => hp;
  http_SetHeader := fun hp _ => hp
|}.

Lemma lines_bytes_mono l k :
  length l = length k ->
  (forall i x, l !! i = Some (Some x) -> k !! i = Some (Some x)) -> lines_bytes l <= lines_bytes k.
Proof.
  revert k. induction l as [|x l IH]; intros [|y k] Hl Hs; simpl in Hl; try lia.
  assert (lines_bytes l <= lines_bytes k) as Hrest by (apply IH; [lia|intros i z; apply (Hs (S i))]).
  unfold lines_bytes in *. cbn [foldr]. destruct x as [x|]; simpl.
  - specialize (Hs O x eq_refl). simpl in Hs. simplify_eq. simpl. lia.
  - pose proof (len_nonneg (default [] y)). change (len (@nil Z)) with 0. lia.
Qed.

#[export] Instance plain_laws : VarnishLaws (H := plain_varnish).
Proof.
  refine {| http_ok := fun hp => 5 <= nhd hp <= len (hd hp) /\ len (hd hp) <= 65535 /\
                                 lines_bytes (hd hp) <= 268435456 |}; cbn; try lia; try done.
  intros hp l (? & ? & ?) Hl Hs. pose proof (lines_bytes_mono l (hd hp) Hl Hs).
  fold (lines_bytes l). assert (len l = len (hd hp)) as -> by (unfold len; lia). lia.
Defined.

(** Two trailers and two that are not kept; then the same pairs as headers of
    the request. *)
Definition two_pairs : list (bytes * bytes) :=
  [(str "a", str "1"); ([], str "x"); (str "b", []); (replicate 256 65, [])].

Definition header_ctx (mem : bytes) : pctx :=
  set_vrt (bare_ctx mem [] [])
    (Some (VrtCtx (Some (Http (replicate 5 None ++ [Some (str "old: 1"); None]) 6)) None None None)).


(** A memory of 80 bytes with an allocator, two response trailers. *)
Definition sized_ctx : pctx :=
  set_w (bare_ctx [] [] [TrailerEntry (str "a") (str "1"); TrailerEntry (str "b") []])
    (WCtx true true (Some (replicate 80 0)) true).

Definition in_place_guest : Guest := {| guest_malloc := fun m n => (m, Some 16) |}.

Lemma reported_size_is_length_witness :
  exists c1 c2,
    pw_proxy_get_header_map_size (V := plain_varnish) quiet_env sized_ctx
      [PROXY_MAP_HTTP_RESPONSE_TRAILERS; 0] = Done (c1, PROXY_OK) /\
    pw_proxy_get_header_map_pairs (G := in_place_guest) (V := plain_varnish) quiet_env sized_ctx
      [PROXY_MAP_HTTP_RESPONSE_TRAILERS; 4; 8] = Done (c2, PROXY_OK) /\
    word_at (w c1) 0 = 27 /\ word_at (w c2) 8 = 27.
Proof.
  destruct (pw_proxy_get_header_map_size (V := plain_varnish) quiet_env sized_ctx
      [PROXY_MAP_HTTP_RESPONSE_TRAILERS; 0]) as [[c1 r1]|] eqn:E1; [|vm_compute in E1; discriminate].
  destruct (pw_proxy_get_header_map_pairs (G := in_place_guest) (V := plain_varnish) quiet_env sized_ctx
      [PROXY_MAP_HTTP_RESPONSE_TRAILERS; 4; 8]) as [[c2 r2]|] eqn:E2; [|vm_compute in E2; discriminate].
  assert (r1 = PROXY_OK) as -> by (vm_compute in E1; injection E1; intros; subst; reflexivity).
  assert (r2 = PROXY_OK) as -> by (vm_compute in E2; injection E2; intros; subst; reflexivity).
  exists c1, c2. split; [reflexivity|]. split; [reflexivity|].
  destruct (reported_size_is_length (G := in_place_guest) (V := plain_varnish) (VL := plain_laws) (M := 65536)
              quiet_env quiet_env sized_ctx PROXY_MAP_HTTP_RESPONSE_TRAILERS 0 4 8 c1 c2)
    as [H2 H1].
  - unfold wf_ctx. split_and!; try done; [intros b [= <-]; by_decide|].
    split; [by_decide|]. repeat (constructor; [by_decide|]). constructor.
  - intros n. apply length_replicate.
  - exact E1.
  - exact E2.
  - change (u32 8) with 8 in *. change (u32 0) with 0 in *.
    change (map_pairs (V := plain_varnish) sized_ctx PROXY_MAP_HTTP_RESPONSE_TRAILERS)
      with (Some [(str "a", str "1"); (str "b", [])]) in H2. cbn iota in H2.
    change (len (encode [(str "a", str "1"); (str "b", [])])) with 27 in H2.
    split; [|exact H2]. destruct H1 as [H1|[[H1 _] _]]; [by rewrite H1|discriminate H1].
Defined.

Lemma replaced_trailer_found_witness :
  pw_trailer_get (pw_trailer_add all_ok
    (pw_trailer_remove [TrailerEntry (str "X-A") (str "1"); TrailerEntry (str "X-B") (str "2")]
       (str "x-a")) (str "x-a") (str "9")).1 (str "x-a") = Some (str "9").
Proof.
  apply (replaced_trailer_found [TrailerEntry (str "X-A") (str "1"); TrailerEntry (str "X-B") (str "2")]
           (str "x-a") (str "9")).
  - intros [|[|i]] [|[|j]] t u Hi Hj Ht Hu; simpl in *; simplify_eq; try reflexivity;
      vm_compute in Ht, Hu; discriminate.
  - by_decide.
Defined.

Definition full_ctx : pctx :=
  bare_ctx (str "kv") (replicate 32 (TrailerEntry (str "n") (str "v"))) [].

Lemma replace_on_full_map_lost_witness :
  pw_proxy_replace_header_map_value (V := plain_varnish) quiet_env full_ctx
    [PROXY_MAP_HTTP_REQUEST_TRAILERS; 0; 1; 1; 1] = Done (full_ctx, PROXY_OK).
Proof.
  apply (replace_on_full_map_lost (V := plain_varnish) quiet_env full_ctx 0 1 1 1 (str "k") (str "v"));
    vm_compute; reflexivity.
Defined.
