(* ===== verification/Properties.v ===== *)
(** * Properties (src/proxy_wasm_properties.c)

    The host functions [proxy_get_property] and [proxy_set_property]: a property
    is named by its path, the components separated by NUL. *)

From S2P Require Import Prelude Mem SharedData SharedQueue Metrics Ctx HostCalls Headers.

(** Varnish's part: the variables of the transaction and [http_SetH]. *)
Class VrtVars `{Varnish} : Type := {
  HTTP_HDR_PROTO : Z;
  http_status : http -> Z;                  (** the field [status] *)
  http_SetH : http -> Z -> bytes -> http;
  client_ip_string : option bytes;          (** [VRT_IP_string(VRT_r_client_ip)] *)
  client_port : option Z;                   (** [VSA_Port], unless the address is NULL *)
  server_ip_string : option bytes;
  local_port : option Z;
  server_identity : option bytes
}.

Class VrtVarsLaws `{VrtVars} `{!VarnishLaws} : Prop := {
  hdr_proto_lt : 0 <= HTTP_HDR_PROTO < HTTP_HDR_FIRST;
  http_SetH_ok hp n v : http_ok hp -> 0 <= n < HTTP_HDR_FIRST -> len v < 4096 ->
    http_ok (http_SetH hp n v);
  client_ip_small v : client_ip_string = Some v -> len v <= 268435456;
  server_ip_small v : server_ip_string = Some v -> len v <= 268435456;
  identity_small v : server_identity = Some v -> len v <= 268435456
}.

(** A two-component path. *)
Definition prop (a b : string) : bytes := str a ++ [0] ++ str b.

Section Properties.
Context `{G : Guest} `{VV : VrtVars}.

(** The value of a property of the request. *)
Definition request_property (hp : http) (path : bytes) : outcome (option bytes) :=
  if bytes_eqb path (prop "request" "path") then hd_at hp HTTP_HDR_URL
  else if bytes_eqb path (prop "request" "url_path") then hd_at hp HTTP_HDR_URL
  else if bytes_eqb path (prop "request" "method") then hd_at hp HTTP_HDR_METHOD
  else if bytes_eqb path (prop "request" "protocol") then hd_at hp HTTP_HDR_PROTO
  else if bytes_eqb path (prop "request" "host") then
    Done (http_GetHdr hp ([5] ++ str "Host:" ++ [0]))
  else if bytes_eqb path (prop "request" "scheme") then Done (Some (str "http"))
  else Done None.

(** [if (val == NULL && path matches) val = v] *)
Definition or_property (val : option bytes) (path name : bytes) (v : option bytes) : option bytes :=
  match val with
  | Some _ => val
  | None => if bytes_eqb path name then v else None
  end.

Definition find_property (c : pctx) (v : vrt_ctx) (path : bytes) : outcome (option bytes) :=
  let! val := match http_req v with Some hp => request_property hp path | None => Done None end in
  let resp := match http_resp v with Some hp => Some hp | None => http_beresp v end in
  let val := or_property val path (prop "response" "code")
               (match resp with Some hp => Some (dec (http_status hp)) | None => None end) in
  let val := or_property val path (str "plugin_root_id") (Some (dec (root_context_id (cfg c)))) in
  let val := or_property val path (prop "source" "address") client_ip_string in
  let val := or_property val path (prop "source" "port") (option_map dec client_port) in
  let val := or_property val path (prop "destination" "address") server_ip_string in
  let val := or_property val path (prop "destination" "port") (option_map dec local_port) in
  let val := or_property val path (prop "node" "id") server_identity in
  Done (or_property val path (prop "connection" "id") (Some (dec (root_context_id (cfg c))))).

Definition pw_proxy_get_property (e : env) (c : pctx) (args : list Z) : outcome (pctx * Z) :=
  match args with
  | a0 :: a1 :: a2 :: a3 :: _ =>
      match vrt c with
      | None => Done (c, PROXY_INTERNAL)
      | Some v =>
          let! s := read_string c (u32 a0) (u32 a1) 512 in
          match s with
          | None => Done (c, PROXY_BAD_ARGUMENT)
          | Some path =>
              let! val := find_property c v path in
              match val with
              | None => Done (c, PROXY_NOT_FOUND)
              | Some val =>
                  let! '(c, r) := return_bytes c (Some (cstr val)) (u32 a2) (u32 a3) in
                  Done (c, status r PROXY_INTERNAL)
              end
          end
      end
  | _ => Fault
  end.

(** [ctx->vrt_ctx->http_req] replaced. *)
Definition put_req (c : pctx) (hp : http) : pctx :=
  put_header_map c PROXY_MAP_HTTP_REQUEST_HEADERS hp.

(** [ok 0]: [WS_Copy]. *)
Definition pw_proxy_set_property (e : env) (c : pctx) (args : list Z) : outcome (pctx * Z) :=
  match args with
  | a0 :: a1 :: a2 :: a3 :: _ =>
      match vrt c with
      | None => Done (c, PROXY_INTERNAL)
      | Some v =>
          let! s := read_string c (u32 a0) (u32 a1) 512 in
          match s with
          | None => Done (c, PROXY_BAD_ARGUMENT)
          | Some path =>
              let! s := read_string c (u32 a2) (u32 a3) 4096 in
              match s with
              | None => Done (c, PROXY_BAD_ARGUMENT)
              | Some value =>
                  let value_size := len value in
                  match http_req v with
                  | None => Done (c, PROXY_NOT_FOUND)
                  | Some hp =>
                      let set_line (n : Z) :=
                        if negb (ok e 0%nat) then Done (c, PROXY_INTERNAL)
                        else Done (put_req c (http_SetH hp n (cstr value)), PROXY_OK) in
                      if bytes_eqb path (prop "request" "path") ||
                         bytes_eqb path (prop "request" "url_path") then
                        if (value_size =? 0) || negb (bytes_eqb (take 1 value) (str "/"))
                        then Done (c, PROXY_BAD_ARGUMENT)
                        else set_line HTTP_HDR_URL
                      else if bytes_eqb path (prop "request" "method") then
                        if (value_size =? 0) || (16 <? value_size)
                        then Done (c, PROXY_BAD_ARGUMENT)
                        else set_line HTTP_HDR_METHOD
                      else if bytes_eqb path (prop "request" "host") then
                        if (value_size =? 0) || (4096 <? value_size)
                        then Done (c, PROXY_BAD_ARGUMENT)
                        else
                          let line := take (Z.to_nat (HDR_LINE_SIZE - 1)) (str "Host: " ++ cstr value) in
                          let hp := http_Unset hp ([5] ++ str "Host:" ++ [0]) in
                          if negb (ok e 0%nat) then Done (put_req c hp, PROXY_INTERNAL)
                          else Done (put_req c (http_SetHeader hp line), PROXY_OK)
                      else Done (c, PROXY_NOT_FOUND)
                  end
              end
          end
      end
  | _ => Fault
  end.

End Properties.

(** * Safety *)

Section Safety.
Context `{G : Guest} `{VV : VrtVars} `{VL : !VarnishLaws} `{PL : !VrtVarsLaws} {M : Z} `{L : !MemLimit M}.

Definition tiny (v : option bytes) : Prop := forall x, v = Some x -> len x <= 268435456.

Lemma or_property_tiny val path name v :
  tiny val -> tiny v -> tiny (or_property val path name v).
Proof. intros Hval Hv. unfold or_property. destruct val; [done|]. by destruct (bytes_eqb _ _). Qed.

Lemma dec_tiny n : tiny (Some (dec n)).
Proof. intros x [= <-]. pose proof (dec_len n). lia. Qed.

Lemma lines_bytes_lookup l i v : l !! i = Some (Some v) -> len v <= lines_bytes l.
Proof.
  revert i. induction l as [|x l IH]; intros [|i]; simpl; try done; fold (lines_bytes l).
  - intros [= ->]. simpl. pose proof (lines_bytes_nonneg l). lia.
  - intros Hi%IH. pose proof (len_nonneg (default [] x)). lia.
Qed.

Lemma hd_at_tiny hp i :
  http_ok hp -> 0 <= i < HTTP_HDR_FIRST -> exists v, hd_at hp i = Done v /\ tiny v.
Proof.
  intros Hp Hi. pose proof (http_ok_bounds hp Hp) as (Hb & _ & Hl).
  destruct (lookup_lt_is_Some_2 (hd hp) (Z.to_nat i)) as [v Ev]; [unfold len in *; lia|].
  exists v. unfold hd_at. rewrite Ev. rewrite (proj2 (Z.ltb_ge i 0)) by lia. split; [done|].
  intros x ->. apply lines_bytes_lookup in Ev. lia.
Qed.

Lemma request_property_tiny hp path :
  http_ok hp -> exists v, request_property hp path = Done v /\ tiny v.
Proof.
  intros Hp. unfold request_property.
  pose proof hdr_url_lt. pose proof hdr_method_lt. pose proof hdr_proto_lt.
  do 4 (destruct (bytes_eqb _ _); [by apply hd_at_tiny|]).
  destruct (bytes_eqb _ _).
  { eexists. split; [done|]. intros x Hx. by eapply http_GetHdr_small. }
  destruct (bytes_eqb _ _); (eexists; split; [done|]); [|done]. intros x [= <-]. by_decide.
Qed.

Lemma find_property_tiny c v path :
  wf_ctx M c -> vrt c = Some v -> exists val, find_property c v path = Done val /\ tiny val.
Proof.
  intros (_ & _ & _ & _ & _ & Hv & _) Ev. destruct (Hv v Ev) as (Hreq & _).
  unfold find_property.
  assert (exists val, match http_req v with
                      | Some hp => request_property hp path | None => Done None end = Done val /\
            tiny val) as (val & -> & Hval).
  { destruct (http_req v) as [hp|] eqn:Eq; [|by exists None].
    apply request_property_tiny. by apply Hreq. }
  cbn [obind]. cbv zeta. eexists. split; [done|].
  repeat apply or_property_tiny; try done; try apply dec_tiny;
    try exact client_ip_small; try exact server_ip_small; try exact identity_small.
  - match goal with |- tiny (match ?x with _ => _ end) => destruct x end; [apply dec_tiny|done].
  - destruct client_port; [apply dec_tiny|done].
  - destruct local_port; [apply dec_tiny|done].
Qed.

Lemma get_property_safe : import_safe M 0 [I32; I32; I32; I32] pw_proxy_get_property.
Proof.
  start. unfold pw_proxy_get_property. destruct (vrt c) as [v|] eqn:Ev; safe_steps.
  destruct (find_property_tiny c v s Hc Ev) as (val & -> & Hval). cbn [obind].
  destruct val as [val|]; [|safe_steps].
  apply safe_return; [done|done|auto with vw..| |].
  - specialize (Hval val eq_refl). unfold small. simpl. pose proof (len_cstr_le val). lia.
  - intros c' r ? ? ?. by apply safe_done.
Qed.

Lemma set_property_safe : import_safe M 0 [I32; I32; I32; I32] pw_proxy_set_property.
Proof.
  start. unfold pw_proxy_set_property. destruct (vrt c) as [v|] eqn:Ev; safe_steps.
  cbv zeta. pose proof Hc as (_ & _ & _ & _ & _ & Hv & _). destruct (Hv v Ev) as (Hreq & _).
  destruct (http_req v) as [hp|] eqn:Eq; [|safe_steps]. specialize (Hreq hp eq_refl).
  assert (forall hp' r, http_ok hp' -> safe M (n + 0) (Done (put_req c hp', r))) as Hput.
  { intros hp' r Hp'. apply safe_done; [by apply put_header_map_wf|by apply put_header_body]. }
  pose proof hdr_url_lt. pose proof hdr_method_lt.
  assert (len (cstr s0) < 4096) by (pose proof (len_cstr_le s0); lia).
  safe_steps; apply Hput; try (apply http_SetH_ok; [done..|lia]).
  - by apply http_Unset_ok.
  - by apply http_SetHeader_ok, http_Unset_ok.
Qed.
End Safety.

(** ** A sample transaction *)

Definition limited_SetH (hp : http) (n : Z) (v : bytes) : http :=
  let l := <[Z.to_nat n := Some v]> (hd hp) in
  if lines_bytes l <=? 268435456 then Http l (nhd hp) else hp.

#[export] Instance plain_vars : @VrtVars plain_varnish :=
  @Build_VrtVars plain_varnish 2 (fun _ => 200) limited_SetH
    (Some (str "192.0.2.1")) (Some 1234) (Some (str "192.0.2.2")) (Some 80) (Some (str "node")).

#[export] Instance plain_vars_laws : VrtVarsLaws (H := plain_varnish) (H0 := plain_vars) (H1 := plain_laws).
Proof.
  split; cbn.
  - lia.
  - intros hp n v (? & ? & ?) Hn Hv. unfold limited_SetH. cbv zeta. split_if; [|done]. cbn.
    unfold len in *. rewrite length_insert. split_and!; try lia. done.
  - intros v [= <-]. by_decide.
  - intros v [= <-]. by_decide.
  - intros v [= <-]. by_decide.
Defined.
