(* ===== verification/HttpAddr.v ===== *)
(** * Private addresses (src/http_pool.c)

    [vwasm_http_addr_is_private] decides which resolved addresses an HTTP call
    may not reach unless its upstream was allowlisted. *)

From S2P Require Import Prelude.

(** ** Data *)

(** [struct sockaddr]: an IPv4 address in host order, the sixteen bytes of an
    IPv6 address, or another family. *)
Inductive sockaddr :=
| AF_INET (ip : Z) (port : Z)
| AF_INET6 (b : bytes) (port : Z)
| AF_OTHER.

#[export] Instance sockaddr_eq_dec : EqDecision sockaddr.
Proof. solve_decision. Defined.

(** ** The test *)

Definition ipv4_private (ip : Z) : bool :=
  (Z.shiftr ip 24 =? 127) || (Z.shiftr ip 24 =? 10) ||
  (Z.shiftr ip 20 =? Z.lor (Z.shiftl 172 4) 1) ||
  (Z.shiftr ip 16 =? Z.lor (Z.shiftl 192 8) 168) ||
  (Z.shiftr ip 16 =? Z.lor (Z.shiftl 169 8) 254) ||
  (Z.shiftr ip 24 =? 0) ||
  (Z.shiftr ip 22 =? Z.lor (Z.shiftl 100 2) 1) ||
  (Z.shiftr ip 8 =? Z.lor (Z.shiftl 192 16) 0) ||
  (Z.shiftr ip 17 =? Z.lor (Z.shiftl 198 7) 9) ||
  (Z.shiftr ip 28 =? 15).

(** [ntohl] of four bytes. *)
Definition be_val (b : bytes) : Z := foldl (fun v x => v * 256 + x) 0 b.

Definition zeros (n : nat) : bytes := replicate n 0.

Definition ipv6_private (b : bytes) : bool :=
  if memcmp_eq b (zeros 15 ++ [1]) 16 then true
  else if memcmp_eq b (zeros 16) 16 then true
  else if Z.land (nth 0 b 0) 254 =? 252 then true
  else if (nth 0 b 0 =? 254) && (Z.land (nth 1 b 0) 192 =? 128) then true
  else if memcmp_eq b (zeros 10 ++ [255; 255]) 12 then ipv4_private (be_val (sub b 12 4))
  else false.

Definition vwasm_http_addr_is_private (sa : option sockaddr) : bool :=
  match sa with
  | None => true
  | Some (AF_INET ip _) => ipv4_private ip
  | Some (AF_INET6 b _) => ipv6_private b
  | Some AF_OTHER => false
  end.

(** ** Specification: the blocked networks *)

(** [base/plen] of [w]-bit addresses. *)
Definition in_net (w base plen ip : Z) : bool :=
  (base <=? ip) && (ip <? base + 2 ^ (w - plen)).

Definition v4 (a b c d : Z) : Z := be_val [a; b; c; d].

Definition blocked_v4 : list (Z * Z) :=
  [(v4 127 0 0 0, 8); (v4 10 0 0 0, 8); (v4 172 16 0 0, 12); (v4 192 168 0 0, 16);
   (v4 169 254 0 0, 16); (v4 0 0 0 0, 8); (v4 100 64 0 0, 10); (v4 192 0 0 0, 24);
   (v4 198 18 0 0, 15); (v4 240 0 0 0, 4)].

Definition v4_blocked (ip : Z) : bool :=
  existsb (fun '(base, plen) => in_net 32 base plen ip) blocked_v4.

Definition v6_blocked (v : Z) : bool :=
  (v =? 1) || (v =? 0) || in_net 128 (252 * 2 ^ 120) 7 v || in_net 128 (65152 * 2 ^ 112) 10 v ||
  (in_net 128 (65535 * 2 ^ 32) 96 v && v4_blocked (v - 65535 * 2 ^ 32)).

Definition wf_addr (a : sockaddr) : Prop :=
  match a with
  | AF_INET ip _ => is_u32 ip
  | AF_INET6 b _ => length b = 16%nat /\ wf_bytes b
  | AF_OTHER => True
  end.

Definition blocked (a : sockaddr) : bool :=
  match a with
  | AF_INET ip _ => v4_blocked ip
  | AF_INET6 b _ => v6_blocked (be_val b)
  | AF_OTHER => false
  end.

(** * Properties *)

Lemma shiftr_eq ip k n :
  0 <= k -> (Z.shiftr ip k =? n) = (n * 2 ^ k <=? ip) && (ip <? n * 2 ^ k + 2 ^ k).
Proof.
  intros Hk. rewrite Z.shiftr_div_pow2 by done.
  assert (0 < 2 ^ k) as Hd by (apply Z.pow_pos_nonneg; lia). revert Hd.
  generalize (2 ^ k). intros d Hd.
  apply eq_true_iff_eq. rewrite andb_true_iff, Z.eqb_eq, Z.leb_le, Z.ltb_lt. split.
  - intros <-. pose proof (Z.div_mod ip d ltac:(lia)). pose proof (Z.mod_pos_bound ip d Hd). nia.
  - intros [H1 H2]. symmetry. apply (Z.div_unique ip d n (ip - n * d)); lia.
Qed.

(** Every test of the source is membership in the network its comment names. *)
Lemma ipv4_private_blocked ip : ipv4_private ip = v4_blocked ip.
Proof.
  unfold ipv4_private, v4_blocked, blocked_v4, in_net. cbn [existsb].
  rewrite !shiftr_eq by lia. rewrite orb_false_r, <- !orb_assoc. reflexivity.
Qed.

Lemma be_val_app a b : be_val (a ++ b) = be_val a * 256 ^ len b + be_val b.
Proof.
  induction b as [|x b IH] using rev_ind.
  - rewrite app_nil_r. change (len (@nil Z)) with 0. change (be_val []) with 0. lia.
  - rewrite app_assoc. unfold be_val in *. rewrite foldl_snoc, IH, (foldl_snoc _ _ b).
    rewrite len_app, Z.pow_add_r by (auto with vw; done). change (len [x]) with 1. lia.
Qed.

Lemma be_val_bound b : wf_bytes b -> 0 <= be_val b < 256 ^ len b.
Proof.
  induction b as [|x b IH] using rev_ind; [done|]. intros Hb.
  apply wf_bytes_app in Hb as [Hb Hx]. inversion_clear Hx as [|?? Hx' _]. specialize (IH Hb).
  rewrite be_val_app, len_app, Z.pow_add_r by (auto with vw; done).
  change (len [x]) with 1. change (be_val [x]) with (0 * 256 + x). unfold is_u8 in Hx'. lia.
Qed.

Lemma be_val_inj a b :
  wf_bytes a -> wf_bytes b -> length a = length b -> be_val a = be_val b -> a = b.
Proof.
  revert b. induction a as [|x a IH] using rev_ind; intros b Ha Hb Hl He.
  { by destruct b. }
  destruct b as [|y b _] using rev_ind; [rewrite length_app in Hl; simpl in Hl; lia|].
  rewrite !length_app in Hl. simpl in Hl.
  apply wf_bytes_app in Ha as [Ha Hx]. apply wf_bytes_app in Hb as [Hb Hy].
  inversion_clear Hx as [|?? Hx' _]. inversion_clear Hy as [|?? Hy' _].
  rewrite !be_val_app in He. change (256 ^ len [x]) with 256 in He.
  change (256 ^ len [y]) with 256 in He.
  change (be_val [x]) with (0 * 256 + x) in He. change (be_val [y]) with (0 * 256 + y) in He.
  unfold is_u8 in *. assert (be_val a = be_val b) by lia.
  f_equal; [apply IH; [done|done|lia|done]|f_equal; lia].
Qed.

Lemma memcmp16 b k :
  length b = 16%nat -> wf_bytes b -> length k = 16%nat -> wf_bytes k ->
  memcmp_eq b k 16 = (be_val b =? be_val k).
Proof.
  intros Hb Hwb Hk Hwk. unfold memcmp_eq, bytes_eqb. rewrite !take_ge by (simpl; lia).
  apply eq_true_iff_eq. rewrite bool_decide_eq_true, Z.eqb_eq.
  split; [by intros ->|]. apply be_val_inj; [done|done|congruence].
Qed.

(** The byte masks, by inspection of all 256 values. *)
Lemma mask_check (f g : Z -> bool) :
  forallb (fun n => eqb (f (Z.of_nat n)) (g (Z.of_nat n))) (seq 0 256) = true ->
  forall x, is_u8 x -> f x = g x.
Proof.
  intros H x Hx. rewrite forallb_forall in H. specialize (H (Z.to_nat x)).
  unfold is_u8 in Hx. rewrite Z2Nat.id in H by lia. apply eqb_prop, H.
  apply in_seq. lia.
Qed.

Lemma mask_fe x : is_u8 x -> (Z.land x 254 =? 252) = (252 <=? x) && (x <? 254).
Proof.
  apply (mask_check (fun x => Z.land x 254 =? 252) (fun x => (252 <=? x) && (x <? 254))).
  vm_compute. reflexivity.
Qed.

Lemma mask_c0 x : is_u8 x -> (Z.land x 192 =? 128) = (128 <=? x) && (x <? 192).
Proof.
  apply (mask_check (fun x => Z.land x 192 =? 128) (fun x => (128 <=? x) && (x <? 192))).
  vm_compute. reflexivity.
Qed.

Lemma ipv6_private_blocked b :
  length b = 16%nat -> wf_bytes b -> ipv6_private b = v6_blocked (be_val b).
Proof.
  intros Hl Hw. unfold ipv6_private, v6_blocked.
  rewrite !memcmp16 by (done || (repeat constructor; done)).
  change (be_val (zeros 15 ++ [1])) with 1. change (be_val (zeros 16)) with 0.
  destruct (be_val b =? 1); [done|]. destruct (be_val b =? 0); [done|]. cbn [orb].
  assert (exists x y r, b = [x; y] ++ r /\ length r = 14%nat) as (x & y & r & -> & Hr)
    by (destruct b as [|x [|y r]]; try done; exists x, y, r; simpl in Hl; split; [done|lia]).
  apply wf_bytes_app in Hw as [Hxy Hwr]. inversion_clear Hxy as [|?? Hx Hxy'].
  inversion_clear Hxy' as [|?? Hy _]. cbn [nth app].
  rewrite mask_fe, mask_c0 by done.
  pose proof (be_val_bound r Hwr) as Hrb.
  assert (len r = 14) as Hlr by (unfold len; lia). rewrite Hlr in Hrb.
  change (be_val (x :: y :: r)) with (be_val ([x; y] ++ r)). rewrite (be_val_app [x; y] r), Hlr.
  change (be_val [x; y]) with ((0 * 256 + x) * 256 + y). change (256 ^ 14) with (2 ^ 112) in *.
  set (R := be_val r) in *. unfold is_u8 in *.
  assert (in_net 128 (252 * 2 ^ 120) 7 (((0 * 256 + x) * 256 + y) * 2 ^ 112 + R) =
          (252 <=? x) && (x <? 254)) as ->.
  { unfold in_net. apply eq_true_iff_eq. rewrite !andb_true_iff, !Z.leb_le, !Z.ltb_lt.
    change (128 - 7) with 121. lia. }
  destruct ((252 <=? x) && (x <? 254)); [done|]. cbn [orb].
  assert (in_net 128 (65152 * 2 ^ 112) 10 (((0 * 256 + x) * 256 + y) * 2 ^ 112 + R) =
          (x =? 254) && ((128 <=? y) && (y <? 192))) as ->.
  { unfold in_net. apply eq_true_iff_eq. rewrite !andb_true_iff, !Z.leb_le, !Z.ltb_lt, Z.eqb_eq.
    change (128 - 10) with 118. lia. }
  destruct ((x =? 254) && _); [done|]. cbn [orb].
  (* ::ffff:0:0/96 *)
  set (p := x :: y :: take 10 r). assert (x :: y :: r = p ++ drop 10 r) as Hp
    by (unfold p; simpl; by rewrite take_drop).
  assert (length p = 12%nat) as Hlp by (unfold p; simpl; rewrite length_take; lia).
  assert (wf_bytes p) as Hwp by (constructor; [done|]; constructor; [done|]; by apply Forall_take).
  assert (wf_bytes (drop 10 r)) as Hwd by by apply Forall_drop.
  assert (len (drop 10 r) = 4) as Hld by (unfold len; rewrite length_drop; lia).
  pose proof (be_val_bound _ Hwd) as Hdb. rewrite Hld in Hdb.
  assert (((0 * 256 + x) * 256 + y) * 2 ^ 112 + R = be_val p * 2 ^ 32 + be_val (drop 10 r)) as ->.
  { pose proof (be_val_app [x; y] r) as E1. pose proof (be_val_app p (drop 10 r)) as E2.
    rewrite Hlr in E1. rewrite Hld in E2. change (256 ^ 14) with (2 ^ 112) in E1.
    change (256 ^ 4) with (2 ^ 32) in E2.
    change (be_val [x; y]) with ((0 * 256 + x) * 256 + y) in E1. fold R in E1.
    rewrite <- E1, <- E2. f_equal. exact Hp. }
  rewrite Hp. unfold sub. change (Z.to_nat 12) with 12%nat. change (Z.to_nat 4) with 4%nat.
  rewrite drop_app_length' by done. rewrite (take_ge (drop 10 r)) by (unfold len in *; lia).
  assert (memcmp_eq (p ++ drop 10 r) (zeros 10 ++ [255; 255]) 12 = (be_val p =? 65535)) as ->.
  { unfold memcmp_eq, bytes_eqb. change (Z.to_nat 12) with 12%nat.
    rewrite take_app_length' by done. rewrite (take_ge (zeros 10 ++ _)) by (simpl; lia).
    apply eq_true_iff_eq. rewrite bool_decide_eq_true, Z.eqb_eq. split; [by intros ->|].
    intros E. apply be_val_inj; [done|repeat constructor; done|done|by rewrite E]. }
  change (256 ^ 4) with (2 ^ 32) in Hdb.
  assert (in_net 128 (65535 * 2 ^ 32) 96 (be_val p * 2 ^ 32 + be_val (drop 10 r)) =
          (be_val p =? 65535)) as ->.
  { unfold in_net. apply eq_true_iff_eq. rewrite !andb_true_iff, !Z.leb_le, !Z.ltb_lt, Z.eqb_eq.
    change (128 - 96) with 32. lia. }
  destruct (be_val p =? 65535) eqn:E; [|done]. btest. cbn [andb]. rewrite ipv4_private_blocked.
  f_equal. lia.
Qed.

(** ** Claims *)

(** C25 The address filter is exactly the list of networks its comments name:
    ten IPv4 networks; for IPv6 the loopback and unspecified addresses,
    fc00::/7, fe80::/10, and the IPv4-mapped addresses whose IPv4 part is in
    one of the ten. *)
Theorem private_iff_blocked a :
  wf_addr a -> vwasm_http_addr_is_private (Some a) = blocked a.
Proof.
  destruct a as [ip p|b p|]; simpl; [|intros [? ?]; by apply ipv6_private_blocked|done].
  intros _. apply ipv4_private_blocked.
Qed.

Lemma private_iff_blocked_witness :
  vwasm_http_addr_is_private (Some (AF_INET6 (zeros 10 ++ [255; 255; 192; 168; 1; 7]) 80)) =
  blocked (AF_INET6 (zeros 10 ++ [255; 255; 192; 168; 1; 7]) 80).
Proof.
  apply (private_iff_blocked (AF_INET6 (zeros 10 ++ [255; 255; 192; 168; 1; 7]) 80)).
  split; [reflexivity|]. unfold wf_bytes. by_decide.
Defined.
