(* ===== verification/Breaker.v ===== *)
(** * Circuit breakers (src/http_pool.c)

    One breaker per upstream [host:port], at most 32 of them, under one mutex.
    The clock is an argument of each operation ([time(NULL)]). *)

From S2P Require Import Prelude.

(** ** Data *)

Inductive cb_state := VWASM_CB_CLOSED | VWASM_CB_OPEN | VWASM_CB_HALF_OPEN.

#[export] Instance cb_state_eq_dec : EqDecision cb_state.
Proof. solve_decision. Defined.

Definition VWASM_HTTP_CB_THRESHOLD_DEFAULT : Z := 5.
Definition VWASM_HTTP_CB_HALFOPEN_TIMEOUT_S : Z := 10.

(** [struct vwasm_http_circuit_breaker] *)
Record breaker := Breaker {
  upstream : bytes;
  state : cb_state;
  consecutive_failures : Z;
  consecutive_successes : Z;
  last_failure_time : Z;
  last_success_time : Z;
  threshold : Z;
  half_open_timeout_s : Z;
  total_requests : Z;
  total_failures : Z;
  total_rejections : Z
}.

(** The breakers of a pool, [num_breakers] of them in use, and its counter of
    rejections. *)
Record breakers := Breakers {
  brs : list breaker;
  stat_cb_rejections : Z
}.

Definition max_breakers : Z := 32.

(** ** Operations *)

(** [snprintf(key, 280, "%s:%u", host, port)] *)
Definition cb_key (host : bytes) (port : Z) : bytes :=
  take 279 (cstr host ++ str ":" ++ dec port).

Fixpoint find_breaker (l : list breaker) (key : bytes) : option nat :=
  match l with
  | [] => None
  | b :: l => if strcmp_eq (upstream b) key then Some O else option_map S (find_breaker l key)
  end.

(** A slot is zero before its first use. *)
Definition new_breaker (key : bytes) : breaker :=
  Breaker key VWASM_CB_CLOSED 0 0 0 0 VWASM_HTTP_CB_THRESHOLD_DEFAULT
          VWASM_HTTP_CB_HALFOPEN_TIMEOUT_S 0 0 0.

(** [None]: no breaker and no space for one. *)
Definition cb_find_or_create (p : breakers) (host : bytes) (port : Z) : breakers * option nat :=
  let key := cb_key host port in
  match find_breaker (brs p) key with
  | Some i => (p, Some i)
  | None =>
      if max_breakers <=? len (brs p) then (p, None)
      else (Breakers (brs p ++ [new_breaker key]) (stat_cb_rejections p), Some (length (brs p)))
  end.

Definition put_breaker (p : breakers) (i : nat) (b : breaker) : breakers :=
  Breakers (<[i := b]> (brs p)) (stat_cb_rejections p).

(** Returns 0 to allow, -1 to reject. *)
Definition vwasm_http_pool_cb_allow (now : Z) (p : breakers) (host : bytes) (port : Z)
    : breakers * Z :=
  let '(p, i) := cb_find_or_create p host port in
  match i with
  | None => (p, 0)
  | Some i =>
      match brs p !! i with
      | None => (p, 0)
      | Some b =>
          let req := u64 (total_requests b + 1) in
          match state b with
          | VWASM_CB_CLOSED | VWASM_CB_HALF_OPEN =>
              (put_breaker p i
                 (Breaker (upstream b) (state b) (consecutive_failures b) (consecutive_successes b)
                    (last_failure_time b) (last_success_time b) (threshold b)
                    (half_open_timeout_s b) req (total_failures b) (total_rejections b)), 0)
          | VWASM_CB_OPEN =>
              if half_open_timeout_s b <=? now - last_failure_time b then
                (put_breaker p i
                   (Breaker (upstream b) VWASM_CB_HALF_OPEN (consecutive_failures b) 0
                      (last_failure_time b) (last_success_time b) (threshold b)
                      (half_open_timeout_s b) req (total_failures b) (total_rejections b)), 0)
              else
                (Breakers
                   (<[i := Breaker (upstream b) (state b) (consecutive_failures b)
                             (consecutive_successes b) (last_failure_time b) (last_success_time b)
                             (threshold b) (half_open_timeout_s b) req (total_failures b)
                             (u64 (total_rejections b + 1))]> (brs p))
                   (u64 (stat_cb_rejections p + 1)), -1)
          end
      end
  end.

Definition vwasm_http_pool_cb_success (now : Z) (p : breakers) (host : bytes) (port : Z)
    : breakers :=
  let '(p, i) := cb_find_or_create p host port in
  match i with
  | None => p
  | Some i =>
      match brs p !! i with
      | None => p
      | Some b =>
          put_breaker p i
            (Breaker (upstream b)
               (match state b with VWASM_CB_HALF_OPEN => VWASM_CB_CLOSED | s => s end)
               0 (u32 (consecutive_successes b + 1)) (last_failure_time b) now (threshold b)
               (half_open_timeout_s b) (total_requests b) (total_failures b) (total_rejections b))
      end
  end.

Definition vwasm_http_pool_cb_failure (now : Z) (p : breakers) (host : bytes) (port : Z)
    : breakers :=
  let '(p, i) := cb_find_or_create p host port in
  match i with
  | None => p
  | Some i =>
      match brs p !! i with
      | None => p
      | Some b =>
          let cf := u32 (consecutive_failures b + 1) in
          put_breaker p i
            (Breaker (upstream b)
               (match state b with
                | VWASM_CB_HALF_OPEN => VWASM_CB_OPEN
                | VWASM_CB_CLOSED => if threshold b <=? cf then VWASM_CB_OPEN else VWASM_CB_CLOSED
                | s => s
                end)
               cf 0 now (last_success_time b) (threshold b) (half_open_timeout_s b)
               (total_requests b) (u64 (total_failures b + 1)) (total_rejections b))
      end
  end.

(** What [pw_proxy_http_call] does to the breaker of an upstream when
    [vwasm_http_pool_acquire] is refused by it: the refusal is then recorded as
    a failure. *)
Definition refused_call (now : Z) (p : breakers) (host : bytes) (port : Z) : breakers * bool :=
  let '(p, r) := vwasm_http_pool_cb_allow now p host port in
  if r =? 0 then (p, true) else (vwasm_http_pool_cb_failure now p host port, false).

(** ** Specification: a state machine per upstream *)

Inductive cb_spec := Closed (failures : Z) | Open (since : Z) | HalfOpen.

Inductive event := Allow | Success | Failure.

(** The transitions of a breaker, with the answer to [Allow]. *)
Definition cb_next (now : Z) (s : cb_spec) (e : event) : cb_spec * bool :=
  match e, s with
  | Allow, Closed n => (Closed n, true)
  | Allow, HalfOpen => (HalfOpen, true)
  | Allow, Open t => if 10 <=? now - t then (HalfOpen, true) else (Open t, false)
  | Success, Closed _ => (Closed 0, true)
  | Success, HalfOpen => (Closed 0, true)
  | Success, Open t => (Open t, true)
  | Failure, Closed n => (if 5 <=? n + 1 then Open now else Closed (n + 1), true)
  | Failure, HalfOpen => (Open now, true)
  | Failure, Open _ => (Open now, true)
  end.

(** Up to 32 upstreams are tracked; the others are always allowed. *)
Definition spec_step (m : gmap (list Z) cb_spec) (q : Z * event * (list Z * Z))
    : gmap (list Z) cb_spec * bool :=
  let '(now, e, (host, port)) := q in
  let key := cb_key host port in
  match m !! key with
  | Some s => let '(s', r) := cb_next now s e in (<[key := s']> m, r)
  | None =>
      if max_breakers <=? Z.of_nat (size m) then (m, true)
      else let '(s', r) := cb_next now (Closed 0) e in (<[key := s']> m, r)
  end.

Definition impl_step (p : breakers) (q : Z * event * (list Z * Z)) : breakers * bool :=
  let '(now, e, (host, port)) := q in
  match e with
  | Allow => let '(p, r) := vwasm_http_pool_cb_allow now p host port in (p, r =? 0)
  | Success => (vwasm_http_pool_cb_success now p host port, true)
  | Failure => (vwasm_http_pool_cb_failure now p host port, true)
  end.

(** * Properties *)

(** What a breaker record says about the state machine. *)
Definition abs_breaker (b : breaker) (s : cb_spec) : Prop :=
  threshold b = 5 /\ half_open_timeout_s b = 10 /\ nul_free (upstream b) /\
  match s with
  | Closed n => state b = VWASM_CB_CLOSED /\ consecutive_failures b = n /\ 0 <= n < 5
  | Open t => state b = VWASM_CB_OPEN /\ last_failure_time b = t
  | HalfOpen => state b = VWASM_CB_HALF_OPEN
  end.

Definition sim (p : breakers) (m : gmap (list Z) cb_spec) : Prop :=
  Z.of_nat (size m) = len (brs p) /\ len (brs p) <= max_breakers /\
  (forall key, nul_free key ->
    match find_breaker (brs p) key with
    | Some i => exists b s, brs p !! i = Some b /\ upstream b = key /\ m !! key = Some s /\
                            abs_breaker b s
    | None => m !! key = None
    end) /\
  Forall (fun b => nul_free (upstream b)) (brs p).

Lemma find_breaker_lt l key i : find_breaker l key = Some i -> (i < length l)%nat.
Proof.
  revert i. induction l as [|b l IH]; intros i; simpl; [done|]. split_if; [intros [= <-]; lia|].
  destruct (find_breaker l key) as [j|]; [|done]. intros [= <-]. specialize (IH j eq_refl). lia.
Qed.

(** A breaker keeps its name, so lookups are stable under updates. *)
Lemma find_breaker_insert l i b b' key :
  l !! i = Some b -> upstream b' = upstream b ->
  find_breaker (<[i := b']> l) key = find_breaker l key.
Proof.
  revert i. induction l as [|x l IH]; intros [|i] Hi Hu; simpl in *; [done|done| |].
  - injection Hi as ->. by rewrite Hu.
  - by rewrite IH.
Qed.

Lemma find_breaker_app l b key :
  find_breaker (l ++ [b]) key =
  match find_breaker l key with
  | Some i => Some i
  | None => if strcmp_eq (upstream b) key then Some (length l) else None
  end.
Proof.
  induction l as [|x l IH]; simpl; [done|]. split_if; [done|]. rewrite IH.
  destruct (find_breaker l key); simpl; [done|]. by split_if.
Qed.

Lemma strcmp_eq_iff a b : nul_free a -> nul_free b -> strcmp_eq a b = true <-> a = b.
Proof.
  intros Ha Hb. unfold strcmp_eq, bytes_eqb. rewrite bool_decide_eq_true.
  by rewrite !cstr_nul_free by done.
Qed.

Lemma dec_fuel_digits fuel n acc :
  0 <= n -> Forall (fun c => 48 <= c <= 57) acc -> Forall (fun c => 48 <= c <= 57) (dec_fuel fuel n acc).
Proof.
  revert n acc. induction fuel as [|fuel IH]; intros n acc Hn Ha; cbn [dec_fuel]; [done|].
  assert (Forall (fun c => 48 <= c <= 57) ((48 + n mod 10) :: acc)) as Ha' by (constructor; [zlia|done]).
  cbv zeta. split_if; [done|]. apply IH; [zlia|done].
Qed.

Lemma dec_digits n : 0 <= n -> Forall (fun c => 48 <= c <= 57) (dec n).
Proof. intros. apply dec_fuel_digits; [done|constructor]. Qed.

Lemma cb_key_nul_free host port : 0 <= port -> nul_free (cb_key host port).
Proof.
  intros Hp. unfold cb_key, nul_free. apply Forall_take. rewrite !Forall_app. split_and!.
  - apply nul_free_cstr.
  - by repeat constructor.
  - eapply list.Forall_impl; [by apply dec_digits|]. simpl. lia.
Qed.

(** Updating the breaker of a key updates the machine of that key. *)
Lemma sim_put p m i b b' s' key st' :
  sim p m -> nul_free key -> find_breaker (brs p) key = Some i -> brs p !! i = Some b ->
  upstream b' = upstream b -> abs_breaker b' s' ->
  sim (Breakers (<[i := b']> (brs p)) st') (<[key := s']> m).
Proof.
  intros (Hs & Hm & Hf & Hn) Hk Hi Hb Hu Ha. pose proof (Hf key Hk) as Hfk. rewrite Hi in Hfk.
  destruct Hfk as (b0 & s0 & Hb0 & Hu0 & Hmk & _). rewrite Hb in Hb0. injection Hb0 as <-.
  split_and!; cbn [brs].
  - unfold len. rewrite length_insert. rewrite map_size_insert_Some by done. done.
  - unfold len in *. by rewrite length_insert.
  - intros k Hk'. rewrite (find_breaker_insert _ _ b) by done. specialize (Hf k Hk').
    destruct (decide (k = key)) as [->|Hne].
    + rewrite Hi in *. exists b', s'. split_and!; [|congruence|apply lookup_insert_eq|done].
      apply list_lookup_insert_eq. by eapply lookup_lt_Some.
    + rewrite lookup_insert_ne by done. destruct (find_breaker (brs p) k) as [j|] eqn:Ej; [|done].
      destruct Hf as (b1 & s1 & Hb1 & Hu1 & Hmk1 & Ha1). exists b1, s1. split_and!; try done.
      rewrite list_lookup_insert_ne; [done|]. intros ->. rewrite Hb in Hb1. congruence.
  - apply Forall_insert; [done|]. rewrite Hu. exact (Forall_lookup_1 _ _ _ _ Hn Hb).
Qed.

(** [cb_find_or_create]: the breaker of the key, or a new closed one, unless
    the table is full. *)
Lemma sim_find p m host port :
  sim p m -> 0 <= port ->
  let key := cb_key host port in
  match cb_find_or_create p host port with
  | (p', Some i) =>
      exists b s m', sim p' m' /\ find_breaker (brs p') key = Some i /\ brs p' !! i = Some b /\
        abs_breaker b s /\
        ((m' = m /\ m !! key = Some s) \/
         (m !! key = None /\ s = Closed 0 /\ m' = <[key := Closed 0]> m /\
          max_breakers <=? Z.of_nat (size m) = false))
  | (p', None) => p' = p /\ m !! key = None /\ max_breakers <=? Z.of_nat (size m) = true
  end.
Proof.
  intros Hsim Hp key. pose proof Hsim as (Hs & Hm & Hf & Hn).
  assert (nul_free key) as Hk by by apply cb_key_nul_free.
  unfold cb_find_or_create. fold key. pose proof (Hf key Hk) as Hfk.
  destruct (find_breaker (brs p) key) as [i|] eqn:Ei.
  - destruct Hfk as (b & s & Hb & Hu & Hmk & Ha). exists b, s, m. split_and!; try done. by left.
  - rewrite Hs. destruct (max_breakers <=? len (brs p)) eqn:E; btest; [done|].
    assert (abs_breaker (new_breaker key) (Closed 0)) as Ha by (unfold abs_breaker; simpl; auto with lia).
    exists (new_breaker key), (Closed 0), (<[key := Closed 0]> m). cbn [brs].
    assert (find_breaker (brs p ++ [new_breaker key]) key = Some (length (brs p))) as Ek.
    { rewrite find_breaker_app, Ei. simpl. by rewrite (proj2 (strcmp_eq_iff _ _ Hk Hk)). }
    assert ((brs p ++ [new_breaker key]) !! length (brs p) = Some (new_breaker key)) as El
      by by rewrite lookup_app_r, Nat.sub_diag by lia.
    split_and!; [|done|done|done|right; split_and!; [done|done|done|lia]].
    split_and!; cbn [brs].
    + rewrite map_size_insert_None, len_app by done. change (len [new_breaker key]) with 1. lia.
    + rewrite len_app. change (len [new_breaker key]) with 1. lia.
    + intros k Hk'. rewrite find_breaker_app. specialize (Hf k Hk').
      destruct (find_breaker (brs p) k) as [j|] eqn:Ej.
      * destruct Hf as (b1 & s1 & Hb1 & Hu1 & Hmk1 & Ha1). exists b1, s1. split_and!; try done.
        -- rewrite lookup_app_l; [done|]. by eapply lookup_lt_Some.
        -- rewrite lookup_insert_ne; [done|]. intros <-. congruence.
      * cbn [upstream new_breaker]. destruct (strcmp_eq key k) eqn:Es.
        -- apply strcmp_eq_iff in Es as <-; [|done..]. exists (new_breaker key), (Closed 0).
           split_and!; [done|done|apply lookup_insert_eq|done].
        -- rewrite lookup_insert_ne; [done|]. intros <-.
           by rewrite (proj2 (strcmp_eq_iff _ _ Hk Hk)) in Es.
    + apply Forall_app. split; [done|]. by constructor.
Qed.

(** Both cases of [sim_find] lead to the same step of the specification. *)
Lemma spec_step_found m m' key s now e host port :
  key = cb_key host port ->
  (m' = m /\ m !! key = Some s) \/
  (m !! key = None /\ s = Closed 0 /\ m' = <[key := Closed 0]> m /\
   max_breakers <=? Z.of_nat (size m) = false) ->
  (spec_step m (now, e, (host, port))).1 = <[key := (cb_next now s e).1]> m' /\
  (spec_step m (now, e, (host, port))).2 = (cb_next now s e).2.
Proof.
  intros -> [[-> Hm]|(Hm & -> & -> & Hs)]; simpl; rewrite Hm, ?Hs;
    destruct (cb_next now _ e) as [s' r]; simpl; [done|]. by rewrite insert_insert_eq.
Qed.

Lemma breaker_step_sim p m q :
  sim p m -> 0 <= q.2.2 ->
  sim (impl_step p q).1 (spec_step m q).1 /\ (impl_step p q).2 = (spec_step m q).2.
Proof.
  intros Hsim Hp. destruct q as [[now e] [host port]]. simpl in Hp.
  pose proof (sim_find p m host port Hsim Hp) as Hf. cbv zeta in Hf.
  assert (nul_free (cb_key host port)) as Hk by by apply cb_key_nul_free.
  unfold impl_step, vwasm_http_pool_cb_allow, vwasm_http_pool_cb_success, vwasm_http_pool_cb_failure.
  destruct (cb_find_or_create p host port) as [p' [i|]].
  2:{ destruct Hf as (-> & Hm & Hs). simpl. rewrite Hm, Hs. by destruct e. }
  destruct Hf as (b & s & m' & Hsim' & Hi & Hb & Ha & Hcase). rewrite Hb.
  destruct (spec_step_found m m' _ s now e host port eq_refl Hcase) as [-> ->].
  pose proof Ha as (Ht & Hh & Hu & Hst).
  destruct e, s as [n|t|]; cbn [cb_next]; destruct_and?;
    repeat match goal with H : state b = _ |- _ => rewrite H end; rewrite ?Hh, ?Ht;
    repeat match goal with H : last_failure_time b = _ |- _ => rewrite H end;
    repeat match goal with |- context [10 <=? ?x] => destruct (10 <=? x) end;
    cbn [fst snd]; (split; [|done]); unfold put_breaker;
    (eapply sim_put; [exact Hsim'|exact Hk|exact Hi|exact Hb|done|]);
    unfold abs_breaker; cbn [threshold half_open_timeout_s upstream state consecutive_failures
      last_failure_time]; repeat match goal with H : consecutive_failures b = _ |- _ => rewrite H end;
    try (split_and!; (done || lia)).
  (* a failure while closed *)
  replace (u32 (n + 1)) with (n + 1) by zlia.
  destruct (5 <=? n + 1) eqn:E; btest; split_and!; (done || lia).
Qed.

Lemma breaker_sim_new : sim (Breakers [] 0) ∅.
Proof. split_and!; try done. Qed.

(** ** Claims *)

(** C13 Refinement: over any history of admissions, successes and failures for
    any upstreams, the breakers answer as one state machine per upstream
    (closed with a count of consecutive failures, open since the last failure,
    half open), for the first 32 upstreams; the fifth consecutive failure
    opens, ten seconds without a failure half-open, one success closes. *)
Theorem breakers_refine_machines qs :
  Forall (fun q => 0 <= q.2.2) qs ->
  (run impl_step (Breakers [] 0) qs).2 = (run spec_step ∅ qs).2.
Proof.
  intros Hq. apply (run_sim impl_step spec_step sim (fun q => 0 <= q.2.2)); [|apply breaker_sim_new|done].
  intros p m q Hs Hp. by apply breaker_step_sim.
Qed.

Definition up : list Z * Z := (str "api", 80).

Lemma breakers_refine_machines_witness :
  (run impl_step (Breakers [] 0)
     [(0, Failure, up); (1, Failure, up); (2, Failure, up); (3, Failure, up); (3, Allow, up);
      (4, Failure, up); (13, Allow, up); (14, Allow, up); (14, Success, up); (15, Allow, up)]).2 =
  [true; true; true; true; true; true; false; true; true; true].
Proof.
  rewrite (breakers_refine_machines
     [(0, Failure, up); (1, Failure, up); (2, Failure, up); (3, Failure, up); (3, Allow, up);
      (4, Failure, up); (13, Allow, up); (14, Allow, up); (14, Success, up); (15, Allow, up)]).
  - vm_compute. reflexivity.
  - repeat constructor; simpl; lia.
Defined.

(** The calls of [refused_call] at the given times, one after the other. *)
Fixpoint refused_calls (p : breakers) (host : bytes) (port : Z) (times : list Z) : breakers * list bool :=
  match times with
  | [] => (p, [])
  | t :: times =>
      let '(p, r) := refused_call t p host port in
      let '(p, rs) := refused_calls p host port times in
      (p, r :: rs)
  end.

(** Consecutive times less than ten seconds apart, the first after [t]. *)
Fixpoint spaced (t : Z) (times : list Z) : Prop :=
  match times with
  | [] => True
  | u :: times => t <= u < t + 10 /\ spaced u times
  end.

(** An upstream whose breaker is open since [t]. *)
Definition open_since (p : breakers) (host : bytes) (port t : Z) : Prop :=
  exists i b, find_breaker (brs p) (cb_key host port) = Some i /\ brs p !! i = Some b /\
    state b = VWASM_CB_OPEN /\ last_failure_time b = t /\ half_open_timeout_s b = 10.

Lemma refused_open p host port t u :
  open_since p host port t -> t <= u < t + 10 ->
  (refused_call u p host port).2 = false /\ open_since (refused_call u p host port).1 host port u.
Proof.
  intros (i & b & Hi & Hb & Hs & Hl & Hh) Hu.
  unfold refused_call, vwasm_http_pool_cb_allow, cb_find_or_create.
  rewrite Hi, Hb, Hs, Hh, Hl. rewrite (proj2 (Z.leb_gt _ _)) by lia. simpl. split; [done|].
  unfold vwasm_http_pool_cb_failure, cb_find_or_create. cbn [brs].
  rewrite (find_breaker_insert _ _ b) by done. rewrite Hi. cbv beta iota. cbn [brs].
  assert (i < length (brs p))%nat as Hlt by by eapply lookup_lt_Some.
  rewrite list_lookup_insert_eq by done. cbn [state].
  eexists i, _. unfold put_breaker. cbn [brs].
  rewrite (find_breaker_insert _ _ (Breaker (upstream b) VWASM_CB_OPEN (consecutive_failures b)
    (consecutive_successes b) t (last_success_time b) (threshold b) 10
    (u64 (total_requests b + 1)) (total_failures b) (u64 (total_rejections b + 1))));
    [|by apply list_lookup_insert_eq|done].
  rewrite (find_breaker_insert _ _ b) by done.
  rewrite list_lookup_insert_eq by by rewrite length_insert. by split_and!.
Qed.

(** The open window is refreshed by refused calls: because a call refused by
    the breaker is itself recorded as a failure, an upstream that keeps being
    called at least every ten seconds is refused for ever, however long ago it
    last really failed; the breaker never half-opens. *)
Theorem refused_calls_keep_open p host port t times :
  open_since p host port t -> spaced t times ->
  Forall (fun r => r = false) (refused_calls p host port times).2.
Proof.
  revert p t. induction times as [|u times IH]; intros p t Ho Hw; [constructor|].
  destruct Hw as [Hu Hw]. simpl. destruct (refused_open p host port t u Ho Hu) as [Hr Ho'].
  destruct (refused_call u p host port) as [p' r]. simpl in *. specialize (IH p' u Ho' Hw).
  destruct (refused_calls p' host port times) as [p'' rs]. by constructor.
Qed.

(** An upstream that failed five times in the second 0. *)
Definition failed5 : breakers :=
  Eval vm_compute in (run impl_step (Breakers [] 0) (replicate 5 (0, Failure, up))).1.

Lemma refused_calls_keep_open_witness :
  Forall (fun r => r = false) (refused_calls failed5 (str "api") 80 [9; 18; 27; 36; 45]).2.
Proof.
  apply (refused_calls_keep_open failed5 (str "api") 80 0 [9; 18; 27; 36; 45]).
  - eexists O, _. split; [vm_compute; reflexivity|]. split; [reflexivity|].
    split_and!; reflexivity.
  - simpl. lia.
Defined.
