(* ===== verification/HttpPool.v ===== *)
(** * The HTTP connection pool (src/http_pool.c)

    Keep-alive connections in a fixed array of slots, a DNS cache, the circuit
    breakers of [Breaker] and a response cache, each under a mutex of its own.
    A part of the code that runs under a mutex is one function here; the
    operations compose them, and the last part of the file interleaves them.

    The operating system is a parameter: name resolution at a time, the
    outcomes of the system calls of a connection attempt, and of [poll] on an
    idle connection. *)

From S2P Require Import Prelude HttpAddr Breaker.

(** ** Data *)

Definition VWASM_HTTP_POOL_DEFAULT_SIZE : Z := 16.
Definition VWASM_HTTP_POOL_MAX_SIZE : Z := 256.
Definition VWASM_HTTP_DNS_TTL_DEFAULT_S : Z := 60.
Definition VWASM_HTTP_DEFAULT_TIMEOUT_MS : Z := 1000.
Definition VWASM_HTTP_MAX_RESPONSE_SIZE : Z := 1048576.
Definition VWASM_HTTP_CACHE_DEFAULT_TTL_MS : Z := 1000.
Definition VWASM_HTTP_CACHE_BUCKETS : Z := 64.
Definition dns_cache_capacity : Z := 64.

(** [struct vwasm_http_conn] *)
Record conn := Conn {
  fd : Z;
  c_host : bytes;
  c_port : Z;
  last_used : Z;
  created_at : Z;
  in_use : bool;
  keep_alive : bool;
  requests_served : Z
}.

(** [struct vwasm_http_dns_entry] *)
Record dns_entry := DnsEntry {
  d_host : bytes;
  d_addr : sockaddr;
  resolved_at : Z;
  d_valid : bool
}.

(** [struct vwasm_http_cache_entry] *)
Record cache_entry := CacheEntry {
  k_key : bytes;
  response_data : bytes;
  status_code : Z;
  cached_at : Z;
  ttl_ms : Z
}.

Record statistics := Statistics {
  stat_acquires : Z;
  stat_releases : Z;
  stat_creates : Z;
  stat_reuses : Z;
  stat_evictions : Z;
  stat_dns_hits : Z;
  stat_dns_misses : Z;
  stat_cache_hits : Z;
  stat_cache_misses : Z
}.

(** [struct vwasm_http_pool] *)
Record pool := Pool {
  conns : list conn;
  num_active : Z;
  dns_cache : list dns_entry;             (** the first [dns_cache_size] entries *)
  dns_ttl_s : Z;
  cbs : breakers;
  cache_buckets : list (list cache_entry);
  cache_ttl_ms : Z;
  default_timeout_ms : Z;
  max_requests_per_conn : Z;
  max_conn_age_s : Z;
  stats : statistics
}.

(** A connection handed out: a slot of the pool, or a structure of its own. *)
Inductive conn_ref := Slot (i : nat) | Heap (c : conn).

(** What a call does to the operating system. *)
Inductive io := Socket (f : Z) | Connect (a : sockaddr) | Close (f : Z).

(** The outcomes of the system calls of [connect_with_timeout]. *)
Record attempt := Attempt {
  a_socket : Z;                (** [socket] *)
  a_nonblocking : bool;        (** [set_nonblocking] succeeded *)
  a_connect : bool;            (** [connect] returned 0 *)
  a_in_progress : bool;        (** ... or failed with [EINPROGRESS] *)
  a_poll : Z;                  (** [poll] *)
  a_error : bool               (** [getsockopt] failed or [SO_ERROR] is set *)
}.

(** The outcomes of [poll] in [conn_is_alive]. *)
Record polled := Polled { p_ret : Z; p_err : bool; p_in : bool }.

Class Net : Type := {
  getaddrinfo : Z -> bytes -> option sockaddr;   (** at a time, for a host *)
  attempt_to : sockaddr -> attempt;
  poll_fd : Z -> polled
}.

(** ** Sockets *)

Definition conn_is_alive (r : polled) : bool :=
  if p_ret r <? 0 then false
  else if p_ret r =? 0 then true
  else if p_err r then false
  else if negb (p_in r) then true
  else false.

(** The descriptor, or -1, and what was done. *)
Definition connect_with_timeout (a : attempt) (addr : sockaddr) : Z * list io :=
  let f := a_socket a in
  if f <? 0 then (-1, [])
  else if negb (a_nonblocking a) then (-1, [Socket f; Close f])
  else if a_connect a then (f, [Socket f; Connect addr])
  else if negb (a_in_progress a) then (-1, [Socket f; Connect addr; Close f])
  else if a_poll a <=? 0 then (-1, [Socket f; Connect addr; Close f])
  else if a_error a then (-1, [Socket f; Connect addr; Close f])
  else (f, [Socket f; Connect addr]).

(** ** Creation *)

Definition empty_conn : conn := Conn (-1) [] 0 0 0 false false 0.

Definition vwasm_http_pool_new (ok : oracle) (max_conns timeout_ms : Z) : option pool :=
  let max_conns := if max_conns =? 0 then VWASM_HTTP_POOL_DEFAULT_SIZE else max_conns in
  let max_conns :=
    if VWASM_HTTP_POOL_MAX_SIZE <? max_conns then VWASM_HTTP_POOL_MAX_SIZE else max_conns in
  let timeout_ms := if timeout_ms =? 0 then VWASM_HTTP_DEFAULT_TIMEOUT_MS else timeout_ms in
  if negb (ok 0%nat) then None
  else if negb (ok 1%nat) then None
  else if negb (ok 2%nat) || negb (ok 3%nat) then None
  else Some (Pool (replicate (Z.to_nat max_conns) empty_conn) 0 [] VWASM_HTTP_DNS_TTL_DEFAULT_S
               (Breakers [] 0) (replicate 64 []) VWASM_HTTP_CACHE_DEFAULT_TTL_MS timeout_ms 100 300
               (Statistics 0 0 0 0 0 0 0 0 0)).

Section Pool.
Context `{N : Net}.

(** ** DNS cache *)

Definition set_port (a : sockaddr) (port : Z) : sockaddr :=
  match a with
  | AF_INET ip _ => AF_INET ip port
  | AF_INET6 b _ => AF_INET6 b port
  | AF_OTHER => AF_OTHER
  end.

Fixpoint dns_lookup (l : list dns_entry) (ttl now : Z) (host : bytes) : option sockaddr :=
  match l with
  | [] => None
  | d :: l =>
      if d_valid d && strcmp_eq (d_host d) host && (now - resolved_at d <? ttl)
      then Some (d_addr d) else dns_lookup l ttl now host
  end.

Fixpoint dns_slot (l : list dns_entry) (host : bytes) : nat :=
  match l with
  | [] => O
  | d :: l => if strcmp_eq (d_host d) host then O else S (dns_slot l host)
  end.

(** The update of the cache with a fresh answer. *)
Definition dns_update (l : list dns_entry) (host : bytes) (a : sockaddr) (now : Z)
    : list dns_entry :=
  let slot := dns_slot l host in
  let slot := if dns_cache_capacity <=? Z.of_nat slot then O else slot in
  let e := DnsEntry (take 255 (cstr host)) a now true in
  if (slot =? length l)%nat then l ++ [e] else <[slot := e]> l.

Definition set_dns (p : pool) (l : list dns_entry) (hits misses : Z) : pool :=
  let s := stats p in
  Pool (conns p) (num_active p) l (dns_ttl_s p) (cbs p) (cache_buckets p) (cache_ttl_ms p)
       (default_timeout_ms p) (max_requests_per_conn p) (max_conn_age_s p)
       (Statistics (stat_acquires s) (stat_releases s) (stat_creates s) (stat_reuses s)
          (stat_evictions s) (u64 (stat_dns_hits s + hits)) (u64 (stat_dns_misses s + misses))
          (stat_cache_hits s) (stat_cache_misses s)).

(** [None]: returns -1. *)
Definition vwasm_http_pool_resolve (now : Z) (p : pool) (host : bytes) (port : Z)
    : pool * option sockaddr :=
  match dns_lookup (dns_cache p) (dns_ttl_s p) now host with
  | Some a => (set_dns p (dns_cache p) 1 0, Some (set_port a port))
  | None =>
      match getaddrinfo now host with
      | None => (set_dns p (dns_cache p) 0 1, None)
      | Some a =>
          let a := set_port a port in
          (set_dns p (dns_update (dns_cache p) host a now) 0 1, Some a)
      end
  end.

(** ** Connections: the parts under the lock *)

(** Look for an idle connection to the upstream; stale ones are closed. *)
Fixpoint reuse_loop (now : Z) (exempt : bool) (host : bytes) (port max_age max_req : Z)
    (l : list conn) : list conn * option (nat * Z) * list io :=
  match l with
  | [] => ([], None, [])
  | c :: l =>
      let skip (c : conn) (ev : list io) :=
        let '(l, r, io) := reuse_loop now exempt host port max_age max_req l in
        (c :: l, match r with Some (i, f) => Some (S i, f) | None => None end, ev ++ io) in
      let drop :=
        skip (Conn (-1) (c_host c) (c_port c) (last_used c) (created_at c) (in_use c)
                (keep_alive c) (requests_served c)) [Close (fd c)] in
      if negb exempt then skip c []
      else if (fd c <? 0) || in_use c then skip c []
      else if negb (strcmp_eq (c_host c) host) || negb (c_port c =? port) then skip c []
      else if max_age <? now - created_at c then drop
      else if max_req <=? requests_served c then drop
      else if negb (conn_is_alive (poll_fd (fd c))) then drop
      else
        (Conn (fd c) (c_host c) (c_port c) now (created_at c) true (keep_alive c)
           (requests_served c + 1) :: l, Some (O, fd c), [])
  end.

(** The connection a new descriptor is stored as. *)
Definition fresh_conn (f : Z) (host : bytes) (port now : Z) (keep : bool) : conn :=
  Conn f (take 255 (cstr host)) port now now true keep 1.

(** The first slot without a descriptor. *)
Fixpoint free_slot (l : list conn) : option nat :=
  match l with
  | [] => None
  | c :: l => if 0 <=? fd c then option_map S (free_slot l) else Some O
  end.

(** The idle connection used least recently, the last one among equals. *)
Fixpoint evict_scan (l : list conn) (i : nat) (oldest_time : Z) (best : option nat) : option nat :=
  match l with
  | [] => best
  | c :: l =>
      if (0 <=? fd c) && negb (in_use c) && (last_used c <=? oldest_time)
      then evict_scan l (S i) (last_used c) (Some i)
      else evict_scan l (S i) oldest_time best
  end.

Definition set_conns (p : pool) (l : list conn) (active acq rel cre reu evi : Z) : pool :=
  let s := stats p in
  Pool l (num_active p + active) (dns_cache p) (dns_ttl_s p) (cbs p) (cache_buckets p)
       (cache_ttl_ms p) (default_timeout_ms p) (max_requests_per_conn p) (max_conn_age_s p)
       (Statistics (u64 (stat_acquires s + acq)) (u64 (stat_releases s + rel))
          (u64 (stat_creates s + cre)) (u64 (stat_reuses s + reu)) (u64 (stat_evictions s + evi))
          (stat_dns_hits s) (stat_dns_misses s) (stat_cache_hits s) (stat_cache_misses s)).

Definition set_cbs (p : pool) (b : breakers) : pool :=
  Pool (conns p) (num_active p) (dns_cache p) (dns_ttl_s p) b (cache_buckets p) (cache_ttl_ms p)
       (default_timeout_ms p) (max_requests_per_conn p) (max_conn_age_s p) (stats p).

(** [place]: the second half of an acquisition, with a connected descriptor. *)
Definition place (heap_ok : bool) (now : Z) (p : pool) (host : bytes) (port f : Z)
    : pool * option (Z * conn_ref) * list io :=
  match free_slot (conns p) with
  | Some i =>
      (set_conns p (<[i := fresh_conn f host port now true]> (conns p)) 1 1 0 1 0 0,
       Some (f, Slot i), [])
  | None =>
      match evict_scan (conns p) 0 now None with
      | Some i =>
          let old := match conns p !! i with Some c => fd c | None => -1 end in
          (set_conns p (<[i := fresh_conn f host port now true]> (conns p)) 0 1 0 1 0 1,
           Some (f, Slot i), [Close old])
      | None =>
          if negb heap_ok then (p, None, [Close f])
          else
            (set_conns p (conns p) 0 1 0 1 0 0, Some (f, Heap (fresh_conn f host port now false)), [])
      end
  end.

(** The descriptor and the connection, [None] for -1; the system calls made.
    The timeout only parametrises them. *)
Definition vwasm_http_pool_acquire (heap_ok : bool) (now : Z) (p : pool) (host : bytes) (port : Z)
    (ssrf_exempt : bool) : pool * option (Z * conn_ref) * list io :=
  let '(b, r) := vwasm_http_pool_cb_allow now (cbs p) host port in
  let p := set_cbs p b in
  if negb (r =? 0) then (p, None, [])
  else
    let '(l, found, ev) :=
      reuse_loop now ssrf_exempt host port (max_conn_age_s p) (max_requests_per_conn p) (conns p) in
    match found with
    | Some (i, f) => (set_conns p l 0 1 0 0 1 0, Some (f, Slot i), ev)
    | None =>
        let p := set_conns p l 0 0 0 0 0 0 in
        let '(p, a) := vwasm_http_pool_resolve now p host port in
        match a with
        | None => (p, None, ev)
        | Some addr =>
            if negb ssrf_exempt && vwasm_http_addr_is_private (Some addr) then (p, None, ev)
            else
              let '(f, ev2) := connect_with_timeout (attempt_to addr) addr in
              if f <? 0 then (p, None, ev ++ ev2)
              else
                let '(p, res, ev3) := place heap_ok now p host port f in
                (p, res, ev ++ ev2 ++ ev3)
        end
    end.

(** The three writes of [vwasm_http_pool_release], none of them under the lock:
    [close] and [conn->fd = -1], [conn->in_use = 0], [conn->last_used = now]. *)
Definition release_fd (c : conn) : conn :=
  Conn (-1) (c_host c) (c_port c) (last_used c) (created_at c) (in_use c) (keep_alive c)
       (requests_served c).

Definition release_in_use (c : conn) : conn :=
  Conn (fd c) (c_host c) (c_port c) (last_used c) (created_at c) false (keep_alive c)
       (requests_served c).

Definition release_last_used (now : Z) (c : conn) : conn :=
  Conn (fd c) (c_host c) (c_port c) now (created_at c) (in_use c) (keep_alive c)
       (requests_served c).

(** The connection after the release, and the descriptors it closed. *)
Definition release_conn (now : Z) (c : conn) (keep : bool) : conn * list io :=
  if negb keep || negb (keep_alive c) || (fd c <? 0) then
    if 0 <=? fd c then (release_in_use (release_fd c), [Close (fd c)])
    else (release_in_use c, [])
  else (release_last_used now (release_in_use c), []).

(** What a release does that no other thread interrupts; the writes one by one,
    between the steps of other threads, are in [step] below, and
    [release_alone] relates the two. *)
Definition vwasm_http_pool_release (now : Z) (p : pool) (r : conn_ref) (keep : bool)
    : pool * list io :=
  match r with
  | Slot i =>
      match conns p !! i with
      | None => (p, [])
      | Some c =>
          let '(c', ev) := release_conn now c keep in
          (set_conns p (<[i := c']> (conns p)) 0 0 1 0 0 0, ev)
      end
  | Heap c =>
      let '(c', ev) := release_conn now c keep in
      (set_conns p (conns p) 0 0 1 0 0 0,
       ev ++ if 0 <=? fd c' then [Close (fd c')] else [])
  end.

Definition vwasm_http_pool_close (now : Z) (p : pool) (r : conn_ref) : pool * list io :=
  vwasm_http_pool_release now p r false.

(** ** Response cache *)

(** [hash = ((hash << 5) + hash) + c], modulo the number of buckets. *)
Definition cache_hash (key : bytes) : nat :=
  Z.to_nat (foldl (fun h c => u32 (u32 (Z.shiftl h 5 + h) + c)) 5381 (cstr key)
            mod VWASM_HTTP_CACHE_BUCKETS).

Definition make_cache_key (method host : bytes) (port : Z) (path : bytes) : bytes :=
  cstr method ++ str ":" ++ cstr host ++ str ":" ++ dec port ++ str ":" ++ cstr path.

Definition bucket (p : pool) (i : nat) : list cache_entry := default [] (cache_buckets p !! i).

Definition set_cache (p : pool) (l : list (list cache_entry)) (hits misses : Z) : pool :=
  let s := stats p in
  Pool (conns p) (num_active p) (dns_cache p) (dns_ttl_s p) (cbs p) l (cache_ttl_ms p)
       (default_timeout_ms p) (max_requests_per_conn p) (max_conn_age_s p)
       (Statistics (stat_acquires s) (stat_releases s) (stat_creates s) (stat_reuses s)
          (stat_evictions s) (stat_dns_hits s) (stat_dns_misses s)
          (u64 (stat_cache_hits s + hits)) (u64 (stat_cache_misses s + misses))).

Fixpoint cache_find (l : list cache_entry) (key : bytes) : option cache_entry :=
  match l with
  | [] => None
  | e :: l => if strcmp_eq (k_key e) key then Some e else cache_find l key
  end.

(** [ok 0]: the key, [ok 1]: the copy. *)
Definition vwasm_http_pool_cache_get (ok : oracle) (now : Z) (p : pool) (method host : bytes)
    (port : Z) (path : bytes) : pool * option (bytes * Z) :=
  if negb (ok 0%nat) then (p, None)
  else
    let key := make_cache_key method host port path in
    match cache_find (bucket p (cache_hash key)) key with
    | Some e =>
        if (now - cached_at e) * 1000 <? ttl_ms e then
          (set_cache p (cache_buckets p) 1 0,
           if ok 1%nat then Some (response_data e, status_code e) else None)
        else (set_cache p (cache_buckets p) 0 1, None)
    | None => (set_cache p (cache_buckets p) 0 1, None)
    end.

(** Overwrite the entry of [key]; [None] when there is none. *)
Fixpoint cache_update (l : list cache_entry) (key : bytes) (f : cache_entry -> cache_entry)
    : option (list cache_entry) :=
  match l with
  | [] => None
  | e :: l =>
      if strcmp_eq (k_key e) key then Some (f e :: l)
      else match cache_update l key f with Some l => Some (e :: l) | None => None end
  end.

Definition vwasm_http_pool_cache_put (ok : oracle) (now : Z) (p : pool) (method host : bytes)
    (port : Z) (path data : bytes) (status : Z) : pool :=
  if (len data =? 0) || (VWASM_HTTP_MAX_RESPONSE_SIZE <? len data) then p
  else if negb (ok 0%nat) then p
  else
    let key := make_cache_key method host port path in
    let b := cache_hash key in
    match cache_update (bucket p b) key
            (fun e => if ok 1%nat then CacheEntry (k_key e) data status now (cache_ttl_ms p) else e) with
    | Some l => set_cache p (<[b := l]> (cache_buckets p)) 0 0
    | None =>
        if negb (ok 1%nat) || negb (ok 2%nat) then p
        else set_cache p (<[b := CacheEntry key data status now (cache_ttl_ms p) :: bucket p b]>
                            (cache_buckets p)) 0 0
    end.

End Pool.

(** * Properties *)

Section Properties.
Context `{N : Net}.

(** ** Address filtering *)

Lemma reuse_not_exempt now host port age req l :
  reuse_loop now false host port age req l = (l, None, []).
Proof. induction l as [|c l IH]; cbn [reuse_loop negb]; [done|]. by rewrite IH. Qed.

Lemma connect_events a addr f ev :
  connect_with_timeout a addr = (f, ev) ->
  Forall (fun e => match e with Connect x => x = addr | Socket g | Close g => g = a_socket a end) ev /\
  (0 <= f -> f = a_socket a /\ ev = [Socket f; Connect addr]).
Proof.
  unfold connect_with_timeout. repeat split_if; intros [= <- <-];
    (split; [repeat (constructor; [done|]); constructor|intros; try lia; done]).
Qed.

Lemma place_events hok now p host port f p' r ev :
  place hok now p host port f = (p', r, ev) ->
  Forall (fun e => exists g, e = Close g) ev /\ (forall x, r = Some x -> x.1 = f).
Proof.
  unfold place. destruct (free_slot _) as [i|].
  { intros [= <- <- <-]. split; [constructor|]. by intros x [= <-]. }
  destruct (evict_scan _ _ _ _) as [i|].
  { intros [= <- <- <-]. split; [by repeat econstructor|]. by intros x [= <-]. }
  split_if; intros [= <- <- <-]; (split; [by repeat econstructor|]); by intros x [= <-].
Qed.

Lemma acquire_checked hok now p host port p' r ev :
  vwasm_http_pool_acquire hok now p host port false = (p', r, ev) ->
  (forall a, Connect a ∈ ev -> vwasm_http_addr_is_private (Some a) = false) /\
  (forall f c, r = Some (f, c) -> exists a, Connect a ∈ ev /\ f = a_socket (attempt_to a)).
Proof.
  unfold vwasm_http_pool_acquire.
  destruct (vwasm_http_pool_cb_allow _ _ _ _) as [b rc].
  destruct (negb (rc =? 0)); [intros [= <- <- <-]; split; [set_solver|done]|].
  rewrite reuse_not_exempt. cbv zeta. cbv beta iota.
  destruct (vwasm_http_pool_resolve _ _ _ _) as [p1 [addr|]];
    [|intros [= <- <- <-]; split; [set_solver|done]]. cbn [negb andb].
  destruct (vwasm_http_addr_is_private (Some addr)) eqn:Ep;
    [intros [= <- <- <-]; split; [set_solver|done]|].
  destruct (connect_with_timeout _ _) as [f ev2] eqn:Ec.
  apply connect_events in Ec as [Hev Hf].
  assert (forall a, Connect a ∈ ev2 -> vwasm_http_addr_is_private (Some a) = false) as Hok.
  { intros a Ha. pose proof (Forall_elem _ _ _ Hev Ha) as ->. done. }
  destruct (f <? 0) eqn:E; btest; [intros [= <- <- <-]; split; [set_solver|done]|].
  destruct (place _ _ _ _ _ _) as [[p2 res] ev3] eqn:Epl.
  apply place_events in Epl as [Hcl Hres]. intros [= <- <- <-]. destruct (Hf E) as [-> ->]. split.
  - intros a Ha. cbn [app] in Ha. apply elem_of_cons in Ha as [Ha|Ha]; [done|].
    apply elem_of_cons in Ha as [Ha|Ha]; [injection Ha as ->; done|].
    destruct (Forall_elem _ _ _ Hcl Ha) as [g Hg]. done.
  - intros f' c' Hr. exists addr. split; [set_solver|]. by rewrite <- (Hres _ Hr).
Qed.

(** ** Addresses of an upstream *)

(** An address of the host at the port: from the resolver now, or from an entry
    of the cache for that very name. *)
Definition known_address (now : Z) (p : pool) (host : bytes) (port : Z) (a : sockaddr) : Prop :=
  exists a0, a = set_port a0 port /\
    (getaddrinfo now host = Some a0 \/
     exists d, d ∈ dns_cache p /\ d_valid d = true /\ strcmp_eq (d_host d) host = true /\ d_addr d = a0).

Lemma resolve_known now p host port p' a :
  vwasm_http_pool_resolve now p host port = (p', Some a) -> known_address now p host port a.
Proof.
  unfold vwasm_http_pool_resolve. destruct (dns_lookup _ _ _ _) as [a0|] eqn:E.
  - intros [= <- <-]. exists a0. split; [done|right]. revert E.
    induction (dns_cache p) as [|d l IH]; simpl; [done|].
    destruct (d_valid d && strcmp_eq (d_host d) host && _) eqn:Ed; btest.
    + intros [= <-]. exists d. split_and!; try done. left.
    + intros Hl. destruct (IH Hl) as (d' & ? & ?). exists d'. split; [by right|done].
  - destruct (getaddrinfo now host) as [a0|] eqn:Eg; intros [= <- <-]. exists a0. split; [done|by left].
Qed.

(** Looking for a connection to reuse only closes descriptors. *)
Lemma reuse_closes now ex host port age req l l' r ev a :
  reuse_loop now ex host port age req l = (l', r, ev) -> Connect a ∉ ev.
Proof.
  revert l' r ev. induction l as [|c l IH]; intros l' r ev; cbn [reuse_loop]; cbv zeta.
  { intros [= <- <- <-]. set_solver. }
  destruct (reuse_loop now ex host port age req l) as [[l1 r1] ev1]. specialize (IH _ _ _ eq_refl).
  repeat split_if; intros [= <- <- <-]; set_solver.
Qed.

Lemma acquire_known hok now p host port ex p' r ev a :
  vwasm_http_pool_acquire hok now p host port ex = (p', r, ev) -> Connect a ∈ ev ->
  known_address now p host port a.
Proof.
  unfold vwasm_http_pool_acquire. destruct (vwasm_http_pool_cb_allow _ _ _ _) as [b rc]. cbv zeta.
  destruct (negb (rc =? 0)); [intros [= <- <- <-]; set_solver|].
  destruct (reuse_loop _ _ _ _ _ _ _) as [[l found] ev0] eqn:El. pose proof (reuse_closes _ _ _ _ _ _ _ _ _ _ a El).
  destruct found as [[i f]|]; [by intros [= <- <- <-]|].
  destruct (vwasm_http_pool_resolve _ _ _ _) as [p1 [addr|]] eqn:Er; [|by intros [= <- <- <-]].
  apply resolve_known in Er. split_if; [by intros [= <- <- <-]|].
  destruct (connect_with_timeout _ _) as [f ev2] eqn:Ec. apply connect_events in Ec as [Hev _].
  assert (Connect a ∈ ev2 -> known_address now p host port a) as Hok.
  { intros Ha. by pose proof (Forall_elem _ _ _ Hev Ha) as ->. }
  split_if; [intros [= <- <- <-]; set_solver|].
  destruct (place _ _ _ _ _ _) as [[p2 res] ev3] eqn:Epl. apply place_events in Epl as [Hcl _].
  intros [= <- <- <-]. rewrite !elem_of_app. intros [?|[?|Ha]]; [done|by apply Hok|].
  by destruct (Forall_elem _ _ _ Hcl Ha).
Qed.

(** ** The DNS cache *)

(** Every cached answer is one the resolver gave for that host. *)
Definition dns_wf (l : list dns_entry) : Prop :=
  len l <= dns_cache_capacity /\
  Forall (fun d => d_valid d = true ->
            exists a port, getaddrinfo (resolved_at d) (d_host d) = Some a /\
                           d_addr d = set_port a port) l.

Lemma dns_lookup_wf l ttl now host a :
  dns_wf l -> nul_free host -> (forall d, d ∈ l -> nul_free (d_host d)) ->
  dns_lookup l ttl now host = Some a ->
  exists t a0 port, now - t < ttl /\ getaddrinfo t host = Some a0 /\ a = set_port a0 port.
Proof.
  intros [_ Hf] Hh. induction Hf as [|d l Hd Hf IH]; intros Hn; simpl; [done|].
  destruct (d_valid d && strcmp_eq (d_host d) host && _) eqn:E; btest.
  - intros [= <-]. apply strcmp_eq_iff in H1 as <-; [|by apply Hn; left|done].
    destruct (Hd H) as (a0 & port & Hg & ->). by exists (resolved_at d), a0, port.
  - apply IH. intros d' Hd'. apply Hn. by right.
Qed.

Lemma dns_slot_le l host : (dns_slot l host <= length l)%nat.
Proof. induction l as [|d l IH]; simpl; [done|]. split_if; lia. Qed.

Lemma dns_update_wf l host a now port :
  dns_wf l -> nul_free host -> len host <= 255 -> getaddrinfo now host = Some a ->
  dns_wf (dns_update l host (set_port a port) now).
Proof.
  intros [Hl Hf] Hh Hlen Hg. unfold dns_update, dns_cache_capacity in *. cbv zeta.
  rewrite cstr_nul_free by done. rewrite take_ge by (unfold len in Hlen; lia).
  set (e := DnsEntry _ _ _ _). set (slot := if 64 <=? Z.of_nat (dns_slot l host) then O else dns_slot l host).
  assert (d_valid e = true ->
            exists a port, getaddrinfo (resolved_at e) (d_host e) = Some a /\
                           d_addr e = set_port a port) as He by (intros _; by exists a, port).
  pose proof (dns_slot_le l host). destruct (slot =? length l)%nat eqn:E.
  - apply Nat.eqb_eq in E. split; [|apply Forall_app; split; [done|by constructor]].
    rewrite len_app. change (len [e]) with 1. unfold len, dns_cache_capacity in *.
    unfold slot in E. split_if; lia.
  - split; [|by apply Forall_insert]. unfold len in *. by rewrite length_insert.
Qed.

(** ** The response cache *)

Lemma cache_find_update l key f l' k :
  cache_update l key f = Some l' -> (forall e, k_key (f e) = k_key e) ->
  cache_find l' k =
    if strcmp_eq key k then option_map f (cache_find l k) else cache_find l k.
Proof.
  intros Hu Hf. revert l' Hu. induction l as [|e l IH]; intros l'; simpl; [done|].
  assert (forall a b c, strcmp_eq a b = true -> strcmp_eq a c = strcmp_eq b c) as Heq.
  { intros a b c. unfold strcmp_eq, bytes_eqb. rewrite bool_decide_eq_true. by intros ->. }
  assert (forall a b, strcmp_eq a b = strcmp_eq b a) as Hsym.
  { intros a b. unfold strcmp_eq, bytes_eqb. apply bool_decide_ext. split; by intros ->. }
  destruct (strcmp_eq (k_key e) key) eqn:Ek.
  - intros [= <-]. simpl. rewrite Hf, (Heq _ _ k Ek). by destruct (strcmp_eq key k).
  - destruct (cache_update l key f) as [l1|]; [|done]. intros [= <-]. simpl.
    rewrite (IH l1 eq_refl). destruct (strcmp_eq (k_key e) k) eqn:E1; [|done].
    destruct (strcmp_eq key k) eqn:E2; [|done]. exfalso.
    rewrite Hsym in E2. rewrite (Heq _ _ key E1), E2 in Ek. done.
Qed.

(** The answer of a lookup, apart from the counters. *)
Definition answer (now : Z) (e : option cache_entry) : option (bytes * Z) :=
  match e with
  | Some e => if (now - cached_at e) * 1000 <? ttl_ms e
              then Some (response_data e, status_code e) else None
  | None => None
  end.

Lemma cache_get_answer now p m h pt path :
  (vwasm_http_pool_cache_get all_ok now p m h pt path).2 =
  answer now (cache_find (bucket p (cache_hash (make_cache_key m h pt path)))
                (make_cache_key m h pt path)).
Proof.
  unfold vwasm_http_pool_cache_get. cbn [negb all_ok]. cbv zeta.
  destruct (cache_find _ _) as [e|]; [|done]. simpl. by split_if.
Qed.

Lemma cache_update_None l key f : cache_update l key f = None <-> cache_find l key = None.
Proof.
  induction l as [|e l IH]; simpl; [done|]. split_if; [done|]. rewrite <- IH.
  by destruct (cache_update l key f).
Qed.
End Properties.

(** ** Ownership of connections

    Worker threads share the slots.  A part of [vwasm_http_pool_acquire] under
    the lock is one step.  [vwasm_http_pool_release] takes no lock for its
    writes: its test and each of its writes is a step of its own, and the steps
    of other threads may come in between.  A thread that does not appear in
    [owner] has no connection. *)

Inductive holder :=
  | Using (i : nat)     (** acquire returned slot [i] *)
  | Failing (i : nat)   (** in release, on the branch that closes *)
  | Closing (i : nat)   (** [conn->fd = -1] is written, [conn->in_use = 0] is not *)
  | Keeping (i : nat)   (** in release, on the branch that returns to the pool *)
  | Dating (i : nat).   (** [conn->in_use = 0] is written, [conn->last_used] is not *)

Record sys := Sys { slots : list conn; owner : gmap nat holder }.

(** What a step does that the others may be in the way of. *)
Inductive label := Tau | Takes_free (i : nat).

Section Ownership.
Context `{N : Net}.

Inductive step : sys -> label -> sys -> Prop :=
  | step_reuse s t now host port age req l i f ev :
      owner s !! t = None ->
      reuse_loop now true host port age req (slots s) = (l, Some (i, f), ev) ->
      step s Tau (Sys l (<[t := Using i]> (owner s)))
  | step_miss s now host port age req l ev :
      reuse_loop now true host port age req (slots s) = (l, None, ev) ->
      step s Tau (Sys l (owner s))
  | step_free s t f host port now i :
      owner s !! t = None -> 0 <= f -> free_slot (slots s) = Some i ->
      step s (Takes_free i)
        (Sys (<[i := fresh_conn f host port now true]> (slots s)) (<[t := Using i]> (owner s)))
  | step_evict s t f host port now i :
      owner s !! t = None -> 0 <= f -> evict_scan (slots s) 0 now None = Some i ->
      step s Tau
        (Sys (<[i := fresh_conn f host port now true]> (slots s)) (<[t := Using i]> (owner s)))
  | step_test s t i c keep :
      owner s !! t = Some (Using i) -> slots s !! i = Some c ->
      step s Tau
        (Sys (slots s)
           (<[t := if negb keep || negb (keep_alive c) || (fd c <? 0) then Failing i else Keeping i]>
              (owner s)))
  | step_close s t i c :
      owner s !! t = Some (Failing i) -> slots s !! i = Some c ->
      step s Tau
        (Sys (<[i := if 0 <=? fd c then release_fd c else c]> (slots s)) (<[t := Closing i]> (owner s)))
  | step_clear s t i c :
      owner s !! t = Some (Closing i) -> slots s !! i = Some c ->
      step s Tau (Sys (<[i := release_in_use c]> (slots s)) (delete t (owner s)))
  | step_keep s t i c :
      owner s !! t = Some (Keeping i) -> slots s !! i = Some c ->
      step s Tau (Sys (<[i := release_in_use c]> (slots s)) (<[t := Dating i]> (owner s)))
  | step_date s t i c now :
      owner s !! t = Some (Dating i) -> slots s !! i = Some c ->
      step s Tau (Sys (<[i := release_last_used now c]> (slots s)) (delete t (owner s))).

Definition any_step (s s' : sys) : Prop := exists l, step s l s'.

(** A step that does not take a free slot from under a thread between its two
    writes. *)
Definition calm_step (s s' : sys) : Prop :=
  exists l, step s l s' /\ forall i t, l = Takes_free i -> owner s !! t <> Some (Closing i).

(** The slot whose descriptor a thread may still use. *)
Definition uses (h : holder) : option nat :=
  match h with Using i | Failing i | Keeping i => Some i | Closing _ | Dating _ => None end.

(** A slot in use is busy and connected, and used by one thread. *)
Definition exclusive (s : sys) : Prop :=
  (forall t h i, owner s !! t = Some h -> uses h = Some i ->
     exists c, slots s !! i = Some c /\ in_use c = true /\ 0 <= fd c) /\
  (forall t u h k i, owner s !! t = Some h -> owner s !! u = Some k ->
     uses h = Some i -> uses k = Some i -> t = u).

(** The slot a thread keeps busy: also while it is closing it. *)
Definition busy (h : holder) : option nat :=
  match h with Using i | Failing i | Keeping i | Closing i => Some i | Dating _ => None end.

(** The invariant of calm runs. *)
Definition owned (s : sys) : Prop :=
  (forall t h i, owner s !! t = Some h -> busy h = Some i ->
     exists c, slots s !! i = Some c /\ in_use c = true /\ (uses h = Some i -> 0 <= fd c)) /\
  (forall t u h k i, owner s !! t = Some h -> owner s !! u = Some k ->
     busy h = Some i -> busy k = Some i -> t = u).

Lemma uses_busy h i : uses h = Some i -> busy h = Some i.
Proof. by destruct h. Qed.

Lemma owned_exclusive s : owned s -> exclusive s.
Proof.
  intros [H1 H2]. split.
  - intros t h i Ht Hu. destruct (H1 t h i Ht (uses_busy _ _ Hu)) as (c & ? & ? & ?). eauto.
  - intros t u h k i Ht Hk Hi Hj. eapply H2; eauto using uses_busy.
Qed.

(** The search never touches a busy slot, and takes an idle one. *)
Lemma reuse_spec now ex host port age req l l' r ev :
  reuse_loop now ex host port age req l = (l', r, ev) ->
  (forall j c, l !! j = Some c -> in_use c = true -> l' !! j = Some c) /\
  match r with
  | Some (i, f) =>
      exists c c', l !! i = Some c /\ in_use c = false /\ 0 <= f /\
                   l' !! i = Some c' /\ in_use c' = true /\ fd c' = f
  | None => True
  end.
Proof.
  revert l' r ev. induction l as [|c l IH]; intros l' r ev.
  { cbn [reuse_loop]. intros [= <- <- <-]. done. }
  cbn [reuse_loop]. cbv zeta. destruct (reuse_loop now ex host port age req l) as [[l1 r1] ev1].
  destruct (IH l1 r1 ev1 eq_refl) as [H1 H2].
  assert (forall c1 ev0, (in_use c = true -> c1 = c) ->
    (c1 :: l1, match r1 with Some (i, f) => Some (S i, f) | None => None end, ev0) = (l', r, ev) ->
    (forall j x, (c :: l) !! j = Some x -> in_use x = true -> l' !! j = Some x) /\
    match r with
    | Some (i, f) => exists x x', (c :: l) !! i = Some x /\ in_use x = false /\ 0 <= f /\
                     l' !! i = Some x' /\ in_use x' = true /\ fd x' = f
    | None => True
    end) as Hskip.
  { intros c1 ev0 Hc1 [= <- <- <-]. split.
    - intros [|j] x Hx Hb; simpl in *; [injection Hx as <-; by rewrite Hc1|by apply H1].
    - destruct r1 as [[i f]|]; [|done]. exact H2. }
  destruct ex; cbn [negb]; [|by apply Hskip].
  destruct ((fd c <? 0) || in_use c) eqn:Eu; [by apply Hskip|].
  apply orb_false_iff in Eu as [Efd Euse]. apply Z.ltb_ge in Efd.
  repeat (split_if; [by apply Hskip; rewrite ?Euse|]).
  intros [= <- <- <-]. split.
  - intros [|j] x Hx Hb; simpl in *; [injection Hx as <-; congruence|done].
  - by exists c, (Conn (fd c) (c_host c) (c_port c) now (created_at c) true (keep_alive c)
                  (requests_served c + 1)).
Qed.

Lemma free_slot_spec l i : free_slot l = Some i -> exists c, l !! i = Some c /\ fd c < 0.
Proof.
  revert i. induction l as [|c l IH]; intros i; simpl; [done|]. split_if.
  - destruct (free_slot l) as [j|]; [|done]. intros [= <-]. by apply IH.
  - intros [= <-]. by exists c.
Qed.

Lemma evict_scan_spec l i t best j :
  evict_scan l i t best = Some j ->
  best = Some j \/ (i <= j)%nat /\ exists c, l !! (j - i)%nat = Some c /\ in_use c = false.
Proof.
  revert i t best. induction l as [|c l IH]; intros i t best; simpl; [by left|].
  split_if; intros Hs; apply IH in Hs as [Hs|(Hle & c' & Hc & Hu)].
  - injection Hs as <-. right. split; [lia|]. exists c. by rewrite Nat.sub_diag.
  - right. split; [lia|]. exists c'. by replace (j - i)%nat with (S (j - S i)) by lia.
  - by left.
  - right. split; [lia|]. exists c'. by replace (j - i)%nat with (S (j - S i)) by lia.
Qed.

(** Giving a thread a slot nobody keeps busy. *)
Lemma owned_take s t i c l :
  owned s -> owner s !! t = None ->
  (forall u h, owner s !! u = Some h -> busy h <> Some i) ->
  l !! i = Some c -> in_use c = true -> 0 <= fd c ->
  (forall j x, j <> i -> slots s !! j = Some x -> in_use x = true -> l !! j = Some x) ->
  owned (Sys l (<[t := Using i]> (owner s))).
Proof.
  intros [H1 H2] Ht Hfree Hl Hu Hf Hkeep. split; cbn [owner slots].
  - intros u h j. rewrite lookup_insert_Some. intros [[<- <-]|[Hne Hj]] Hb.
    { injection Hb as <-. by exists c. }
    destruct (H1 u h j Hj Hb) as (x & Hx & Hxu & Hxf). exists x. split_and!; try done.
    apply Hkeep; [|done..]. intros ->. by apply (Hfree u h).
  - intros u v h k j. rewrite !lookup_insert_Some.
    intros [[<- <-]|[Hu' Hj]] [[<- E]|[Hv' Hj']] Hb Hb'; [done| | |by eapply H2].
    + injection Hb as <-. by destruct (Hfree v k).
    + subst k. injection Hb' as <-. by destruct (Hfree u h).
Qed.

(** A thread moves on within its release and writes its own slot. *)
Lemma owned_move s t i h h' c c' :
  owned s -> owner s !! t = Some h -> busy h = Some i -> slots s !! i = Some c ->
  busy h' = Some i -> in_use c' = true -> (uses h' = Some i -> 0 <= fd c') ->
  owned (Sys (<[i := c']> (slots s)) (<[t := h']> (owner s))).
Proof.
  intros [H1 H2] Ht Hb Hc Hb' Hu Hf. split; cbn [owner slots].
  - intros u k j. rewrite lookup_insert_Some. intros [[<- <-]|[Hne Hj]] Hk.
    + rewrite Hb' in Hk. injection Hk as <-. exists c'. split_and!; [|done|done].
      apply list_lookup_insert_eq. by eapply lookup_lt_Some.
    + destruct (H1 u k j Hj Hk) as (x & Hx & ? & ?). exists x. split_and!; [|done|done].
      rewrite list_lookup_insert_ne; [done|]. intros <-. by apply Hne, (H2 t u h k i).
  - intros u v k k' j. rewrite !lookup_insert_Some.
    intros [[<- <-]|[Hu' Hj]] [[<- E]|[Hv' Hj']] Hk Hk'; [done| | |by eapply H2].
    + rewrite Hb' in Hk. injection Hk as <-. by apply (H2 t v h k' i).
    + subst k'. rewrite Hb' in Hk'. injection Hk' as <-. by apply (H2 u t k h i).
Qed.

(** A thread stops keeping its slot busy. *)
Lemma owned_drop s t i h c' o :
  owned s -> owner s !! t = Some h -> busy h = Some i ->
  (forall u k, o !! u = Some k -> busy k <> None -> u <> t /\ owner s !! u = Some k) ->
  owned (Sys (<[i := c']> (slots s)) o).
Proof.
  intros [H1 H2] Ht Hb Ho. split; cbn [owner slots].
  - intros u k j Hk Hj. destruct (Ho u k Hk) as [Hne Hk']; [by rewrite Hj|].
    destruct (H1 u k j Hk' Hj) as (x & Hx & ? & ?). exists x. split_and!; [|done|done].
    rewrite list_lookup_insert_ne; [done|]. intros <-. by apply Hne, (H2 u t k h i).
  - intros u v k k' j Hk Hk' Hj Hj'. destruct (Ho u k Hk) as [_ Ek]; [by rewrite Hj|].
    destruct (Ho v k' Hk') as [_ Ek']; [by rewrite Hj'|]. by eapply H2.
Qed.

(** The late write of the date: whoever has the slot now keeps it. *)
Lemma owned_date s t i c now :
  owned s -> slots s !! i = Some c ->
  owned (Sys (<[i := release_last_used now c]> (slots s)) (delete t (owner s))).
Proof.
  intros [H1 H2] Hc. split; cbn [owner slots].
  - intros u k j. rewrite lookup_delete_Some. intros [_ Hk] Hj.
    destruct (H1 u k j Hk Hj) as (x & Hx & ? & ?). destruct (decide (i = j)) as [<-|Hne].
    + simplify_eq. eexists. split; [apply list_lookup_insert_eq; by eapply lookup_lt_Some|done].
    + exists x. by rewrite list_lookup_insert_ne.
  - intros u v k k' j. rewrite !lookup_delete_Some. intros [_ Hk] [_ Hk']. by apply H2.
Qed.

Lemma calm_step_owned s s' : owned s -> calm_step s s' -> owned s'.
Proof.
  intros He (lb & Hs & Hcalm). pose proof He as [H1 H2].
  destruct Hs as
    [s t now host port age req l i f ev Ht Hr|s now host port age req l ev Hr
    |s t f host port now i Ht Hf Hi|s t f host port now i Ht Hf Hi|s t i c keep Ht Hc
    |s t i c Ht Hc|s t i c Ht Hc|s t i c Ht Hc|s t i c now Ht Hc].
  - apply reuse_spec in Hr as [Hk (c & c' & Hc & Hu & Hf & Hc' & Hu' & <-)].
    eapply owned_take; [done|done| |done|done|done|by intros; apply Hk].
    intros u h Hu2 Hb. destruct (H1 u h i Hu2 Hb) as (x & Hx & Hxu & _). congruence.
  - apply reuse_spec in Hr as [Hk _]. split; [|done]. intros t h i Ht Hb.
    destruct (H1 t h i Ht Hb) as (x & Hx & Hxu & Hxf). exists x. split_and!; try done. by apply Hk.
  - apply free_slot_spec in Hi as (c & Hc & Hneg).
    eapply owned_take; [done|done| |apply list_lookup_insert_eq; by eapply lookup_lt_Some|done|done|].
    + intros u h Hu2 Hb. destruct (H1 u h i Hu2 Hb) as (x & Hx & _ & Hxf). simplify_eq.
      destruct h as [j|j|j|j|j]; cbn in Hb, Hxf; simplify_eq; try (specialize (Hxf eq_refl); lia).
      by apply (Hcalm i u).
    + intros j x Hne Hx _. by rewrite list_lookup_insert_ne.
  - apply evict_scan_spec in Hi as [Hi|(_ & c & Hc & Hu)]; [done|].
    rewrite Nat.sub_0_r in Hc.
    eapply owned_take; [done|done| |apply list_lookup_insert_eq; by eapply lookup_lt_Some|done|done|].
    + intros u h Hu2 Hb. destruct (H1 u h i Hu2 Hb) as (x & Hx & Hxu & _). simplify_eq. congruence.
    + intros j x Hne Hx _. by rewrite list_lookup_insert_ne.
  - rewrite <- (list_insert_id (slots s) i c Hc).
    destruct (H1 t _ i Ht eq_refl) as (x & Hx & Hxu & Hxf). simplify_eq.
    eapply owned_move; [done|done|done|done| |done|by intros _; apply Hxf]. by destruct (_ || _).
  - destruct (H1 t _ i Ht eq_refl) as (x & Hx & Hxu & Hxf). simplify_eq.
    eapply owned_move; [done|done|done|done|done| |done]. by destruct (0 <=? fd c).
  - eapply owned_drop; [done|done|done|]. intros u k. rewrite lookup_delete_Some. by intros [? ?].
  - eapply owned_drop; [done|done|done|]. intros u k. rewrite lookup_insert_Some.
    intros [[<- <-]|[? ?]] Hb; [by destruct Hb|done].
  - by apply owned_date.
Qed.

(** The writes of a release that nobody interrupts add up to [release_conn]. *)
Lemma release_alone s t i c now keep :
  owner s !! t = Some (Using i) -> slots s !! i = Some c ->
  rtc calm_step s (Sys (<[i := (release_conn now c keep).1]> (slots s)) (delete t (owner s))).
Proof.
  intros Ht Hc. assert (forall s1 s2, step s1 Tau s2 -> calm_step s1 s2) as Hcalm
    by (intros s1 s2 Hs; by exists Tau).
  assert (forall (x : conn) (l : list conn), l !! i = Some x -> forall y, <[i := y]> l !! i = Some y) as Hins
    by (intros x l Hx y; apply list_lookup_insert_eq; by eapply lookup_lt_Some).
  eapply rtc_l; [by apply Hcalm, (step_test s t i c keep)|].
  unfold release_conn. destruct (_ || _).
  - eapply rtc_l; [apply Hcalm, (step_close _ t i c); [apply lookup_insert_eq|done]|].
    cbn [slots owner]. rewrite insert_insert_eq.
    eapply rtc_l; [apply Hcalm, (step_clear _ t i (if 0 <=? fd c then release_fd c else c));
                   [apply lookup_insert_eq|by eapply Hins]|].
    cbn [slots owner]. rewrite delete_insert_eq, list_insert_insert_eq. by destruct (0 <=? fd c).
  - eapply rtc_l; [apply Hcalm, (step_keep _ t i c); [apply lookup_insert_eq|done]|].
    cbn [slots owner]. rewrite insert_insert_eq.
    eapply rtc_l; [apply Hcalm, (step_date _ t i (release_in_use c) now);
                   [apply lookup_insert_eq|by eapply Hins]|].
    cbn [slots owner]. by rewrite delete_insert_eq, list_insert_insert_eq.
Qed.
End Ownership.

(** ** Claims *)

Section Claims.
Context `{N : Net}.

(** C23 SSRF protection: for an upstream that is not on the allowlist,
    [vwasm_http_pool_acquire] connects only to addresses that are not
    private, and a descriptor it returns is one it connected in this call
    (never a pooled connection). *)
Theorem acquire_never_private hok now p host port p' r ev :
  vwasm_http_pool_acquire hok now p host port false = (p', r, ev) ->
  (forall a, Connect a ∈ ev -> vwasm_http_addr_is_private (Some a) = false) /\
  (forall f c, r = Some (f, c) -> exists a, Connect a ∈ ev /\ f = a_socket (attempt_to a)).
Proof.
  apply acquire_checked.
Qed.

(** Freshness of name resolution: the address [vwasm_http_pool_resolve]
    returns is one the resolver gave for that very host, in this call or
    less than the time to live ago, with the requested port; and the cache,
    of at most 64 entries, keeps this property. *)
Theorem resolve_fresh now p host port p' r :
  dns_wf (dns_cache p) -> Forall (fun d => nul_free (d_host d)) (dns_cache p) ->
  0 < dns_ttl_s p -> nul_free host -> len host <= 255 ->
  vwasm_http_pool_resolve now p host port = (p', r) ->
  dns_wf (dns_cache p') /\
  (forall a, r = Some a -> exists t a0, now - t < dns_ttl_s p /\ getaddrinfo t host = Some a0 /\
                                        a = set_port a0 port).
Proof.
  intros Hw Hn Ht Hh Hl. unfold vwasm_http_pool_resolve.
  destruct (dns_lookup _ _ _ _) as [a|] eqn:E.
  - intros [= <- <-]. split; [done|]. intros a' [= <-].
    apply dns_lookup_wf in E as (t & a0 & port0 & Hlt & Hg & ->); [|done|done|by intros d Hd; exact (Forall_elem _ _ _ Hn Hd)].
    exists t, a0. split_and!; [done|done|]. by destruct a0.
  - destruct (getaddrinfo now host) as [a|] eqn:Eg; intros [= <- <-].
    + split; [by apply dns_update_wf|]. intros a' [= <-]. exists now, a. split_and!; [lia|done|done].
    + by split.
Qed.

(** C30 The response cache returns what was stored: within the second in which
    it was stored, a response is found under its method, host, port and path
    with its status, and storing it changes no other cached response. *)
Theorem cache_get_after_put now p m h pt path data status :
  length (cache_buckets p) = 64%nat -> 0 < len data <= VWASM_HTTP_MAX_RESPONSE_SIZE ->
  0 < cache_ttl_ms p ->
  let p' := vwasm_http_pool_cache_put all_ok now p m h pt path data status in
  (vwasm_http_pool_cache_get all_ok now p' m h pt path).2 = Some (data, status) /\
  forall m2 h2 pt2 path2 now2,
    strcmp_eq (make_cache_key m h pt path) (make_cache_key m2 h2 pt2 path2) = false ->
    (vwasm_http_pool_cache_get all_ok now2 p' m2 h2 pt2 path2).2 =
    (vwasm_http_pool_cache_get all_ok now2 p m2 h2 pt2 path2).2.
Proof.
  intros Hb Hd Ht. cbv zeta. setoid_rewrite cache_get_answer. unfold vwasm_http_pool_cache_put.
  rewrite (proj2 (Z.eqb_neq (len data) 0)), (proj2 (Z.ltb_ge _ (len data))) by lia.
  cbn [orb negb all_ok]. cbv zeta. set (key := make_cache_key m h pt path).
  assert (forall k, cache_hash k < 64)%nat as Hlt.
  { intros k. unfold cache_hash, VWASM_HTTP_CACHE_BUCKETS.
    pose proof (Z.mod_pos_bound (foldl (fun h c => u32 (u32 (Z.shiftl h 5 + h) + c)) 5381 (cstr k)) 64).
    lia. }
  assert (forall l hs ms k, bucket (set_cache p (<[cache_hash key := l]> (cache_buckets p)) hs ms) k =
            if decide (k = cache_hash key) then l else bucket p k) as Hbk.
  { intros l hs ms k. unfold bucket. cbn [cache_buckets set_cache]. case_decide; subst.
    - by rewrite list_lookup_insert_eq by (rewrite Hb; apply Hlt).
    - by rewrite list_lookup_insert_ne. }
  assert (strcmp_eq key key = true) as Hrefl by (unfold strcmp_eq, bytes_eqb; by rewrite bool_decide_true).
  destruct (cache_update _ key _) as [l|] eqn:Eu.
  - assert (exists e, cache_find (bucket p (cache_hash key)) key = Some e) as [e Hfe].
    { destruct (cache_find (bucket p (cache_hash key)) key) as [e|] eqn:Ef; [by exists e|].
      by rewrite (proj2 (cache_update_None _ _ _) Ef) in Eu. }
    split.
    + rewrite Hbk, decide_True, (cache_find_update _ _ _ _ key Eu (fun e => eq_refl)), Hrefl, Hfe by done.
      cbn [option_map answer cached_at ttl_ms]. by rewrite Z.sub_diag, (proj2 (Z.ltb_lt _ _)) by lia.
    + intros m2 h2 pt2 path2 now2 Hne. rewrite Hbk. case_decide as Ec; [|done].
      by rewrite (cache_find_update _ _ _ _ _ Eu (fun e => eq_refl)), Hne, Ec.
  - split.
    + rewrite Hbk, decide_True by done. cbn [cache_find k_key]. rewrite Hrefl.
      cbn [answer cached_at ttl_ms]. by rewrite Z.sub_diag, (proj2 (Z.ltb_lt _ _)) by lia.
    + intros m2 h2 pt2 path2 now2 Hne. rewrite Hbk. case_decide as Ec; [|done].
      cbn [cache_find k_key]. by rewrite Hne, Ec.
Qed.

(** C24 Exclusive use: take any run of the worker threads in which a locked part
    of acquire is one step and release, which takes no lock, is a step for its
    test and one for each of its writes, with the steps of the other threads
    in between.  As long as no thread is given a free slot whose descriptor
    another thread has just cleared and whose busy mark it has yet to clear, a
    connection is used by at most one thread, and is busy and connected while
    it is used.  (That the condition is needed is [release_race].) *)
Theorem connections_exclusive n s :
  rtc calm_step (Sys (replicate n empty_conn) ∅) s -> exclusive s.
Proof.
  intros Hr. apply owned_exclusive. remember (Sys (replicate n empty_conn) ∅) as s0 eqn:E.
  assert (owned s0) as H0 by (subst; split; cbn; intros *; by rewrite lookup_empty).
  clear E. induction Hr as [s|s1 s2 s3 Hs Hr IH]; [done|]. apply IH. by eapply calm_step_owned.
Qed.
End Claims.

(** A network where every name resolves to 1.2.3.4 or, for [inner], 10.0.0.1. *)
Definition toy_net : Net := {|
  getaddrinfo := fun _ h =>
    if bytes_eqb h (str "inner") then Some (AF_INET 167772161 0) else Some (AF_INET 16909060 0);
  attempt_to := fun _ => Attempt 9 true true false 0 false;
  poll_fd := fun _ => Polled 0 false false
|}.

Definition toy_pool : pool := default (Pool [] 0 [] 60 (Breakers [] 0) [] 0 0 0 0
  (Statistics 0 0 0 0 0 0 0 0 0)) (vwasm_http_pool_new all_ok 2 0).

Lemma acquire_never_private_witness :
  vwasm_http_addr_is_private (Some (AF_INET 16909060 80)) = false /\
  (vwasm_http_pool_acquire (N := toy_net) true 0 toy_pool (str "inner") 80 false).1.2 = None.
Proof.
  split; [|vm_compute; reflexivity].
  destruct (vwasm_http_pool_acquire (N := toy_net) true 0 toy_pool (str "host") 80 false)
    as [[p' r] ev] eqn:E.
  destruct (acquire_never_private (N := toy_net) true 0 toy_pool (str "host") 80 p' r ev E) as [H _].
  apply H. vm_compute in E. injection E as _ _ <-. right; left.
Defined.

Lemma resolve_fresh_witness :
  exists t a0, 5 - t < 60 /\ getaddrinfo (Net := toy_net) t (str "inner") = Some a0 /\
    AF_INET 167772161 443 = set_port a0 443.
Proof.
  destruct (resolve_fresh (N := toy_net) 5 toy_pool (str "inner") 443
     (vwasm_http_pool_resolve (N := toy_net) 5 toy_pool (str "inner") 443).1
     (vwasm_http_pool_resolve (N := toy_net) 5 toy_pool (str "inner") 443).2) as [_ H].
  - split; [by vm_compute|constructor].
  - constructor.
  - reflexivity.
  - by_decide.
  - by_decide.
  - apply surjective_pairing.
  - apply H. vm_compute. reflexivity.
Defined.

Lemma cache_get_after_put_witness :
  (vwasm_http_pool_cache_get all_ok 7
     (vwasm_http_pool_cache_put all_ok 7 toy_pool (str "GET") (str "h") 80 (str "/") (str "body") 200)
     (str "GET") (str "h") 80 (str "/")).2 = Some (str "body", 200).
Proof.
  apply (cache_get_after_put 7 toy_pool (str "GET") (str "h") 80 (str "/") (str "body") 200);
    vm_compute; try reflexivity; split; try reflexivity; discriminate.
Defined.

(** A thread connects and closes; the slot it leaves is given to another. *)
Definition one_conn : conn := fresh_conn 9 (str "h") 80 0 true.

Lemma connections_exclusive_witness :
  exclusive (Sys [one_conn] {[ 2%nat := Using O ]}).
Proof.
  apply (connections_exclusive (N := toy_net) 1).
  assert (forall a b : sys, step (N := toy_net) a Tau b -> calm_step (N := toy_net) a b) as Hc
    by (intros a b Hs; by exists Tau).
  eapply rtc_l; [apply Hc, (step_miss (N := toy_net) (Sys [empty_conn] ∅) 0 (str "h") 80 300 100
                              [empty_conn] []); reflexivity|].
  eapply rtc_l.
  { exists (Takes_free 0). split; [|intros i t _ ?; done].
    apply (step_free (N := toy_net) (Sys [empty_conn] ∅) 1 8 (str "h") 80 0 O);
      [apply lookup_empty|lia|reflexivity]. }
  eapply rtc_l; [apply Hc, (step_test _ 1 0 (fresh_conn 8 (str "h") 80 0 true) false); reflexivity|].
  eapply rtc_l; [apply Hc, (step_close _ 1 0 (fresh_conn 8 (str "h") 80 0 true)); reflexivity|].
  eapply rtc_l; [apply Hc, (step_clear _ 1 0 (release_fd (fresh_conn 8 (str "h") 80 0 true))); reflexivity|].
  apply rtc_once. exists (Takes_free 0). split; [|intros i t _; by destruct t as [|[]]].
  exact (step_free (N := toy_net) (Sys [release_in_use (release_fd (fresh_conn 8 (str "h") 80 0 true))] ∅)
           2 9 (str "h") 80 0 O (lookup_empty _) ltac:(lia) eq_refl).
Defined.

(** The race in release: without the condition of [connections_exclusive] two
    threads come to use one connection.  Thread 1 closes and clears the
    descriptor of its slot; thread 2 is given the free slot; thread 1 clears
    the busy mark; thread 3, asking for the same upstream, is given the
    connection of thread 2. *)
Theorem release_race :
  exists s, rtc (any_step (N := toy_net)) (Sys [empty_conn] ∅) s /\
    owner s !! 2%nat = Some (Using O) /\ owner s !! 3%nat = Some (Using O).
Proof.
  set (a := fresh_conn 8 (str "h") 80 0 true). set (b := fresh_conn 9 (str "h") 80 1 true).
  eexists. split.
  - eapply rtc_l; [eexists; exact (step_free (N := toy_net) (Sys [empty_conn] ∅) 1 8 (str "h") 80 0 O
                                     eq_refl ltac:(lia) eq_refl)|].
    eapply rtc_l; [eexists; apply (step_test _ 1 0 a false); reflexivity|].
    eapply rtc_l; [eexists; apply (step_close _ 1 0 a); reflexivity|].
    eapply rtc_l; [eexists; apply (step_free _ 2 9 (str "h") 80 1 O); [reflexivity|lia|reflexivity]|].
    eapply rtc_l; [eexists; apply (step_clear _ 1 0 b); reflexivity|].
    apply rtc_once. eexists.
    eapply (step_reuse (N := toy_net) _ 3 2 (str "h") 80 300 100 _ 0 9); vm_compute; reflexivity.
  - split; vm_compute; reflexivity.
Qed.
