(* ===== verification/HttpParse.v ===== *)
(** * Validation and parsing for HTTP calls (src/proxy_wasm_http.c) *)

From S2P Require Import Prelude Headers.

(** ** Characters *)

Definition pw_http_is_token_char (c : Z) : bool :=
  ((48 <=? c) && (c <=? 57)) || ((65 <=? c) && (c <=? 90)) || ((97 <=? c) && (c <=? 122)) ||
  existsb (Z.eqb c) (str "!#$%&'*+-.^_`|~").

Definition pw_http_has_line_ctl (s : bytes) : bool :=
  existsb (fun c => (c =? 0) || (c =? 13) || (c =? 10)) s.

Definition pw_http_host_ok (s : bytes) : bool :=
  if len s =? 0 then false
  else forallb (fun c => negb ((c <=? 32) || (127 <=? c) || (c =? 47))) s.

Definition pw_http_method_ok (s : bytes) : bool :=
  if len s =? 0 then false else forallb pw_http_is_token_char s.

Definition pw_http_path_ok (s : bytes) : bool :=
  if len s =? 0 then false else forallb (fun c => negb ((c <=? 32) || (127 <=? c))) s.

Definition pw_http_header_name_ok (s : bytes) : bool :=
  if len s =? 0 then false else forallb pw_http_is_token_char s.

Definition pw_http_header_value_ok (s : bytes) : bool :=
  forallb (fun c =>
    negb ((c =? 0) || (c =? 13) || (c =? 10) || (c =? 127)) && negb ((c <? 32) && negb (c =? 9))) s.

Definition INT_MAX : Z := 2147483647.

(** [dst] is the text so far in a buffer of [dst_sz] bytes; [None]: returns -1. *)
Definition pw_http_append_header (dst : bytes) (dst_sz : Z) (key value : bytes) : option bytes :=
  if negb (pw_http_header_name_ok key) || negb (pw_http_header_value_ok value) then None
  else if (INT_MAX <? len key) || (INT_MAX <? len value) then None
  else if dst_sz <=? len dst then None
  else
    let avail := dst_sz - len dst in
    let text := cstr key ++ str ": " ++ cstr value ++ crlf in
    if avail <=? len text then None else Some (dst ++ text).

(** ** Numbers *)

Definition SIZE_MAX : Z := 18446744073709551615.

(** The loop of [pw_http_parse_size] from the first character after the leading
    blanks. *)
Fixpoint parse_size_loop (s : bytes) (value : Z) (digits : bool) : option (Z * bool) :=
  match s with
  | [] => Some (value, digits)
  | c :: r =>
      if is_blank c then
        match skip_blank s with
        | [] => Some (value, digits)
        | _ => None
        end
      else if (c <? 48) || (57 <? c) then None
      else if (SIZE_MAX - (c - 48)) / 10 <? value then None
      else parse_size_loop r (value * 10 + (c - 48)) true
  end.

Definition pw_http_parse_size (s : bytes) : option Z :=
  match parse_size_loop (skip_blank s) 0 false with
  | Some (value, true) => Some value
  | _ => None
  end.

Fixpoint parse_port_loop (s : bytes) (value : Z) : option Z :=
  match s with
  | [] => Some value
  | c :: r =>
      if (c <? 48) || (57 <? c) then None
      else
        let value := value * 10 + (c - 48) in
        if 65535 <? value then None else parse_port_loop r value
  end.

Definition pw_http_parse_port (s : bytes) : option Z :=
  if len s =? 0 then None
  else
    match parse_port_loop s 0 with
    | Some v => if v =? 0 then None else Some v
    | None => None
    end.

(** [host_sz] is the size of both buffers. *)
Definition pw_http_parse_upstream (upstream : bytes) (host_sz : Z) : option (bytes * Z) :=
  let n := len upstream in
  if (n =? 0) || (host_sz <=? n) then None
  else if pw_http_has_line_ctl upstream then None
  else
    match memchr colon upstream with
    | Some hlen =>
        if (hlen =? 0) || (host_sz <=? hlen) then None
        else
          let host := take (Z.to_nat hlen) upstream in
          if negb (pw_http_host_ok host) then None
          else
            match pw_http_parse_port (drop (Z.to_nat (hlen + 1)) upstream) with
            | None => None
            | Some port => Some (host, port)
            end
    | None => if negb (pw_http_host_ok upstream) then None else Some (upstream, 80)
    end.

(** ** Response headers *)

(** The loop over the header lines: [p] is the rest of the buffer, [rem] the
    header bytes left. *)
Fixpoint find_value_loop (fuel : nat) (p : bytes) (rem : Z) (name : bytes) : option bytes :=
  match fuel with
  | O => None
  | S fuel =>
      if rem <=? 0 then None
      else
        match strstr p crlf with
        | None => None
        | Some n =>
            if (rem <? n) || (n =? 0) then None
            else
              let line := take (Z.to_nat n) p in
              let found :=
                match memchr colon line with
                | Some k => (k =? len name) && strncasecmp_eq (length name) p name
                | None => false
                end in
              if found
              then Some (trim_blank (skip_blank (drop (Z.to_nat (len name + 1)) line)))
              else find_value_loop fuel (drop (Z.to_nat (n + 2)) p) (rem - (n + 2)) name
        end
  end.

Definition pw_http_find_header_value (headers : bytes) (headers_len : Z) (name : bytes)
    : option bytes :=
  match strstr headers crlf with
  | None => None
  | Some n =>
      if headers_len <? n then None
      else find_value_loop (length headers) (drop (Z.to_nat (n + 2)) headers)
             (headers_len - (n + 2)) name
  end.

Definition comma : Z := 44.

Fixpoint skip_sep (s : bytes) : bytes :=
  match s with
  | [] => []
  | c :: r => if is_blank c || (c =? comma) then skip_sep r else s
  end.

Fixpoint until_comma (s : bytes) : bytes :=
  match s with
  | [] => []
  | c :: r => if c =? comma then [] else c :: until_comma r
  end.

Fixpoint has_token_loop (fuel : nat) (value token : bytes) : bool :=
  match fuel with
  | O => false
  | S fuel =>
      match value with
      | [] => false
      | _ =>
          let start := skip_sep value in
          let item := trim_blank (until_comma start) in
          if (len item =? len token) && strncasecmp_eq (length token) item token then true
          else has_token_loop fuel (drop (length (until_comma start)) start) token
      end
  end.

Definition pw_http_value_has_token (value token : bytes) : bool :=
  has_token_loop (S (length value)) value token.

(** * Properties *)

Lemma forallb_Forall {A} (f : A -> bool) (P : A -> Prop) l :
  (forall x, f x = true -> P x) -> forallb f l = true -> Forall P l.
Proof.
  intros Hf. induction l as [|x l IH]; simpl; [constructor|]. rewrite andb_true_iff.
  intros [Hx Hl]. constructor; auto.
Qed.

Lemma forallb_Forall_iff {A} (f : A -> bool) (P : A -> Prop) l :
  (forall x, f x = true <-> P x) -> (forallb f l = true <-> Forall P l).
Proof.
  intros Hf. split; [apply forallb_Forall, Hf|].
  induction 1 as [|x l Hx _ IH]; simpl; [done|]. by rewrite (proj2 (Hf x) Hx).
Qed.

(** ** Content-Length *)

Definition all_digits (d : bytes) : Prop := Forall (fun c => 48 <= c <= 57) d.
Definition all_blank (b : bytes) : Prop := Forall (fun c => is_blank c = true) b.

Lemma skip_blank_all b s : all_blank b -> skip_blank (b ++ s) = skip_blank s.
Proof. induction 1 as [|c b Hc _ IH]; simpl; [done|]. by rewrite Hc. Qed.

Lemma skip_blank_split s : exists b, all_blank b /\ s = b ++ skip_blank s.
Proof.
  induction s as [|c s (b & Hb & E)]; simpl; [exists []; split; [constructor|done]|].
  destruct (is_blank c) eqn:Ec.
  - exists (c :: b). split; [by constructor|]. simpl. by f_equal.
  - exists []. split; [constructor|done].
Qed.

Lemma skip_blank_nil s : skip_blank s = [] -> all_blank s.
Proof. intros E. destruct (skip_blank_split s) as (b & Hb & Es). rewrite E, app_nil_r in Es. by subst. Qed.

Lemma digit_not_blank c : 48 <= c <= 57 -> is_blank c = false.
Proof. unfold is_blank. intros. rewrite !(proj2 (Z.eqb_neq _ _)) by lia. done. Qed.

Lemma undec_app acc d :
  foldl (fun v c => v * 10 + (c - 48)) acc d = acc * 10 ^ len d + undec d.
Proof.
  revert acc. induction d as [|c d IH]; intros acc; cbn [foldl].
  - change (len (@nil Z)) with 0. unfold undec. simpl. lia.
  - rewrite IH. unfold undec. cbn [foldl]. rewrite (IH (0 * 10 + (c - 48))), len_cons.
    rewrite Z.pow_add_r by (auto with vw; lia). change (10 ^ 1) with 10. unfold undec. lia.
Qed.

Lemma undec_nonneg d : all_digits d -> 0 <= undec d.
Proof.
  induction 1 as [|c d Hc Hd IH]; [done|]. unfold undec. cbn [foldl]. rewrite undec_app.
  pose proof (Z.pow_nonneg 10 (len d)). nia.
Qed.

(** The overflow guard is exact. *)
Lemma guard_exact v d : 0 <= d <= 9 -> ((SIZE_MAX - d) / 10 <? v) = (SIZE_MAX <? v * 10 + d).
Proof.
  intros Hd. unfold SIZE_MAX. apply eq_true_iff_eq. rewrite !Z.ltb_lt. Z.div_mod_to_equations. lia.
Qed.

Lemma parse_size_loop_digits d b v dg :
  all_digits d -> all_blank b -> 0 <= v -> v * 10 ^ len d + undec d <= SIZE_MAX ->
  parse_size_loop (d ++ b) v dg =
  Some (v * 10 ^ len d + undec d, match d with [] => dg | _ => true end).
Proof.
  intros Hd Hb. revert v dg. induction Hd as [|c d Hc Hd IH]; intros v dg Hv Hmax.
  - change (len (@nil Z)) with 0 in *. unfold undec in *. cbn [foldl app] in *.
    replace (v * 10 ^ 0 + 0) with v in * by lia.
    destruct b as [|x b]; [done|]. cbn [parse_size_loop]. inversion_clear Hb as [|?? Hx Hb'].
    rewrite Hx. pose proof (skip_blank_all (x :: b) [] ltac:(by constructor)) as E.
    rewrite app_nil_r in E. by rewrite E.
  - cbn [app parse_size_loop]. rewrite digit_not_blank by done.
    rewrite !(proj2 (Z.ltb_ge _ _)) by lia. cbn [orb].
    rewrite guard_exact by lia.
    assert (undec (c :: d) = (c - 48) * 10 ^ len d + undec d) as Eu
      by (unfold undec; cbn [foldl]; rewrite undec_app; unfold undec; lia).
    rewrite len_cons, Z.pow_add_r, Eu in * by (auto with vw; lia).
    pose proof (undec_nonneg d Hd). assert (1 <= 10 ^ len d) by (pose proof (len_nonneg d); lia).
    rewrite (proj2 (Z.ltb_ge SIZE_MAX _)) by nia.
    rewrite IH by (lia || nia). do 2 f_equal; [lia|by destruct d].
Qed.

Lemma parse_size_loop_sound s v dg r :
  0 <= v <= SIZE_MAX -> parse_size_loop s v dg = Some r ->
  exists d b, s = d ++ b /\ all_digits d /\ all_blank b /\ r.1 = v * 10 ^ len d + undec d /\
    r.1 <= SIZE_MAX /\ (r.2 = true -> dg = true \/ d <> []).
Proof.
  revert v dg. induction s as [|c s IH]; intros v dg Hv; cbn [parse_size_loop].
  { intros [= <-]. exists [], []. unfold undec. change (len (@nil Z)) with 0. simpl.
    split_and!; [done|constructor|constructor|lia|lia|by left]. }
  destruct (is_blank c) eqn:Eb.
  { destruct (skip_blank (c :: s)) eqn:Es; [|done]. intros [= <-]. exists [], (c :: s).
    apply skip_blank_nil in Es. unfold undec. change (len (@nil Z)) with 0. simpl.
    split_and!; [done|constructor|done|lia|lia|by left]. }
  destruct ((c <? 48) || (57 <? c)) eqn:Ed; [done|]. btest.
  destruct (_ <? v) eqn:Eg; [done|]. rewrite guard_exact in Eg by lia. btest. intros Hr.
  apply IH in Hr as (d & b & -> & Hd & Hb & Hr1 & Hr2 & _); [|lia].
  exists (c :: d), b. rewrite Hr1 in *.
  assert (undec (c :: d) = (c - 48) * 10 ^ len d + undec d) as Eu
    by (unfold undec; cbn [foldl]; rewrite undec_app; unfold undec; lia).
  rewrite len_cons, Z.pow_add_r, Eu by (auto with vw; lia).
  split_and!; [done|by constructor|done|lia|done|by right].
Qed.

(** ** Ports *)

Lemma parse_port_loop_spec s v r :
  0 <= v <= 65535 -> parse_port_loop s v = Some r ->
  all_digits s /\ r = v * 10 ^ len s + undec s /\ r <= 65535.
Proof.
  revert v. induction s as [|c s IH]; intros v Hv; cbn [parse_port_loop].
  - intros [= <-]. unfold undec. change (len (@nil Z)) with 0. simpl. split_and!; [constructor|lia|lia].
  - destruct ((c <? 48) || (57 <? c)) eqn:Ed; [done|]. btest. cbv zeta.
    destruct (65535 <? _) eqn:E; [done|]. btest. intros Hr. apply IH in Hr as (Hs & -> & Hm); [|lia].
    unfold undec at 2. cbn [foldl]. rewrite undec_app, len_cons, Z.pow_add_r by (auto with vw; lia).
    split_and!; [by constructor|lia|lia].
Qed.

Lemma parse_port_range s p : pw_http_parse_port s = Some p -> all_digits s /\ p = undec s /\ 1 <= p <= 65535.
Proof.
  unfold pw_http_parse_port. split_if; [done|]. destruct (parse_port_loop s 0) as [v|] eqn:E; [|done].
  split_if; [done|]. intros [= <-]. apply parse_port_loop_spec in E as (Hd & -> & Hm); [|lia].
  pose proof (undec_nonneg s Hd). split_and!; [done|lia|lia|lia].
Qed.

(** ** Upstreams *)

Lemma has_line_ctl_false s :
  pw_http_has_line_ctl s = false <-> Forall (fun c => c <> 0 /\ c <> 13 /\ c <> 10) s.
Proof.
  unfold pw_http_has_line_ctl. induction s as [|c s IH]; simpl; [done|].
  split.
  - intros E. btest. constructor; [done|by apply IH].
  - intros E. inversion_clear E as [|?? (A & B & C) Hr]. apply IH in Hr. rewrite Hr.
    by rewrite !(proj2 (Z.eqb_neq _ _)) by done.
Qed.

(** A host that passed has no blank, control character, colon or slash. *)
Definition host_char (c : Z) : Prop := 32 < c < 127 /\ c <> 47.

Lemma host_ok_iff s : pw_http_host_ok s = true <-> s <> [] /\ Forall host_char s.
Proof.
  unfold pw_http_host_ok. destruct s as [|c s]; [by split; [|intros [? _]]|].
  rewrite (proj2 (Z.eqb_neq _ 0)) by (rewrite len_cons; pose proof (len_nonneg s); lia).
  rewrite (forallb_Forall_iff _ host_char); [naive_solver|]. clear. intros x. unfold host_char.
  rewrite negb_true_iff, !orb_false_iff, !Z.leb_gt, Z.eqb_neq. lia.
Qed.

Lemma memchr_before ch s k :
  memchr ch s = Some k -> Forall (fun c => c <> ch) (take (Z.to_nat k) s).
Proof.
  revert k. induction s as [|c s IH]; intros k; simpl; [done|]. split_if.
  - intros [= <-]. constructor.
  - destruct (memchr ch s) as [j|] eqn:E; [|done]. intros [= <-].
    pose proof (memchr_nonneg _ _ _ E). replace (Z.to_nat (Z.succ j)) with (S (Z.to_nat j)) by lia.
    cbn [take]. constructor; [done|]. by apply IH.
Qed.

Lemma memchr_none ch s : memchr ch s = None -> Forall (fun c => c <> ch) s.
Proof.
  induction s as [|c s IH]; simpl; [done|]. split_if; [done|].
  destruct (memchr ch s); [done|]. intros _. constructor; [done|by apply IH].
Qed.

Lemma memchr_absent ch s : Forall (fun c => c <> ch) s -> memchr ch s = None.
Proof. induction 1 as [|c s Hc _ IH]; simpl; [done|]. by rewrite (proj2 (Z.eqb_neq c ch)), IH. Qed.

Lemma memchr_app ch s r : Forall (fun c => c <> ch) s -> memchr ch (s ++ ch :: r) = Some (len s).
Proof.
  induction 1 as [|c s Hc _ IH]; simpl; [by rewrite Z.eqb_refl|].
  rewrite (proj2 (Z.eqb_neq c ch)), IH, len_cons by done. done.
Qed.

Lemma memchr_split ch s k :
  memchr ch s = Some k -> s = take (Z.to_nat k) s ++ ch :: drop (Z.to_nat (k + 1)) s.
Proof.
  revert k. induction s as [|c s IH]; intros k; simpl; [done|]. split_if.
  - intros [= <-]. simpl. by subst.
  - destruct (memchr ch s) as [j|] eqn:E; [|done]. intros [= <-].
    pose proof (memchr_nonneg _ _ _ E). replace (Z.to_nat (Z.succ j)) with (S (Z.to_nat j)) by lia.
    replace (Z.to_nat (Z.succ j + 1)) with (S (Z.to_nat (j + 1))) by lia. simpl. f_equal. by apply IH.
Qed.

Lemma parse_port_loop_digits s v :
  all_digits s -> 0 <= v -> v * 10 ^ len s + undec s <= 65535 ->
  parse_port_loop s v = Some (v * 10 ^ len s + undec s).
Proof.
  intros Hs. revert v. induction Hs as [|c s Hc Hs IH]; intros v Hv Hm; cbn [parse_port_loop].
  - unfold undec. change (len (@nil Z)) with 0. simpl. f_equal. lia.
  - rewrite !(proj2 (Z.ltb_ge _ _)) by lia. cbn [orb]. cbv zeta.
    assert (undec (c :: s) = (c - 48) * 10 ^ len s + undec s) as Eu
      by (unfold undec; cbn [foldl]; rewrite undec_app; unfold undec; lia).
    rewrite len_cons, Z.pow_add_r, Eu in * by (auto with vw; lia).
    pose proof (undec_nonneg s Hs). assert (1 <= 10 ^ len s) by (pose proof (len_nonneg s); lia).
    rewrite (proj2 (Z.ltb_ge 65535 _)) by nia. rewrite IH by (lia || nia). f_equal. lia.
Qed.

Lemma parse_port_digits s :
  s <> [] -> all_digits s -> 1 <= undec s <= 65535 -> pw_http_parse_port s = Some (undec s).
Proof.
  intros Hne Hs Hm. unfold pw_http_parse_port.
  rewrite (proj2 (Z.eqb_neq _ 0)) by (intros E; by apply len_0_nil in E).
  rewrite parse_port_loop_digits by (done || lia). rewrite Z.mul_0_l, Z.add_0_l.
  by rewrite (proj2 (Z.eqb_neq _ 0)) by lia.
Qed.

Lemma parse_upstream_spec u sz host port :
  pw_http_parse_upstream u sz = Some (host, port) ->
  Forall host_char host /\ Forall (fun c => c <> colon) host /\ 0 < len host < sz /\
  1 <= port <= 65535.
Proof.
  unfold pw_http_parse_upstream. cbv zeta. split_if; [done|]. split_if; [done|].
  destruct (memchr colon u) as [k|] eqn:Ek.
  - split_if; [done|]. destruct (pw_http_host_ok _) eqn:Eh; cbn [negb]; [|done].
    destruct (pw_http_parse_port _) as [p|] eqn:Ep; [|done]. intros [= <- <-].
    apply host_ok_iff in Eh as [Hne Hh]. apply parse_port_range in Ep as (_ & _ & Hp).
    pose proof (memchr_nonneg _ _ _ Ek). apply memchr_before in Ek.
    rewrite len_take by lia. split_and!; try done; lia.
  - destruct (pw_http_host_ok u) eqn:Eh; cbn [negb]; [|done]. intros [= <- <-].
    apply host_ok_iff in Eh as [Hne Hh]. apply memchr_none in Ek.
    assert (len u <> 0) by (intros E; by apply len_0_nil in E). pose proof (len_nonneg u).
    split_and!; try done; lia.
Qed.

(** ** Tokens and header lines *)

Lemma token_char_safe c : pw_http_is_token_char c = true -> 32 < c < 127 /\ c <> colon.
Proof.
  unfold pw_http_is_token_char, colon. intros H. btest. destruct H as [H|H].
  - btest. destruct H as [H|H]; btest; [|lia]. destruct H as [H|H]; btest; lia.
  - cbn [existsb str] in H. vm_compute Z.of_N in H. 
    repeat (apply orb_true_iff in H; destruct H as [H|H]; [apply Z.eqb_eq in H; lia|]). done.
Qed.

Lemma name_ok_chars s : pw_http_header_name_ok s = true -> Forall (fun c => 32 < c < 127 /\ c <> colon) s.
Proof. unfold pw_http_header_name_ok. split_if; [done|]. apply forallb_Forall, token_char_safe. Qed.

Lemma method_ok_chars s :
  pw_http_method_ok s = true -> s <> [] /\ Forall (fun c => 32 < c < 127 /\ c <> colon) s.
Proof.
  unfold pw_http_method_ok. split_if; [done|]. intros Hf. split; [by intros ->|].
  by eapply forallb_Forall; [apply token_char_safe|].
Qed.

Lemma path_ok_chars s : pw_http_path_ok s = true -> s <> [] /\ Forall (fun c => 32 < c < 127) s.
Proof.
  unfold pw_http_path_ok. split_if; [done|]. intros Hf. split; [by intros ->|].
  revert Hf. apply forallb_Forall. intros c Hc. btest. lia.
Qed.

(** No character of a value ends a line. *)
Lemma value_ok_chars s :
  pw_http_header_value_ok s = true -> Forall (fun c => c <> 0 /\ c <> 13 /\ c <> 10) s.
Proof.
  unfold pw_http_header_value_ok. apply forallb_Forall. intros c Hc. btest. lia.
Qed.

(** ** Claims *)

(** C26 A Content-Length is accepted exactly when it is a decimal number, with
    blanks around it and nothing else, that fits a [size_t]; its value is then
    that number, with no overflow for any length of input. *)
Theorem parse_size_exact s n :
  pw_http_parse_size s = Some n <->
  exists b1 d b2, s = b1 ++ d ++ b2 /\ all_blank b1 /\ all_digits d /\ d <> [] /\ all_blank b2 /\
    n = undec d /\ n <= SIZE_MAX.
Proof.
  unfold pw_http_parse_size. split.
  - destruct (skip_blank_split s) as (b1 & Hb1 & Es).
    destruct (parse_size_loop (skip_blank s) 0 false) as [[v dg]|] eqn:E; [|done].
    destruct dg; [|done]. intros [= <-].
    apply parse_size_loop_sound in E as (d & b2 & Hs & Hd & Hb2 & Hv & Hm & Hdg); [|done].
    simpl in *. exists b1, d, b2. rewrite Es at 1. rewrite Hs.
    split_and!; try (done || lia). by destruct (Hdg eq_refl).
  - intros (b1 & d & b2 & -> & Hb1 & Hd & Hne & Hb2 & -> & Hm).
    rewrite skip_blank_all by done.
    assert (skip_blank (d ++ b2) = d ++ b2) as ->.
    { destruct d as [|c d]; [done|]. simpl. inversion_clear Hd. by rewrite digit_not_blank. }
    rewrite parse_size_loop_digits by (done || lia). destruct d; [done|]. f_equal; lia.
Qed.

(** An upstream is a host and an optional port: [pw_http_parse_upstream]
    accepts [host] (then with port 80) and [host:digits] with a number from 1 to
    65535, where the host is not empty, at most 255 bytes with the rest, and has
    no colon, slash, blank or control character; nothing else. *)
Theorem parse_upstream_exact u host port :
  pw_http_parse_upstream u 256 = Some (host, port) <->
  host <> [] /\ Forall host_char host /\ Forall (fun c => c <> colon) host /\ len u < 256 /\
  ((u = host /\ port = 80) \/
   exists d, u = host ++ colon :: d /\ d <> [] /\ all_digits d /\ port = undec d /\ 1 <= port <= 65535).
Proof.
  split.
  - intros E. pose proof (parse_upstream_spec _ _ _ _ E) as (Hh & Hc & Hl & Hp).
    assert (host <> []) by (intros ->; change (len (@nil Z)) with 0 in Hl; lia).
    unfold pw_http_parse_upstream in E. cbv zeta in E. destruct (_ || _) eqn:E1; [done|]. btest.
    destruct (pw_http_has_line_ctl u); [done|].
    split_and!; try (done || lia).
    destruct (memchr colon u) as [k|] eqn:Ek.
    + destruct (_ || _); [done|]. destruct (pw_http_host_ok _); [|done]. cbn [negb] in E.
      destruct (pw_http_parse_port _) as [p|] eqn:Ep; [|done]. injection E as <- <-. right.
      exists (drop (Z.to_nat (k + 1)) u). apply parse_port_range in Ep as Hr.
      destruct Hr as (Hd & Hv & Hr). split_and!; try done; [| |lia|lia].
      * by apply memchr_split.
      * intros En. rewrite En in Hv. unfold undec in Hv. simpl in Hv. lia.
    + destruct (pw_http_host_ok u); [|done]. injection E as <- <-. by left.
  - intros (Hne & Hh & Hc & Hl & Hu). unfold pw_http_parse_upstream. cbv zeta.
    assert (pw_http_host_ok host = true) as Hok by by apply host_ok_iff.
    assert (0 < len host) as Hpos.
    { destruct host; [done|]. rewrite len_cons. pose proof (len_nonneg host). lia. }
    assert (Forall (fun c => c <> 0 /\ c <> 13 /\ c <> 10) host) as Hlf.
    { eapply list.Forall_impl; [exact Hh|]. intros c [? _]. lia. }
    destruct Hu as [[-> ->]|(d & -> & Hdn & Hd & -> & Hr)].
    + rewrite (proj2 (Z.eqb_neq _ 0)), (proj2 (Z.leb_gt 256 _)) by lia. cbn [orb].
      rewrite (proj2 (has_line_ctl_false host)) by done.
      rewrite (memchr_absent colon host), Hok by done. done.
    + rewrite len_app, len_cons in *. pose proof (len_nonneg d).
      rewrite (proj2 (Z.eqb_neq _ 0)), (proj2 (Z.leb_gt 256 _)) by lia. cbn [orb].
      rewrite (proj2 (has_line_ctl_false _)).
      2:{ apply Forall_app. split; [done|]. constructor; [done|].
          eapply list.Forall_impl; [exact Hd|]. intros c ?. simpl in *. lia. }
      rewrite memchr_app by done.
      rewrite (proj2 (Z.eqb_neq (len host) 0)), (proj2 (Z.leb_gt 256 (len host))) by lia. cbn [orb].
      assert (Z.to_nat (len host) = length host) as -> by (unfold len; lia).
      rewrite take_app_length, Hok. cbn [negb].
      assert (Z.to_nat (len host + 1) = S (length host)) as -> by (unfold len; lia).
      replace (S (length host)) with (length host + 1)%nat by lia.
      rewrite <- drop_drop, drop_app_length. change (drop 1 (colon :: d)) with d.
      by rewrite (parse_port_digits d).
Qed.
