(* ===== verification/HttpIo.v ===== *)
(** * Talking to an upstream (src/proxy_wasm_http.c)

    Writing the request, reading the response, and connecting without a pool.
    The operating system is a parameter: what the peer sends in all, and how
    each [read], [write] and connection attempt turns out. *)

From S2P Require Import Prelude Ctx Headers HttpAddr HttpPool HttpParse.

Definition PW_HTTP_MAX_RESPONSE : Z := 262144.

Definition crlf2 : bytes := crlf ++ crlf.

(** ** The socket *)

(** One [read]: interrupted; [n] bytes can be delivered; error, timeout or end
    of file. *)
Inductive rd_event := RIntr | RAvail (n : Z) | RStop.

(** One [write]: interrupted; [n] bytes are taken; error. *)
Inductive wr_event := WIntr | Wrote (n : Z) | WErr.

(** [incoming]: the bytes the peer sends that were not read yet. *)
Record peer := Peer {
  incoming : bytes;
  reads : list rd_event;
  writes : list wr_event
}.

(** [None]: a result of at most 0.  When the script is used up nothing more
    arrives. *)
Fixpoint pw_http_read_some (evs : list rd_event) (s : bytes) (want : Z)
    : option bytes * list rd_event * bytes :=
  match evs with
  | [] => (None, [], s)
  | RIntr :: evs => pw_http_read_some evs s want
  | RStop :: evs => (None, evs, s)
  | RAvail n :: evs =>
      let k := Z.min n (Z.min want (len s)) in
      if k <=? 0 then (None, evs, s)
      else (Some (take (Z.to_nat k) s), evs, drop (Z.to_nat k) s)
  end.

(** The bytes that reached the socket, and whether it returned 0. *)
Fixpoint pw_http_write_all (evs : list wr_event) (b : bytes)
    : bytes * bool * list wr_event :=
  match b with
  | [] => ([], true, evs)
  | _ =>
      match evs with
      | [] | WErr :: _ => ([], false, tail evs)
      | WIntr :: evs => pw_http_write_all evs b
      | Wrote n :: evs =>
          let k := Z.min n (len b) in
          if k <=? 0 then ([], false, evs)
          else
            let '(sent, r, evs) := pw_http_write_all evs (drop (Z.to_nat k) b) in
            (take (Z.to_nat k) b ++ sent, r, evs)
      end
  end.

(** ** Connecting without a pool *)

Record direct_attempt := DirectAttempt {
  da_socket : Z;               (** [socket] *)
  da_connect : bool;           (** [connect] returned 0 *)
  da_in_progress : bool;       (** ... or failed with [EINPROGRESS] *)
  da_pollout : bool;           (** [poll] reported [POLLOUT] in time *)
  da_error : bool              (** [SO_ERROR] is set *)
}.

(** The loop over the addresses. *)
Fixpoint connect_loop (attempt : sockaddr -> direct_attempt) (ssrf_exempt : bool)
    (l : list sockaddr) : Z * list io :=
  match l with
  | [] => (-1, [])
  | a :: l =>
      if negb ssrf_exempt && vwasm_http_addr_is_private (Some a)
      then connect_loop attempt ssrf_exempt l
      else
        let d := attempt a in
        let f := da_socket d in
        if f <? 0 then connect_loop attempt ssrf_exempt l
        else if da_connect d then (f, [Socket f; Connect a])
        else if da_in_progress d && da_pollout d && negb (da_error d)
        then (f, [Socket f; Connect a])
        else
          let '(r, ev) := connect_loop attempt ssrf_exempt l in
          (r, Socket f :: Connect a :: Close f :: ev)
  end.

(** [res]: the answer of [getaddrinfo]. *)
Definition pw_http_connect (res : option (list sockaddr)) (attempt : sockaddr -> direct_attempt)
    (ssrf_exempt : bool) : Z * list io :=
  match res with
  | None => (-1, [])
  | Some l => connect_loop attempt ssrf_exempt l
  end.

(** ** Reading the response *)

(** Phase 1: the bytes read and the offset of the blank line. *)
Fixpoint read_headers (fuel : nat) (evs : list rd_event) (s buf : bytes)
    : bytes * option Z * list rd_event * bytes :=
  match fuel with
  | O => (buf, None, evs, s)
  | S fuel =>
      if PW_HTTP_MAX_RESPONSE <=? len buf then (buf, None, evs, s)
      else
        match pw_http_read_some evs s (PW_HTTP_MAX_RESPONSE - len buf) with
        | (None, evs, s) => (buf, None, evs, s)
        | (Some d, evs, s) =>
            let buf := buf ++ d in
            match strstr buf crlf2 with
            | Some i => (buf, Some i, evs, s)
            | None => read_headers fuel evs s buf
            end
        end
  end.

(** Phase 2: the bytes still missing. *)
Fixpoint read_body (fuel : nat) (evs : list rd_event) (s buf : bytes) (need : Z)
    : bytes * Z * list rd_event * bytes :=
  match fuel with
  | O => (buf, need, evs, s)
  | S fuel =>
      if need <=? 0 then (buf, need, evs, s)
      else
        let room := PW_HTTP_MAX_RESPONSE - len buf in
        if room =? 0 then (buf, need, evs, s)
        else
          let to_read := if need <? room then need else room in
          match pw_http_read_some evs s to_read with
          | (None, evs, s) => (buf, need, evs, s)
          | (Some d, evs, s) => read_body fuel evs s (buf ++ d) (need - len d)
          end
  end.

(** [response_buf] up to [response_len], [response_complete],
    [response_reusable] and [response_status]; [r_left] is what the socket still
    holds. *)
Record reply := Reply {
  r_buf : bytes;
  r_complete : bool;
  r_reusable : bool;
  r_status : Z;
  r_left : bytes
}.

Definition header_value (buf : bytes) (header_bytes : Z) (name : string) : option bytes :=
  pw_http_find_header_value buf header_bytes (str name).

Definition has_token (v : option bytes) (token : string) : bool :=
  match v with
  | Some v => pw_http_value_has_token v (str token)
  | None => false
  end.

Definition read_response (ssrf_exempt : bool) (evs : list rd_event) (s : bytes) : reply :=
  let '(buf, hdr_end, evs, s) := read_headers (S (length evs)) evs s [] in
  match hdr_end with
  | None => Reply buf false false PROXY_PARSE_FAILURE s
  | Some i =>
      let header_bytes := i + 4 in
      let http11 := (8 <=? len buf) && memcmp_eq buf (str "HTTP/1.1") 8 in
      if has_token (header_value buf header_bytes "Transfer-Encoding") "chunked"
      then Reply buf false false PROXY_UNIMPLEMENTED s
      else
        let conn_close := has_token (header_value buf header_bytes "Connection") "close" in
        match header_value buf header_bytes "Content-Length" with
        | Some v =>
            match pw_http_parse_size v with
            | None => Reply buf false false PROXY_PARSE_FAILURE s
            | Some content_length =>
                if PW_HTTP_MAX_RESPONSE - header_bytes <? content_length
                then Reply buf false false PROXY_INTERNAL s
                else
                  let body_have := len buf - header_bytes in
                  if content_length <? body_have then
                    Reply (take (Z.to_nat (header_bytes + content_length)) buf) true false PROXY_OK s
                  else
                    let '(buf, need, evs, s) :=
                      read_body (S (length evs)) evs s buf (content_length - body_have) in
                    if need =? 0
                    then Reply buf true (http11 && negb conn_close && ssrf_exempt) PROXY_OK s
                    else Reply buf false false PROXY_INTERNAL s
            end
        | None =>
            if len buf =? header_bytes then Reply buf true false PROXY_OK s
            else Reply buf false false PROXY_PARSE_FAILURE s
        end
  end.

(** * Properties *)

(** ** Searching in a prefix *)

Lemma is_prefix_app p a b : is_prefix p a = true -> is_prefix p (a ++ b) = true.
Proof.
  revert a. induction p as [|x p IH]; intros [|y a]; simpl; try done.
  rewrite !andb_true_iff. intros [E Hp]. split; [done|by apply IH].
Qed.

Lemma is_prefix_len p a : is_prefix p a = true -> len p <= len a.
Proof.
  revert a. induction p as [|x p IH]; intros a; [intros _; apply len_nonneg|].
  destruct a as [|y a]; simpl; [done|].
  rewrite andb_true_iff, !len_cons. intros [_ Hp]. apply IH in Hp. lia.
Qed.

Lemma is_prefix_cut p a b :
  is_prefix p (a ++ b) = true -> len p <= len a -> is_prefix p a = true.
Proof.
  revert a. induction p as [|x p IH]; intros [|y a]; simpl; rewrite ?len_cons, ?len_nil; try done.
  - intros _. pose proof (len_nonneg p). lia.
  - rewrite !andb_true_iff. intros [E Hp] Hl. split; [done|]. apply IH; [done|lia].
Qed.

Lemma find_sub_bound p b i : find_sub p b = Some i -> 0 <= i /\ i + len p <= len b.
Proof.
  revert i. induction b as [|y b IH]; intros i; cbn [find_sub]; destruct (is_prefix p _) eqn:E.
  - intros [= <-]. apply is_prefix_len in E. lia.
  - done.
  - intros [= <-]. apply is_prefix_len in E. lia.
  - destruct (find_sub p b) as [j|]; [|done]. intros [= <-]. destruct (IH j eq_refl).
    rewrite len_cons. lia.
Qed.

Lemma find_sub_app p a b i : find_sub p a = Some i -> find_sub p (a ++ b) = Some i.
Proof.
  revert i. induction a as [|y a IH]; intros i; cbn [find_sub app].
  - destruct (is_prefix p []) eqn:E; [|done]. intros [= <-].
    destruct p; [|done]. by destruct b.
  - destruct (is_prefix p (y :: a)) eqn:E.
    + intros [= <-]. by rewrite (is_prefix_app p (y :: a) b E : is_prefix p (y :: a ++ b) = true).
    + destruct (find_sub p a) as [j|] eqn:Ej; [|done]. intros [= <-].
      destruct (is_prefix p (y :: a ++ b)) eqn:E2; [|by rewrite (IH j eq_refl)].
      pose proof (find_sub_bound _ _ _ Ej).
      rewrite (is_prefix_cut p (y :: a) b E2) in E; [done|]. rewrite len_cons. lia.
Qed.

(** A needle found early enough is found in the prefix. *)
Lemma find_sub_cut p a b i :
  find_sub p (a ++ b) = Some i -> i + len p <= len a -> find_sub p a = Some i.
Proof.
  intros Hf Hl. destruct (find_sub p a) as [j|] eqn:Ej.
  { by rewrite (find_sub_app _ _ b _ Ej) in Hf. }
  exfalso. revert i Hf Hl. induction a as [|y a IH]; intros i Hf Hl.
  - pose proof (find_sub_bound _ _ _ Hf). change (len (@nil Z)) with 0 in Hl.
    assert (p = []) as -> by (apply len_0_nil; pose proof (len_nonneg p); lia). done.
  - cbn [find_sub app] in *. destruct (is_prefix p (y :: a ++ b)) eqn:E.
    + injection Hf as <-. rewrite (is_prefix_cut p (y :: a) b E) in Ej by lia. done.
    + destruct (find_sub p (a ++ b)) as [j|]; [|done]. injection Hf as <-.
      destruct (is_prefix p (y :: a)); [done|]. destruct (find_sub p a); [done|].
      eapply IH; [done..|]. rewrite len_cons in Hl. lia.
Qed.

Lemma cstr_prefix b : exists r, b = cstr b ++ r.
Proof.
  induction b as [|x b (r & IH)]; [by exists []|]. simpl. destruct (x =? 0); [by exists (x :: b)|].
  exists r. simpl. by f_equal.
Qed.

(** What [strstr] found lies before any NUL. *)
Lemma strstr_found p b i :
  strstr b p = Some i ->
  exists h r, b = h ++ r /\ len h = i + len p /\ nul_free h /\ find_sub p h = Some i.
Proof.
  unfold strstr. intros Hf. destruct (cstr_prefix b) as (r & Eb).
  destruct (find_sub_bound _ _ _ Hf) as [Hi Hl].
  set (n := Z.to_nat (i + len p)). pose proof (len_nonneg p).
  exists (take n (cstr b)), (drop n (cstr b) ++ r).
  assert (len (take n (cstr b)) = i + len p) as Ht by (unfold n; rewrite len_take; lia).
  split_and!; [|done| |].
  - by rewrite app_assoc, take_drop.
  - apply Forall_take, nul_free_cstr.
  - apply find_sub_cut with (b := drop n (cstr b)); [by rewrite take_drop|lia].
Qed.

(** ** The headers do not depend on what follows them *)

Lemma ends_line q :
  exists n, find_sub crlf (q ++ crlf) = Some n /\ 0 <= n /\ n + 2 <= len (q ++ crlf) /\
    (drop (Z.to_nat (n + 2)) (q ++ crlf) = [] \/
     exists q', drop (Z.to_nat (n + 2)) (q ++ crlf) = q' ++ crlf).
Proof.
  induction q as [|c q IH].
  { exists 0. simpl. change (len crlf) with 2. split_and!; [done|lia|lia|by left]. }
  cbn [app find_sub]. destruct (is_prefix crlf (c :: q ++ crlf)) eqn:E.
  - exists 0. rewrite len_cons, len_app. change (len crlf) with 2. pose proof (len_nonneg q).
    split_and!; [done|lia|lia|]. right. destruct q as [|d q].
    { unfold crlf in E. simpl in E. by rewrite andb_false_r in E. }
    by exists q.
  - destruct IH as (n & -> & Hn & Hl & Hd). exists (n + 1). simpl. rewrite len_cons.
    replace (Z.to_nat (n + 1 + 2)) with (S (Z.to_nat (n + 2))) by lia.
    split_and!; [f_equal; lia|lia|lia|done].
Qed.

Lemma strncasecmp_app n a b name :
  (n <= length a)%nat -> strncasecmp_eq n (a ++ b) name = strncasecmp_eq n a name.
Proof.
  revert a name. induction n as [|n IH]; intros a name Hn; [done|].
  destruct a as [|x a]; simpl in *; [lia|]. by rewrite IH by lia.
Qed.

Lemma find_value_loop_app fuel fuel' p x name :
  nul_free p -> (p = [] \/ exists q, p = q ++ crlf) ->
  (length p < fuel)%nat -> (length p < fuel')%nat ->
  find_value_loop fuel (p ++ x) (len p) name = find_value_loop fuel' p (len p) name.
Proof.
  revert fuel' p. induction fuel as [|fuel IH]; intros [|fuel'] p Hnf Hp Hf Hf'; [lia..|].
  cbn [find_value_loop]. destruct Hp as [->|(q & Eq)]; [done|].
  destruct (ends_line q) as (n & Hfs & Hn & Hl & Hd). rewrite <- Eq in *.
  rewrite (proj2 (Z.leb_gt _ 0)) by lia.
  unfold strstr. rewrite (cstr_app p x), (cstr_nul_free p), (find_sub_app _ _ (cstr x) _ Hfs), Hfs
    by done.
  destruct ((len p <? n) || (n =? 0)) eqn:E; [done|]. btest. cbv zeta.
  rewrite take_app_le by (unfold len in *; lia).
  assert (drop (Z.to_nat (n + 2)) (p ++ x) = drop (Z.to_nat (n + 2)) p ++ x) as ->
    by (apply drop_app_le; unfold len in *; lia).
  assert (len p - (n + 2) = len (drop (Z.to_nat (n + 2)) p)) as ->
    by (unfold len in *; rewrite length_drop; lia).
  assert (length (drop (Z.to_nat (n + 2)) p) + 2 <= length p)%nat
    by (unfold len in *; rewrite length_drop; lia).
  rewrite (IH fuel') by (by apply Forall_drop) || done || lia.
  destruct (memchr colon (take (Z.to_nat n) p)) as [k|] eqn:Ek; [|done].
  destruct (k =? len name) eqn:En; [|done]. btest. cbn [andb].
  apply memchr_nonneg in Ek. rewrite len_take in Ek by lia.
  by rewrite strncasecmp_app by (unfold len in *; lia).
Qed.

(** The end of a header block: the first blank line. *)
Definition header_block (h : bytes) : Prop :=
  nul_free h /\ find_sub crlf2 h = Some (len h - 4).

Lemma is_prefix_full p a : is_prefix p a = true -> length a = length p -> a = p.
Proof.
  revert a. induction p as [|x p IH]; intros [|y a]; simpl; try done.
  rewrite andb_true_iff, Z.eqb_eq. intros [-> Hp] [= Hl]. by rewrite (IH a).
Qed.

(** A needle found at the very end is a suffix. *)
Lemma find_sub_suffix p b : find_sub p b = Some (len b - len p) -> exists q, b = q ++ p.
Proof.
  intros Hf. assert (forall i, find_sub p b = Some i -> i = len b - len p -> exists q, b = q ++ p)
    as H; [|by eapply H].
  clear Hf. induction b as [|y b IH]; intros i; cbn [find_sub]; destruct (is_prefix p _) eqn:E;
    try done.
  - intros _ _. destruct p; [by exists []|done].
  - intros [= <-] Hl. exists []. cbn [app]. apply is_prefix_full; [done|]. unfold len in Hl. lia.
  - destruct (find_sub p b) as [j|]; [|done]. intros [= <-]. rewrite len_cons. intros Hl.
    destruct (IH j eq_refl) as (q & ->); [lia|]. by exists (y :: q).
Qed.

Lemma header_value_app h x name :
  header_block h -> header_value (h ++ x) (len h) name = header_value h (len h) name.
Proof.
  intros [Hnf Hf]. unfold header_value, pw_http_find_header_value.
  change 4 with (len crlf2) in Hf. destruct (find_sub_suffix _ _ Hf) as (q & Eq).
  assert (h = (q ++ crlf) ++ crlf) as Eh by by rewrite Eq, <- app_assoc.
  destruct (ends_line (q ++ crlf)) as (n & Hfs & Hn & Hl & Hd). rewrite <- Eh in *.
  unfold strstr. rewrite (cstr_app h x), (cstr_nul_free h), (find_sub_app _ _ (cstr x) _ Hfs), Hfs
    by done.
  rewrite (proj2 (Z.ltb_ge _ _)) by lia.
  assert (drop (Z.to_nat (n + 2)) (h ++ x) = drop (Z.to_nat (n + 2)) h ++ x) as ->
    by (apply drop_app_le; unfold len in *; lia).
  assert (len h - (n + 2) = len (drop (Z.to_nat (n + 2)) h)) as ->
    by (unfold len in *; rewrite length_drop; lia).
  apply find_value_loop_app; [by apply Forall_drop|done|..];
    rewrite ?length_app, length_drop; unfold len in *; lia.
Qed.

(** ** Reads *)

Lemma read_some_cases evs s want r evs' s' :
  pw_http_read_some evs s want = (r, evs', s') ->
  (r = None /\ s' = s) \/
  (exists d, r = Some d /\ s = d ++ s' /\ 0 < len d <= want /\ (length evs' < length evs)%nat).
Proof.
  induction evs as [|e evs IH]; cbn [pw_http_read_some]; [intros [= <- <- <-]; by left|].
  destruct e as [|n|]; [| |intros [= <- <- <-]; by left].
  - intros Hr. destruct (IH Hr) as [H|(d & ? & ? & ? & ?)]; [by left|].
    right. exists d. simpl. split_and!; try done; lia.
  - cbv zeta. split_if; intros [= <- <- <-]; [by left|]. right. eexists. split; [done|].
    rewrite take_drop, len_take by lia. simpl. split_and!; [done|lia|lia|lia].
Qed.

(** A peer that delivers: no error, and every read that is not interrupted
    brings something. *)
Definition steady (evs : list rd_event) : Prop :=
  Forall (fun e => match e with RIntr => True | RAvail n => 0 < n | RStop => False end) evs.

#[export] Instance steady_dec evs : Decision (steady evs).
Proof.
  unfold steady. apply list.Forall_dec. intros [|n|]; [left; done|apply _|right; naive_solver].
Defined.

Fixpoint avails (evs : list rd_event) : Z :=
  match evs with
  | [] => 0
  | RAvail _ :: evs => 1 + avails evs
  | _ :: evs => avails evs
  end.

Lemma avails_bound evs : 0 <= avails evs <= len evs.
Proof.
  induction evs as [|[|n|] evs IH]; cbn [avails]; rewrite ?len_cons; try lia. done.
Qed.

Lemma read_some_steady evs s want :
  steady evs -> 0 < want -> s <> [] -> 0 < avails evs ->
  exists d evs' s', pw_http_read_some evs s want = (Some d, evs', s') /\ s = d ++ s' /\
    0 < len d <= want /\ steady evs' /\ avails evs' = avails evs - 1 /\
    (length evs' < length evs)%nat.
Proof.
  intros Hs Hw Hne. induction Hs as [|e evs He Hs IH]; cbn [avails]; [lia|].
  destruct e as [|n|]; [| |done]; cbn [pw_http_read_some]; intros Ha.
  - destruct (IH Ha) as (d & evs' & s' & ? & ? & ? & ? & ? & ?). exists d, evs', s'.
    simpl. split_and!; try done; lia.
  - assert (0 < len s).
    { destruct s; [done|]. rewrite len_cons. pose proof (len_nonneg s). lia. }
    cbv zeta. rewrite (proj2 (Z.leb_gt _ 0)) by lia. eexists _, _, _. split; [done|].
    rewrite take_drop, len_take by lia. simpl. split_and!; try done; lia.
Qed.

(** ** Phase 1 *)

Lemma read_headers_sound fuel evs s buf buf' i evs' s' :
  read_headers fuel evs s buf = (buf', i, evs', s') ->
  len buf <= PW_HTTP_MAX_RESPONSE ->
  buf' ++ s' = buf ++ s /\ len buf' <= PW_HTTP_MAX_RESPONSE /\
  (forall j, i = Some j -> strstr buf' crlf2 = Some j).
Proof.
  revert evs s buf. induction fuel as [|fuel IH]; intros evs s buf; cbn [read_headers].
  { by intros [= <- <- <- <-]. }
  split_if; [by intros [= <- <- <- <-]|].
  destruct (pw_http_read_some evs s _) as [[r evs1] s1] eqn:Er. intros Hr Hl.
  apply read_some_cases in Er as [[-> ->]|(d & -> & -> & Hd & _)]; [by simplify_eq|].
  cbv zeta in Hr. destruct (strstr (buf ++ d) crlf2) as [j|] eqn:Ej.
  - simplify_eq. rewrite <- app_assoc, len_app. split_and!; [done|lia|naive_solver].
  - apply IH in Hr as (-> & ? & ?); [|rewrite len_app; lia]. by rewrite <- app_assoc.
Qed.

Lemma header_block_found h x : header_block h -> strstr (h ++ x) crlf2 = Some (len h - 4).
Proof. intros [Hn Hf]. unfold strstr. rewrite cstr_app by done. by apply find_sub_app. Qed.

Lemma header_block_early h a b :
  header_block h -> h = a ++ b -> b <> [] -> strstr a crlf2 = None.
Proof.
  intros [Hn Hf] -> Hb. unfold strstr. apply Forall_app in Hn as [Ha _].
  rewrite cstr_nul_free by done. destruct (find_sub crlf2 a) as [i|] eqn:E; [|done].
  pose proof (find_sub_bound _ _ _ E) as [_ Hl]. apply (find_sub_app _ _ b) in E.
  rewrite E in Hf. injection Hf as ->. rewrite len_app in Hl. change (len crlf2) with 4 in Hl.
  destruct b; [done|]. rewrite len_cons in Hl. pose proof (len_nonneg b). lia.
Qed.

(** Two prefixes of the same list. *)
Lemma app_cases {A} (a b c d : list A) :
  a ++ b = c ++ d -> (exists e, e <> [] /\ c = a ++ e) \/ (exists e, a = c ++ e /\ d = e ++ b).
Proof.
  revert c. induction a as [|x a IH]; intros [|y c]; simpl.
  - intros ->. right. by exists [].
  - intros _. left. by exists (y :: c).
  - intros <-. right. by exists (x :: a).
  - intros [= -> E]. destruct (IH c E) as [(e & ? & ->)|(e & -> & ->)]; [left|right]; by exists e.
Qed.

Lemma read_headers_complete fuel evs s buf h rest :
  header_block h -> buf ++ s = h ++ rest -> len h <= PW_HTTP_MAX_RESPONSE ->
  strstr buf crlf2 = None -> steady evs -> len s <= avails evs -> (length evs < fuel)%nat ->
  exists x evs' s', read_headers fuel evs s buf = (h ++ x, Some (len h - 4), evs', s') /\
    x ++ s' = rest /\ len (h ++ x) <= PW_HTTP_MAX_RESPONSE /\
    steady evs' /\ len s' <= avails evs'.
Proof.
  intros Hh. revert evs s buf. induction fuel as [|fuel IH]; intros evs s buf Hbs Hl Hnone Hst Hav Hf;
    [lia|].
  destruct (app_cases _ _ _ _ Hbs) as [(e & He & Eh)|(e & Eb & _)].
  2:{ by rewrite Eb, (header_block_found h e Hh) in Hnone. }
  assert (0 < len e) by (destruct e; [done|]; rewrite len_cons; pose proof (len_nonneg e); lia).
  assert (len h = len buf + len e) as Hlh by (rewrite Eh; apply len_app).
  assert (s = e ++ rest) as Es by (rewrite Eh, <- app_assoc in Hbs; by apply app_inv_head in Hbs).
  assert (0 < len s) by (rewrite Es, len_app; pose proof (len_nonneg rest); lia).
  cbn [read_headers]. rewrite (proj2 (Z.leb_gt _ _)) by lia.
  destruct (read_some_steady evs s (PW_HTTP_MAX_RESPONSE - len buf))
    as (d & evs1 & s1 & -> & Ed & Hd & Hst1 & Hav1 & Hlt); [done|lia|by intros ->|lia|].
  cbv zeta. rewrite Ed, app_assoc in Hbs.
  assert (len s = len d + len s1) by (rewrite Ed; apply len_app).
  destruct (app_cases _ _ _ _ Hbs) as [(e' & He' & Eh')|(x & Eb & Er)].
  - rewrite (header_block_early h _ e' Hh Eh' He').
    apply IH; try done; [by apply (header_block_early h _ e')|lia|lia].
  - rewrite Eb, (header_block_found h x Hh). exists x, evs1, s1.
    rewrite <- Eb, len_app. split_and!; try done; lia.
Qed.

(** ** Phase 2 *)

Lemma read_body_sound fuel evs s buf need buf' need' evs' s' :
  read_body fuel evs s buf need = (buf', need', evs', s') ->
  0 <= need -> len buf <= PW_HTTP_MAX_RESPONSE ->
  exists d, buf' = buf ++ d /\ s = d ++ s' /\ need' = need - len d /\ 0 <= need' /\
            len buf' <= PW_HTTP_MAX_RESPONSE.
Proof.
  revert evs s buf need. induction fuel as [|fuel IH]; intros evs s buf need; cbn [read_body].
  all: assert (forall n, 0 <= n -> len buf <= PW_HTTP_MAX_RESPONSE ->
         exists d, buf = buf ++ d /\ s = d ++ s /\ n = n - len d /\ 0 <= n /\
           len buf <= PW_HTTP_MAX_RESPONSE) as Hstop
    by (intros n ? ?; exists []; rewrite app_nil_r, len_nil; split_and!; done || lia).
  { intros [= <- <- <- <-]. apply Hstop. }
  split_if; [intros [= <- <- <- <-]; apply Hstop|]. cbv zeta.
  split_if; [intros [= <- <- <- <-]; apply Hstop|].
  destruct (pw_http_read_some evs s _) as [[r evs1] s1] eqn:Er. intros Hr Hn Hl.
  apply read_some_cases in Er as [[-> ->]|(d & -> & -> & Hd & _)]; [simplify_eq; by apply Hstop|].
  apply IH in Hr as (d' & -> & -> & -> & ? & ?); [|split_if; lia|rewrite len_app; split_if; lia].
  exists (d ++ d'). rewrite (len_app d d'). split_and!; [by rewrite app_assoc..|lia|lia|done].
Qed.

Lemma read_body_complete fuel evs s buf need :
  0 <= need <= len s -> len buf + need <= PW_HTTP_MAX_RESPONSE ->
  steady evs -> len s <= avails evs -> (length evs < fuel)%nat ->
  exists d evs' s', read_body fuel evs s buf need = (buf ++ d, 0, evs', s') /\
    s = d ++ s' /\ len d = need.
Proof.
  revert evs s buf need. induction fuel as [|fuel IH]; intros evs s buf need Hn Hl Hst Hav Hf; [lia|].
  cbn [read_body]. split_if.
  { exists [], evs, s. assert (need = 0) as -> by lia. by rewrite app_nil_r. }
  cbv zeta. rewrite (proj2 (Z.eqb_neq _ 0)) by lia.
  destruct (read_some_steady evs s (if need <? PW_HTTP_MAX_RESPONSE - len buf then need
                                    else PW_HTTP_MAX_RESPONSE - len buf))
    as (d & evs1 & s1 & -> & Ed & Hd & Hst1 & Hav1 & Hlt);
    [done|split_if; lia|intros ->; rewrite len_nil in *; lia|lia|].
  assert (len s = len d + len s1) by (rewrite Ed; apply len_app).
  assert (len d <= need) by (destruct (need <? _) eqn:?; btest; lia).
  destruct (IH evs1 s1 (buf ++ d) (need - len d)) as (d' & evs' & s' & -> & -> & Hd');
    [lia|rewrite len_app; lia|done|lia|lia|].
  exists (d ++ d'), evs', s'. rewrite (len_app d d').
  split_and!; [by rewrite app_assoc|by rewrite Ed, app_assoc|lia].
Qed.

(** ** Framing *)

(** A complete response: a header block without chunked coding, then the bytes
    its Content-Length announces, or nothing when it has none. *)
Definition framed (h body : bytes) : Prop :=
  header_block h /\
  has_token (header_value h (len h) "Transfer-Encoding") "chunked" = false /\
  match header_value h (len h) "Content-Length" with
  | Some v => pw_http_parse_size v = Some (len body)
  | None => body = []
  end.

Lemma parse_size_nonneg v n : pw_http_parse_size v = Some n -> 0 <= n.
Proof.
  unfold pw_http_parse_size. destruct (parse_size_loop _ _ _) as [[x d]|] eqn:E; [|done].
  destruct d; [|done]. intros [= <-].
  apply parse_size_loop_sound in E as (d & b & _ & Hd & _ & Hx & _); [|done].
  pose proof (undec_nonneg d Hd). simpl in Hx. lia.
Qed.

(** The whole reader on a stream whose header block was received as [h ++ x]. *)
Lemma headers_found evs s buf i evs' s' :
  read_headers (S (length evs)) evs s [] = (buf, Some i, evs', s') ->
  exists h x, buf = h ++ x /\ header_block h /\ i + 4 = len h /\ s = buf ++ s' /\
    len buf <= PW_HTTP_MAX_RESPONSE.
Proof.
  intros Hr. apply read_headers_sound in Hr as (Hs & Hl & Hf); [|done].
  destruct (strstr_found _ _ _ (Hf i eq_refl)) as (h & x & -> & Hh & Hn & Hfs).
  change (len crlf2) with 4 in Hh. exists h, x. split_and!; try done.
  split; [done|]. rewrite Hfs. f_equal. lia.
Qed.

Lemma read_response_sound exempt evs s :
  let r := read_response exempt evs s in
  len (r_buf r) <= PW_HTTP_MAX_RESPONSE /\
  (r_complete r = true -> r_status r = PROXY_OK /\
   exists h body, framed h body /\ r_buf r = h ++ body /\ (exists x, s = r_buf r ++ x) /\
     (r_reusable r = true -> exempt = true /\ s = r_buf r ++ r_left r /\
        is_Some (header_value h (len h) "Content-Length") /\
        has_token (header_value h (len h) "Connection") "close" = false)).
Proof.
  unfold read_response. cbv zeta.
  destruct (read_headers _ _ _ _) as [[[buf hdr_end] evs1] s1] eqn:Eh.
  destruct hdr_end as [i|].
  2:{ apply read_headers_sound in Eh as (_ & Hl & _); [|done]. by split. }
  apply headers_found in Eh as (h & x & -> & Hb & Hi & -> & Hl).
  rewrite Hi, !header_value_app by done.
  destruct (has_token (header_value h (len h) "Transfer-Encoding") "chunked") eqn:Ec; [by split|].
  destruct (header_value h (len h) "Content-Length") as [v|] eqn:Ev.
  - destruct (pw_http_parse_size v) as [n|] eqn:En; [|by split].
    pose proof (parse_size_nonneg _ _ En). split_if; [by split|]. rewrite len_app.
    destruct (n <? _) eqn:Elt; btest.
    + cbn [r_buf r_complete r_status r_reusable].
      assert (take (Z.to_nat (len h + n)) (h ++ x) = h ++ take (Z.to_nat n) x) as ->.
      { rewrite take_app_ge by (unfold len; lia). do 2 f_equal. unfold len. lia. }
      split; [rewrite len_app, len_take by lia; lia|]. intros _. split; [done|].
      exists h, (take (Z.to_nat n) x). split_and!; [|done| |done].
      * split_and!; [done..|]. rewrite Ev, len_take by lia. done.
      * exists (drop (Z.to_nat n) x ++ s1). by rewrite <- !app_assoc, (app_assoc (take _ x)), take_drop.
    + destruct (read_body _ _ _ _ _) as [[[buf need] evs2] s2] eqn:Eb.
      apply read_body_sound in Eb as (d & -> & -> & -> & ? & Hl2); [|lia|done].
      destruct (_ =? 0) eqn:E0; [|by split]. btest. cbn [r_buf r_complete r_status r_reusable r_left].
      split; [done|]. intros _. split; [done|]. exists h, (x ++ d).
      split_and!; [|by rewrite app_assoc|exists s2; by rewrite <- !app_assoc|].
      * split_and!; [done..|]. rewrite Ev, len_app, En. f_equal. lia.
      * intros Hre. btest. rewrite <- !app_assoc. split_and!; [done..|by rewrite Ev|done].
  - destruct (_ =? _) eqn:E; [|by split]. btest. split; [done|]. intros _. split; [done|].
    rewrite len_app in E. assert (x = []) as -> by (apply len_0_nil; lia).
    exists h, []. cbn [r_buf r_reusable]. split_and!; [|done|by exists s1|done].
    split_and!; [done..|]. by rewrite Ev.
Qed.

(** C5 Only whole messages are accepted, and only exactly consumed ones are
    reused: however the bytes of the peer arrive, a response reported as
    complete is a header block followed by exactly the bytes its Content-Length
    announces, is a prefix of what the peer sent and fits the 256 KiB buffer;
    and when its connection goes back to the pool, the upstream is on the
    allowlist, the peer did not ask to close, and the unread rest of the stream
    starts right after that message. *)
Theorem response_framing exempt evs s :
  let r := read_response exempt evs s in
  r_complete r = true ->
  len (r_buf r) <= PW_HTTP_MAX_RESPONSE /\
  exists h body, framed h body /\ r_buf r = h ++ body /\ (exists x, s = r_buf r ++ x) /\
    (r_reusable r = true -> exempt = true /\ s = r_buf r ++ r_left r /\
       is_Some (header_value h (len h) "Content-Length") /\
       has_token (header_value h (len h) "Connection") "close" = false).
Proof.
  intros r Hr. destruct (read_response_sound exempt evs s) as [Hl Hc]. split; [done|].
  by apply Hc.
Qed.

(** C19 Segmentation does not matter: a response with a Content-Length that fits
    the buffer is received whole and accepted, whatever the sizes in which the
    network delivers it, however often a read is interrupted, and whatever the
    peer sends after it. *)
Theorem response_read_whole exempt evs h body extra :
  framed h body -> is_Some (header_value h (len h) "Content-Length") ->
  len (h ++ body) <= PW_HTTP_MAX_RESPONSE ->
  steady evs -> len (h ++ body ++ extra) <= avails evs ->
  let r := read_response exempt evs (h ++ body ++ extra) in
  r_buf r = h ++ body /\ r_complete r = true /\ r_status r = PROXY_OK.
Proof.
  intros (Hh & Hc & Hv) [v Ev] Hl Hst Hav. rewrite Ev in Hv. unfold read_response. cbv zeta.
  pose proof (len_nonneg body) as Hb0. rewrite len_app in Hl.
  destruct (read_headers_complete (S (length evs)) evs (h ++ body ++ extra) [] h (body ++ extra))
    as (x & evs1 & s1 & -> & Hx & Hl1 & Hst1 & Hav1); [done|done|lia|done|done|done|lia|].
  replace (len h - 4 + 4) with (len h) by lia. rewrite !header_value_app, Hc, Ev, Hv by done.
  rewrite (proj2 (Z.ltb_ge _ _)) by lia. rewrite len_app in *.
  destruct (app_cases _ _ _ _ Hx) as [(e & He & ->)|(e & -> & ->)].
  - rewrite <- app_assoc in Hx. apply app_inv_head in Hx as ->. rewrite !len_app in *.
    pose proof (len_nonneg e). pose proof (len_nonneg extra).
    rewrite (proj2 (Z.ltb_ge _ _)) by lia.
    destruct (read_body_complete (S (length evs1)) evs1 (e ++ extra) (h ++ x)
                (len x + len e - (len h + len x - len h)))
      as (d & evs' & s' & -> & Hd & Hdl);
      [rewrite len_app; lia|rewrite len_app; lia|done|rewrite len_app; lia|lia|].
    cbn [r_buf r_complete r_status Z.eqb]. split_and!; [|done..]. rewrite <- app_assoc. f_equal.
    f_equal. apply (f_equal (take (length d))) in Hd. rewrite take_app_length in Hd.
    rewrite <- Hd. rewrite take_app_le by (unfold len in *; lia).
    rewrite take_ge by (unfold len in *; lia). done.
  - rewrite len_app in *. destruct (len body <? _) eqn:E; btest.
    + cbn [r_buf r_complete r_status]. split_and!; [|done..].
      rewrite app_assoc. rewrite take_app_le by (rewrite length_app; unfold len; lia).
      apply take_ge. rewrite length_app. unfold len. lia.
    + assert (e = []) as -> by (apply len_0_nil; pose proof (len_nonneg e); lia).
      change (len (@nil Z)) with 0. replace (len body - (len h + (len body + 0) - len h)) with 0 by lia.
      cbn [read_body Z.leb]. rewrite app_nil_r. cbn. done.
Qed.

(** A response of five body bytes, delivered in pieces. *)
Definition hello_head : bytes :=
  str "HTTP/1.1 200 OK" ++ crlf ++ str "Content-Length: 5" ++ crlf ++ crlf.
Definition hello : bytes := hello_head ++ str "hello".
Definition pieces : list rd_event := RAvail 7 :: RIntr :: replicate 60 (RAvail 3).

Lemma hello_framed : framed hello_head (str "hello").
Proof. split; [split; [by_decide|reflexivity]|]. split; reflexivity. Qed.

Lemma response_framing_witness :
  (read_response true pieces (hello ++ str "x")).(r_complete) = true /\
  len (r_buf (read_response true pieces (hello ++ str "x"))) <= PW_HTTP_MAX_RESPONSE.
Proof.
  split; [vm_compute; reflexivity|].
  destruct (response_framing true pieces (hello ++ str "x")) as [H _]; [vm_compute; reflexivity|].
  exact H.
Defined.

Lemma response_read_whole_witness :
  r_buf (read_response true pieces (hello_head ++ str "hello" ++ str "xy")) = hello.
Proof.
  apply (response_read_whole true pieces hello_head (str "hello") (str "xy")).
  - apply hello_framed.
  - by eexists.
  - by_decide.
  - by_decide.
  - by_decide.
Defined.

(** A response with a body but no Content-Length. *)
Definition unsized_head : bytes := str "HTTP/1.1 200 OK" ++ crlf ++ str "A: b" ++ crlf ++ crlf.

(** Without a Content-Length the outcome depends on the segmentation: when
    the header block arrives in a segment of its own the response is accepted
    with an empty body, although the peer goes on to send one; when the first
    bytes of the body arrive with the headers, the same response is refused. *)
Theorem unsized_body_depends_on_segments :
  let s := unsized_head ++ str "hello" in
  let alone := read_response false [RAvail (len unsized_head); RAvail 5] s in
  let together := read_response false [RAvail (len s)] s in
  (r_complete alone = true /\ r_buf alone = unsized_head /\ r_left alone = str "hello") /\
  (r_complete together = false /\ r_status together = PROXY_PARSE_FAILURE).
Proof. vm_compute. by split_and!. Qed.

(** ** Writes *)

Lemma write_all_prefix evs b sent r evs' :
  pw_http_write_all evs b = (sent, r, evs') -> exists x, b = sent ++ x.
Proof.
  revert b sent r. induction evs as [|e evs IH]; intros b sent r.
  { destruct b; simpl; intros [= <- <- <-]; by eexists. }
  destruct b as [|c b]; cbn [pw_http_write_all]; [intros [= <- <- <-]; by eexists|].
  destruct e as [|n|]; [apply IH| |intros [= <- <- <-]; by eexists].
  cbv zeta. split_if; [intros [= <- <- <-]; by eexists|].
  destruct (pw_http_write_all evs _) as [[sent' r'] evs''] eqn:E. intros [= <- <- <-].
  apply IH in E as [x Ex]. exists x. by rewrite <- app_assoc, <- Ex, take_drop.
Qed.

(** [pw_http_write_all] returns 0 only when everything was written, in order. *)
Lemma write_all_whole evs b sent evs' :
  pw_http_write_all evs b = (sent, true, evs') -> sent = b.
Proof.
  revert b sent. induction evs as [|e evs IH]; intros b sent.
  { destruct b; simpl; intros [= <- <-]; done. }
  destruct b as [|c b]; cbn [pw_http_write_all]; [by intros [= <- <-]|].
  destruct e as [|n|]; [apply IH| |done].
  cbv zeta. split_if; [done|].
  destruct (pw_http_write_all evs _) as [[sent' r'] evs''] eqn:E. intros [= <- -> <-].
  apply IH in E as ->. by rewrite take_drop.
Qed.

(** ** Addresses *)

Lemma direct_not_private res attempt a :
  Connect a ∈ (pw_http_connect res attempt false).2 ->
  vwasm_http_addr_is_private (Some a) = false.
Proof.
  destruct res as [l|]; cbn [pw_http_connect snd]; [|set_solver].
  induction l as [|b l IH]; cbn [connect_loop]; [set_solver|]. cbn [negb andb].
  destruct (vwasm_http_addr_is_private (Some b)) eqn:E; [done|].
  cbv zeta. split_if; [done|]. do 2 (split_if; [cbn [snd]; rewrite !elem_of_cons, elem_of_nil; naive_solver|]).
  destruct (connect_loop attempt false l) as [r ev]. cbn [snd] in *.
  rewrite !elem_of_cons. naive_solver.
Qed.
