(* ===== verification/HttpCall.v ===== *)
(** * The host function [proxy_http_call] (src/proxy_wasm_http.c)

    The whole handler: the limit on calls, the upstream and the allowlist, the
    request built from the guest's header pairs, the exchange through the
    connection pool or a connection of its own, the report to the circuit
    breaker, and the response stored under a fresh token. *)

From S2P Require Import Prelude Mem SharedData SharedQueue Metrics Ctx.
From S2P Require Import HostCalls Headers HttpAddr Breaker HttpPool HttpParse HttpIo.

Definition VWASM_DEFAULT_HTTP_TIMEOUT_MS : Z := 5000.
Definition request_buf_size : Z := 8192.
Definition extra_headers_size : Z := 4096.

(** The outside world during one call. *)
Record hnet := HNet {
  h_net : Z -> Net;                               (** under a timeout *)
  h_getaddrinfo : bytes -> bytes -> option (list sockaddr);
  h_attempt : Z -> sockaddr -> direct_attempt;
  h_peer : Z -> peer;                             (** behind a descriptor *)
  h_acquire_time : Z;
  h_report_time : Z
}.

(** What the call does to the network. *)
Inductive net_event := NIo (x : io) | NSent (f : Z) (b : bytes).

(** ** Choosing the upstream *)

Definition effective_timeout (c : pctx) (timeout_ms : Z) : Z :=
  let t := if timeout_ms =? 0 then http_timeout_ms (cfg c) else timeout_ms in
  let t := if t =? 0 then VWASM_DEFAULT_HTTP_TIMEOUT_MS else t in
  if 30000 <? t then 30000 else t.

(** [Some ssrf_exempt], or [None] when the allowlist refuses the upstream. *)
Definition check_allowlist (c : pctx) (host : bytes) (port : Z) : option bool :=
  match allowed_upstreams (cfg c) with
  | None | Some [] => Some false
  | Some l =>
      let upstream_check := take 279 (cstr host ++ str ":" ++ dec port) in
      if existsb (fun u => strcmp_eq upstream_check u) l then Some true else None
  end.

(** ** The request *)

(** [method], [path] and [extra_headers]. *)
Record request_head := RequestHead { rh_method : bytes; rh_path : bytes; rh_extra : bytes }.

(** One serialized string with its terminator: [Some] the string and the offset
    after it. *)
Definition take_string (data : bytes) (hdr_offset n : Z) : outcome (option (bytes * Z)) :=
  if len data - hdr_offset <? n + 1 then Done None
  else
    let! nul := rd data (hdr_offset + n) 1 in
    if bytes_eqb nul [0] then
      let! s := rd data hdr_offset n in
      Done (Some (s, hdr_offset + n + 1))
    else Done None.

(** The loop over the pairs; [None]: [PROXY_BAD_ARGUMENT]. *)
Fixpoint pairs_loop (n : nat) (data : bytes) (hi hdr_offset : Z) (r : request_head)
    : outcome (option request_head) :=
  match n with
  | O => Done (Some r)
  | S n =>
      let! ks := rd data (4 + hi * 8) 4 in
      let! vs := rd data (4 + hi * 8 + 4) 4 in
      let! sk := take_string data hdr_offset (get_u32 ks) in
      match sk with
      | None => Done None
      | Some (k, hdr_offset) =>
          let! sv := take_string data hdr_offset (get_u32 vs) in
          match sv with
          | None => Done None
          | Some (v, hdr_offset) =>
              if bytes_eqb k (str ":method") then
                pairs_loop n data (hi + 1) hdr_offset (RequestHead v (rh_path r) (rh_extra r))
              else if bytes_eqb k (str ":path") then
                pairs_loop n data (hi + 1) hdr_offset (RequestHead (rh_method r) v (rh_extra r))
              else if (0 <? len k) && negb (bytes_eqb (take 1 k) [colon]) then
                match pw_http_append_header (rh_extra r) extra_headers_size k v with
                | None => Done None
                | Some extra =>
                    pairs_loop n data (hi + 1) hdr_offset
                      (RequestHead (rh_method r) (rh_path r) extra)
                end
              else pairs_loop n data (hi + 1) hdr_offset r
          end
      end
  end.

Definition default_head : request_head := RequestHead (str "GET") (str "/") [].

Definition parse_head (c : pctx) (headers_ptr headers_size : Z) : outcome (option request_head) :=
  if headers_size =? 0 then Done (Some default_head)
  else if (headers_size <? 4) || negb (pw_validate_region (w c) headers_ptr headers_size)
  then Done None
  else
    match pw_mem_ptr (w c) headers_ptr with
    | None => Done None
    | Some p =>
        let! data := mem_read (w c) (Some p) headers_size in
        let! np := rd data 0 4 in
        let num_pairs := get_u32 np in
        if 64 <? num_pairs then Done None
        else
          let hdr_offset := 4 + num_pairs * 8 in
          if headers_size <? hdr_offset then Done None
          else pairs_loop (Z.to_nat num_pairs) data 0 hdr_offset default_head
    end.

Definition head_ok (r : request_head) : bool :=
  pw_http_method_ok (rh_method r) && pw_http_path_ok (rh_path r) &&
  (len (rh_method r) <=? INT_MAX) && (len (rh_path r) <=? INT_MAX).

Definition request_text (r : request_head) (host : bytes) (body_size : Z) (keep : bool) : bytes :=
  cstr (rh_method r) ++ str " " ++ cstr (rh_path r) ++ str " HTTP/1.1" ++ crlf ++
  str "Host: " ++ cstr host ++ crlf ++
  (if 0 <? body_size then str "Content-Length: " ++ dec body_size ++ crlf else []) ++
  (if keep then str "Connection: keep-alive" else str "Connection: close") ++ crlf ++
  cstr (rh_extra r) ++ crlf.

(** ** The exchange *)

(** [vwasm_http_pool_close] or [close]. *)
Definition drop_conn (h : hnet) (p : option pool) (conn : option conn_ref) (f : Z)
    : option pool * list io :=
  match p, conn with
  | Some p, Some r =>
      let '(p, ev) := vwasm_http_pool_close (h_report_time h) p r in (Some p, ev)
  | _, _ => (p, [Close f])
  end.

Definition report (h : hnet) (p : option pool) (host : bytes) (port : Z) (success : bool)
    : option pool :=
  match p with
  | None => None
  | Some p =>
      Some (set_cbs p
        (if success then vwasm_http_pool_cb_success (h_report_time h) (cbs p) host port
         else vwasm_http_pool_cb_failure (h_report_time h) (cbs p) host port))
  end.

(** Send the request and read the response over the descriptor: the status to
    return, or the response. *)
Definition exchange (e : env) (h : hnet) (c : pctx) (p : option pool) (host : bytes) (port f : Z)
    (conn : option conn_ref) (request : bytes) (body_ptr body_size : Z) (ssrf_exempt : bool)
    : outcome (option pool * list net_event * (Z + bytes)) :=
  let abandon (ev : list net_event) :=
    let '(p, io) := drop_conn h p conn f in
    Done (report h p host port false, ev ++ map NIo io, inl PROXY_INTERNAL) in
  let '(sent, ok1, wevs) := pw_http_write_all (writes (h_peer h f)) request in
  let ev := [NSent f sent] in
  if negb ok1 then abandon ev
  else
    let! '(ev, ok2) :=
      (if 0 <? body_size then
         match pw_mem_ptr (w c) body_ptr with
         | None => Done (ev, false)
         | Some q =>
             let! body := mem_read (w c) (Some q) body_size in
             let '(sent, ok2, _) := pw_http_write_all wevs body in
             Done (ev ++ [NSent f sent], ok2)
         end
       else Done (ev, true)) in
    if negb ok2 then abandon ev
    else if negb (ok e 0%nat) then abandon ev
    else
      let r := read_response ssrf_exempt (reads (h_peer h f)) (incoming (h_peer h f)) in
      let '(p, io) :=
        match p, conn with
        | Some p, Some q =>
            let '(p, io) := vwasm_http_pool_release (h_report_time h) p q (r_reusable r) in
            (Some p, io)
        | _, _ => (p, [Close f])
        end in
      let p := report h p host port (r_complete r) in
      Done (p, ev ++ map NIo io,
            if negb (r_complete r) || (len (r_buf r) =? 0) then inl (r_status r)
            else inr (r_buf r)).

(** ** Storing the response *)

(** After the next newline. *)
Fixpoint skip_line (s : bytes) : bytes :=
  match s with
  | [] => []
  | c :: s => if c =? 10 then s else skip_line s
  end.

Fixpoint count_lines (fuel : nat) (s : bytes) : Z :=
  match fuel, s with
  | S fuel, _ :: _ => 1 + count_lines fuel (skip_line s)
  | _, _ => 0
  end.

Definition response_entry (buf : bytes) : call_response :=
  match find_sub crlf2 buf with
  | None => CallResponse (Some buf) None 0 0 true
  | Some i =>
      CallResponse (Some buf) (Some (i + 4)) (len buf - (i + 4))
        (if 0 <? i then
           let rest := skip_line (take (Z.to_nat i) buf) in
           u32 (count_lines (length rest) rest)
         else 0) true
  end.

(** [VRBT_INSERT] does not replace; [VRBT_REMOVE] of a node that is not in the
    tree has no meaning. *)
Definition store_response (e : env) (c : pctx) (buf : bytes) (ret_token : Z)
    : outcome (pctx * Z) :=
  let k := cl c in
  let token_id := u32 (http_call_next_token k + 1) in
  let with_calls (t : gmap Z call_response) :=
    Calls t token_id (active_http_call k) (http_call_count k) in
  if negb (ok e 1%nat) then Done (set_cl c (with_calls (http_calls k)), PROXY_INTERNAL)
  else
    let present := bool_decide (is_Some (http_calls k !! token_id)) in
    let calls' :=
      if present then http_calls k else <[token_id := response_entry buf]> (http_calls k) in
    let! '(c', r) := write_u32 (set_cl c (with_calls calls')) ret_token token_id in
    if negb (r =? 0) then
      if present then Fault
      else Done (set_cl c' (with_calls (delete token_id calls')), PROXY_INTERNAL)
    else Done (c', PROXY_OK).

(** ** The handler *)

Definition vwasm_engine_get_http_pool (c : pctx) (p : option pool) : option pool :=
  match engine c with
  | None => None
  | Some _ => p
  end.

(** Connect: the pool afterwards, the descriptor (negative on failure), the
    pooled connection and the system calls. *)
Definition connect_upstream (e : env) (h : hnet) (p : option pool) (host : bytes)
    (port timeout_ms : Z) (ssrf_exempt : bool)
    : option pool * Z * option conn_ref * list io :=
  match p with
  | Some p =>
      let '(p, r, ev) :=
        vwasm_http_pool_acquire (N := h_net h timeout_ms) (ok e 2%nat) (h_acquire_time h) p
          host port ssrf_exempt in
      match r with
      | Some (f, conn) => (Some p, f, Some conn, ev)
      | None => (Some p, -1, None, ev)
      end
  | None =>
      let '(f, ev) :=
        pw_http_connect (h_getaddrinfo h host (dec port)) (h_attempt h timeout_ms) ssrf_exempt in
      (None, f, None, ev)
  end.

(** The part after the request was accepted. *)
Definition run_call (e : env) (h : hnet) (c : pctx) (pool : option pool) (host : bytes) (port : Z)
    (head : request_head) (body_ptr body_size timeout_ms ret_token : Z) (ssrf_exempt : bool)
    : outcome (pctx * option HttpPool.pool * list net_event * Z) :=
  let p := vwasm_engine_get_http_pool c pool in
  let back (p' : option HttpPool.pool) := match p with Some _ => p' | None => pool end in
  let keep := match p with Some _ => ssrf_exempt | None => false end in
  let request := request_text head host body_size keep in
  if request_buf_size <=? len request then Done (c, pool, [], PROXY_INTERNAL)
  else
    let '(p', f, conn, ev) := connect_upstream e h p host port timeout_ms ssrf_exempt in
    let ev := map NIo ev in
    if f <? 0 then Done (c, back (report h p' host port false), ev, PROXY_INTERNAL)
    else
      let! '(p', ev2, res) :=
        exchange e h c p' host port f conn request body_ptr body_size ssrf_exempt in
      match res with
      | inl status => Done (c, back p', ev ++ ev2, status)
      | inr buf =>
          let! '(c, r) := store_response e c buf ret_token in
          Done (c, back p', ev ++ ev2, r)
      end.

Definition pw_proxy_http_call (e : env) (h : hnet) (c : pctx) (pool : option pool) (args : list Z)
    : outcome (pctx * option HttpPool.pool * list net_event * Z) :=
  match args with
  | [a0; a1; a2; a3; a4; a5; _; _; a8; a9] =>
      let k := cl c in
      let bad (c : pctx) := Done (c, pool, [], PROXY_BAD_ARGUMENT) in
      if (0 <? http_call_max (cfg c)) && (http_call_max (cfg c) <=? http_call_count k) then bad c
      else
        let c := set_cl c (Calls (http_calls k) (http_call_next_token k) (active_http_call k)
                             (u32 (http_call_count k + 1))) in
        let timeout_ms := effective_timeout c (u32 a8) in
        let! s := read_string c (u32 a0) (u32 a1) 256 in
        match s with
        | None => bad c
        | Some upstream =>
            match pw_http_parse_upstream upstream 256 with
            | None => bad c
            | Some (host, port) =>
                match check_allowlist c host port with
                | None => bad c
                | Some ssrf_exempt =>
                    let! head := parse_head c (u32 a2) (u32 a3) in
                    match head with
                    | None => bad c
                    | Some head =>
                        if negb (head_ok head) then bad c
                        else if (0 <? u32 a5) && negb (pw_validate_region (w c) (u32 a4) (u32 a5))
                        then bad c
                        else run_call e h c pool host port head (u32 a4) (u32 a5) timeout_ms (u32 a9)
                               ssrf_exempt
                    end
                end
            end
        end
  | _ => Fault
  end.

(** * Properties *)

(** ** The request that is sent *)

(** A header line built from a pair. *)
Definition line_of (kv : bytes * bytes) : bytes := kv.1 ++ str ": " ++ kv.2.

Definition pair_clean (kv : bytes * bytes) : Prop :=
  pw_http_header_name_ok kv.1 = true /\ pw_http_header_value_ok kv.2 = true.

(** Lines, each followed by CRLF. *)
Definition join_lines (l : list bytes) : bytes := concat (map (fun x => x ++ crlf) l).

Definition extra_lines (extra : bytes) (l : list (bytes * bytes)) : Prop :=
  extra = join_lines (map line_of l) /\ Forall pair_clean l.

Lemma join_lines_app a b : join_lines (a ++ b) = join_lines a ++ join_lines b.
Proof. unfold join_lines. by rewrite map_app, concat_app. Qed.

Lemma join_lines_cons x l : join_lines (x :: l) = x ++ crlf ++ join_lines l.
Proof. unfold join_lines. cbn [map concat]. by rewrite <- app_assoc. Qed.

Lemma join_lines_nil : join_lines [] = [].
Proof. reflexivity. Qed.

Lemma line_free_nul s : Forall (fun c => c <> 0 /\ c <> 13 /\ c <> 10) s -> nul_free s.
Proof. intros H. eapply list.Forall_impl; [exact H|]. naive_solver. Qed.

Lemma name_line_free s :
  pw_http_header_name_ok s = true -> Forall (fun c => c <> 0 /\ c <> 13 /\ c <> 10) s.
Proof.
  intros H%name_ok_chars. eapply list.Forall_impl; [exact H|]. intros c Hc. simpl in Hc. lia.
Qed.

Lemma append_header_spec extra l sz k v extra' :
  extra_lines extra l -> pw_http_append_header extra sz k v = Some extra' ->
  extra_lines extra' (l ++ [(k, v)]).
Proof.
  intros [-> Hl]. unfold pw_http_append_header.
  destruct (pw_http_header_name_ok k) eqn:Ek; [|done].
  destruct (pw_http_header_value_ok v) eqn:Ev; [|done]. cbn [negb orb].
  split_if; [done|]. split_if; [done|]. cbv zeta. split_if; [done|]. intros [= <-].
  rewrite (cstr_nul_free k), (cstr_nul_free v)
    by (apply line_free_nul; first [by apply name_line_free|by apply value_ok_chars]).
  split.
  - rewrite map_app, join_lines_app. f_equal. unfold join_lines, line_of. simpl.
    by rewrite <- !app_assoc, app_nil_r.
  - apply Forall_app. split; [done|]. by constructor.
Qed.

Lemma take_string_safe data off n :
  0 <= off <= len data -> 0 <= n ->
  take_string data off n = Done None \/
  exists s, take_string data off n = Done (Some (s, off + n + 1)) /\ len s = n /\
    off + n + 1 <= len data.
Proof.
  intros Ho Hn. unfold take_string. split_if; [by left|].
  rewrite !rd_done by lia. cbn [obind]. destruct (bytes_eqb _ _); [|by left].
  right. eexists. split; [done|]. rewrite len_sub by lia. split; [done|lia].
Qed.

Lemma pairs_loop_safe n data hi off r l :
  0 <= hi -> 4 + (hi + Z.of_nat n) * 8 <= len data -> 0 <= off <= len data ->
  extra_lines (rh_extra r) l ->
  pairs_loop n data hi off r = Done None \/
  exists r' l', pairs_loop n data hi off r = Done (Some r') /\ extra_lines (rh_extra r') l'.
Proof.
  revert hi off r l. induction n as [|n IH]; intros hi off r l Hhi Hd Ho Hl; [right; by exists r, l|].
  cbn [pairs_loop]. rewrite !rd_done by lia. cbn [obind].
  pose proof (get_u32_range (sub data (4 + hi * 8) 4)) as Hk.
  pose proof (get_u32_range (sub data (4 + hi * 8 + 4) 4)) as Hv.
  destruct (take_string_safe data off (get_u32 (sub data (4 + hi * 8) 4)))
    as [->|(k & -> & _ & Ho2)]; [done|apply Hk|by left|]. cbn [obind].
  match goal with |- context [take_string data ?o ?m] =>
    destruct (take_string_safe data o m) as [->|(v & -> & _ & Ho3)];
      [unfold is_u32 in *; lia|apply Hv|by left|] end. cbn [obind].
  unfold is_u32 in *.
  destruct (bytes_eqb k (str ":method")); [eapply IH; [lia..|exact Hl]|].
  destruct (bytes_eqb k (str ":path")); [eapply IH; [lia..|exact Hl]|].
  destruct (_ && _); [|eapply IH; [lia..|exact Hl]].
  destruct (pw_http_append_header _ _ _ _) as [extra|] eqn:Ea; [|by left].
  eapply IH; [lia|lia|lia|]. by eapply append_header_spec.
Qed.

Lemma parse_head_safe c ptr size :
  is_u32 ptr -> is_u32 size ->
  parse_head c ptr size = Done None \/
  exists r l, parse_head c ptr size = Done (Some r) /\ extra_lines (rh_extra r) l.
Proof.
  intros Hp Hs. unfold parse_head.
  assert (extra_lines (rh_extra default_head) []) as H0 by (split; [done|constructor]).
  split_if; [right; by exists default_head, []|].
  destruct (size <? 4) eqn:E4; [by left|]. btest. cbn [orb].
  destruct (pw_validate_region _ _ _) eqn:Ev; [|by left]. cbn [negb].
  apply validate_region_iff in Ev; [|done..].
  rewrite (region_mem_ptr _ _ _ Ev), mem_read_region by done. cbn [obind].
  assert (len (sub (mem_bytes (w c)) ptr size) = size) as Hlen.
  { destruct Ev as (b & Hb & ? & ? & ?). unfold mem_bytes. rewrite Hb. apply len_sub; lia. }
  rewrite rd_done by lia. cbn [obind]. cbv zeta.
  match goal with |- context [get_u32 ?b] => pose proof (get_u32_range b) as Hn end.
  split_if; [by left|]. split_if; [by left|]. unfold is_u32 in Hn.
  eapply pairs_loop_safe; [lia|lia|lia|exact H0].
Qed.

Definition line_free (s : bytes) : Prop := Forall (fun c => c <> 0 /\ c <> 13 /\ c <> 10) s.

#[export] Instance line_free_dec s : Decision (line_free s).
Proof. unfold line_free. apply _. Defined.

(** The lines of a request with the pairs [l] as extra headers. *)
Definition request_lines (method path host : bytes) (body_size : Z) (keep : bool)
    (l : list (bytes * bytes)) : list bytes :=
  [method ++ str " " ++ path ++ str " HTTP/1.1"; str "Host: " ++ host] ++
  (if 0 <? body_size then [str "Content-Length: " ++ dec body_size] else []) ++
  [if keep then str "Connection: keep-alive" else str "Connection: close"] ++
  map line_of l ++ [[]].

Lemma dec_fuel_line_free fuel n acc : line_free acc -> line_free (dec_fuel fuel n acc).
Proof.
  revert n acc. induction fuel as [|fuel IH]; intros n acc Ha; cbn [dec_fuel]; [done|].
  assert (line_free ((48 + n mod 10) :: acc)).
  { constructor; [|done]. pose proof (Z.mod_pos_bound n 10). lia. }
  split_if; [done|]. by apply IH.
Qed.

Lemma dec_line_free n : line_free (dec n).
Proof. apply dec_fuel_line_free. constructor. Qed.

Lemma line_free_app a b : line_free a -> line_free b -> line_free (a ++ b).
Proof. intros. by apply Forall_app. Qed.

Lemma line_free_range s : Forall (fun c => 32 < c < 127) s -> line_free s.
Proof. intros H. eapply list.Forall_impl; [exact H|]. intros c Hc. simpl in Hc. lia. Qed.

Lemma lines_free l : Forall pair_clean l -> Forall line_free (map line_of l).
Proof.
  induction 1 as [|[k v] l [Hk Hv] _ IH]; simpl; constructor; [|done].
  apply line_free_app; [by apply name_line_free|]. apply line_free_app; [by_decide|].
  by apply value_ok_chars.
Qed.

Lemma join_lines_nul_free l : Forall line_free l -> nul_free (join_lines l).
Proof.
  induction 1 as [|x l Hx _ IH]; [constructor|]. unfold join_lines in *. cbn [map concat].
  apply Forall_app. split; [|done]. apply Forall_app. split; [by apply line_free_nul|].
  unfold crlf. by_decide.
Qed.

Lemma request_text_lines r host body_size keep l :
  head_ok r = true -> extra_lines (rh_extra r) l -> Forall host_char host ->
  request_text r host body_size keep =
    join_lines (request_lines (rh_method r) (rh_path r) host body_size keep l) /\
  Forall line_free (request_lines (rh_method r) (rh_path r) host body_size keep l).
Proof.
  unfold head_ok. intros Hok [Hx Hl] Hh. btest.
  destruct (method_ok_chars (rh_method r)) as [_ Hm]; [done|].
  destruct (path_ok_chars (rh_path r)) as [_ Hp]; [done|].
  assert (line_free (rh_method r)) as Fm
    by (apply line_free_range; eapply list.Forall_impl; [exact Hm|naive_solver]).
  assert (line_free (rh_path r)) as Fp by by apply line_free_range.
  assert (line_free host) as Fh.
  { apply line_free_range. eapply list.Forall_impl; [exact Hh|]. by intros c [Hc _]. }
  pose proof (lines_free l Hl) as Fl. split.
  - unfold request_text. rewrite Hx.
    rewrite !cstr_nul_free by (first [by apply join_lines_nul_free|by apply line_free_nul]).
    unfold request_lines. rewrite !join_lines_app, !join_lines_cons, join_lines_nil.
    destruct (0 <? body_size); rewrite ?join_lines_cons, ?join_lines_nil;
      generalize (join_lines (map line_of l)); intros ls; rewrite <- !app_assoc; do 10 f_equal.
  - unfold request_lines. rewrite !Forall_app.
    split_and!; [|destruct (0 <? body_size)| |done|repeat constructor].
    + constructor; [|constructor; [|constructor]].
      * repeat (apply line_free_app; [done || by_decide|]). by_decide.
      * apply line_free_app; [by_decide|done].
    + constructor; [|constructor]. apply line_free_app; [by_decide|apply dec_line_free].
    + constructor.
    + constructor; [|constructor]. destruct keep; by_decide.
Qed.

(** ** Storing *)

Lemma response_entry_wf buf : len buf <= 262144 -> wf_response (response_entry buf).
Proof.
  intros Hl. unfold response_entry. destruct (find_sub crlf2 buf) as [i|] eqn:E; [|done].
  apply find_sub_bound in E as [Hi Hb]. change (len crlf2) with 4 in Hb. split; simpl; [done|]. lia.
Qed.

(** A token never issued before is free. *)
Lemma token_fresh c n :
  wf_calls (cl c) -> http_call_next_token (cl c) <= n -> n < 4294967295 ->
  u32 (http_call_next_token (cl c) + 1) = http_call_next_token (cl c) + 1 /\
  http_calls (cl c) !! (http_call_next_token (cl c) + 1) = None.
Proof.
  intros (Hm & H0 & _) Hn Hlt. split; [zlia|].
  destruct (http_calls (cl c) !! _) as [r|] eqn:E; [|done].
  destruct (map_Forall_lookup_1 _ _ _ _ Hm E) as [_ ?]. lia.
Qed.

Section Safety.
Context `{G : Guest} `{V : Varnish} `{VL : !VarnishLaws} {M : Z} `{L : !MemLimit M}.

Lemma wf_calls_insert k t r :
  wf_calls k -> t = http_call_next_token k + 1 -> wf_response r ->
  wf_calls (Calls (<[t := r]> (http_calls k)) t (active_http_call k) (http_call_count k)).
Proof.
  intros (Hm & H0 & Ha) -> Hr. split_and!; simpl; [|lia|done].
  apply map_Forall_insert_2; [split; [done|lia]|].
  eapply map_Forall_impl; [exact Hm|]. intros i x [? ?]. split; [done|lia].
Qed.

Lemma wf_calls_next k t :
  wf_calls k -> t = http_call_next_token k + 1 ->
  wf_calls (Calls (http_calls k) t (active_http_call k) (http_call_count k)).
Proof.
  intros (Hm & H0 & Ha) ->. split_and!; simpl; [|lia|done].
  eapply map_Forall_impl; [exact Hm|]. intros i x [? ?]. split; [done|lia].
Qed.

Lemma wf_ctx_cl c k : wf_ctx M c -> wf_calls k -> wf_ctx M (set_cl c k).
Proof. intros (A & B & C & _ & D) Hk. exact (conj A (conj B (conj C (conj Hk D)))). Qed.

Lemma within_cl n m c k :
  within n c -> n <= m -> http_call_next_token k <= m -> within m (set_cl c k).
Proof. unfold within. simpl. intros (? & ? & ? & ?) ? ?. lia. Qed.

Lemma store_response_safe e n c buf ret :
  wf_ctx M c -> within n c -> 0 <= n < 4294967295 -> is_u32 ret -> len buf <= 262144 ->
  safe M (n + 1) (store_response e c buf ret).
Proof.
  intros Hc Hb Hn Hr Hl. pose proof Hc as (_ & _ & _ & Hk & _). pose proof Hb as (_ & _ & _ & Ht).
  destruct (token_fresh c n Hk Ht) as [E Hf]; [lia|]. unfold store_response. cbv zeta.
  rewrite E, Hf. rewrite bool_decide_eq_false_2 by by intros [? ?].
  assert (within (n + 1) c) as Hb1 by (eapply within_mono; [done|lia]).
  split_if.
  { apply safe_done; [apply wf_ctx_cl; [done|by apply wf_calls_next]|].
    eapply within_cl; [done|lia|simpl; lia]. }
  set (k' := Calls (<[_ := _]> _) _ _ _).
  assert (wf_calls k') as Hk' by (apply wf_calls_insert; [done..|by apply response_entry_wf]).
  apply safe_write; [by apply wf_ctx_cl|eapply within_cl; [done|lia|simpl; lia]|done|].
  intros c' r Hc' Hb' _. split_if; [|by apply safe_done].
  rewrite delete_insert_id by done.
  apply safe_done; [apply wf_ctx_cl; [done|by apply wf_calls_next]|].
  eapply within_cl; [done|lia|simpl; lia].
Qed.
End Safety.

(** ** The exchange *)

(** The bytes put on the wire. *)
Definition sent (tr : list net_event) : bytes :=
  concat (map (fun e => match e with NSent _ b => b | NIo _ => [] end) tr).

Definition connects (tr : list net_event) (a : sockaddr) : Prop := NIo (Connect a) ∈ tr.

Definition call_bytes (c : pctx) (ptr size : Z) : bytes :=
  if 0 <? size then sub (mem_bytes (w c)) ptr size else [].

Lemma sent_app a b : sent (a ++ b) = sent a ++ sent b.
Proof. unfold sent. by rewrite map_app, concat_app. Qed.

Lemma sent_io l : sent (map NIo l) = [].
Proof. induction l; [done|]. unfold sent in *. by simpl. Qed.

Lemma connects_io l a : connects (map NIo l) a <-> Connect a ∈ l.
Proof.
  unfold connects. induction l as [|x l IH]; simpl; [split; inversion 1|].
  rewrite !elem_of_cons, IH. naive_solver.
Qed.

Lemma connects_app x y a : connects (x ++ y) a <-> connects x a \/ connects y a.
Proof. apply elem_of_app. Qed.

Lemma release_closes now p r keep a : Connect a ∉ (vwasm_http_pool_release now p r keep).2.
Proof.
  unfold vwasm_http_pool_release.
  assert (forall c, Connect a ∉ (release_conn now c keep).2) as Hrc.
  { intros c. unfold release_conn. repeat split_if; cbn [snd]; set_solver. }
  destruct r as [i|c].
  - destruct (conns p !! i) as [c|]; [|set_solver]. specialize (Hrc c).
    by destruct (release_conn now c keep).
  - specialize (Hrc c). destruct (release_conn now c keep). cbn [snd] in *. split_if; set_solver.
Qed.

Lemma drop_conn_closes h p conn f a : Connect a ∉ (drop_conn h p conn f).2.
Proof.
  unfold drop_conn. destruct p as [p|], conn as [r|]; cbn [snd]; try set_solver.
  pose proof (release_closes (h_report_time h) p r false a) as Hr. unfold vwasm_http_pool_close.
  by destruct (vwasm_http_pool_release _ _ _ _).
Qed.

Lemma read_response_failed exempt evs s :
  r_complete (read_response exempt evs s) = false ->
  r_status (read_response exempt evs s) <> PROXY_OK.
Proof.
  unfold read_response. destruct (read_headers _ _ _ _) as [[[buf [i|]] evs1] s1]; [|done].
  cbv zeta. split_if; [done|].
  destruct (header_value buf (i + 4) "Content-Length") as [v|]; [|by split_if].
  destruct (pw_http_parse_size v) as [n|]; [|done]. split_if; [done|]. split_if; [done|].
  destruct (read_body _ _ _ _ _) as [[[buf' need] evs2] s2]. by split_if.
Qed.

Lemma framed_nonempty h body : framed h body -> len (h ++ body) <> 0.
Proof.
  intros ([_ Hf] & _). apply find_sub_bound in Hf as [Hi _]. rewrite len_app.
  pose proof (len_nonneg body). lia.
Qed.

(** Sending and receiving: no fault, nothing but [wire] on the wire, no new
    connection, and a response only after all of it was sent. *)
Definition exchange_post (wire : bytes)
    (o : outcome (option pool * list net_event * (Z + bytes))) : Prop :=
  exists p' ev res, o = Done (p', ev, res) /\ (exists x, wire = sent ev ++ x) /\
    (forall a, ~ connects ev a) /\
    (forall buf, res = inr buf ->
       sent ev = wire /\ len buf <= PW_HTTP_MAX_RESPONSE /\
       exists hd body, framed hd body /\ buf = hd ++ body) /\
    (forall st, res = inl st -> st <> PROXY_OK).

Lemma no_connect_io ev (io : list HttpPool.io) :
  (forall a, ~ connects ev a) -> (forall a, Connect a ∉ io) ->
  forall a, ~ connects (ev ++ map NIo io) a.
Proof.
  intros Hc Hio a [Ha|Ha]%connects_app; [by apply (Hc a)|]. apply connects_io in Ha.
  by apply (Hio a).
Qed.

Lemma abandon_post h p conn f host port wire ev :
  (exists x, wire = sent ev ++ x) -> (forall a, ~ connects ev a) ->
  exchange_post wire
    (let '(p, io) := drop_conn h p conn f in
     Done (report h p host port false, ev ++ map NIo io, inl PROXY_INTERNAL)).
Proof.
  intros Hx Hc. pose proof (drop_conn_closes h p conn f) as Hcl.
  destruct (drop_conn h p conn f) as [p1 io]. eexists _, _, _. split; [done|].
  rewrite sent_app, sent_io, app_nil_r. split_and!; [done|by apply no_connect_io|done|by intros st [= <-]].
Qed.

Lemma finish_post exempt evs s (p' : option pool) wire ev io :
  sent ev = wire -> (forall a, ~ connects ev a) -> (forall a, Connect a ∉ io) ->
  let r := read_response exempt evs s in
  exchange_post wire
    (Done (p', ev ++ map NIo io,
           if negb (r_complete r) || (len (r_buf r) =? 0) then inl (r_status r) else inr (r_buf r))).
Proof.
  intros Hw Hc Hio r. destruct (read_response_sound exempt evs s) as [Hl Hf]. fold r in Hl, Hf.
  eexists _, _, _. split; [done|]. rewrite sent_app, sent_io, app_nil_r.
  split; [exists []; by rewrite app_nil_r|]. split; [by apply no_connect_io|].
  pose proof (read_response_failed exempt evs s) as Hst. fold r in Hst.
  destruct (r_complete r); cbn [negb orb]; [|split; [done|]; intros st [= <-]; by apply Hst].
  destruct (Hf eq_refl) as (_ & hd & body & Hfr & Eb & _).
  rewrite (proj2 (Z.eqb_neq _ 0)) by (rewrite Eb; by eapply framed_nonempty).
  split; [|done]. intros buf [= <-]. split_and!; [done..|by exists hd, body].
Qed.

(** Sending the body, when there is one. *)
Lemma send_body_spec c f ptr size wevs request :
  (0 < size -> region (w c) ptr size) ->
  exists ev ok2,
    (if 0 <? size then
       match pw_mem_ptr (w c) ptr with
       | None => Done ([NSent f request], false)
       | Some q =>
           let! body := mem_read (w c) (Some q) size in
           let '(sent, ok2, _) := pw_http_write_all wevs body in
           Done ([NSent f request] ++ [NSent f sent], ok2)
       end
     else Done ([NSent f request], true)) = Done (ev, ok2) /\
    (exists x, request ++ call_bytes c ptr size = sent ev ++ x) /\
    (ok2 = true -> sent ev = request ++ call_bytes c ptr size) /\
    forall a, ~ connects ev a.
Proof.
  intros Hreg. unfold call_bytes. destruct (0 <? size) eqn:Es; btest.
  - rewrite (region_mem_ptr _ _ _ (Hreg Es)), mem_read_region by by apply Hreg. cbn [obind].
    destruct (pw_http_write_all wevs _) as [[s2 ok2] wevs2] eqn:E2. eexists _, _. split; [done|].
    unfold sent. cbn [map concat app]. rewrite app_nil_r. split_and!.
    + apply write_all_prefix in E2 as [x ->]. exists x. by rewrite app_assoc.
    + intros ->. by apply write_all_whole in E2 as ->.
    + intros a. unfold connects. set_solver.
  - eexists _, _. split; [done|]. unfold sent. cbn [map concat].
    split_and!; [by exists []; rewrite !app_nil_r|done|intros a; unfold connects; set_solver].
Qed.

Lemma exchange_spec e h c p host port f conn request ptr size exempt :
  (0 < size -> region (w c) ptr size) ->
  exchange_post (request ++ call_bytes c ptr size)
    (exchange e h c p host port f conn request ptr size exempt).
Proof.
  intros Hreg. unfold exchange.
  destruct (pw_http_write_all _ request) as [[s1 ok1] wevs] eqn:E1. cbv zeta.
  destruct ok1; cbn [negb].
  2:{ apply write_all_prefix in E1 as [x ->].
      apply abandon_post; [|intros a; unfold connects; set_solver].
      exists (x ++ call_bytes c ptr size). unfold sent. cbn [map concat].
      by rewrite app_nil_r, <- app_assoc. }
  apply write_all_whole in E1 as ->.
  destruct (send_body_spec c f ptr size wevs request Hreg) as (ev & ok2 & -> & Hx & Hw & Hc).
  cbn [obind]. destruct ok2; cbn [negb]; [|by apply abandon_post].
  destruct (ok e 0%nat); cbn [negb]; [|by apply abandon_post]. specialize (Hw eq_refl).
  destruct p as [p|], conn as [q|]; [|apply finish_post; [done..|set_solver]..].
  set (r := read_response _ _ _).
  pose proof (release_closes (h_report_time h) p q (r_reusable r)) as Hrel.
  destruct (vwasm_http_pool_release _ _ _ _) as [p1 io]. by apply finish_post.
Qed.

(** ** The call *)

Lemma connect_upstream_checked e h p host port t p' f conn ev a :
  connect_upstream e h p host port t false = (p', f, conn, ev) -> Connect a ∈ ev ->
  vwasm_http_addr_is_private (Some a) = false.
Proof.
  unfold connect_upstream. destruct p as [p|].
  - destruct (vwasm_http_pool_acquire _ _ _ _ _ _) as [[p1 r] ev1] eqn:E.
    apply acquire_checked in E as [Hev _].
    destruct r as [[f1 c1]|]; intros [= <- <- <- <-]; apply Hev.
  - pose proof (direct_not_private (h_getaddrinfo h host (dec port)) (h_attempt h t) a) as Hd.
    destruct (pw_http_connect _ _ _) as [f1 ev1]. by intros [= <- <- <- <-].
Qed.

(** The addresses a call for an upstream may connect to: of its host and port,
    as the pool resolves them, or as the resolver answers without a pool. *)
Definition upstream_address (h : hnet) (p : option pool) (t : Z) (host : bytes) (port : Z)
    (a : sockaddr) : Prop :=
  match p with
  | Some p => known_address (N := h_net h t) (h_acquire_time h) p host port a
  | None => exists l, h_getaddrinfo h host (dec port) = Some l /\ a ∈ l
  end.

Lemma direct_known res attempt exempt a :
  Connect a ∈ (pw_http_connect res attempt exempt).2 -> exists l, res = Some l /\ a ∈ l.
Proof.
  destruct res as [l|]; cbn [pw_http_connect snd]; [|set_solver]. intros Ha. exists l. split; [done|].
  induction l as [|b l IH]; cbn [connect_loop] in Ha; [set_solver|]. cbv zeta in Ha.
  destruct (_ && _); [right; by apply IH|]. destruct (_ <? _); [right; by apply IH|].
  destruct (da_connect _); [set_solver|]. destruct (_ && _); [set_solver|].
  destruct (connect_loop attempt exempt l) as [r ev]. cbn [snd] in *.
  rewrite !elem_of_cons in Ha. destruct Ha as [?|[[= ->]|[?|?]]]; [done|left|done|right; by apply IH].
Qed.

Lemma connect_upstream_known e h p host port t ex p' f conn ev a :
  connect_upstream e h p host port t ex = (p', f, conn, ev) -> Connect a ∈ ev ->
  upstream_address h p t host port a.
Proof.
  unfold connect_upstream, upstream_address. destruct p as [p|].
  - destruct (vwasm_http_pool_acquire _ _ _ _ _ _) as [[p1 r] ev1] eqn:E.
    pose proof (acquire_known (N := h_net h t) _ _ _ _ _ _ _ _ _ a E) as Hk.
    by destruct r as [[f1 c1]|]; intros [= <- <- <- <-].
  - pose proof (direct_known (h_getaddrinfo h host (dec port)) (h_attempt h t) ex a) as Hd.
    destruct (pw_http_connect _ _ _) as [f1 ev1]. by intros [= <- <- <- <-].
Qed.

(** The response was received whole after the whole request was sent, and is
    stored under the next token, which the guest finds at [ret]. *)
Definition stored (c c' : pctx) (ret : Z) : Prop :=
  let t := http_call_next_token (cl c) + 1 in
  exists h body, framed h body /\
    http_calls (cl c') = <[t := response_entry (h ++ body)]> (http_calls (cl c)) /\
    http_call_next_token (cl c') = t /\
    region (w c') ret 4 /\ sub (mem_bytes (w c')) ret 4 = le_bytes 4 t.

Section Call.
Context `{G : Guest} `{V : Varnish} `{VL : !VarnishLaws} {M : Z} `{L : !MemLimit M}.

(** What [run_call] guarantees. *)
Definition call_post (n : Z) (c : pctx) (wire : bytes) (exempt : bool) (ret : Z)
    (address : sockaddr -> Prop)
    (o : outcome (pctx * option pool * list net_event * Z)) : Prop :=
  exists c' p' tr r, o = Done (c', p', tr, r) /\ wf_ctx M c' /\ within (n + 1) c' /\
    cfg c' = cfg c /\ http_call_count (cl c') = http_call_count (cl c) /\
    (exists x, wire = sent tr ++ x) /\
    (exempt = false -> forall a, connects tr a -> vwasm_http_addr_is_private (Some a) = false) /\
    (forall a, connects tr a -> address a) /\
    (r = PROXY_OK -> sent tr = wire /\ stored c c' ret).

Lemma write_u32_cfg c off v c' r :
  is_u32 off -> write_u32 c off v = Done (c', r) ->
  cfg c' = cfg c /\ cl c' = cl c /\
  (r = 0 -> region (w c') off 4 /\ sub (mem_bytes (w c')) off 4 = le_bytes 4 v).
Proof.
  intros Ho. unfold write_u32. rewrite write_u32_spec by done. cbn [obind].
  case_decide as Hr; cbn [obind]; intros [= <- <-]; split_and!; try done; intros _.
  pose proof Hr as (b & Hb & ? & ? & ?). unfold region, mem_bytes. cbn [w set_w].
  unfold pw_mem_base in Hb |- *. cbn [memory_valid wasm_ctx memory set_memory].
  destruct (_ || _); [done|]. rewrite Hb.
  pose proof (len_le_bytes 4 v) as Hle. change (Z.of_nat 4) with 4 in Hle. split.
  - eexists. split; [done|]. rewrite len_upd by lia. lia.
  - rewrite <- Hle at 1. apply sub_upd_same; lia.
Qed.

Lemma store_response_frame e n c buf ret c' r :
  wf_ctx M c -> within n c -> 0 <= n < 4294967295 -> is_u32 ret ->
  (exists h body, framed h body /\ buf = h ++ body) ->
  store_response e c buf ret = Done (c', r) ->
  cfg c' = cfg c /\ http_call_count (cl c') = http_call_count (cl c) /\
  (r = PROXY_OK -> stored c c' ret).
Proof.
  intros (_ & _ & _ & Hk & _) (_ & _ & _ & Ht) Hn Hr (h & body & Hfr & ->).
  destruct (token_fresh c n Hk Ht) as [E Hf]; [lia|]. unfold store_response. cbv zeta.
  rewrite E, Hf. rewrite bool_decide_eq_false_2 by by intros [? ?].
  split_if; [by intros [= <- <-]|].
  destruct (write_u32 _ _ _) as [[c1 r1]|] eqn:Ew; [|done]. cbn [obind].
  apply write_u32_cfg in Ew as (Hcfg & Hcl & Hm); [|done].
  split_if; intros [= <- <-].
  - by cbn [cfg cl set_cl http_call_count].
  - rewrite Hcfg, Hcl. split_and!; [done..|]. intros _. unfold stored. rewrite Hcl.
    exists h, body. split_and!; try done; by apply Hm.
Qed.

Lemma run_call_spec e h n c pool host port head ptr size t ret exempt :
  wf_ctx M c -> within n c -> 0 <= n < 4294967295 -> is_u32 ret ->
  (0 < size -> region (w c) ptr size) ->
  let keep := match vwasm_engine_get_http_pool c pool with Some _ => exempt | None => false end in
  call_post n c (request_text head host size keep ++ call_bytes c ptr size) exempt ret
    (upstream_address h (vwasm_engine_get_http_pool c pool) t host port)
    (run_call e h c pool host port head ptr size t ret exempt).
Proof.
  intros Hc Hb Hn Hr Hreg keep. unfold run_call. cbv zeta. fold keep.
  generalize (request_text head host size keep). intros request.
  assert (within (n + 1) c) as Hb1 by (eapply within_mono; [done|lia]).
  split_if.
  { eexists c, _, [], _. split_and!; try done; [by eexists|intros _|]; intros a Ha;
      by apply not_elem_of_nil in Ha. }
  destruct (connect_upstream _ _ _ _ _ _ _) as [[[p1 f] conn] ev] eqn:Econ.
  assert (exempt = false -> forall a, Connect a ∈ ev ->
            vwasm_http_addr_is_private (Some a) = false) as Hpriv.
  { intros -> a Ha. by eapply connect_upstream_checked. }
  pose proof (fun a => connect_upstream_known _ _ _ _ _ _ _ _ _ _ _ a Econ) as Hadr.
  split_if.
  { eexists c, _, _, _. split_and!; try done.
    - rewrite sent_io. by eexists.
    - intros He a Ha. apply connects_io in Ha. by apply Hpriv.
    - intros a Ha. apply connects_io in Ha. by apply Hadr. }
  destruct (exchange_spec e h c p1 host port f conn request ptr size exempt Hreg)
    as (p2 & ev2 & res & -> & Hx & Hnc & Hok & Hst). cbn [obind].
  assert (exempt = false -> forall a, connects (map NIo ev ++ ev2) a ->
            vwasm_http_addr_is_private (Some a) = false) as Hpriv2.
  { intros He a [Ha|Ha]%connects_app; [|by destruct (Hnc a)].
    apply connects_io in Ha. by apply Hpriv. }
  assert (forall a, connects (map NIo ev ++ ev2) a ->
            upstream_address h (vwasm_engine_get_http_pool c pool) t host port a) as Hadr2.
  { intros a [Ha|Ha]%connects_app; [|by destruct (Hnc a)]. apply connects_io in Ha. by apply Hadr. }
  destruct res as [st|buf].
  { eexists c, _, _, _. split_and!; try done.
    - by rewrite sent_app, sent_io.
    - intros ->. by destruct (Hst _ eq_refl). }
  destruct (Hok buf eq_refl) as (Hsent & Hl & Hfr).
  destruct (store_response_safe (M := M) e n c buf ret) as (c' & r & Es & Hc' & Hb'); try done.
  rewrite Es. cbn [obind].
  destruct (store_response_frame e n c buf ret c' r Hc Hb Hn Hr Hfr Es) as (Hcfg & Hcnt & Hsto).
  eexists c', _, _, r. split; [done|]. rewrite sent_app, sent_io. split_and!; try done.
  intros Er. split; [done|by apply Hsto].
Qed.

(** The head of the request a call sends. *)
Definition clean_head (host : bytes) (size : Z) (text : bytes) : Prop :=
  exists method path keep l, pw_http_method_ok method = true /\ pw_http_path_ok path = true /\
    Forall pair_clean l /\
    text = join_lines (request_lines method path host size keep l) /\
    Forall line_free (request_lines method path host size keep l).

(** The upstream a call names: the string at its first two arguments. *)
Definition names_upstream (c : pctx) (args : list Z) (host : bytes) (port : Z) : Prop :=
  exists upstream,
    read_string c (u32 (nth 0 args 0)) (u32 (nth 1 args 0)) 256 = Done (Some upstream) /\
    pw_http_parse_upstream upstream 256 = Some (host, port).

(** The addresses of that upstream, for the timeout of the call. *)
Definition call_address (h : hnet) (c : pctx) (pool : option pool) (args : list Z) (host : bytes)
    (port : Z) (a : sockaddr) : Prop :=
  upstream_address h (vwasm_engine_get_http_pool c pool)
    (effective_timeout c (u32 (nth 8 args 0))) host port a.

(** The call went as far as connecting: to addresses of the upstream it names,
    only public ones unless the allowlist names the upstream; a prefix of one
    request was sent, and all of it if the call succeeded. *)
Definition sends (h : hnet) (c : pctx) (pool : option pool) (args : list Z) (c' : pctx)
    (tr : list net_event) (r : Z) : Prop :=
  let body := call_bytes c (u32 (nth 4 args 0)) (u32 (nth 5 args 0)) in
  exists host port exempt text, names_upstream c args host port /\
    (forall a, connects tr a -> call_address h c pool args host port a) /\
    check_allowlist c host port = Some exempt /\
    clean_head host (u32 (nth 5 args 0)) text /\
    (exists x, text ++ body = sent tr ++ x) /\
    (exempt = false -> forall a, connects tr a -> vwasm_http_addr_is_private (Some a) = false) /\
    (r = PROXY_OK -> sent tr = text ++ body /\ stored c c' (u32 (nth 9 args 0))).

(** What a call guarantees: it does not fault, and it is refused by the limit,
    refused for its arguments, or carried out. *)
Definition handler_post (h : hnet) (pool : option pool) (n : Z) (c : pctx) (args : list Z)
    (o : outcome (pctx * option HttpPool.pool * list net_event * Z)) : Prop :=
  exists c' p' tr r, o = Done (c', p', tr, r) /\ wf_ctx M c' /\ within (n + 1) c' /\
    cfg c' = cfg c /\
    ((c' = c /\ tr = [] /\ r = PROXY_BAD_ARGUMENT /\
      0 < http_call_max (cfg c) <= http_call_count (cl c)) \/
     ~ (0 < http_call_max (cfg c) <= http_call_count (cl c)) /\
     http_call_count (cl c') = u32 (http_call_count (cl c) + 1) /\
     ((tr = [] /\ r = PROXY_BAD_ARGUMENT) \/ sends h c pool args c' tr r)).

Lemma handler_spec e h n c pool args :
  Forall2 typed (replicate 10 I32) args -> wf_ctx M c -> within n c -> 0 <= n < 4294967295 ->
  handler_post h pool n c args (pw_proxy_http_call e h c pool args).
Proof.
  intros Ht Hc Hb Hn. cbn [replicate] in Ht.
  repeat match goal with
  | H : Forall2 _ (_ :: _) _ |- _ => inversion H; clear H; subst
  | H : Forall2 _ [] _ |- _ => inversion H; clear H; subst
  end.
  assert (within (n + 1) c) as Hb1 by (eapply within_mono; [done|lia]).
  unfold pw_proxy_http_call. cbv zeta.
  destruct (_ && _) eqn:Elim.
  { btest. exists c, pool, [], PROXY_BAD_ARGUMENT. split_and!; try done. left. by split_and!. }
  assert (~ (0 < http_call_max (cfg c) <= http_call_count (cl c))) as Hlim.
  { intros [Hm1 Hm2].
    by rewrite (proj2 (Z.ltb_lt _ _) Hm1), (proj2 (Z.leb_le _ _) Hm2) in Elim. }
  clear Elim.
  set (c1 := set_cl c _).
  assert (wf_ctx M c1 /\ within n c1 /\ within (n + 1) c1) as (Hc1 & Hn1 & Hn2).
  { split_and!; [|by destruct Hb|by destruct Hb1]. apply wf_ctx_cl; [done|]. apply Hc. }
  assert (handler_post h pool n c [y; y0; y1; y2; y3; y4; y5; y6; y7; y8]
            (Done (c1, pool, [], PROXY_BAD_ARGUMENT))) as Hbad.
  { exists c1, pool, [], PROXY_BAD_ARGUMENT. split_and!; try done. right. split_and!; try done. by left. }
  destruct (read_string c1 (u32 y) (u32 y0) 256) as [s|] eqn:Eread.
  2:{ unfold read_string in Eread. by rewrite read_string_spec in Eread by (apply is_u32_u32 || lia). }
  cbn [obind]. destruct s as [up|]; [|exact Hbad].
  destruct (pw_http_parse_upstream up 256) as [[host port]|] eqn:Eup; [|exact Hbad].
  destruct (check_allowlist c1 host port) as [exempt|] eqn:Eal; [|exact Hbad].
  destruct (parse_head_safe c1 (u32 y1) (u32 y2)) as [->|(head & l & -> & Hl)];
    [auto with vw..|exact Hbad|]. cbn [obind].
  destruct (head_ok head) eqn:Eok; [|exact Hbad]. cbn [negb].
  destruct (_ && negb _) eqn:Ebody; [exact Hbad|].
  assert (0 < u32 y4 -> region (w c1) (u32 y3) (u32 y4)) as Hreg.
  { intros Hlt. rewrite (proj2 (Z.ltb_lt _ _) Hlt) in Ebody. cbn [andb] in Ebody. btest.
    by apply validate_region_iff in Ebody; [|auto with vw..]. }
  destruct (run_call_spec e h n c1 pool host port head (u32 y3) (u32 y4)
              (effective_timeout c1 (u32 y7)) (u32 y8) exempt)
    as (c' & p' & tr & r & -> & Hc' & Hb' & Hcfg & Hcnt & Hx & Hpriv & Hadr & Hst);
    [done..|auto with vw|done|].
  exists c', p', tr, r. split_and!; try done. right. split_and!; try done. right.
  destruct (parse_upstream_spec _ _ _ _ Eup) as (Hhost & _ & _ & _).
  destruct (request_text_lines head host (u32 y4)
              (match vwasm_engine_get_http_pool c1 pool with Some _ => exempt | None => false end)
              l Eok Hl Hhost) as [Etext Hfree].
  eexists host, port, exempt, _. cbn [nth]. split_and!; try done; [by exists up|].
  eexists _, _, _, l. split_and!; [..|exact Etext|exact Hfree];
    unfold head_ok in Eok; btest; [done..|]. by destruct Hl.
Qed.
End Call.

(** ** The limit on calls *)

(** Consecutive calls from one context: the events of each. *)
Fixpoint run_calls (c : pctx) (p : option pool) (qs : list (env * hnet * list Z))
    : outcome (pctx * list (list net_event)) :=
  match qs with
  | [] => Done (c, [])
  | (e, h, args) :: qs =>
      let! '(c, p, tr, _) := pw_proxy_http_call e h c p args in
      let! '(c, trs) := run_calls c p qs in
      Done (c, tr :: trs)
  end.

(** The calls that reached the network. *)
Fixpoint active (trs : list (list net_event)) : Z :=
  match trs with
  | [] => 0
  | [] :: trs => active trs
  | _ :: trs => 1 + active trs
  end.

Section Claims.
Context `{G : Guest} `{V : Varnish} `{VL : !VarnishLaws} {M : Z} `{L : !MemLimit M}.

Lemma allowlist_named c l host port exempt :
  allowed_upstreams (cfg c) = Some l -> l <> [] -> nul_free host -> len host < 256 ->
  check_allowlist c host port = Some exempt ->
  exempt = true /\ exists u, u ∈ l /\ cstr u = host ++ str ":" ++ dec port.
Proof.
  intros El Hne Hnf Hlen. unfold check_allowlist. rewrite El. destruct l as [|u0 l]; [done|].
  cbv zeta. rewrite (cstr_nul_free host) by done.
  assert (nul_free (host ++ str ":" ++ dec port)) as Hn.
  { apply Forall_app. split; [done|]. apply Forall_app.
    split; [by_decide|apply line_free_nul, dec_line_free]. }
  rewrite take_ge.
  2:{ pose proof (dec_len port). rewrite !length_app. unfold len in *. change (length (str ":")) with 1%nat. lia. }
  destruct (existsb _ _) eqn:Ex; [|done]. intros [= <-]. split; [done|].
  apply existsb_exists in Ex as (u & Hu & Heq). exists u. split; [by apply list_elem_of_In|].
  unfold strcmp_eq in Heq. apply bytes_eqb_eq in Heq. by rewrite cstr_nul_free in Heq.
Qed.

(** C3 Confinement of callouts: a guest cannot make the host connect anywhere
    the operator did not intend.  Without an allowlist every connection of
    [proxy_http_call] goes to an address that is not private; with one, a call
    touches the network only when the host and port that its arguments name
    are literally on the list, and connects only to addresses that the
    resolver (or the cache of its answers) gives for that host, at that port. *)
Theorem http_call_confined e h n c pool args c' p' tr r :
  Forall2 typed (replicate 10 I32) args -> wf_ctx M c -> within n c -> 0 <= n < 4294967295 ->
  pw_proxy_http_call e h c pool args = Done (c', p', tr, r) ->
  (default [] (allowed_upstreams (cfg c)) = [] ->
     forall a, connects tr a -> vwasm_http_addr_is_private (Some a) = false) /\
  (forall l, allowed_upstreams (cfg c) = Some l -> l <> [] -> tr <> [] ->
     exists host port u, names_upstream c args host port /\
       u ∈ l /\ cstr u = host ++ str ":" ++ dec port /\
       forall a, connects tr a -> call_address h c pool args host port a).
Proof.
  intros Ht Hc Hb Hn E.
  destruct (handler_spec e h n c pool args Ht Hc Hb Hn) as (c0 & p0 & tr0 & r0 & E' & _ & _ & _ & Hcase).
  rewrite E in E'. simplify_eq.
  destruct Hcase as [(_ & -> & _)|(_ & _ & [(-> & _)|(host & port & ex & text & Hup & Had & Hal & _ & _ & Hpr & _)])];
    [by split; [intros _ a Ha; apply not_elem_of_nil in Ha|]..|].
  split.
  - intros El a Ha. refine (Hpr _ a Ha). unfold check_allowlist in Hal.
    destruct (allowed_upstreams (cfg c)) as [[|]|]; simpl in El; by simplify_eq.
  - intros l El Hne _. pose proof Hup as (up & _ & Hparse).
    destruct (parse_upstream_spec _ _ _ _ Hparse) as (Hh & _ & Hlen & _).
    destruct (allowlist_named c l host port ex El Hne) as (_ & u & Hu & Eu); [|lia|done|].
    + eapply list.Forall_impl; [exact Hh|]. intros z [? _]. lia.
    + by exists host, port, u.
Qed.

(** C11 No request injection: what a call puts on the wire is a prefix of one
    request, whose head is a request line, the Host, Content-Length and
    Connection lines, and one line per header pair of the guest, none of them
    containing CR, LF or NUL; the rest is the body from the guest's memory. *)
Theorem http_call_no_injection e h n c pool args c' p' tr r :
  Forall2 typed (replicate 10 I32) args -> wf_ctx M c -> within n c -> 0 <= n < 4294967295 ->
  pw_proxy_http_call e h c pool args = Done (c', p', tr, r) -> tr <> [] ->
  exists method path host keep l x,
    let lines := request_lines method path host (u32 (nth 5 args 0)) keep l in
    Forall line_free lines /\ Forall pair_clean l /\
    join_lines lines ++ call_bytes c (u32 (nth 4 args 0)) (u32 (nth 5 args 0)) = sent tr ++ x.
Proof.
  intros Ht Hc Hb Hn E Htr.
  destruct (handler_spec e h n c pool args Ht Hc Hb Hn) as (c0 & p0 & tr0 & r0 & E' & _ & _ & _ & Hcase).
  rewrite E in E'. simplify_eq.
  destruct Hcase as [(_ & -> & _)|(_ & _ & [(-> & _)|(host & port & ex & text & _ & _ & _ & Hcl & [x Hx] & _)])];
    [done..|].
  destruct Hcl as (m & p & keep & l & _ & _ & Hl & -> & Hf). by exists m, p, host, keep, l, x.
Qed.

(** C15 A call that reports success delivered: the whole request went out, a
    complete framed response came back, it is stored under a token that was
    not in use, the other responses are untouched, and the guest finds the
    token at the address it passed. *)
Theorem http_call_delivers e h n c pool args c' p' tr :
  Forall2 typed (replicate 10 I32) args -> wf_ctx M c -> within n c -> 0 <= n < 4294967295 ->
  pw_proxy_http_call e h c pool args = Done (c', p', tr, PROXY_OK) ->
  let t := http_call_next_token (cl c) + 1 in
  http_calls (cl c) !! t = None /\
  exists hd body, framed hd body /\
    http_calls (cl c') = <[t := response_entry (hd ++ body)]> (http_calls (cl c)) /\
    sub (mem_bytes (w c')) (u32 (nth 9 args 0)) 4 = le_bytes 4 t.
Proof.
  intros Ht Hc Hb Hn E t.
  destruct (handler_spec e h n c pool args Ht Hc Hb Hn) as (c0 & p0 & tr0 & r0 & E' & _ & _ & _ & Hcase).
  rewrite E in E'. simplify_eq.
  destruct Hcase as [(_ & _ & ? & _)|(_ & _ & [(_ & ?)|(host & port & ex & text & _ & _ & _ & _ & _ & _ & Hok)])];
    [done..|].
  split.
  - destruct Hc as (_ & _ & _ & Hk & _). destruct Hb as (_ & _ & _ & Hb).
    eapply token_fresh; [done|exact Hb|lia].
  - destruct (Hok eq_refl) as (_ & hd & body & Hf & Hm & _ & _ & Hsub). by exists hd, body.
Qed.

(** C20 The rate limit holds within the context of one execution, if it is not 0:
    of any sequence of calls of [proxy_http_call] with this context, at most
    [http_call_max], less the calls counted before, reach the network.  Each
    execution has a counter of its own, and a limit of 0 refuses no call
    ([zero_limit_never_refuses]). *)
Theorem http_call_limit qs n c pool :
  0 < http_call_max (cfg c) < 4294967296 -> 0 <= http_call_count (cl c) ->
  Forall (fun q => Forall2 typed (replicate 10 I32) q.2) qs ->
  wf_ctx M c -> within n c -> 0 <= n -> n + len qs < 4294967295 ->
  exists c' trs, run_calls c pool qs = Done (c', trs) /\
    active trs <= Z.max 0 (http_call_max (cfg c) - http_call_count (cl c)).
Proof.
  revert n c pool. induction qs as [|[[e h] args] qs IH]; intros n c pool Hmax Hcnt Hq Hc Hb Hn Hlen.
  { exists c, []. split; [done|]. simpl. lia. }
  inversion_clear Hq as [|?? Hargs Hrest]. simpl in Hargs. rewrite len_cons in Hlen.
  pose proof (len_nonneg qs). cbn [run_calls].
  destruct (handler_spec e h n c pool args Hargs Hc Hb) as (c1 & p1 & tr & r & -> & Hc1 & Hb1 & Hcfg & Hcase);
    [lia|]. cbn [obind].
  assert (0 <= http_call_count (cl c1)) as Hcnt1.
  { destruct Hcase as [(-> & _)|(_ & -> & _)]; [done|apply is_u32_u32]. }
  rewrite <- Hcfg in Hmax.
  destruct (IH (n + 1) c1 p1 Hmax Hcnt1 Hrest Hc1 Hb1) as (c2 & trs & -> & Ha); [lia|lia|].
  cbn [obind]. eexists _, _. split; [done|]. rewrite Hcfg in *.
  destruct Hcase as [(-> & -> & _ & Hl)|(Hl & Ec & _)]; [simpl; lia|].
  assert (http_call_count (cl c1) = http_call_count (cl c) + 1) as Ec' by (rewrite Ec; zlia).
  destruct tr; cbn [active]; lia.
Qed.

(** A limit of zero does not disable callouts: with [http_call_max = 0] the
    limit refuses no call, whatever was called before. *)
Theorem zero_limit_never_refuses e h n c pool args :
  http_call_max (cfg c) = 0 ->
  Forall2 typed (replicate 10 I32) args -> wf_ctx M c -> within n c -> 0 <= n < 4294967295 ->
  exists c' p' tr r, pw_proxy_http_call e h c pool args = Done (c', p', tr, r) /\
    http_call_count (cl c') = u32 (http_call_count (cl c) + 1) /\
    ((tr = [] /\ r = PROXY_BAD_ARGUMENT) \/ sends h c pool args c' tr r).
Proof.
  intros H0 Ht Hc Hb Hn.
  destruct (handler_spec e h n c pool args Ht Hc Hb Hn) as (c' & p' & tr & r & E & _ & _ & _ & Hcase).
  exists c', p', tr, r. split; [done|]. destruct Hcase as [(_ & _ & _ & ?)|(_ & ? & ?)]; [lia|done].
Qed.
End Claims.

(** ** A concrete world *)

Definition deaf_guest : Guest := {| guest_malloc := fun m _ => (m, None) |}.

#[export] Instance deaf_limit : @MemLimit deaf_guest 65536.
Proof. split; [lia|]. by intros m n Hm b ->%Hm. Defined.

(** A guest that calls [a:80] without headers or body, the token at 8. *)
Definition call_ctx (max : Z) (allowed : option (list bytes)) : pctx :=
  PCtx (Config 1 2 None None None 0 None max 0 allowed) None (Some (TickEngine [] (replicate 64 None)))
       (WCtx true true (Some (str "a:80" ++ replicate 8 0)) false)
       (LocalResponse false 0 None 0 None 0) (Bodies None false None false None false)
       (Stores None None None) (Calls ∅ 0 None 0) (Stream 0 false false) [] [].

Definition call_args : list Z := [0; 4; 0; 0; 0; 0; 0; 0; 0; 8].

Definition calm : hnet := {|
  h_net := fun _ => toy_net;
  h_getaddrinfo := fun _ _ => Some [AF_INET 167772161 80; AF_INET 16909060 80];
  h_attempt := fun _ _ => DirectAttempt 9 true false false false;
  h_peer := fun _ => Peer hello (replicate 50 (RAvail 10)) [Wrote 5; WIntr; Wrote 1000];
  h_acquire_time := 0;
  h_report_time := 0
|}.

Lemma call_ctx_wf max allowed : wf_ctx (VL := plain_laws) 65536 (call_ctx max allowed).
Proof.
  split_and!.
  - intros b [= <-]. by_decide.
  - by split_and!.
  - split_and!; by_decide.
  - split_and!; [apply map_Forall_empty|done|done].
  - by intros e [= <-].
  - done.
  - split; [done|constructor].
  - split; [done|constructor].
Qed.

Lemma call_ctx_within max allowed : within 0 (call_ctx max allowed).
Proof. by split_and!. Qed.

Lemma call_args_typed : Forall2 typed (replicate 10 I32) call_args.
Proof. repeat constructor; simpl; lia. Qed.

(** The results of the call, with the pool and without. *)
Definition call_result (max : Z) (allowed : option (list bytes)) (p : option pool) :=
  pw_proxy_http_call quiet_env calm (call_ctx max allowed) p call_args.

Definition result_trace (o : outcome (pctx * option pool * list net_event * Z)) : list net_event :=
  match o with Done (_, _, tr, _) => tr | Fault => [] end.

Lemma http_call_confined_witness :
  result_trace (call_result 0 None None) <> [] /\
  vwasm_http_addr_is_private (Some (AF_INET 16909060 80)) = false /\
  (exists host port u, names_upstream (call_ctx 0 (Some [str "a:80"])) call_args host port /\
     u ∈ [str "a:80"] /\ cstr u = host ++ str ":" ++ dec port /\
     call_address calm (call_ctx 0 (Some [str "a:80"])) (Some toy_pool) call_args host port
       (AF_INET 16909060 80)).
Proof.
  split; [vm_compute; discriminate|]. split.
  - destruct (call_result 0 None None) as [[[[c' p'] tr] r]|] eqn:E; [|vm_compute in E; discriminate].
    destruct (http_call_confined (M := 65536) (VL := plain_laws) quiet_env calm 0 (call_ctx 0 None) None
                call_args c' p' tr r call_args_typed (call_ctx_wf _ _) (call_ctx_within _ _)
                ltac:(lia) E) as [H _].
    apply H; [reflexivity|]. vm_compute in E. injection E as _ _ <- _. right. left.
  - destruct (call_result 0 (Some [str "a:80"]) (Some toy_pool)) as [[[[c' p'] tr] r]|] eqn:E;
      [|vm_compute in E; discriminate].
    destruct (http_call_confined (M := 65536) (VL := plain_laws) quiet_env calm 0
                (call_ctx 0 (Some [str "a:80"])) (Some toy_pool)
                call_args c' p' tr r call_args_typed (call_ctx_wf _ _) (call_ctx_within _ _)
                ltac:(lia) E) as [_ H].
    vm_compute in E. injection E as _ _ <- _.
    destruct (H [str "a:80"] eq_refl ltac:(discriminate) ltac:(discriminate))
      as (host & port & u & Hn & Hu & Eu & Ha).
    exists host, port, u. split; [exact Hn|]. split; [exact Hu|]. split; [exact Eu|].
    apply Ha. right. left.
Defined.

Lemma http_call_no_injection_witness :
  exists method path host keep l x,
    let lines := request_lines method path host 0 keep l in
    Forall line_free lines /\ Forall pair_clean l /\
    join_lines lines ++ call_bytes (call_ctx 0 None) 0 0 =
      sent (result_trace (call_result 0 None (Some toy_pool))) ++ x.
Proof.
  destruct (call_result 0 None (Some toy_pool)) as [[[[c' p'] tr] r]|] eqn:E;
    [|vm_compute in E; discriminate].
  apply (http_call_no_injection (M := 65536) (VL := plain_laws) quiet_env calm 0 (call_ctx 0 None)
           (Some toy_pool) call_args c' p' tr r call_args_typed (call_ctx_wf _ _)
           (call_ctx_within _ _) ltac:(lia) E).
  vm_compute in E. injection E as _ _ <- _. discriminate.
Defined.

Lemma http_call_delivers_witness :
  exists c' p' tr, call_result 0 None None = Done (c', p', tr, PROXY_OK) /\
    sub (mem_bytes (w c')) 8 4 = [1; 0; 0; 0].
Proof.
  destruct (call_result 0 None None) as [[[[c' p'] tr] r]|] eqn:E; [|vm_compute in E; discriminate].
  exists c', p', tr. assert (r = PROXY_OK) as -> by (vm_compute in E; injection E; intros; subst; done).
  split; [reflexivity|].
  destruct (http_call_delivers (M := 65536) (VL := plain_laws) quiet_env calm 0 (call_ctx 0 None) None
              call_args c' p' tr call_args_typed (call_ctx_wf _ _) (call_ctx_within _ _)
              ltac:(lia) E) as (_ & hd & body & _ & _ & H). exact H.
Defined.

Lemma http_call_limit_witness :
  exists c' trs, run_calls (call_ctx 2 None) None (replicate 5 (quiet_env, calm, call_args)) =
    Done (c', trs) /\ active trs = 2 /\ active trs <= 2.
Proof.
  destruct (http_call_limit (M := 65536) (VL := plain_laws) (replicate 5 (quiet_env, calm, call_args)) 0
              (call_ctx 2 None) None) as (c' & trs & E & H).
  - simpl. lia.
  - simpl. lia.
  - repeat constructor; simpl; lia.
  - apply call_ctx_wf.
  - apply call_ctx_within.
  - lia.
  - by_decide.
  - exists c', trs. split; [exact E|]. split; [|exact H]. vm_compute in E. injection E as _ <-. reflexivity.
Defined.

Lemma zero_limit_never_refuses_witness :
  exists c' p' tr r, call_result 0 None None = Done (c', p', tr, r) /\
    http_call_count (cl c') = 1.
Proof.
  destruct (zero_limit_never_refuses (M := 65536) (VL := plain_laws) quiet_env calm 0 (call_ctx 0 None)
              None call_args eq_refl call_args_typed (call_ctx_wf _ _) (call_ctx_within _ _)
              ltac:(lia)) as (c' & p' & tr & r & E & H & _).
  exists c', p', tr, r. split; [exact E|exact H].
Defined.
