(* ===== verification/Compat.v ===== *)
(** * Copies and socket options of the connection pool

    [strlcpy] as src/compat.h defines it where the C library has none: every
    copy of a host name into a field of the pool goes through it, and
    [HttpPool] writes its result as [take 255 (cstr host)].  Then the options
    [http_pool.c] sets on a socket: [O_NONBLOCK] for the time of [connect], and
    the timeouts of reads and writes. *)

From S2P Require Import Prelude HttpAddr Breaker HttpPool.

(** [dst]: the bytes of the destination; [Fault]: a read or write outside. *)
Definition strlcpy (dst src : bytes) (dstsize : Z) : outcome (bytes * Z) :=
  let srclen := strlen src in
  if 0 <? dstsize then
    let copylen := if dstsize <=? srclen then dstsize - 1 else srclen in
    let! s := rd src 0 copylen in
    let! dst := wr dst 0 s in
    let! dst := wr dst copylen [0] in
    Done (dst, srclen)
  else Done (dst, srclen).

(** ** The file status flags of a descriptor

    [getfl] and [setfl]: what [fcntl] returns for [F_GETFL] and [F_SETFL]; the
    result and the flags afterwards. *)

Section Fcntl.
Context (O_NONBLOCK : Z).

Definition set_flags (getfl setfl flags new : Z) : Z * Z :=
  if getfl =? -1 then (-1, flags)
  else (setfl, if setfl =? -1 then flags else new).

Definition set_nonblocking (getfl setfl : Z) : Z * Z :=
  set_flags getfl setfl getfl (Z.lor getfl O_NONBLOCK).

Definition set_blocking (getfl setfl : Z) : Z * Z :=
  set_flags getfl setfl getfl (Z.land getfl (Z.lnot O_NONBLOCK)).
End Fcntl.

(** The [struct timeval] that [set_io_timeouts] passes to [setsockopt]. *)
Definition set_io_timeouts (timeout_ms : Z) : Z * Z :=
  let timeout_ms := if timeout_ms =? 0 then VWASM_HTTP_DEFAULT_TIMEOUT_MS else timeout_ms in
  (timeout_ms / 1000, timeout_ms mod 1000 * 1000).

(** * Properties *)

Lemma rd_strlen b n : 0 <= n <= strlen b -> rd b 0 n = Done (take (Z.to_nat n) (cstr b)).
Proof.
  intros Hn. pose proof (len_cstr_le b). unfold strlen in Hn.
  rewrite rd_done by lia. unfold sub. cbn [Z.to_nat drop]. f_equal.
  rewrite <- take_strlen, take_take. f_equal. unfold strlen. lia.
Qed.

(** Two writes, the second behind the first. *)
Lemma wr_wr b s x :
  len s + len x <= len b ->
  obind (wr b 0 s) (fun b => wr b (len s) x) = Done (s ++ x ++ drop (length s + length x) b).
Proof.
  intros Hl. pose proof (len_nonneg s). pose proof (len_nonneg x).
  rewrite wr_done by lia. cbn [obind]. rewrite wr_done by (rewrite ?len_upd; lia).
  unfold upd. change (Z.to_nat 0) with 0%nat. rewrite take_0. cbn [app Nat.add].
  unfold len. rewrite Nat2Z.id, take_app_length.
  do 3 f_equal. rewrite drop_app, drop_ge, drop_drop by lia. cbn [app]. f_equal. lia.
Qed.

(** [strlcpy] stays inside the destination, leaves what lies behind
    [dstsize] alone, returns the length of the source, and the copy is the
    source cut to [dstsize - 1] characters. *)
Lemma strlcpy_exact dst src n :
  0 <= n <= len dst ->
  exists dst', strlcpy dst src n = Done (dst', strlen src) /\ len dst' = len dst /\
    drop (Z.to_nat n) dst' = drop (Z.to_nat n) dst /\
    (0 < n -> cstr dst' = take (Z.to_nat (n - 1)) (cstr src)).
Proof.
  intros Hn. unfold strlcpy. cbv zeta. split_if; [|exists dst; split_and!; [done|done|done|lia]].
  set (k := if n <=? strlen src then n - 1 else strlen src).
  assert (0 <= k <= strlen src /\ k < n) as [Hk Hkn].
  { pose proof (len_nonneg (cstr src)). unfold k. split_if; unfold strlen in *; lia. }
  rewrite rd_strlen by lia. cbn [obind].
  set (s := take (Z.to_nat k) (cstr src)).
  assert (len s = k) as Hs by (unfold s, len, strlen, len in *; rewrite length_take; lia).
  pose proof (wr_wr dst s [0]) as Hw. rewrite Hs, len_cons, len_nil in Hw. specialize (Hw ltac:(lia)).
  destruct (wr dst 0 s) as [d|] eqn:E; cbn [obind] in *; [|done]. rewrite Hw. cbn [obind].
  assert (length s = Z.to_nat k) as Hs' by (unfold len in Hs; lia).
  eexists. split; [done|]. split_and!.
  - rewrite !len_app, len_cons, len_nil. unfold len in *. rewrite length_drop. simpl. lia.
  - rewrite app_assoc, drop_app, drop_ge by (rewrite length_app; simpl; lia). cbn [app].
    rewrite drop_drop, length_app. f_equal. simpl. unfold len in *. lia.
  - intros _. rewrite cstr_app by (apply Forall_take, nul_free_cstr). cbn [app cstr Z.eqb].
    rewrite app_nil_r. unfold s, k. split_if; [done|].
    rewrite !take_ge; [done|unfold strlen, len in *; lia..].
Qed.

(** The field of the pool: what [HttpPool] stores for a host name. *)
Lemma strlcpy_host field host :
  len field = 256 ->
  exists field', strlcpy field host 256 = Done (field', strlen host) /\
    cstr field' = take 255 (cstr host).
Proof.
  intros Hf. destruct (strlcpy_exact field host 256) as (f' & E & _ & _ & Hc); [lia|].
  exists f'. split; [done|]. by apply Hc.
Qed.

(** A socket made non-blocking for [connect] is blocking again afterwards, with
    the flags it had. *)
Lemma blocking_restored O_NONBLOCK flags r1 r2 :
  flags <> -1 -> Z.lor flags O_NONBLOCK <> -1 -> Z.land flags O_NONBLOCK = 0 -> r1 <> -1 -> r2 <> -1 ->
  set_blocking O_NONBLOCK (set_nonblocking O_NONBLOCK flags r1).2 r2 = (r2, flags).
Proof.
  intros Hf Hg Hd H1 H2. unfold set_blocking, set_nonblocking, set_flags.
  apply Z.eqb_neq in Hf, Hg, H1, H2. rewrite Hf, H1. cbn [snd]. rewrite Hg, H2. f_equal. rewrite <- Z.ldiff_land. apply Z.bits_inj'. intros i Hi.
  rewrite Z.ldiff_spec, Z.lor_spec.
  apply (f_equal (fun z => Z.testbit z i)) in Hd.
  rewrite Z.land_spec, Z.bits_0 in Hd.
  destruct (Z.testbit flags i), (Z.testbit O_NONBLOCK i); done.
Qed.

(** The timeouts of a socket are those asked for, to the microsecond, and
    never zero, which would mean none. *)
Lemma io_timeouts_exact ms :
  is_u32 ms ->
  let '(sec, usec) := set_io_timeouts ms in
  0 <= sec /\ 0 <= usec < 1000000 /\ 0 < sec * 1000000 + usec /\
  sec * 1000000 + usec = 1000 * (if ms =? 0 then 1000 else ms).
Proof.
  unfold set_io_timeouts, is_u32, VWASM_HTTP_DEFAULT_TIMEOUT_MS. cbv zeta. intros Hm.
  assert (0 < (if ms =? 0 then 1000 else ms)) as Hp by (split_if; lia).
  generalize dependent (if ms =? 0 then 1000 else ms). intros t Ht.
  pose proof (Z.div_mod t 1000 ltac:(lia)). pose proof (Z.mod_pos_bound t 1000 ltac:(lia)). lia.
Qed.
