(* ===== verification/Descriptors.v ===== *)
(** * File descriptors of callouts (src/http_pool.c, src/proxy_wasm_http.c)

    Which sockets are open, followed through the system calls of connecting,
    keeping, evicting and releasing connections.  [HttpPool] and [HttpCall]
    record these calls; here they act on the table of open descriptors of the
    process, where closing a descriptor that is not open is a fault.  The pool
    owns the descriptors of its slots; the last part is
    [vwasm_http_pool_destroy], which closes them. *)

From S2P Require Import Prelude Mem SharedData SharedQueue Metrics Ctx HostCalls.
From S2P Require Import Headers Properties HttpAddr Breaker HttpPool HttpParse HttpIo HttpCall.

(** ** The descriptor table *)

(** Remove one occurrence. *)
Fixpoint remove_fd (f : Z) (open : list Z) : option (list Z) :=
  match open with
  | [] => None
  | g :: open => if f =? g then Some open else option_map (cons g) (remove_fd f open)
  end.

Fixpoint fd_run (open : list Z) (tr : list io) : outcome (list Z) :=
  match tr with
  | [] => Done open
  | Socket f :: tr => fd_run (f :: open) tr
  | Connect _ :: tr => fd_run open tr
  | Close f :: tr =>
      match remove_fd f open with
      | None => Fault
      | Some open => fd_run open tr
      end
  end.

(** The descriptors the slots of a pool hold. *)
Definition fd_of (c : conn) : list Z := if 0 <=? fd c then [fd c] else [].
Definition fds (l : list conn) : list Z := concat (map fd_of l).

(** The loop of [vwasm_http_pool_destroy] over the connections. *)
Fixpoint close_conns (l : list conn) : list io :=
  match l with
  | [] => []
  | c :: l => if 0 <=? fd c then Close (fd c) :: close_conns l else close_conns l
  end.

Definition vwasm_http_pool_destroy (p : option pool) : list io :=
  match p with
  | None => []
  | Some p => close_conns (conns p)
  end.

(** The system calls of a trace. *)
Definition ios (tr : list net_event) : list io :=
  omap (fun e => match e with NIo x => Some x | NSent _ _ => None end) tr.

(** ** Accounting

    [transfers l1 tr l2]: where the descriptors [l1] are open, among any others,
    the calls [tr] close only open descriptors and leave [l2] open and the
    others as they were. *)

Definition transfers (l1 : list Z) (tr : list io) (l2 : list Z) : Prop :=
  forall others open, open ≡ₚ l1 ++ others ->
    exists open', fd_run open tr = Done open' /\ open' ≡ₚ l2 ++ others.

Lemma fd_run_app open tr1 tr2 :
  fd_run open (tr1 ++ tr2) = let! o := fd_run open tr1 in fd_run o tr2.
Proof.
  revert open. induction tr1 as [|e tr1 IH]; intros open; [done|].
  destruct e as [f|a|f]; cbn [app fd_run]; [apply IH..|]. destruct (remove_fd f open); [apply IH|done].
Qed.

Lemma transfers_nil l1 l2 : l1 ≡ₚ l2 -> transfers l1 [] l2.
Proof. intros Hl others open Ho. exists open. split; [done|]. by rewrite Ho, Hl. Qed.

Lemma transfers_app l1 l2 l3 tr1 tr2 :
  transfers l1 tr1 l2 -> transfers l2 tr2 l3 -> transfers l1 (tr1 ++ tr2) l3.
Proof.
  intros H1 H2 others open Ho. destruct (H1 others open Ho) as (o & E & Ho').
  rewrite fd_run_app, E. cbn [obind]. by apply H2.
Qed.

Lemma transfers_perm l1 l1' tr l2 l2' :
  transfers l1 tr l2 -> l1' ≡ₚ l1 -> l2 ≡ₚ l2' -> transfers l1' tr l2'.
Proof.
  intros H H1 H2 others open Ho. destruct (H others open) as (o & E & Ho'); [by rewrite Ho, H1|].
  exists o. split; [done|]. by rewrite Ho', H2.
Qed.

Lemma transfers_frame g l1 tr l2 : transfers l1 tr l2 -> transfers (g ++ l1) tr (g ++ l2).
Proof.
  intros H others open Ho. destruct (H (g ++ others) open) as (o & E & Ho').
  - rewrite Ho. solve_Permutation.
  - exists o. split; [done|]. rewrite Ho'. solve_Permutation.
Qed.

Lemma transfers_socket f tr l1 l2 : transfers (f :: l1) tr l2 -> transfers l1 (Socket f :: tr) l2.
Proof. intros H others open Ho. cbn [fd_run]. apply H. by rewrite Ho. Qed.

Lemma transfers_connect a tr l1 l2 : transfers l1 tr l2 -> transfers l1 (Connect a :: tr) l2.
Proof. intros H. exact H. Qed.

Lemma remove_fd_perm f open l : open ≡ₚ f :: l -> exists o, remove_fd f open = Some o /\ o ≡ₚ l.
Proof.
  revert l. induction open as [|g open IH]; intros l Ho; [by apply Permutation_nil_cons in Ho|].
  cbn [remove_fd]. destruct (f =? g) eqn:E; btest; subst.
  - exists open. split; [done|]. by apply Permutation_cons_inv in Ho.
  - assert (g ∈ l) as Hg.
    { assert (g ∈ f :: l) as H by (rewrite <- Ho; left). apply elem_of_cons in H as [H|H]; [lia|done]. }
    apply elem_of_Permutation in Hg as [k Hk]. rewrite Hk in Ho.
    destruct (IH k) as (o & -> & Hp).
    { apply (Permutation_cons_inv (a := g)). rewrite Ho. constructor. }
    exists (g :: o). split; [done|]. by rewrite Hp, Hk.
Qed.

Lemma transfers_close f tr l1 l2 : transfers l1 tr l2 -> transfers (f :: l1) (Close f :: tr) l2.
Proof.
  intros H others open Ho. cbn [fd_run]. destruct (remove_fd_perm f open (l1 ++ others) Ho) as (o & -> & Hp).
  by apply H.
Qed.

Lemma fds_app l1 l2 : fds (l1 ++ l2) = fds l1 ++ fds l2.
Proof. unfold fds. by rewrite map_app, concat_app. Qed.

Lemma fds_cons c l : fds (c :: l) = fd_of c ++ fds l.
Proof. done. Qed.

(** The descriptors with one slot replaced. *)
Lemma fds_insert l i c c' :
  l !! i = Some c -> exists r, fds l ≡ₚ fd_of c ++ r /\ fds (<[i := c']> l) ≡ₚ fd_of c' ++ r.
Proof.
  intros H. exists (fds (take i l) ++ fds (drop (S i) l)).
  rewrite insert_take_drop by by eapply lookup_lt_Some.
  rewrite <- (take_drop_middle l i c H) at 1. rewrite !fds_app, !fds_cons.
  split; solve_Permutation.
Qed.

(** ** The pool *)

Section Pool.
Context `{N : Net}.

Lemma connect_transfers a addr f ev :
  connect_with_timeout a addr = (f, ev) -> transfers [] ev (if 0 <=? f then [f] else []).
Proof.
  unfold connect_with_timeout. destruct (a_socket a <? 0) eqn:E; btest.
  { intros [= <- <-]. by apply transfers_nil. }
  repeat split_if; intros [= <- <-];
    repeat first [apply transfers_socket|apply transfers_connect|apply transfers_close];
    first [by apply transfers_nil|lia].
Qed.

Lemma reuse_transfers now exempt host port age req l l' r ev :
  reuse_loop now exempt host port age req l = (l', r, ev) ->
  transfers (fds l) ev (fds l') /\
  (forall i f, r = Some (i, f) -> exists c, l' !! i = Some c /\ fd c = f /\ 0 <= f).
Proof.
  revert l' r ev. induction l as [|c l IH]; intros l' r ev; cbn [reuse_loop].
  { intros [= <- <- <-]. split; [by apply transfers_nil|done]. }
  destruct (reuse_loop now exempt host port age req l) as [[l1 r1] ev1] eqn:E.
  destruct (IH l1 r1 ev1 eq_refl) as [Ht Hr].
  assert (forall i f, match r1 with Some (i, f) => Some (S i, f) | None => None end = Some (i, f) ->
    forall x, exists c, (x :: l1) !! i = Some c /\ fd c = f /\ 0 <= f) as Hr'.
  { intros i f H x. destruct r1 as [[j g]|]; [|done]. simplify_eq. by apply Hr. }
  assert (transfers (fds (c :: l)) ev1 (fds (c :: l1))) as Hskip
    by (rewrite !fds_cons; by apply transfers_frame).
  destruct (negb exempt); [intros [= <- <- <-]; eauto|].
  destruct ((fd c <? 0) || in_use c) eqn:Ef; [intros [= <- <- <-]; eauto|]. btest.
  destruct (negb _ || _); [intros [= <- <- <-]; eauto|].
  assert (fd_of c = [fd c]) as Hc by (unfold fd_of; by rewrite (proj2 (Z.leb_le _ _)) by lia).
  assert (transfers (fds (c :: l)) (Close (fd c) :: ev1)
    (fds (Conn (-1) (c_host c) (c_port c) (last_used c) (created_at c) (in_use c) (keep_alive c)
       (requests_served c) :: l1))) as Hdrop
    by (rewrite !fds_cons, Hc; by apply transfers_close).
  repeat (split_if; [intros [= <- <- <-]; eauto|]).
  intros [= <- <- <-]. split; [apply transfers_nil; by rewrite !fds_cons|].
  intros i f [= <- <-]. eexists. split; [done|]. simpl. lia.
Qed.
(** What a caller holds of an acquired connection: the slot has its descriptor,
    or the connection is the caller's own and will not be kept. *)
Definition held (r : option (Z * conn_ref)) : list Z :=
  match r with Some (f, Heap _) => [f] | _ => [] end.

Definition conn_ok (p : pool) (r : option (Z * conn_ref)) : Prop :=
  match r with
  | None => True
  | Some (f, Slot i) => 0 <= f /\ exists c, conns p !! i = Some c /\ fd c = f
  | Some (f, Heap c) => 0 <= f /\ fd c = f /\ keep_alive c = false
  end.

Lemma free_slot_some l i : free_slot l = Some i -> exists c, l !! i = Some c /\ fd_of c = [].
Proof.
  revert i. induction l as [|c l IH]; intros i; cbn [free_slot]; [done|].
  destruct (0 <=? fd c) eqn:E.
  - destruct (free_slot l) as [j|]; [|done]. intros [= <-]. by apply IH.
  - intros [= <-]. exists c. split; [done|]. unfold fd_of. by rewrite E.
Qed.

Lemma evict_scan_some l i t best j :
  evict_scan l i t best = Some j ->
  best = Some j \/ exists k c, j = (i + k)%nat /\ l !! k = Some c /\ 0 <= fd c.
Proof.
  revert i t best. induction l as [|c l IH]; intros i t best; cbn [evict_scan]; [by left|].
  split_if; intros Hj; apply IH in Hj as [Hj|(k & c' & -> & Hk & Hf)].
  - simplify_eq. right. exists 0%nat, c. split_and!; [lia|done|lia].
  - right. exists (S k), c'. split_and!; [lia|done|done].
  - by left.
  - right. exists (S k), c'. split_and!; [lia|done|done].
Qed.

Lemma place_transfers hok now p host port f p' r ev :
  0 <= f -> place hok now p host port f = (p', r, ev) ->
  transfers (f :: fds (conns p)) ev (fds (conns p') ++ held r) /\ conn_ok p' r.
Proof.
  intros Hf. unfold place.
  assert (fd_of (fresh_conn f host port now true) = [f]) as Hnew
    by (unfold fd_of; simpl; by rewrite (proj2 (Z.leb_le _ _) Hf)).
  destruct (free_slot (conns p)) as [i|] eqn:Ei.
  { apply free_slot_some in Ei as (c & Hc & Hnone). intros [= <- <- <-]. cbn [conns set_conns held].
    destruct (fds_insert _ _ _ (fresh_conn f host port now true) Hc) as (k & H1 & H2).
    rewrite Hnone in H1. rewrite Hnew in H2. split.
    - apply transfers_nil. rewrite H1, H2. by rewrite app_nil_r.
    - split; [done|]. eexists. split; [apply list_lookup_insert_eq; by eapply lookup_lt_Some|done]. }
  destruct (evict_scan _ _ _ _) as [i|] eqn:Ev.
  { apply evict_scan_some in Ev as [?|(k & c & -> & Hc & Hfc)]; [done|]. simpl in Hc |- *. rewrite Hc.
    intros [= <- <- <-]. cbn [conns set_conns held].
    destruct (fds_insert _ _ _ (fresh_conn f host port now true) Hc) as (r0 & H1 & H2).
    assert (fd_of c = [fd c]) as Ec by (unfold fd_of; by rewrite (proj2 (Z.leb_le _ _) Hfc)).
    rewrite Ec in H1. rewrite Hnew in H2. split.
    - eapply transfers_perm; [apply (transfers_close _ _ (f :: r0)); by apply transfers_nil|..].
      + rewrite H1. solve_Permutation.
      + rewrite H2. by rewrite app_nil_r.
    - split; [done|]. eexists. split; [apply list_lookup_insert_eq; by eapply lookup_lt_Some|done]. }
  destruct hok; cbn [negb]; intros [= <- <- <-]; cbn [conns set_conns held].
  - split; [apply transfers_nil; solve_Permutation|]. by split_and!.
  - split; [|done]. apply transfers_close, transfers_nil. by rewrite app_nil_r.
Qed.

Lemma resolve_conns now p host port : conns (vwasm_http_pool_resolve now p host port).1 = conns p.
Proof.
  unfold vwasm_http_pool_resolve. destruct (dns_lookup _ _ _ _); [done|]. by destruct (getaddrinfo _ _).
Qed.

Lemma acquire_transfers hok now p host port exempt p' r ev :
  vwasm_http_pool_acquire hok now p host port exempt = (p', r, ev) ->
  transfers (fds (conns p)) ev (fds (conns p') ++ held r) /\ conn_ok p' r.
Proof.
  unfold vwasm_http_pool_acquire. destruct (vwasm_http_pool_cb_allow _ _ _ _) as [b rc].
  assert (transfers (fds (conns p)) [] (fds (conns p) ++ [])) as Hnil
    by (apply transfers_nil; by rewrite app_nil_r).
  split_if; [by intros [= <- <- <-]|].
  destruct (reuse_loop _ _ _ _ _ _ _) as [[l found] ev1] eqn:El.
  apply reuse_transfers in El as [Ht Hfound]. cbn [conns set_cbs] in Ht.
  destruct found as [[i f]|].
  { intros [= <- <- <-]. cbn [conns set_conns held]. rewrite app_nil_r. split; [done|].
    destruct (Hfound i f eq_refl) as (c & Hc & <- & H0). split; [done|]. by exists c. }
  set (p1 := set_conns (set_cbs p b) l 0 0 0 0 0 0).
  pose proof (resolve_conns now p1 host port) as Hconns.
  destruct (vwasm_http_pool_resolve now p1 host port) as [p2 [addr|]]; cbn [fst] in Hconns;
    [|intros [= <- <- <-]; rewrite Hconns, app_nil_r; by split].
  split_if; [intros [= <- <- <-]; rewrite Hconns, app_nil_r; by split|].
  destruct (connect_with_timeout _ _) as [f ev2] eqn:Ec. apply connect_transfers in Ec.
  apply (transfers_frame (fds l)) in Ec. rewrite app_nil_r in Ec.
  destruct (f <? 0) eqn:Ef; btest.
  { intros [= <- <- <-]. rewrite Hconns, app_nil_r. split; [|done].
    rewrite (proj2 (Z.leb_gt _ _)), app_nil_r in Ec by lia. by eapply transfers_app. }
  destruct (place _ _ _ _ _ _) as [[p3 res] ev3] eqn:Ep.
  apply place_transfers in Ep as [Hp Hok]; [|lia]. intros [= <- <- <-]. split; [|done].
  rewrite (proj2 (Z.leb_le _ _)) in Ec by lia. eapply transfers_app; [done|].
  eapply transfers_app; [exact Ec|]. eapply transfers_perm; [exact Hp| |done].
  rewrite Hconns. simpl. solve_Permutation.
Qed.

Lemma release_conn_transfers now c keep c' ev :
  release_conn now c keep = (c', ev) -> transfers (fd_of c) ev (fd_of c').
Proof.
  unfold release_conn. split_if.
  - destruct (0 <=? fd c) eqn:E; intros [= <- <-]; unfold fd_of; simpl; rewrite ?E.
    + by apply transfers_close, transfers_nil.
    + by apply transfers_nil.
  - intros [= <- <-]. by apply transfers_nil.
Qed.

Lemma release_transfers now p f r keep p' ev :
  conn_ok p (Some (f, r)) -> vwasm_http_pool_release now p r keep = (p', ev) ->
  transfers (fds (conns p) ++ held (Some (f, r))) ev (fds (conns p')).
Proof.
  unfold vwasm_http_pool_release. destruct r as [i|c]; cbn [conn_ok held].
  - intros (Hf & c & Hc & <-). rewrite Hc, app_nil_r.
    destruct (release_conn now c keep) as [c' ev'] eqn:E. intros [= <- <-].
    apply release_conn_transfers in E. cbn [conns set_conns].
    destruct (fds_insert _ _ _ c' Hc) as (k & H1 & H2).
    apply (transfers_frame k) in E. eapply transfers_perm; [exact E|..].
    + rewrite H1. solve_Permutation.
    + rewrite H2. solve_Permutation.
  - intros (Hf & Hfd & Hk). unfold release_conn. rewrite Hk. cbn [negb]. rewrite orb_true_r, orb_true_l.
    rewrite (proj2 (Z.leb_le 0 (fd c))) by lia. intros [= <- <-]. cbn. rewrite Hfd.
    eapply transfers_perm; [apply (transfers_close f _ (fds (conns p))); by apply transfers_nil|..];
      [solve_Permutation|done].
Qed.
End Pool.

(** ** Callouts *)

Definition pool_fds (p : option pool) : list Z :=
  match p with Some p => fds (conns p) | None => [] end.

(** What the caller owns between connecting and releasing. *)
Definition caller_fds (p : option pool) (f : Z) (conn : option conn_ref) : list Z :=
  if f <? 0 then []
  else match p, conn with Some _, Some r => held (Some (f, r)) | _, _ => [f] end.

Definition caller_ok (p : option pool) (f : Z) (conn : option conn_ref) : Prop :=
  0 <= f -> match p, conn with Some p, Some r => conn_ok p (Some (f, r)) | _, _ => True end.

Lemma ios_app a b : ios (a ++ b) = ios a ++ ios b.
Proof. apply omap_app. Qed.

Lemma ios_io l : ios (map NIo l) = l.
Proof. induction l as [|x l IH]; [done|]. cbn. f_equal. exact IH. Qed.

Lemma direct_transfers attempt exempt l f ev :
  connect_loop attempt exempt l = (f, ev) -> transfers [] ev (if f <? 0 then [] else [f]).
Proof.
  revert f ev. induction l as [|a l IH]; intros f ev; cbn [connect_loop].
  { intros [= <- <-]. by apply transfers_nil. }
  destruct (_ && _); [by apply IH|]. cbv zeta.
  destruct (da_socket (attempt a) <? 0) eqn:E; [by apply IH|].
  destruct (da_connect _).
  { intros [= <- <-]. rewrite E. by apply transfers_socket, transfers_connect, transfers_nil. }
  destruct (_ && _).
  { intros [= <- <-]. rewrite E. by apply transfers_socket, transfers_connect, transfers_nil. }
  destruct (connect_loop attempt exempt l) as [r ev'] eqn:El. intros [= <- <-].
  apply transfers_socket, transfers_connect, transfers_close. by apply IH.
Qed.

Lemma connect_upstream_transfers e h p host port t exempt p' f conn ev :
  connect_upstream e h p host port t exempt = (p', f, conn, ev) ->
  transfers (pool_fds p) ev (pool_fds p' ++ caller_fds p' f conn) /\ caller_ok p' f conn.
Proof.
  unfold connect_upstream. destruct p as [p|].
  - destruct (vwasm_http_pool_acquire _ _ _ _ _ _) as [[p1 r] ev1] eqn:E.
    apply acquire_transfers in E as [Ht Hok].
    destruct r as [[f1 c1]|]; intros [= <- <- <- <-]; unfold caller_fds, caller_ok; cbn [pool_fds].
    + assert (0 <= f1) by (destruct c1; apply Hok). rewrite (proj2 (Z.ltb_ge _ _)) by done. by split.
    + simpl in *. by split.
  - destruct (pw_http_connect _ _ _) as [f1 ev1] eqn:E. intros [= <- <- <- <-].
    split; [|by intros _]. unfold pw_http_connect in E.
    destruct (h_getaddrinfo _ _ _); [by apply direct_transfers in E|].
    injection E as <- <-. by apply transfers_nil.
Qed.

Lemma report_fds h p host port b : pool_fds (report h p host port b) = pool_fds p.
Proof. by destruct p, b. Qed.

Lemma release_or_close_transfers now p conn f keep p' ev :
  0 <= f -> caller_ok p f conn ->
  match p, conn with
  | Some p, Some q => let '(p, io) := vwasm_http_pool_release now p q keep in (Some p, io)
  | _, _ => (p, [Close f])
  end = (p', ev) ->
  transfers (pool_fds p ++ caller_fds p f conn) ev (pool_fds p').
Proof.
  intros Hf Hok. specialize (Hok Hf). unfold caller_fds. rewrite (proj2 (Z.ltb_ge _ _)) by done.
  destruct p as [p|], conn as [r|]; cbn [pool_fds app].
  - destruct (vwasm_http_pool_release _ _ _ _) as [p1 ev1] eqn:E. intros [= <- <-].
    by eapply release_transfers.
  - intros [= <- <-]. eapply transfers_perm; [apply (transfers_close f _ (fds (conns p))); by apply transfers_nil|
      solve_Permutation|done].
  - intros [= <- <-]. by apply transfers_close, transfers_nil.
  - intros [= <- <-]. by apply transfers_close, transfers_nil.
Qed.

Lemma drop_conn_transfers h p conn f p' ev :
  0 <= f -> caller_ok p f conn -> drop_conn h p conn f = (p', ev) ->
  transfers (pool_fds p ++ caller_fds p f conn) ev (pool_fds p').
Proof. apply release_or_close_transfers. Qed.

Section Callouts.
Context `{G : Guest} `{V : Varnish}.

Lemma exchange_transfers e h c p host port f conn request ptr size exempt p' ev res :
  0 <= f -> caller_ok p f conn ->
  exchange e h c p host port f conn request ptr size exempt = Done (p', ev, res) ->
  transfers (pool_fds p ++ caller_fds p f conn) (ios ev) (pool_fds p').
Proof.
  intros Hf Hok. unfold exchange.
  destruct (pw_http_write_all _ request) as [[sent1 ok1] wevs].
  destruct (drop_conn h p conn f) as [pd io] eqn:Ed.
  apply drop_conn_transfers in Ed; [|done..].
  assert (forall ev0 p1 ev1 (res1 : Z + bytes), ios ev0 = [] ->
    Done (report h pd host port false, ev0 ++ map NIo io, inl PROXY_INTERNAL) = Done (p1, ev1, res1) ->
    transfers (pool_fds p ++ caller_fds p f conn) (ios ev1) (pool_fds p1)) as Habandon.
  { intros ev0 p1 ev1 res1 H0 [= <- <- <-]. by rewrite ios_app, H0, ios_io, report_fds. }
  split_if; [by apply Habandon|].
  match goal with |- obind ?x _ = _ -> _ => destruct x as [[ev2 ok2]|] eqn:Eb end; [|done].
  assert (ios ev2 = []) as Hev2.
  { revert Eb. split_if; [|by intros [= <- _]]. destruct (pw_mem_ptr _ _); [|by intros [= <- _]].
    destruct (mem_read _ _ _) as [body|]; [|done]. cbn [obind].
    destruct (pw_http_write_all _ body) as [[s2 o2] w2]. by intros [= <- _]. }
  cbn [obind]. split_if; [by apply Habandon|]. split_if; [by apply Habandon|].
  set (r := read_response _ _ _).
  match goal with |- (let '(_, _) := ?x in _) = _ -> _ => destruct x as [p1 io1] eqn:Er end.
  apply release_or_close_transfers in Er; [|done..]. intros [= <- <- <-].
  by rewrite ios_app, Hev2, ios_io, report_fds.
Qed.

Lemma exchange_none e h c p host port f conn request ptr size exempt p' ev res :
  exchange e h c p host port f conn request ptr size exempt = Done (p', ev, res) ->
  p = None -> p' = None.
Proof.
  unfold exchange. intros E ->. revert E. cbn [drop_conn].
  destruct (pw_http_write_all _ request) as [[sent1 ok1] wevs].
  split_if; [by intros [= <- _ _]|].
  match goal with |- obind ?x _ = _ -> _ => destruct x as [[ev2 ok2]|] end; [|done]. cbn [obind].
  repeat (split_if; [by intros [= <- _ _]|]). by intros [= <- _ _].
Qed.

Lemma run_call_transfers e h c pool host port head ptr size t ret exempt c' pool' tr r :
  run_call e h c pool host port head ptr size t ret exempt = Done (c', pool', tr, r) ->
  transfers (pool_fds pool) (ios tr) (pool_fds pool').
Proof.
  unfold run_call. cbv zeta. split_if; [intros [= <- <- <- <-]; by apply transfers_nil|].
  set (p := vwasm_engine_get_http_pool c pool).
  assert (p = pool \/ p = None) as Hp by (unfold p, vwasm_engine_get_http_pool; destruct (engine c); auto).
  set (back := fun p' : option HttpPool.pool => match p with Some _ => p' | None => pool end).
  assert (forall l p', (p = None -> p' = None) -> transfers (pool_fds p) l (pool_fds p') ->
    transfers (pool_fds pool) l (pool_fds (back p'))) as Hback.
  { intros l p' Hnone Hl. unfold back. destruct p as [q|].
    - destruct Hp as [<-|?]; [exact Hl|done].
    - rewrite (Hnone eq_refl) in Hl. apply (transfers_frame (pool_fds pool)) in Hl. cbn [pool_fds] in Hl.
      by rewrite app_nil_r in Hl. }
  destruct (connect_upstream e h p host port t exempt) as [[[p1 f] conn] ev] eqn:Ec.
  assert (p = None -> p1 = None) as Hn1.
  { intros E. rewrite E in Ec. unfold connect_upstream in Ec.
    by destruct (pw_http_connect _ _ _); simplify_eq. }
  apply connect_upstream_transfers in Ec as [Ht Hok].
  destruct (f <? 0) eqn:Ef; btest.
  { intros [= <- <- <- <-]. rewrite ios_io. apply Hback.
    - intros E. by rewrite (Hn1 E).
    - rewrite report_fds. unfold caller_fds in Ht. rewrite (proj2 (Z.ltb_lt _ _)), app_nil_r in Ht by done.
      exact Ht. }
  destruct (exchange _ _ _ _ _ _ _ _ _ _ _ _) as [[[p2 ev2] res]|] eqn:Ex; [|done]. cbn [obind].
  pose proof (exchange_none e h c p1 host port f conn _ _ _ _ _ _ _ Ex) as Hn2.
  apply exchange_transfers in Ex; [|lia|done].
  assert (transfers (pool_fds pool) (ios (map NIo ev ++ ev2)) (pool_fds (back p2))) as Hall.
  { rewrite ios_app, ios_io. apply Hback; [auto|]. by eapply transfers_app. }
  destruct res as [status|buf]; [by intros [= <- <- <- <-]|].
  destruct (store_response _ _ _ _) as [[c2 r2]|]; [|done]. by intros [= <- <- <- <-].
Qed.

(** A callout gives back the descriptors it opens, unless the pool keeps them. *)
Lemma handler_transfers e h c pool args c' pool' tr r :
  pw_proxy_http_call e h c pool args = Done (c', pool', tr, r) ->
  transfers (pool_fds pool) (ios tr) (pool_fds pool').
Proof.
  assert (forall (a c1 : pctx) p1 tr1 r1, Done (a, pool, [], PROXY_BAD_ARGUMENT) = Done (c1, p1, tr1, r1) ->
    transfers (pool_fds pool) (ios tr1) (pool_fds p1)) as Hbad
    by (intros a c1 p1 tr1 r1 [= <- <- <- <-]; by apply transfers_nil).
  unfold pw_proxy_http_call.
  do 11 (destruct args as [|? args]; try done). cbv zeta.
  split_if; [apply Hbad|].
  destruct (read_string _ _ _ _) as [[up|]|]; [|apply Hbad|done]. cbn [obind].
  destruct (pw_http_parse_upstream up 256) as [[host port]|]; [|apply Hbad].
  destruct (check_allowlist _ _ _) as [exempt|]; [|apply Hbad].
  destruct (parse_head _ _ _) as [[head|]|]; [|apply Hbad|done]. cbn [obind].
  split_if; [apply Hbad|]. split_if; [apply Hbad|]. apply run_call_transfers.
Qed.

(** Callouts of any contexts one after the other, sharing the pool, each with
    what the network and the allocator do for it. *)
Fixpoint callouts (pool : option HttpPool.pool) (qs : list (env * hnet * pctx * list Z))
    : outcome (option HttpPool.pool * list io) :=
  match qs with
  | [] => Done (pool, [])
  | (e, h, c, args) :: qs =>
      let! '(_, pool, tr, _) := pw_proxy_http_call e h c pool args in
      let! '(pool, ev) := callouts pool qs in
      Done (pool, ios tr ++ ev)
  end.

Context `{VL : !VarnishLaws} {M : Z} `{L : !MemLimit M}.

(** A context that may make one more callout, and typed arguments. *)
Definition callable (q : env * hnet * pctx * list Z) : Prop :=
  Forall2 typed (replicate 10 I32) q.2 /\ wf_ctx M q.1.2 /\ exists n, within n q.1.2 /\ 0 <= n < 4294967295.

Lemma callouts_transfers pool qs :
  Forall callable qs ->
  exists pool' tr, callouts pool qs = Done (pool', tr) /\ transfers (pool_fds pool) tr (pool_fds pool').
Proof.
  intros Hq. revert pool. induction Hq as [|[[[e h] c] args] qs (Ht & Hc & n & Hb & Hn) _ IH]; intros pool.
  { exists pool, []. split; [done|]. by apply transfers_nil. }
  cbn [callouts]. cbn [fst snd] in *.
  destruct (handler_spec e h n c pool args Ht Hc Hb Hn) as (c1 & p1 & tr1 & r1 & E & _).
  rewrite E. cbn [obind]. destruct (IH p1) as (p2 & tr2 & -> & H2). cbn [obind].
  eexists _, _. split; [done|]. eapply transfers_app; [by eapply handler_transfers|done].
Qed.

Lemma fds_empty n : fds (replicate n empty_conn) = [].
Proof. induction n; [done|]. simpl. by rewrite fds_cons. Qed.

Lemma close_conns_transfers l : transfers (fds l) (close_conns l) [].
Proof.
  induction l as [|c l IH]; [by apply transfers_nil|]. rewrite fds_cons. unfold fd_of. cbn [close_conns].
  destruct (0 <=? fd c); [by apply transfers_close|done].
Qed.

Lemma destroy_transfers p : transfers (pool_fds p) (vwasm_http_pool_destroy p) [].
Proof. destruct p as [p|]; [apply close_conns_transfers|by apply transfers_nil]. Qed.

Lemma new_pool_fds ok n t : pool_fds (vwasm_http_pool_new ok n t) = [].
Proof. unfold vwasm_http_pool_new. repeat split_if; first [done|apply fds_empty]. Qed.

(** C9 No descriptor is leaked or closed twice: with a pool of any size, or none
    if it could not be created, any callouts by any contexts - refused, failed at
    any system call, answered, reused, evicted - and then the destruction of the
    pool, every descriptor the code closes is open at that moment, and in the end
    exactly the descriptors that others had open at the start are open. *)
Theorem callouts_close_descriptors ok size timeout qs others :
  Forall callable qs ->
  exists pool tr open', callouts (vwasm_http_pool_new ok size timeout) qs = Done (pool, tr) /\
    fd_run others (tr ++ vwasm_http_pool_destroy pool) = Done open' /\ open' ≡ₚ others.
Proof.
  intros Hq. destruct (callouts_transfers (vwasm_http_pool_new ok size timeout) qs Hq)
    as (pool & tr & E & Ht). rewrite new_pool_fds in Ht.
  destruct (transfers_app _ _ _ _ _ Ht (destroy_transfers pool) others others) as (o & Eo & Ho); [done|].
  by exists pool, tr, o.
Qed.
End Callouts.

(** Two callouts through a pool, with a descriptor of another owner open. *)
Lemma callouts_close_descriptors_witness :
  exists pool tr, callouts (vwasm_http_pool_new all_ok 1 0)
      (replicate 2 (quiet_env, calm, call_ctx 0 (Some [str "a:80"]), call_args)) = Done (pool, tr) /\
    fd_run [3] (tr ++ vwasm_http_pool_destroy pool) = Done [3].
Proof.
  destruct (callouts_close_descriptors (M := 65536) (VL := plain_laws) all_ok 1 0
    (replicate 2 (quiet_env, calm, call_ctx 0 (Some [str "a:80"]), call_args)) [3])
    as (pool & tr & o & E & Er & Ho).
  - assert (callable (M := 65536) (VL := plain_laws)
      (quiet_env, calm, call_ctx 0 (Some [str "a:80"]), call_args)) as Hc.
    { split; [exact call_args_typed|]. split; [apply call_ctx_wf|]. exists 0. split; [apply call_ctx_within|lia]. }
    by apply Forall_replicate.
  - exists pool, tr. split; [exact E|]. rewrite Er. f_equal. by apply Permutation_singleton_r in Ho.
Defined.
