(* ===== verification/Imports.v ===== *)
(** * The import table (src/proxy_wasm.c, vwasm_proxy_wasm_define_imports)

    Every host function of the [env] namespace with its name and parameter
    types, and the theorem the other files work towards: whatever a guest
    calls, in whatever order, with whatever arguments, no host function does
    anything undefined. *)

From S2P Require Import Prelude Mem SharedData SharedQueue Metrics Ctx HostCalls.
From S2P Require Import Headers Properties HttpAddr Breaker HttpPool HttpParse HttpIo HttpCall.

(** The state a host function works on: the context, and the connection pool of
    the engine. *)
Record host := Host { hctx : pctx; hpool : option pool }.

(** What a call takes from its surroundings. *)
Record world := World { wenv : env; wnet : hnet }.

(** A callback as registered with the linker. *)
Abbreviation callback := (world -> host -> list Z -> outcome (host * Z)).

Record import := Import { i_name : string; i_params : list vtype; i_callback : callback }.

(** A host function that does not use the network. *)
Definition local_call (f : env -> pctx -> list Z -> outcome (pctx * Z)) : callback :=
  fun wd h args =>
    let! '(c, r) := f (wenv wd) (hctx h) args in
    Done (Host c (hpool h), r).

Definition http_callback : callback :=
  fun wd h args =>
    let! '(c, p, _, r) := pw_proxy_http_call (wenv wd) (wnet wd) (hctx h) (hpool h) args in
    Done (Host c p, r).

(** [pw_define_func]: all parameters are [i32]. *)
Definition pw_define_func (name : string) (nparams : nat)
    (f : env -> pctx -> list Z -> outcome (pctx * Z)) : import :=
  Import name (replicate nparams I32) (local_call f).

Definition pw_define_func_typed (name : string) (params : list vtype)
    (f : env -> pctx -> list Z -> outcome (pctx * Z)) : import :=
  Import name params (local_call f).

Section Imports.
Context `{G : Guest} `{VV : VrtVars}.

Definition vwasm_proxy_wasm_define_imports : list import :=
  [ pw_define_func "proxy_log" 3 pw_proxy_log;
    pw_define_func "proxy_get_log_level" 1 pw_proxy_get_log_level;
    pw_define_func "proxy_get_header_map_value" 5 pw_proxy_get_header_map_value;
    pw_define_func "proxy_add_header_map_value" 5 pw_proxy_add_header_map_value;
    pw_define_func "proxy_replace_header_map_value" 5 pw_proxy_replace_header_map_value;
    pw_define_func "proxy_remove_header_map_value" 3 pw_proxy_remove_header_map_value;
    pw_define_func "proxy_get_header_map_pairs" 3 pw_proxy_get_header_map_pairs;
    pw_define_func "proxy_set_header_map_pairs" 3 pw_proxy_set_header_map_pairs;
    pw_define_func "proxy_get_header_map_size" 2 pw_proxy_get_header_map_size;
    pw_define_func "proxy_get_property" 4 pw_proxy_get_property;
    pw_define_func "proxy_set_property" 4 pw_proxy_set_property;
    pw_define_func "proxy_get_buffer_bytes" 5 pw_proxy_get_buffer_bytes;
    pw_define_func "proxy_set_buffer_bytes" 5 pw_proxy_set_buffer_bytes;
    pw_define_func "proxy_get_buffer_status" 3 pw_proxy_get_buffer_status;
    pw_define_func "proxy_send_local_response" 8 pw_proxy_send_local_response;
    pw_define_func "proxy_get_current_time_nanoseconds" 1 pw_proxy_get_current_time;
    pw_define_func "proxy_set_tick_period_milliseconds" 1 pw_proxy_set_tick_period;
    pw_define_func "proxy_set_effective_context" 1 pw_proxy_set_effective_context;
    pw_define_func "proxy_done" 0 pw_proxy_done;
    pw_define_func "proxy_continue_stream" 1 pw_proxy_continue_stream;
    pw_define_func "proxy_close_stream" 1 pw_proxy_close_stream;
    pw_define_func "proxy_get_shared_data" 5 pw_proxy_get_shared_data;
    pw_define_func "proxy_set_shared_data" 5 pw_proxy_set_shared_data;
    pw_define_func "proxy_register_shared_queue" 3 pw_proxy_register_shared_queue;
    pw_define_func "proxy_resolve_shared_queue" 5 pw_proxy_resolve_shared_queue;
    pw_define_func "proxy_enqueue_shared_queue" 3 pw_proxy_enqueue_shared_queue;
    pw_define_func "proxy_dequeue_shared_queue" 3 pw_proxy_dequeue_shared_queue;
    pw_define_func "proxy_get_status" 3 pw_proxy_get_status;
    pw_define_func "proxy_define_metric" 4 pw_proxy_define_metric;
    pw_define_func_typed "proxy_increment_metric" [I32; I64] pw_proxy_increment_metric;
    pw_define_func_typed "proxy_record_metric" [I32; I64] pw_proxy_record_metric;
    pw_define_func "proxy_get_metric" 2 pw_proxy_get_metric;
    Import "proxy_http_call" (replicate 10 I32) http_callback;
    pw_define_func "proxy_grpc_call" 12 pw_stub_not_found;
    pw_define_func "proxy_grpc_stream" 9 pw_stub_not_found;
    pw_define_func "proxy_grpc_send" 4 pw_stub_not_found;
    pw_define_func "proxy_grpc_cancel" 1 pw_stub_not_found;
    pw_define_func "proxy_grpc_close" 1 pw_stub_not_found;
    pw_define_func "proxy_call_foreign_function" 6 pw_stub_not_found ].

(** One call of a guest: which import, with which arguments, in which
  surroundings. *)
Record guest_call := GuestCall { g_import : import; g_args : list Z; g_world : world }.

(** The calls of a guest, one after the other; the results in order. *)
Fixpoint run_guest (h : host) (qs : list guest_call) : outcome (host * list Z) :=
  match qs with
  | [] => Done (h, [])
  | q :: qs =>
      let! '(h, r) := i_callback (g_import q) (g_world q) h (g_args q) in
      let! '(h, rs) := run_guest h qs in
      Done (h, r :: rs)
  end.
End Imports.

(** * Safety *)

Section Safety.
Context `{G : Guest} `{VV : VrtVars} `{VL : !VarnishLaws} `{PL : !VrtVarsLaws} {M : Z} `{L : !MemLimit M}.

(** What a call may add: the size of linear memory to a body, or one token. *)
Definition growth (i : import) : Z :=
  if String.eqb (i_name i) "proxy_set_buffer_bytes" then M
  else if String.eqb (i_name i) "proxy_http_call" then 1 else 0.

(** The one call whose arithmetic is undefined: incrementing a metric by the
    [i64] that has no negation (see [increment_min_overflows]). *)
Definition negates_min (i : import) (args : list Z) : Prop :=
  i_name i = "proxy_increment_metric" /\ nth 1 args 0 = INT64_MIN.

(** The callback is safe as [import_safe] says, whatever the pool. *)
Definition callback_safe (i : import) : Prop :=
  forall n wd h args, Forall2 typed (i_params i) args -> ~ negates_min i args ->
    wf_ctx M (hctx h) -> within n (hctx h) ->
    0 <= n < 4294967295 -> wf_env (wenv wd) ->
    exists h' r, i_callback i wd h args = Done (h', r) /\ wf_ctx M (hctx h') /\
                 within (n + growth i) (hctx h').

Lemma local_safe g name params f :
  import_safe M g params f -> growth (Import name params (local_call f)) = g ->
  callback_safe (Import name params (local_call f)).
Proof.
  intros Hf Hg n wd h args Ht _ Hc Hb Hn He. cbn [i_params] in Ht. rewrite Hg.
  destruct (Hf n (wenv wd) (hctx h) args Ht Hc Hb Hn He) as (c' & r & E & Hc' & Hb').
  cbn [i_callback]. unfold local_call. rewrite E. cbn [obind]. by eexists _, r.
Qed.

Lemma http_callback_safe :
  callback_safe (Import "proxy_http_call" (replicate 10 I32) http_callback).
Proof.
  intros n wd h args Ht _ Hc Hb Hn He. cbn [i_params] in Ht. cbn [i_callback]. unfold http_callback.
  destruct (handler_spec (wenv wd) (wnet wd) n (hctx h) (hpool h) args Ht Hc Hb Hn)
    as (c' & p' & tr & r & -> & Hc' & Hb' & _). cbn [obind]. by eexists _, r.
Qed.

Lemma increment_callback_safe :
  callback_safe (Import "proxy_increment_metric" [I32; I64] (local_call pw_proxy_increment_metric)).
Proof.
  intros n wd h args Ht Hmin Hc Hb Hn He. cbn [i_params] in Ht.
  inversion Ht as [|? a0 ? ? H0 Ht']; subst. inversion Ht' as [|? off ? ? H1 Ht'']; subst.
  inversion Ht''; subst.
  destruct (increment_metric_safe (M := M) n (wenv wd) (hctx h) a0 off H1) as (c' & r & E & Hc' & Hb');
    [intros Ho; by apply Hmin|done|done|].
  cbn [i_callback]. unfold local_call. rewrite E. cbn [obind]. eexists _, r. split_and!; [done|done|].
  eapply within_mono; [done|]. cbn. lia.
Qed.

Lemma imports_safe : Forall callback_safe vwasm_proxy_wasm_define_imports.
Proof.
  unfold vwasm_proxy_wasm_define_imports, pw_define_func, pw_define_func_typed.
  cbn [replicate].
  repeat (constructor; [first [apply http_callback_safe|apply increment_callback_safe|eapply local_safe; [|reflexivity]]|]);
    [..|constructor].
  all: first
    [ apply log_safe | apply get_log_level_safe | apply get_header_map_value_safe
    | apply add_header_map_value_safe | apply replace_header_map_value_safe
    | apply remove_header_map_value_safe | apply get_header_map_pairs_safe
    | apply set_header_map_pairs_safe | apply get_header_map_size_safe
    | apply get_property_safe | apply set_property_safe | apply get_buffer_bytes_safe
    | apply set_buffer_bytes_safe | apply get_buffer_status_safe | apply send_local_response_safe
    | apply get_current_time_safe | apply set_tick_period_safe | apply set_effective_context_safe
    | apply proxy_done_safe | apply continue_stream_safe | apply close_stream_safe
    | apply get_shared_data_safe | apply set_shared_data_safe | apply register_shared_queue_safe
    | apply resolve_shared_queue_safe | apply enqueue_shared_queue_safe
    | apply dequeue_shared_queue_safe | apply get_status_safe | apply define_metric_safe
    | apply record_metric_safe | apply get_metric_safe
    | apply stub_safe ].
Qed.

(** The budget of a sequence of calls. *)
Definition budget (qs : list guest_call) : Z :=
  foldr (fun q acc => growth (g_import q) + acc) 0 qs.

Lemma growth_nonneg i : 0 <= growth i.
Proof. pose proof (@limit_lt _ M L). unfold growth. repeat split_if; lia. Qed.

Lemma budget_nonneg qs : 0 <= budget qs.
Proof.
  induction qs as [|q qs IH]; [done|]. unfold budget in *. cbn [foldr].
  pose proof (growth_nonneg (g_import q)). lia.
Qed.

(** A call a guest can make: a registered import, arguments of its types, on a
    worker thread. *)
Definition possible (q : guest_call) : Prop :=
  g_import q ∈ vwasm_proxy_wasm_define_imports /\
  Forall2 typed (i_params (g_import q)) (g_args q) /\ wf_env (wenv (g_world q)).

End Safety.

(** The registrations cannot collide: the imports have distinct names, so
    that no [wasmtime_linker_define_func] redefines another, and every one of
    the 39 takes at most twelve parameters. *)
Theorem imports_distinct `{G : Guest} `{VV : VrtVars} :
  NoDup (map i_name vwasm_proxy_wasm_define_imports) /\
  length vwasm_proxy_wasm_define_imports = 39%nat /\
  Forall (fun i => length (i_params i) <= 12)%nat vwasm_proxy_wasm_define_imports.
Proof.
  split; [|split; [reflexivity|]].
  - by_decide.
  - repeat (constructor; [simpl; lia|]). constructor.
Qed.

(** ** A session *)

Definition session_import (i : nat) : import :=
  default (Import "" [] http_callback)
    (vwasm_proxy_wasm_define_imports (G := deaf_guest) (VV := plain_vars) !! i).

(** Log a line, call an upstream, replace the response body. *)
Definition session : list guest_call :=
  [ GuestCall (session_import 0) [2; 0; 4] (World quiet_env calm);
    GuestCall (session_import 32) call_args (World quiet_env calm);
    GuestCall (session_import 12) [1; 0; 0; 0; 4] (World quiet_env calm) ].

