(* ===== verification/Abi.v ===== *)
(** * The types of the host interface

    What a guest compiled against the Proxy-Wasm ABI relies on: for every
    import a name, the types of its parameters, and the statuses it can return.
    The signatures are written down here apart from the implementation, and
    every callback that [vwasm_proxy_wasm_define_imports] registers is shown to
    have its signature. *)

From S2P Require Import Prelude Mem SharedData SharedQueue Metrics Ctx HostCalls.
From S2P Require Import Headers Properties HttpAddr Breaker HttpPool HttpParse HttpIo HttpCall Imports.

Record signature := Signature {
  s_name : string;
  s_params : list vtype;
  s_results : list Z
}.

Abbreviation i32s n := (replicate n I32).

(** The signatures of the 39 imports. *)
Definition abi : list signature :=
  [ Signature "proxy_log" (i32s 3) [PROXY_OK; PROXY_BAD_ARGUMENT; PROXY_INTERNAL];
    Signature "proxy_get_log_level" (i32s 1) [PROXY_OK; PROXY_BAD_ARGUMENT];
    Signature "proxy_get_header_map_value" (i32s 5)
      [PROXY_OK; PROXY_NOT_FOUND; PROXY_BAD_ARGUMENT; PROXY_INTERNAL];
    Signature "proxy_add_header_map_value" (i32s 5) [PROXY_OK; PROXY_BAD_ARGUMENT; PROXY_INTERNAL];
    Signature "proxy_replace_header_map_value" (i32s 5)
      [PROXY_OK; PROXY_BAD_ARGUMENT; PROXY_INTERNAL];
    Signature "proxy_remove_header_map_value" (i32s 3) [PROXY_OK; PROXY_BAD_ARGUMENT];
    Signature "proxy_get_header_map_pairs" (i32s 3) [PROXY_OK; PROXY_INTERNAL];
    Signature "proxy_set_header_map_pairs" (i32s 3) [PROXY_OK; PROXY_BAD_ARGUMENT; PROXY_INTERNAL];
    Signature "proxy_get_header_map_size" (i32s 2) [PROXY_OK; PROXY_NOT_FOUND; PROXY_BAD_ARGUMENT];
    Signature "proxy_get_property" (i32s 4)
      [PROXY_OK; PROXY_NOT_FOUND; PROXY_BAD_ARGUMENT; PROXY_INTERNAL];
    Signature "proxy_set_property" (i32s 4)
      [PROXY_OK; PROXY_NOT_FOUND; PROXY_BAD_ARGUMENT; PROXY_INTERNAL];
    Signature "proxy_get_buffer_bytes" (i32s 5)
      [PROXY_OK; PROXY_NOT_FOUND; PROXY_BAD_ARGUMENT; PROXY_INTERNAL];
    Signature "proxy_set_buffer_bytes" (i32s 5)
      [PROXY_OK; PROXY_NOT_FOUND; PROXY_BAD_ARGUMENT; PROXY_INTERNAL];
    Signature "proxy_get_buffer_status" (i32s 3) [PROXY_OK; PROXY_NOT_FOUND; PROXY_BAD_ARGUMENT];
    Signature "proxy_send_local_response" (i32s 8) [PROXY_OK];
    Signature "proxy_get_current_time_nanoseconds" (i32s 1) [PROXY_OK; PROXY_BAD_ARGUMENT];
    Signature "proxy_set_tick_period_milliseconds" (i32s 1) [PROXY_OK; PROXY_INTERNAL];
    Signature "proxy_set_effective_context" (i32s 1) [PROXY_OK; PROXY_BAD_ARGUMENT];
    Signature "proxy_done" [] [PROXY_OK];
    Signature "proxy_continue_stream" (i32s 1) [PROXY_OK];
    Signature "proxy_close_stream" (i32s 1) [PROXY_OK];
    Signature "proxy_get_shared_data" (i32s 5)
      [PROXY_OK; PROXY_NOT_FOUND; PROXY_BAD_ARGUMENT; PROXY_INTERNAL];
    Signature "proxy_set_shared_data" (i32s 5)
      [PROXY_OK; PROXY_BAD_ARGUMENT; PROXY_CAS_MISMATCH; PROXY_INTERNAL];
    Signature "proxy_register_shared_queue" (i32s 3)
      [PROXY_OK; PROXY_BAD_ARGUMENT; PROXY_INTERNAL];
    Signature "proxy_resolve_shared_queue" (i32s 5)
      [PROXY_OK; PROXY_NOT_FOUND; PROXY_BAD_ARGUMENT; PROXY_INTERNAL];
    Signature "proxy_enqueue_shared_queue" (i32s 3)
      [PROXY_OK; PROXY_NOT_FOUND; PROXY_BAD_ARGUMENT; PROXY_INTERNAL];
    Signature "proxy_dequeue_shared_queue" (i32s 3) [PROXY_OK; PROXY_EMPTY; PROXY_INTERNAL];
    Signature "proxy_get_status" (i32s 3) [PROXY_OK; PROXY_INTERNAL];
    Signature "proxy_define_metric" (i32s 4) [PROXY_OK; PROXY_BAD_ARGUMENT; PROXY_INTERNAL];
    Signature "proxy_increment_metric" [I32; I64] [PROXY_OK; PROXY_BAD_ARGUMENT; PROXY_INTERNAL];
    Signature "proxy_record_metric" [I32; I64] [PROXY_OK; PROXY_BAD_ARGUMENT; PROXY_INTERNAL];
    Signature "proxy_get_metric" (i32s 2) [PROXY_OK; PROXY_BAD_ARGUMENT; PROXY_INTERNAL];
    Signature "proxy_http_call" (i32s 10)
      [PROXY_OK; PROXY_BAD_ARGUMENT; PROXY_PARSE_FAILURE; PROXY_INTERNAL; PROXY_UNIMPLEMENTED];
    Signature "proxy_grpc_call" (i32s 12) [PROXY_NOT_FOUND];
    Signature "proxy_grpc_stream" (i32s 9) [PROXY_NOT_FOUND];
    Signature "proxy_grpc_send" (i32s 4) [PROXY_NOT_FOUND];
    Signature "proxy_grpc_cancel" (i32s 1) [PROXY_NOT_FOUND];
    Signature "proxy_grpc_close" (i32s 1) [PROXY_NOT_FOUND];
    Signature "proxy_call_foreign_function" (i32s 6) [PROXY_NOT_FOUND] ].

(** * Results *)

Section Answers.
Context `{G : Guest} `{VV : VrtVars}.

(** If the function returns, its status is one of [S]. *)
Definition answers (S : list Z) (o : outcome (pctx * Z)) : Prop :=
  forall c r, o = Done (c, r) -> r ∈ S.

Lemma answers_done S c r : r ∈ S -> answers S (Done (c, r)).
Proof. by intros ? ? ? [= <- <-]. Qed.

Lemma answers_status S c x y : PROXY_OK ∈ S -> y ∈ S -> answers S (Done (c, status x y)).
Proof. intros ??. apply answers_done. unfold status. by split_if. Qed.

Lemma answers_if S c (b : bool) x y : x ∈ S -> y ∈ S -> answers S (Done (c, if b then x else y)).
Proof. intros ??. apply answers_done. by destruct b. Qed.

Lemma select_buffer_code (S : list Z) c t code :
  select_buffer c t = inr code -> PROXY_NOT_FOUND ∈ S -> PROXY_BAD_ARGUMENT ∈ S -> code ∈ S.
Proof.
  unfold select_buffer. cbv zeta. intros E HN HB.
  repeat match type of E with (match ?x with _ => _ end) = _ => destruct x; simplify_eq end; done.
Qed.

Lemma answers_fault S : answers S Fault.
Proof. done. Qed.

Lemma answers_bind {A} S (o : outcome A) k : (forall x, answers S (k x)) -> answers S (obind o k).
Proof. intros Hk. destruct o; [apply Hk|done]. Qed.

End Answers.

Ltac answer :=
  repeat first
  [ progress intros
  | apply answers_fault
  | apply answers_status; [by_decide|by_decide]
  | apply answers_done; by_decide
  | apply answers_if; [by_decide|by_decide]
  | apply answers_done; eapply select_buffer_code; [eassumption|by_decide|by_decide]
  | apply answers_bind
  | match goal with
    | |- answers _ (match ?x with _ => _ end) => destruct x eqn:?
    | |- answers _ (let '(_, _) := ?x in _) => destruct x
    end ].

Ltac answer_handler :=
  intros e c a;
  match goal with |- answers _ ?t => let f := head_of t in unfold f end;
  unfold return_pairs; cbv zeta; answer.
Section Imports.
Context `{G : Guest} `{VV : VrtVars}.

Definition has_results (s : signature) (i : import) : Prop :=
  forall wd h args h' r, i_callback i wd h args = Done (h', r) -> r ∈ s_results s.

Lemma local_results nm ps S nm' ps' f :
  (forall e c a, answers S (f e c a)) ->
  has_results (Signature nm ps S) (Import nm' ps' (local_call f)).
Proof.
  intros Hf wd h args h' r. cbn [i_callback]. unfold local_call.
  destruct (f _ _ _) as [[c' r']|] eqn:E; [|done]. cbn [obind]. intros [= <- <-]. by eapply Hf.
Qed.

Lemma store_response_code e c buf ret c' r :
  store_response e c buf ret = Done (c', r) -> r ∈ [PROXY_OK; PROXY_INTERNAL].
Proof. revert c' r. change (answers [PROXY_OK; PROXY_INTERNAL] (store_response e c buf ret)).
  unfold store_response. cbv zeta. answer. Qed.

Lemma read_response_code exempt evs s :
  r_status (read_response exempt evs s) ∈
  [PROXY_OK; PROXY_PARSE_FAILURE; PROXY_INTERNAL; PROXY_UNIMPLEMENTED].
Proof.
  unfold read_response. cbv zeta.
  repeat match goal with |- r_status (match ?x with _ => _ end) ∈ _ => destruct x end; by_decide.
Qed.

(** The exchange with the upstream ends with a response or with one of these. *)
Lemma exchange_code e h c p host port f conn request body_ptr body_size exempt p' ev code :
  exchange e h c p host port f conn request body_ptr body_size exempt = Done (p', ev, inl code) ->
  code ∈ [PROXY_OK; PROXY_PARSE_FAILURE; PROXY_INTERNAL; PROXY_UNIMPLEMENTED].
Proof.
  unfold exchange. cbv zeta. intros E.
  repeat match type of E with
  | (match ?x with _ => _ end) = _ => destruct x eqn:?; try discriminate E
  | obind ?x _ = _ => destruct x eqn:?; cbn [obind] in E; try discriminate E
  end.
  all: injection E as <- <- E; try (subst code; by_decide).
  all: revert E; destruct (_ || _); intros [= <-]; apply read_response_code.
Qed.

Lemma http_call_code e h c pool args c' p' tr r :
  pw_proxy_http_call e h c pool args = Done (c', p', tr, r) ->
  r ∈ [PROXY_OK; PROXY_BAD_ARGUMENT; PROXY_PARSE_FAILURE; PROXY_INTERNAL; PROXY_UNIMPLEMENTED].
Proof.
  unfold pw_proxy_http_call, run_call. cbv zeta. intros E.
  repeat match type of E with
  | (match ?x with _ => _ end) = _ => destruct x eqn:?; try discriminate E
  | obind ?x _ = _ => destruct x eqn:?; cbn [obind] in E; try discriminate E
  end.
  all: injection E as <- <- <- <-; try by_decide.
  - match goal with H : exchange _ _ _ _ _ _ _ _ _ _ _ _ = _ |- _ => apply exchange_code in H end.
    set_solver.
  - match goal with H : store_response _ _ _ _ = _ |- _ => apply store_response_code in H end.
    set_solver.
Qed.

Lemma http_results nm ps nm' ps' :
  has_results (Signature nm ps [PROXY_OK; PROXY_BAD_ARGUMENT; PROXY_PARSE_FAILURE; PROXY_INTERNAL;
                                PROXY_UNIMPLEMENTED])
              (Import nm' ps' http_callback).
Proof.
  intros wd h args h' r. cbn [i_callback]. unfold http_callback.
  destruct (pw_proxy_http_call _ _ _ _ _) as [[[[c' p'] tr] r']|] eqn:E; [|done]. cbn [obind].
  intros [= <- <-]. by eapply http_call_code.
Qed.

Lemma abi_results : Forall2 has_results abi vwasm_proxy_wasm_define_imports.
Proof.
  unfold abi, vwasm_proxy_wasm_define_imports, pw_define_func, pw_define_func_typed.
  repeat (constructor; [first [apply local_results|apply http_results]|]); [..|constructor].
  all: answer_handler.
Qed.

Lemma abi_parameters :
  Forall2 (fun s i => i_name i = s_name s /\ i_params i = s_params s) abi
    vwasm_proxy_wasm_define_imports.
Proof. repeat (constructor; [done|]). constructor. Qed.
End Imports.

Section Typed.
Context `{G : Guest} `{VV : VrtVars} `{VL : !VarnishLaws} `{PL : !VrtVarsLaws} {M : Z} `{L : !MemLimit M}.

End Typed.

