(* ===== verification/StorePool.v ===== *)
(** * The store pool and warm instances (src/store_pool.c)

    Pre-instantiated stores that worker threads claim with compare-and-swap and
    whose linear memory is restored from a snapshot when they are handed out.
    Wasmtime is a parameter: instantiating a module, its exports, calling them,
    and the linear memory of an instance. *)

From stdpp Require Import functions relations.
From S2P Require Import Prelude.

Definition VWASM_POOL_MIN_SIZE : Z := 8.
Definition VWASM_POOL_MAX_SIZE : Z := 1024.

(** ** Wasmtime *)

Class Wasm : Type := {
  inst : Type;
  store_new : nat -> bool;                 (** whether the n-th [wasmtime_store_new] succeeds *)
  instantiate : nat -> option inst;        (** the n-th instantiation, [None]: error or trap *)
  export_memory : inst -> bool;
  export_func : inst -> string -> bool;
  call_func : inst -> string -> list Z -> inst * bool;   (** [false]: error or trap *)
  memory_data : inst -> option bytes;      (** [None]: NULL *)
  memory_put : inst -> bytes -> inst;      (** [memcpy] over the start of the memory *)
  memory_size : inst -> Z                  (** in pages *)
}.

Class WasmLaws `{Wasm} : Prop := {
  memory_put_data x m b : memory_data x = Some m -> len b <= len m ->
    memory_data (memory_put x b) = Some (upd m 0 b)
}.

(** [struct vwasm_warm_instance] *)
Record warm_instance := Warm {
  memory_snapshot : option bytes;
  memory_pages : Z;
  has_initialize : bool;
  has_on_context_create : bool;
  has_on_vm_start : bool;
  has_on_configure : bool;
  has_request_headers : bool;
  has_request_body : bool;
  has_response_headers : bool;
  has_response_body : bool;
  has_on_log : bool;
  has_on_done : bool;
  has_on_delete : bool;
  has_allocator : bool;
  valid : bool
}.

Definition no_warm : warm_instance :=
  Warm None 0 false false false false false false false false false false false false false.

Section Pool.
Context `{W : Wasm}.

(** ** Warm instances *)

(** The presence flags. *)
Definition probe_exports (x : inst) : warm_instance :=
  Warm None 0
    (export_func x "_initialize")
    (export_func x "proxy_on_context_create")
    (export_func x "proxy_on_vm_start")
    (export_func x "proxy_on_configure")
    (export_func x "proxy_on_request_headers")
    (export_func x "proxy_on_request_body")
    (export_func x "proxy_on_response_headers")
    (export_func x "proxy_on_response_body")
    (export_func x "proxy_on_log")
    (export_func x "proxy_on_done")
    (export_func x "proxy_on_delete")
    (export_func x "proxy_on_memory_allocate" || export_func x "malloc")
    false.

(** [if (flag) { error = wasmtime_func_call(...); if (error || trap) goto fail; }] *)
Definition call_if (flag : bool) (x : inst) (name : string) (args : list Z) : option inst :=
  if flag then
    if export_func x name then
      let '(x, r) := call_func x name args in if r then Some x else None
    else Some x
  else Some x.

(** The initialization lifecycle. *)
Definition run_init (wm : warm_instance) (x : inst) (vm_config_len plugin_config_len : Z)
    : option inst :=
  x ← call_if (has_initialize wm) x "_initialize" [];
  x ← call_if (has_on_context_create wm) x "proxy_on_context_create" [1; 0];
  x ← call_if (has_on_vm_start wm) x "proxy_on_vm_start" [1; i32 vm_config_len];
  call_if (has_on_configure wm) x "proxy_on_configure" [1; i32 plugin_config_len].

Definition with_snapshot (wm : warm_instance) (snapshot : bytes) (pages : Z) : warm_instance :=
  Warm (Some snapshot) pages (has_initialize wm) (has_on_context_create wm) (has_on_vm_start wm)
       (has_on_configure wm) (has_request_headers wm) (has_request_body wm)
       (has_response_headers wm) (has_response_body wm) (has_on_log wm) (has_on_done wm)
       (has_on_delete wm) (has_allocator wm) true.

(** The warm instance and the return value.  [entry_ok]: engine, entry and
    pre-instance are not NULL; [ok]: the allocation of the snapshot. *)
Definition vwasm_warm_instance_create (k : nat) (entry_ok ok : bool)
    (vm_config plugin_config : option bytes) : warm_instance * Z :=
  if negb entry_ok then (no_warm, -1)
  else
    let vm_config_len := match vm_config with Some s => strlen s | None => 0 end in
    let plugin_config_len := match plugin_config with Some s => strlen s | None => 0 end in
    if negb (store_new k) then (no_warm, -1)
    else
      match instantiate k with
      | None => (no_warm, -1)
      | Some x =>
          let wm := probe_exports x in
          match run_init wm x vm_config_len plugin_config_len with
          | None => (wm, -1)
          | Some x =>
              if negb (export_memory x) then (wm, -1)
              else
                match memory_data x with
                | None | Some [] => (wm, -1)
                | Some m => if negb ok then (wm, -1) else (with_snapshot wm m (memory_size x), 0)
                end
          end
      end.

Definition vwasm_warm_instance_destroy (wm : warm_instance) : warm_instance :=
  Warm None 0 (has_initialize wm) (has_on_context_create wm) (has_on_vm_start wm)
       (has_on_configure wm) (has_request_headers wm) (has_request_body wm)
       (has_response_headers wm) (has_response_body wm) (has_on_log wm) (has_on_done wm)
       (has_on_delete wm) (has_allocator wm) false.

(** The instance afterwards, and the return value. *)
Definition vwasm_warm_instance_restore (wm : option warm_instance) (x : inst) : inst * Z :=
  match wm with
  | None => (x, -1)
  | Some wm =>
      if negb (valid wm) then (x, -1)
      else
        match memory_snapshot wm with
        | None => (x, -1)
        | Some snap =>
            match memory_data x with
            | None => (x, -1)
            | Some m => if len m <? len snap then (x, -1) else (memory_put x snap, 0)
            end
        end
  end.

(** ** The pool *)

(** [struct vwasm_pooled_store]; [ps_store = None]: [store] is NULL. *)
Record pooled_store := Pooled {
  ps_store : option inst;
  ps_memory_valid : bool;
  ps_allocator_valid : bool;
  ps_data : bool;                     (** the store data points to a request *)
  seq : Z
}.

(** [struct store_pool_internal]: [slots] is whether [slots[i]] is set to
    [&store_objects[i]]. *)
Record store_pool := StorePool {
  store_objects : list pooled_store;
  slots : list bool;
  slot_states : list bool;            (** [in_use] *)
  scan_hint : Z;
  acquires : Z;
  releases : Z;
  fallbacks : Z;
  resets : Z;
  warm_ref : option warm_instance
}.

Definition capacity (p : store_pool) : Z := len (store_objects p).

Definition empty_slot : pooled_store := Pooled None false false false 0.

(** [None]: returns -1. *)
Definition pool_init_slot (k : nat) : option pooled_store :=
  if negb (store_new k) then None
  else
    match instantiate k with
    | None => None
    | Some x =>
        Some (Pooled (Some x) (export_memory x)
                (export_func x "proxy_on_memory_allocate" || export_func x "malloc") false 0)
    end.

(** [warm_ref->valid && ps->memory_valid] *)
Definition should_restore (wm : option warm_instance) (ps : pooled_store) : bool :=
  match wm with Some wm => valid wm && ps_memory_valid ps | None => false end.

Definition restore_slot (wm : option warm_instance) (ps : pooled_store) : pooled_store :=
  match ps_store ps with
  | Some x =>
      Pooled (Some (vwasm_warm_instance_restore wm x).1) (ps_memory_valid ps)
             (ps_allocator_valid ps) (ps_data ps) (seq ps)
  | None => ps
  end.

(** Slots [i .. i + n) of a new pool. *)
Fixpoint init_slots (n : nat) (i : nat) (wm : option warm_instance)
    : list pooled_store * list bool :=
  match n with
  | O => ([], [])
  | S n =>
      let '(l, b) := init_slots n (S i) wm in
      match pool_init_slot i with
      | None => (empty_slot :: l, false :: b)
      | Some ps => ((if should_restore wm ps then restore_slot wm ps else ps) :: l, true :: b)
      end
  end.

Definition vwasm_store_pool_new (ok : oracle) (args_ok : bool) (pool_size : Z)
    (warm : option warm_instance) : option store_pool :=
  if negb args_ok then None
  else
    let pool_size := if pool_size <? VWASM_POOL_MIN_SIZE then VWASM_POOL_MIN_SIZE else pool_size in
    let pool_size := if VWASM_POOL_MAX_SIZE <? pool_size then VWASM_POOL_MAX_SIZE else pool_size in
    if negb (ok 0%nat) || negb (ok 1%nat) || negb (ok 2%nat) || negb (ok 3%nat) then None
    else
      let n := Z.to_nat pool_size in
      let '(l, b) := init_slots n 0 warm in
      Some (StorePool l b (replicate n false) 0 0 0 0 0 warm).

(** ** The atomic operations *)

Definition fetch_hint (p : store_pool) : store_pool * Z :=
  (StorePool (store_objects p) (slots p) (slot_states p) (u64 (scan_hint p + 1)) (acquires p)
     (releases p) (fallbacks p) (resets p) (warm_ref p), scan_hint p).

(** [(start + i) % pool->capacity] *)
Definition slot_index (p : store_pool) (start i : Z) : nat :=
  Z.to_nat (u64 (start + i) mod capacity p).

Definition set_in_use (p : store_pool) (idx : nat) (b : bool) : store_pool :=
  StorePool (store_objects p) (slots p) (<[idx := b]> (slot_states p)) (scan_hint p) (acquires p)
     (releases p) (fallbacks p) (resets p) (warm_ref p).

(** [__sync_val_compare_and_swap(&in_use, 0, 1) == 0] *)
Definition cas_claim (p : store_pool) (idx : nat) : store_pool * bool :=
  match slot_states p !! idx with
  | Some false => (set_in_use p idx true, true)
  | _ => (p, false)
  end.

(** [ps != NULL && ps->store != NULL] *)
Definition initialized (p : store_pool) (idx : nat) : bool :=
  match slots p !! idx, store_objects p !! idx with
  | Some true, Some ps => bool_decide (is_Some (ps_store ps))
  | _, _ => false
  end.

(** Restore, reset the deadline, [seq++], [acquires++]. *)
Definition hand_out (p : store_pool) (idx : nat) : store_pool :=
  match store_objects p !! idx with
  | None => p
  | Some ps =>
      let r := should_restore (warm_ref p) ps in
      let ps := if r then restore_slot (warm_ref p) ps else ps in
      let ps := Pooled (ps_store ps) (ps_memory_valid ps) (ps_allocator_valid ps) (ps_data ps)
                       (u64 (seq ps + 1)) in
      StorePool (<[idx := ps]> (store_objects p)) (slots p) (slot_states p) (scan_hint p)
        (u64 (acquires p + 1)) (releases p) (fallbacks p)
        (if r then u64 (resets p + 1) else resets p) (warm_ref p)
  end.

Definition fall_back (p : store_pool) : store_pool :=
  StorePool (store_objects p) (slots p) (slot_states p) (scan_hint p) (acquires p)
     (releases p) (u64 (fallbacks p + 1)) (resets p) (warm_ref p).

Fixpoint acquire_loop (n : nat) (p : store_pool) (start i : Z) : store_pool * option nat :=
  match n with
  | O => (fall_back p, None)
  | S n =>
      let idx := slot_index p start i in
      let '(p, claimed) := cas_claim p idx in
      if (claimed : bool) then
        if negb (initialized p idx) then acquire_loop n (set_in_use p idx false) start (i + 1)
        else (hand_out p idx, Some idx)
      else acquire_loop n p start (i + 1)
  end.

Definition vwasm_store_pool_acquire (p : store_pool) : store_pool * option nat :=
  let '(p, start) := fetch_hint p in
  acquire_loop (length (store_objects p)) p start 0.

Definition clear_data (p : store_pool) (idx : nat) : store_pool :=
  match store_objects p !! idx with
  | None => p
  | Some ps =>
      StorePool (<[idx := Pooled (ps_store ps) (ps_memory_valid ps) (ps_allocator_valid ps) false
                            (seq ps)]> (store_objects p))
        (slots p) (slot_states p) (scan_hint p) (acquires p) (releases p) (fallbacks p) (resets p)
        (warm_ref p)
  end.

Definition vwasm_store_pool_release (p : store_pool) (idx : nat) : store_pool :=
  let p := set_in_use (clear_data p idx) idx false in
  StorePool (store_objects p) (slots p) (slot_states p) (scan_hint p) (acquires p)
    (u64 (releases p + 1)) (fallbacks p) (resets p) (warm_ref p).

(** ** Statistics *)

Definition quote : bytes := [34].
Definition field (name : string) (v : Z) : bytes := quote ++ str name ++ quote ++ str ":" ++ dec v.

Definition stats_text (p : store_pool) : bytes :=
  str "{" ++ field "capacity" (capacity p) ++ str "," ++ field "acquires" (acquires p) ++ str "," ++
  field "releases" (releases p) ++ str "," ++ field "fallbacks" (fallbacks p) ++ str "," ++
  field "resets" (resets p) ++ str "}".

(** [buf]: the bytes [malloc] returned, [None] when it failed; the string
    returned, [None] for NULL. *)
Definition vwasm_store_pool_stats_json (p : store_pool) (buf : option bytes)
    : outcome (option bytes) :=
  match buf with
  | None => Done None
  | Some b =>
      let! '(b, n) := snprintf b 0 512 (stats_text p) in
      if 512 <=? n then Done None else Done (Some (cstr b))
  end.
End Pool.

(** ** Worker threads

    The operations above are atomic; a worker thread executes the scan of
    [vwasm_store_pool_acquire], runs its guest in the store it got, and executes
    [vwasm_store_pool_release], interleaved with the others in any way. *)

Inductive thread :=
| Idle
| Scanning (start i : Z)
| Claimed (start i : Z) (idx : nat)
| Holding (idx : nat)
| Releasing (idx : nat).

Section Threads.
Context `{W : Wasm}.

Record sys := Sys { shared : store_pool; threads : nat -> thread }.

Definition put_object (p : store_pool) (idx : nat) (ps : pooled_store) : store_pool :=
  StorePool (<[idx := ps]> (store_objects p)) (slots p) (slot_states p) (scan_hint p)
    (acquires p) (releases p) (fallbacks p) (resets p) (warm_ref p).

Definition count_release (p : store_pool) : store_pool :=
  StorePool (store_objects p) (slots p) (slot_states p) (scan_hint p) (acquires p)
    (u64 (releases p + 1)) (fallbacks p) (resets p) (warm_ref p).

(** A step of thread [t]. *)
Inductive step (t : nat) : sys -> sys -> Prop :=
  | step_begin p th p' start :
      th t = Idle -> fetch_hint p = (p', start) ->
      step t (Sys p th) (Sys p' (<[t := Scanning start 0]> th))
  | step_busy p th start i p' :
      th t = Scanning start i -> i < capacity p ->
      cas_claim p (slot_index p start i) = (p', false) ->
      step t (Sys p th) (Sys p' (<[t := Scanning start (i + 1)]> th))
  | step_claim p th start i p' :
      th t = Scanning start i -> i < capacity p ->
      cas_claim p (slot_index p start i) = (p', true) ->
      step t (Sys p th) (Sys p' (<[t := Claimed start i (slot_index p start i)]> th))
  | step_skip p th start i idx :
      th t = Claimed start i idx -> initialized p idx = false ->
      step t (Sys p th) (Sys (set_in_use p idx false) (<[t := Scanning start (i + 1)]> th))
  | step_hand_out p th start i idx :
      th t = Claimed start i idx -> initialized p idx = true ->
      step t (Sys p th) (Sys (hand_out p idx) (<[t := Holding idx]> th))
  | step_exhausted p th start i :
      th t = Scanning start i -> capacity p <= i ->
      step t (Sys p th) (Sys (fall_back p) (<[t := Idle]> th))
  | step_run p th idx ps :
      th t = Holding idx ->
      step t (Sys p th) (Sys (put_object p idx ps) th)
  | step_clear p th idx :
      th t = Holding idx ->
      step t (Sys p th) (Sys (clear_data p idx) (<[t := Releasing idx]> th))
  | step_release p th idx :
      th t = Releasing idx ->
      step t (Sys p th) (Sys (count_release (set_in_use p idx false)) (<[t := Idle]> th)).

Definition any_step (s s' : sys) : Prop := exists t, step t s s'.

(** The slot a thread has claimed. *)
Definition claims (st : thread) : option nat :=
  match st with
  | Claimed _ _ idx | Holding idx | Releasing idx => Some idx
  | _ => None
  end.

(** A claimed slot is marked, and claimed by one thread. *)
Definition exclusive (s : sys) : Prop :=
  (forall t idx, claims (threads s t) = Some idx -> slot_states (shared s) !! idx = Some true) /\
  (forall t u idx, claims (threads s t) = Some idx -> claims (threads s u) = Some idx -> t = u).

Definition start_sys (p : store_pool) : sys := Sys p (fun _ => Idle).

Lemma claims_insert (th : nat -> thread) t x u idx :
  claims (<[t := x]> th u) = Some idx ->
  (u = t /\ claims x = Some idx) \/ (u <> t /\ claims (th u) = Some idx).
Proof.
  destruct (decide (u = t)) as [->|Hne].
  - rewrite fn_lookup_insert. by left.
  - rewrite fn_lookup_insert_ne by congruence. by right.
Qed.

(** Steps that leave the marks alone and claim nothing new. *)
Lemma exclusive_same p p' th t x :
  exclusive (Sys p th) -> slot_states p' = slot_states p ->
  (forall idx, claims x = Some idx -> claims (th t) = Some idx) ->
  exclusive (Sys p' (<[t := x]> th)).
Proof.
  intros [Hm Hu] Hs Hx. split; cbn [shared threads] in *.
  - intros u idx Hc. rewrite Hs. apply claims_insert in Hc as [[-> Hc]|[_ Hc]]; eauto.
  - intros u v idx Hcu Hcv. apply claims_insert in Hcu as [[-> Hcu]|[Hne Hcu]];
      apply claims_insert in Hcv as [[-> Hcv]|[Hne' Hcv]]; eauto.
Qed.

(** Steps that give up the claim. *)
Lemma exclusive_drop p th t x idx :
  exclusive (Sys p th) -> claims (th t) = Some idx -> claims x = None ->
  exclusive (Sys (set_in_use p idx false) (<[t := x]> th)).
Proof.
  intros [Hm Hu] Ht Hx. split; cbn [shared threads] in *.
  - intros u j Hc. apply claims_insert in Hc as [[-> Hc]|[Hne Hc]]; [congruence|].
    cbn [slot_states set_in_use]. rewrite list_lookup_insert_ne; [by eapply Hm|].
    intros ->. apply Hne. by eapply Hu.
  - intros u v j Hcu Hcv. apply claims_insert in Hcu as [[-> Hcu]|[Hne Hcu]];
      apply claims_insert in Hcv as [[-> Hcv]|[Hne' Hcv]]; eauto; congruence.
Qed.

Lemma cas_claim_false p idx p' : cas_claim p idx = (p', false) -> p' = p.
Proof. unfold cas_claim. destruct (slot_states p !! idx) as [[]|]; congruence. Qed.

Lemma cas_claim_true p idx p' :
  cas_claim p idx = (p', true) -> slot_states p !! idx = Some false /\ p' = set_in_use p idx true.
Proof. unfold cas_claim. destruct (slot_states p !! idx) as [[]|]; naive_solver. Qed.

Lemma hand_out_states p idx : slot_states (hand_out p idx) = slot_states p.
Proof. unfold hand_out. by destruct (store_objects p !! idx). Qed.

Lemma clear_data_states p idx : slot_states (clear_data p idx) = slot_states p.
Proof. unfold clear_data. by destruct (store_objects p !! idx). Qed.

Lemma store_step_exclusive t s s' : exclusive s -> step t s s' -> exclusive s'.
Proof.
  intros He Hs. destruct Hs as [p th p' start Ht Hf|p th start i p' Ht Hi Hc|p th start i p' Ht Hi Hc
    |p th start i idx Ht Hi|p th start i idx Ht Hi|p th start i Ht Hi|p th idx ps Ht|p th idx Ht|p th idx Ht].
  - injection Hf as <- <-. by eapply exclusive_same.
  - apply cas_claim_false in Hc as ->. by eapply exclusive_same.
  - apply cas_claim_true in Hc as [Hfree ->]. destruct He as [Hm Hu]. cbn [shared threads] in *.
    assert (forall u, claims (th u) <> Some (slot_index p start i)) as Hno
      by (intros u E; apply Hm in E; congruence).
    split; cbn [shared threads slot_states set_in_use].
    + intros u j Hj. apply claims_insert in Hj as [[-> Hj]|[_ Hj]].
      * injection Hj as <-. apply list_lookup_insert_eq. by eapply lookup_lt_Some.
      * rewrite list_lookup_insert_ne by (intros <-; by eapply Hno). by eapply Hm.
    + intros u v j Hj Hk. apply claims_insert in Hj as [[-> Hj]|[Hne Hj]];
        apply claims_insert in Hk as [[-> Hk]|[Hne' Hk]]; eauto;
        cbn [claims] in *; simplify_eq; exfalso; by eapply Hno.
  - eapply exclusive_drop; [done|by rewrite Ht|done].
  - eapply exclusive_same; [done|apply hand_out_states|by rewrite Ht].
  - by eapply exclusive_same.
  - destruct He as [Hm Hu]. by split.
  - eapply exclusive_same; [done|apply clear_data_states|by rewrite Ht].
  - destruct (exclusive_drop p th t Idle idx He) as [Hm Hu]; [by rewrite Ht|done|]. by split.
Qed.

(** What a thread holds, the steps of others leave alone. *)
Lemma step_frame t u s s' idx :
  exclusive s -> step u s s' -> t <> u -> claims (threads s t) = Some idx ->
  store_objects (shared s') !! idx = store_objects (shared s) !! idx.
Proof.
  intros [Hm Hu] Hs Htu Ht.
  assert (forall j, claims (threads s u) = Some j -> idx <> j) as Hd.
  { intros j Hj ->. apply Htu. by eapply Hu. }
  destruct Hs as [p th p' start Hst Hf|p th start i p' Hst Hi Hc|p th start i p' Hst Hi Hc
    |p th start i j Hst Hi|p th start i j Hst Hi|p th start i Hst Hi|p th j ps Hst|p th j Hst|p th j Hst];
    cbn [shared threads] in *; rewrite Hst in Hd; cbn [claims] in Hd.
  - by injection Hf as <- <-.
  - by apply cas_claim_false in Hc as ->.
  - by apply cas_claim_true in Hc as [_ ->].
  - done.
  - unfold hand_out. destruct (store_objects p !! j) as [ps|]; [|done]. cbn [store_objects].
    apply list_lookup_insert_ne. by apply not_eq_sym, Hd.
  - done.
  - apply list_lookup_insert_ne. by apply not_eq_sym, Hd.
  - unfold clear_data. destruct (store_objects p !! j) as [ps|]; [|done]. cbn [store_objects].
    apply list_lookup_insert_ne. by apply not_eq_sym, Hd.
  - done.
Qed.

Lemma start_exclusive p : exclusive (start_sys p).
Proof. split; done. Qed.

Lemma reachable_exclusive p s : rtc any_step (start_sys p) s -> exclusive s.
Proof.
  intros Hr. apply (rtc_ind_r exclusive) in Hr; [done|apply start_exclusive|].
  intros s1 s2 _ [t Ht] He. by eapply store_step_exclusive.
Qed.

(** C4 Stores are never shared: in every state worker threads can reach, by
    any interleaving of their atomic operations, two threads never hold the
    same pooled store, and while a thread holds one no step of another thread
    changes it. *)
Theorem stores_exclusive p s t u i j :
  rtc any_step (start_sys p) s -> t <> u ->
  claims (threads s t) = Some i ->
  (claims (threads s u) = Some j -> i <> j) /\
  (forall s', step u s s' -> store_objects (shared s') !! i = store_objects (shared s) !! i).
Proof.
  intros Hr Htu Ht. apply reachable_exclusive in Hr. split.
  - intros Hj ->. apply Htu. by eapply Hr.
  - intros s' Hs. by eapply step_frame.
Qed.
End Threads.

(** ** A whole acquisition *)

Section Acquire.
Context `{W : Wasm}.

Lemma set_in_use_back p idx :
  slot_states p !! idx = Some false -> set_in_use (set_in_use p idx true) idx false = p.
Proof.
  intros Hs. destruct p as [obj sl st h a r f re wr]. unfold set_in_use. simpl in *. f_equal.
  rewrite list_insert_insert_eq. by apply list_insert_id.
Qed.

Lemma initialized_mark p idx j b : initialized (set_in_use p idx b) j = initialized p j.
Proof. reflexivity. Qed.

(** A slot that can be handed out. *)
Definition available (p : store_pool) (idx : nat) : Prop :=
  slot_states p !! idx = Some false /\ initialized p idx = true.

Lemma acquire_loop_spec n p start i :
  (exists k, 0 <= k < Z.of_nat n /\ let idx := slot_index p start (i + k) in
     available p idx /\
     acquire_loop n p start i = (hand_out (set_in_use p idx true) idx, Some idx)) \/
  ((forall k, 0 <= k < Z.of_nat n -> ~ available p (slot_index p start (i + k))) /\
   acquire_loop n p start i = (fall_back p, None)).
Proof.
  revert i. induction n as [|n IH]; intros i; [right; split; [lia|done]|].
  cbn [acquire_loop].
  assert (forall r, r = acquire_loop n p start (i + 1) -> ~ available p (slot_index p start i) ->
    (exists k, 0 <= k < Z.of_nat (S n) /\ let idx := slot_index p start (i + k) in
       available p idx /\ r = (hand_out (set_in_use p idx true) idx, Some idx)) \/
    ((forall k, 0 <= k < Z.of_nat (S n) -> ~ available p (slot_index p start (i + k))) /\
     r = (fall_back p, None))) as Hnext.
  { intros r -> Hna. destruct (IH (i + 1)) as [(k & Hk & Hav & E)|[Hall E]]; [left|right].
    - exists (k + 1). replace (i + (k + 1)) with (i + 1 + k) by lia. split; [lia|done].
    - split; [|done]. intros k Hk. destruct (decide (k = 0)) as [->|]; [by rewrite Z.add_0_r|].
      replace (i + k) with (i + 1 + (k - 1)) by lia. apply Hall. lia. }
  destruct (cas_claim p (slot_index p start i)) as [p' c] eqn:Ec. destruct c.
  - apply cas_claim_true in Ec as [Hs ->]. rewrite initialized_mark.
    destruct (initialized p (slot_index p start i)) eqn:Ei; cbn [negb].
    + left. exists 0. rewrite Z.add_0_r. split; [lia|]. cbv zeta. by split; [|].
    + apply Hnext; [by rewrite set_in_use_back|]. intros [_ ?]. congruence.
  - pose proof (cas_claim_false _ _ _ Ec) as ->. apply Hnext; [done|].
    intros [Hs _]. unfold cas_claim in Ec. rewrite Hs in Ec. done.
Qed.

(** Every slot is visited, as long as the hint does not wrap during the scan. *)
Lemma slot_index_onto p start j :
  0 <= start -> start + capacity p <= 18446744073709551616 -> (j < length (store_objects p))%nat ->
  exists k, 0 <= k < capacity p /\ slot_index p start k = j.
Proof.
  intros Hs Hw Hj. unfold capacity, slot_index, capacity in *.
  set (n := len (store_objects p)) in *. assert (Z.of_nat j < n) by (unfold n, len; lia).
  exists ((Z.of_nat j - start) mod n).
  pose proof (Z.mod_pos_bound (Z.of_nat j - start) n ltac:(lia)). split; [done|].
  unfold u64. rewrite (Z.mod_small (start + _)) by lia.
  rewrite Z.add_mod_idemp_r by lia. replace (start + (Z.of_nat j - start)) with (Z.of_nat j) by lia.
  rewrite Z.mod_small by lia. lia.
Qed.

(** One thread alone: its steps are the function. *)
Definition after (t : nat) (r : option nat) (th th' : nat -> thread) : Prop :=
  th' t = match r with Some idx => Holding idx | None => Idle end /\
  forall u, u <> t -> th' u = th u.

Lemma after_insert t r (th th' : nat -> thread) x : after t r (<[t := x]> th) th' -> after t r th th'.
Proof.
  intros [Ht Ho]. split; [done|]. intros u Hu. rewrite Ho, fn_lookup_insert_ne by congruence. done.
Qed.

Lemma after_now t r (th : nat -> thread) :
  after t r th (<[t := match r with Some idx => Holding idx | None => Idle end]> th).
Proof.
  split; [apply fn_lookup_insert|]. intros u Hu. by rewrite fn_lookup_insert_ne by congruence.
Qed.

Lemma loop_run t n p (th : nat -> thread) start i :
  th t = Scanning start i -> capacity p = i + Z.of_nat n ->
  exists th', after t (acquire_loop n p start i).2 th th' /\
    rtc (step t) (Sys p th) (Sys (acquire_loop n p start i).1 th').
Proof.
  revert th i. induction n as [|n IH]; intros th i Ht Hn; cbn [acquire_loop].
  { eexists. split; [apply after_now|]. apply rtc_once. eapply step_exhausted; [done|lia]. }
  assert (forall th1 : nat -> thread, rtc (step t) (Sys p th) (Sys p th1) ->
    th1 t = Scanning start (i + 1) -> (forall u, u <> t -> th1 u = th u) ->
    exists th', after t (acquire_loop n p start (i + 1)).2 th th' /\
      rtc (step t) (Sys p th) (Sys (acquire_loop n p start (i + 1)).1 th')) as Hnext.
  { intros th1 Hr Ht1 Ho. destruct (IH th1 (i + 1) Ht1 ltac:(lia)) as (th' & [Ha Hb] & Hr').
    exists th'. split; [|by etrans]. split; [done|]. intros u Hu. by rewrite Hb, Ho. }
  destruct (cas_claim p (slot_index p start i)) as [p' c] eqn:Ec. destruct c.
  - pose proof (step_claim t p th start i p' Ht ltac:(lia) Ec) as S1.
    apply cas_claim_true in Ec as [Hs ->]. rewrite initialized_mark.
    set (idx := slot_index p start i) in *. set (th1 := <[t := Claimed start i idx]> th) in *.
    assert (th1 t = Claimed start i idx) as Ht1 by apply fn_lookup_insert.
    destruct (initialized p idx) eqn:Ei; cbn [negb fst snd].
    + exists (<[t := Holding idx]> th1). split; [apply (after_insert t (Some idx) th _ (Claimed start i idx)), (after_now t (Some idx) th1)|].
      eapply rtc_l; [exact S1|]. apply rtc_once. by eapply step_hand_out.
    + rewrite set_in_use_back by done. apply (Hnext (<[t := Scanning start (i + 1)]> th1)).
      * eapply rtc_l; [exact S1|]. apply rtc_once.
        rewrite <- (set_in_use_back p idx) at 2 by done. by eapply step_skip.
      * apply fn_lookup_insert.
      * intros u Hu. unfold th1. by rewrite !fn_lookup_insert_ne by congruence.
  - pose proof (step_busy t p th start i p' Ht ltac:(lia) Ec) as S1.
    apply cas_claim_false in Ec as ->.
    apply (Hnext (<[t := Scanning start (i + 1)]> th)); [by apply rtc_once|apply fn_lookup_insert|].
    intros u Hu. by rewrite fn_lookup_insert_ne by congruence.
Qed.

(** C16 The scan implements an atomic allocation: run without interference,
    the steps of a thread amount to one call of [vwasm_store_pool_acquire],
    which hands out a free initialized slot and marks it, and falls back only
    when there is none (provided the 64-bit scan hint does not wrap during the
    scan). *)
Theorem acquire_allocates t p (th : nat -> thread) p' r :
  th t = Idle -> vwasm_store_pool_acquire p = (p', r) ->
  (exists th', after t r th th' /\ rtc (step t) (Sys p th) (Sys p' th')) /\
  (forall idx, r = Some idx -> available p idx /\ slot_states p' = <[idx := true]> (slot_states p)) /\
  (r = None -> 0 <= scan_hint p -> scan_hint p + capacity p <= 18446744073709551616 ->
     forall idx, ~ available p idx).
Proof.
  intros Ht. unfold vwasm_store_pool_acquire. cbn [fetch_hint].
  set (p0 := StorePool _ _ _ _ _ _ _ _ _). cbn [store_objects p0]. intros E.
  pose proof (loop_run t (length (store_objects p)) p0 (<[t := Scanning (scan_hint p) 0]> th)
                (scan_hint p) 0 (fn_lookup_insert _ _ _) ltac:(unfold capacity, len; simpl; lia))
    as (th' & Ha & Hr).
  rewrite E in Ha, Hr. cbn [fst snd] in Ha, Hr. split; [|split].
  - exists th'. split; [by eapply after_insert|]. eapply rtc_l; [|exact Hr]. by eapply step_begin.
  - intros idx ->.
    destruct (acquire_loop_spec (length (store_objects p)) p0 (scan_hint p) 0)
      as [(k & _ & Hav & E')|[_ E']]; rewrite E in E'; [|done]. cbv zeta in Hav. simplify_eq.
    split; [done|]. by rewrite hand_out_states.
  - intros -> H0 Hw idx Hav.
    destruct (acquire_loop_spec (length (store_objects p)) p0 (scan_hint p) 0)
      as [(k & _ & _ & E')|[Hall _]]; [rewrite E in E'; done|].
    assert (idx < length (store_objects p))%nat as Hlt.
    { destruct Hav as [_ Hi]. unfold initialized in Hi. destruct (slots p !! idx) as [[]|]; try done.
      destruct (store_objects p !! idx) eqn:Eo; [|done]. by eapply lookup_lt_Some. }
    destruct (slot_index_onto p (scan_hint p) idx H0 Hw Hlt) as (k & Hk & Ek).
    apply (Hall k); [unfold capacity, len in Hk; lia|]. rewrite Z.add_0_l. unfold slot_index in *.
    unfold capacity in *. cbn [store_objects p0]. rewrite Ek. exact Hav.
Qed.
End Acquire.

(** ** Snapshots *)

Section Snapshots.
Context `{W : Wasm} `{WL : !WasmLaws}.

(** Slot [idx] holds an instance whose linear memory is [m]. *)
Definition slot_memory (p : store_pool) (idx : nat) (m : bytes) : Prop :=
  exists ps x, store_objects p !! idx = Some ps /\ ps_memory_valid ps = true /\
    ps_store ps = Some x /\ memory_data x = Some m.

(** The snapshot the pool restores. *)
Definition pool_snapshot (p : store_pool) (snap : bytes) : Prop :=
  exists wm, warm_ref p = Some wm /\ valid wm = true /\ memory_snapshot wm = Some snap.

(** What a slot's memory is after it was handed out. *)
Definition restored (snap m : bytes) : bytes := if len m <? len snap then m else upd m 0 snap.

Lemma hand_out_memory p idx m snap :
  slot_memory p idx m -> pool_snapshot p snap ->
  slot_memory (hand_out p idx) idx (restored snap m).
Proof.
  intros (ps & x & Hps & Hmv & Hx & Hm) (wm & Hw & Hv & Hs). unfold hand_out, slot_memory.
  rewrite Hps, Hw. cbn [should_restore]. rewrite Hv, Hmv. cbn [andb store_objects].
  eexists _, _. split; [apply list_lookup_insert_eq; by eapply lookup_lt_Some|].
  unfold restore_slot. rewrite Hx. cbn [ps_memory_valid ps_store].
  split_and!; [done..|]. unfold vwasm_warm_instance_restore, restored. rewrite Hv, Hs, Hm. cbn [negb].
  split_if; [done|]. cbn [fst]. by apply memory_put_data.
Qed.

Lemma acquire_memory p p' idx m snap :
  vwasm_store_pool_acquire p = (p', Some idx) -> slot_memory p idx m -> pool_snapshot p snap ->
  slot_memory p' idx (restored snap m).
Proof.
  unfold vwasm_store_pool_acquire. cbn [fetch_hint]. set (p0 := StorePool _ _ _ _ _ _ _ _ _).
  cbn [store_objects p0]. intros E Hm Hs.
  destruct (acquire_loop_spec (length (store_objects p)) p0 (scan_hint p) 0)
    as [(k & _ & _ & E')|[_ E']]; rewrite E in E'; [|done]. cbv zeta in E'. simplify_eq.
  by apply hand_out_memory.
Qed.

(** C29 Isolation by snapshot: a store whose memory still has the size of the
    snapshot is handed out with exactly the memory of the snapshot, whatever
    the requests that used it before left there. *)
Theorem acquire_restores_snapshot p p' idx m snap :
  vwasm_store_pool_acquire p = (p', Some idx) -> slot_memory p idx m -> pool_snapshot p snap ->
  len m = len snap -> slot_memory p' idx snap.
Proof.
  intros E Hm Hs Hl. pose proof (acquire_memory p p' idx m snap E Hm Hs) as Hr.
  unfold restored in Hr. rewrite (proj2 (Z.ltb_ge _ _)) in Hr by lia. unfold upd in Hr.
  rewrite drop_ge, app_nil_r in Hr by (unfold len in Hl; lia). exact Hr.
Qed.

(** Memory that grew is not reset: when the guest grew its memory, the
    bytes past the snapshot are handed to the next request as the previous one
    left them. *)
Theorem grown_memory_leaks p p' idx snap tail :
  vwasm_store_pool_acquire p = (p', Some idx) -> pool_snapshot p snap ->
  (exists head, len head = len snap /\ slot_memory p idx (head ++ tail)) ->
  slot_memory p' idx (snap ++ tail).
Proof.
  intros E Hs (head & Hl & Hm). pose proof (acquire_memory p p' idx _ snap E Hm Hs) as Hr.
  unfold restored in Hr. rewrite (proj2 (Z.ltb_ge _ _)) in Hr
    by (rewrite len_app; pose proof (len_nonneg tail); lia).
  unfold upd in Hr. cbn [take app Z.to_nat] in Hr.
  rewrite drop_app_length' in Hr by (unfold len in Hl; lia). exact Hr.
Qed.

(** A snapshot taken after the memory grew during initialization is never
    restored: the failure is ignored and the store is handed out with the
    memory the previous request left. *)
Theorem short_memory_not_restored p p' idx m snap :
  vwasm_store_pool_acquire p = (p', Some idx) -> slot_memory p idx m -> pool_snapshot p snap ->
  len m < len snap -> slot_memory p' idx m.
Proof.
  intros E Hm Hs Hl. pose proof (acquire_memory p p' idx m snap E Hm Hs) as Hr.
  unfold restored in Hr. by rewrite (proj2 (Z.ltb_lt _ _)) in Hr by lia.
Qed.
End Snapshots.

(** ** Creation and statistics *)

Section Creation.
Context `{W : Wasm}.

Lemma init_slots_length n i wm :
  length (init_slots n i wm).1 = n /\ length (init_slots n i wm).2 = n.
Proof.
  revert i. induction n as [|n IH]; intros i; simpl; [done|]. specialize (IH (S i)).
  destruct (init_slots n (S i) wm) as [l b]. simpl in IH.
  destruct (pool_init_slot i); simpl; lia.
Qed.

(** Size of a new pool: between 8 and 1024 slots, all of them free, and
    the requested number when it lies in that range. *)
Theorem new_pool_size ok pool_size warm p :
  vwasm_store_pool_new ok true pool_size warm = Some p ->
  capacity p = Z.max 8 (Z.min 1024 pool_size) /\ length (slots p) = length (store_objects p) /\
  slot_states p = replicate (length (store_objects p)) false /\ warm_ref p = warm.
Proof.
  unfold vwasm_store_pool_new. cbn [negb]. cbv zeta.
  set (n := if VWASM_POOL_MAX_SIZE <? _ then _ else _).
  assert (n = Z.max 8 (Z.min 1024 pool_size)) as Hn
    by (unfold n, VWASM_POOL_MAX_SIZE, VWASM_POOL_MIN_SIZE; repeat split_if; lia).
  split_if; [done|]. pose proof (init_slots_length (Z.to_nat n) 0 warm) as [Hl Hb].
  destruct (init_slots (Z.to_nat n) 0 warm) as [l b]. cbn [fst snd] in *. intros [= <-].
  unfold capacity, len. cbn [store_objects slots slot_states warm_ref].
  split_and!; [lia|lia|by rewrite Hl|done].
Qed.

Lemma field_len name v : len (field name v) <= len (str name) + 23.
Proof.
  unfold field, quote. pose proof (dec_len v). rewrite !len_app.
  change (len [34]) with 1. change (len (str ":")) with 1. lia.
Qed.

Lemma field_nul name v : nul_free (str name) -> nul_free (field name v).
Proof.
  intros Hn. unfold field, quote, nul_free in *. rewrite !Forall_app.
  split_and!; [by repeat constructor|done|by repeat constructor|by_decide|apply dec_nul_free].
Qed.

Lemma stats_text_len p : len (stats_text p) < 512.
Proof.
  unfold stats_text. rewrite !len_app.
  pose proof (field_len "capacity" (capacity p)). pose proof (field_len "acquires" (acquires p)).
  pose proof (field_len "releases" (releases p)). pose proof (field_len "fallbacks" (fallbacks p)).
  pose proof (field_len "resets" (resets p)).
  change (len (str "{")) with 1 in *. change (len (str ",")) with 1 in *.
  change (len (str "}")) with 1 in *. change (len (str "capacity")) with 8 in *.
  change (len (str "acquires")) with 8 in *. change (len (str "releases")) with 8 in *.
  change (len (str "fallbacks")) with 9 in *. change (len (str "resets")) with 6 in *. lia.
Qed.

Lemma stats_text_nul p : nul_free (stats_text p).
Proof.
  unfold stats_text, nul_free. rewrite !Forall_app.
  split_and!; first [apply field_nul; by_decide|by_decide].
Qed.

(** The statistics never overflow their buffer and are never cut: whatever
    the counters, the text fits the 512 bytes and is returned whole. *)
Theorem stats_json_whole p buf :
  len buf = 512 -> vwasm_store_pool_stats_json p (Some buf) = Done (Some (stats_text p)).
Proof.
  intros Hb. unfold vwasm_store_pool_stats_json.
  pose proof (stats_text_len p) as Hl. pose proof (stats_text_nul p) as Hn.
  generalize dependent (stats_text p). intros t Hl Hn.
  rewrite snprintf_fits by lia. cbn [obind]. rewrite (proj2 (Z.leb_gt _ _)) by lia.
  do 2 f_equal. unfold upd. change (take (Z.to_nat 0) buf) with (@nil Z). cbn [app]. rewrite <- app_assoc, (cstr_app t) by exact Hn.
  cbn [app cstr Z.eqb]. by rewrite app_nil_r.
Qed.
End Creation.

(** ** A concrete runtime

    Modules whose instance is its memory, four bytes at first; [proxy_on_vm_start]
    sets the first byte. *)

Definition toy_wasm : Wasm := {|
  inst := bytes;
  store_new := fun _ => true;
  instantiate := fun _ => Some [0; 0; 0; 0];
  export_memory := fun _ => true;
  export_func := fun _ name => String.eqb name "proxy_on_vm_start";
  call_func := fun x _ _ => (upd x 0 [7], true);
  memory_data := fun x => Some x;
  memory_put := fun x b => upd x 0 b;
  memory_size := fun _ => 1
|}.

#[export] Instance toy_wasm_laws : WasmLaws (H := toy_wasm).
Proof. split. intros x m b [= <-] _. reflexivity. Defined.

Definition toy_warm : warm_instance :=
  Eval vm_compute in (vwasm_warm_instance_create (W := toy_wasm) 0 true true None None).1.

Definition toy_store_pool : store_pool (W := toy_wasm) :=
  Eval vm_compute in
    default (@StorePool toy_wasm [] [] [] 0 0 0 0 0 None)
      (vwasm_store_pool_new (W := toy_wasm) all_ok true 8 (Some toy_warm)).

(** The pool after a request left [m] in the first store. *)
Definition used_pool (m : bytes) : store_pool (W := toy_wasm) :=
  put_object (W := toy_wasm) toy_store_pool 0 (@Pooled toy_wasm (Some m) true false false 1).

Lemma used_pool_memory m : slot_memory (W := toy_wasm) (used_pool m) 0 m.
Proof. by eexists _, m. Qed.

Lemma used_pool_snapshot m : pool_snapshot (W := toy_wasm) (used_pool m) [7; 0; 0; 0].
Proof. by eexists. Qed.

(** Thread 0 holds the first store. *)
Definition held_sys : sys (W := toy_wasm) :=
  Sys (hand_out (W := toy_wasm) (set_in_use (fetch_hint (W := toy_wasm) (used_pool [1])).1 0 true) 0)
      (<[0%nat := Holding 0]> (<[0%nat := Claimed 0 0 0]> (<[0%nat := Scanning 0 0]> (fun _ => Idle)))).

Lemma stores_exclusive_witness :
  claims (threads (W := toy_wasm) held_sys 0) = Some 0%nat /\
  (forall s', step (W := toy_wasm) 1 held_sys s' ->
     store_objects (shared s') !! 0%nat = store_objects (shared held_sys) !! 0%nat).
Proof.
  split; [reflexivity|].
  apply (stores_exclusive (W := toy_wasm) (used_pool [1]) held_sys 0 1 0 0).
  - eapply rtc_l; [exists 0%nat; by eapply (step_begin (W := toy_wasm))|].
    eapply rtc_l; [exists 0%nat; by eapply (step_claim (W := toy_wasm))|].
    eapply rtc_l; [exists 0%nat; by eapply (step_hand_out (W := toy_wasm))|]. apply rtc_refl.
  - discriminate.
  - reflexivity.
Defined.

Lemma acquire_allocates_witness :
  exists th', after 3 (Some 0%nat) (fun _ => Idle) th' /\
    rtc (step (W := toy_wasm) 3) (Sys toy_store_pool (fun _ => Idle))
      (Sys (vwasm_store_pool_acquire (W := toy_wasm) toy_store_pool).1 th').
Proof.
  apply (acquire_allocates (W := toy_wasm) 3 toy_store_pool (fun _ => Idle)
           (vwasm_store_pool_acquire (W := toy_wasm) toy_store_pool).1 (Some 0%nat)).
  - reflexivity.
  - vm_compute. reflexivity.
Defined.

Lemma acquire_restores_snapshot_witness :
  slot_memory (W := toy_wasm) (vwasm_store_pool_acquire (W := toy_wasm) (used_pool [9; 9; 9; 9])).1 0
    [7; 0; 0; 0].
Proof.
  apply (acquire_restores_snapshot (W := toy_wasm) (used_pool [9; 9; 9; 9])
           (vwasm_store_pool_acquire (W := toy_wasm) (used_pool [9; 9; 9; 9])).1 0 [9; 9; 9; 9]).
  - vm_compute. reflexivity.
  - apply used_pool_memory.
  - apply used_pool_snapshot.
  - reflexivity.
Defined.

Lemma grown_memory_leaks_witness :
  slot_memory (W := toy_wasm)
    (vwasm_store_pool_acquire (W := toy_wasm) (used_pool ([9; 9; 9; 9] ++ str "secret"))).1 0
    ([7; 0; 0; 0] ++ str "secret").
Proof.
  apply (grown_memory_leaks (W := toy_wasm) (used_pool ([9; 9; 9; 9] ++ str "secret"))
           (vwasm_store_pool_acquire (W := toy_wasm) (used_pool ([9; 9; 9; 9] ++ str "secret"))).1 0).
  - vm_compute. reflexivity.
  - apply used_pool_snapshot.
  - exists [9; 9; 9; 9]. split; [reflexivity|apply used_pool_memory].
Defined.

Lemma short_memory_not_restored_witness :
  slot_memory (W := toy_wasm) (vwasm_store_pool_acquire (W := toy_wasm) (used_pool [9; 9])).1 0 [9; 9].
Proof.
  apply (short_memory_not_restored (W := toy_wasm) (used_pool [9; 9])
           (vwasm_store_pool_acquire (W := toy_wasm) (used_pool [9; 9])).1 0 [9; 9] [7; 0; 0; 0]).
  - vm_compute. reflexivity.
  - apply used_pool_memory.
  - apply used_pool_snapshot.
  - by_decide.
Defined.

Lemma new_pool_size_witness : capacity (W := toy_wasm) toy_store_pool = 8.
Proof.
  apply (new_pool_size (W := toy_wasm) all_ok 8 (Some toy_warm) toy_store_pool).
  vm_compute. reflexivity.
Defined.

Lemma stats_json_whole_witness :
  vwasm_store_pool_stats_json (W := toy_wasm) toy_store_pool (Some (replicate 512 0)) =
    Done (Some (stats_text (W := toy_wasm) toy_store_pool)).
Proof. apply (stats_json_whole (W := toy_wasm)). reflexivity. Defined.
