(* ===== verification/HostFunctions.v ===== *)
(** * The direct host functions and the WASI stubs (src/host_functions.c)

    The six [env] functions of the module interface without Proxy-Wasm, the
    eight [wasi_snapshot_preview1] stubs, and their registration.  Every one of
    them is in the linker of the engine, so every guest can call it with any
    [i32] arguments. *)

From S2P Require Import Prelude Mem Ctx HostCalls Headers Properties.

Definition WASI_ERRNO_SUCCESS : Z := 0.
Definition WASI_ERRNO_BADF : Z := 8.
Definition WASI_ERRNO_INVAL : Z := 28.
Definition WASI_ERRNO_IO : Z := 29.
Definition WASI_CLOCKID_REALTIME : Z := 0.
Definition WASI_CLOCKID_MONOTONIC : Z := 1.

(** The transaction of a direct call: [ctx->req->http] (the inner option is
    [http], the outer one [req]) and the log. *)
Record host_vrt := HostVrt {
  hv_req : option (option http);
  hv_vsl : option (list (vsl_tag * bytes))
}.

(** [struct vwasm_host_ctx], with the linear memory its handle denotes and what
    was written to the standard error of the process. *)
Record host_ctx := HostCtx {
  hc_vrt : option host_vrt;
  hc_memory : bytes;
  hc_memory_valid : bool;
  hc_stderr : bytes
}.

(** What a call takes from its surroundings: the allocations, the two clocks,
    the results of successive [getrandom] calls (the call after the last one
    fails), and the contents of fresh memory. *)
Record host_env := HostEnv {
  he_ok : oracle;
  he_clock : Z -> option (Z * Z);
  he_random : list bytes;
  he_uninit : nat -> bytes
}.

(** How a callback ends: a result, no result, or a trap. *)
Inductive host_result := Ret (r : Z) | Void | Trap.

Abbreviation host_callback := (host_env -> option host_ctx -> list Z -> outcome (option host_ctx * host_result)).

Record host_import := HostImport {
  hi_module : string;
  hi_name : string;
  hi_nparams : nat;
  hi_callback : host_callback
}.

Definition set_hmem (h : host_ctx) (m : bytes) : host_ctx :=
  HostCtx (hc_vrt h) m (hc_memory_valid h) (hc_stderr h).
Definition set_hvrt (h : host_ctx) (v : host_vrt) : host_ctx :=
  HostCtx (Some v) (hc_memory h) (hc_memory_valid h) (hc_stderr h).
Definition set_hstderr (h : host_ctx) (b : bytes) : host_ctx :=
  HostCtx (hc_vrt h) (hc_memory h) (hc_memory_valid h) b.

(** ** Helpers *)

Definition validate_mem_region (h : host_ctx) (ptr n : Z) : bool :=
  if negb (hc_memory_valid h) || (ptr <? 0) || (n <? 0) then false
  else if len (hc_memory h) <? ptr + n then false else true.

(** The C string read, [None] for NULL. *)
Definition read_wasm_string (malloc_ok : bool) (h : host_ctx) (ptr n : Z) : outcome (option bytes) :=
  if negb (validate_mem_region h ptr n) then Done None
  else if negb malloc_ok then Done None
  else
    let! s := rd (hc_memory h) ptr n in
    Done (Some (cstr s)).

Definition write_to_wasm_buf (h : host_ctx) (buf_ptr buf_len : Z) (s : bytes)
    : outcome (host_ctx * Z) :=
  let slen := i32 (strlen s) in
  if (0 <? buf_len) && validate_mem_region h buf_ptr buf_len then
    let copy_len := if slen <? buf_len then slen else buf_len in
    if copy_len <? 0 then Fault
    else
      let! m := wr (hc_memory h) buf_ptr (take (Z.to_nat copy_len) (cstr s)) in
      Done (set_hmem h m, slen)
  else Done (h, slen).

Section HostFunctions.
Context `{VV : VrtVars}.

(** ** The direct host functions *)

(** Whether the line [s] is the header [name]: [strlen(b) > nlen],
    [b[nlen] == ':'] and [strncasecmp(b, name, nlen) == 0]. *)
Definition header_named (s name : bytes) : bool :=
  (len name <? len s) && (nth (length name) s 0 =? 58) && strncasecmp_eq (length name) s name.

(** The loop over the [n] lines from index [i] on: the value of the first
    header with the name, after its blanks. *)
Fixpoint search_header (n : nat) (hp : http) (i : Z) (name : bytes) : outcome (option bytes) :=
  match n with
  | O => Done None
  | S n =>
      let! x := hd_at hp i in
      match x with
      | None => search_header n hp (i + 1) name
      | Some b =>
          let s := cstr b in
          if header_named s name then Done (Some (skip_blank (drop (S (length name)) s)))
          else search_header n hp (i + 1) name
      end
  end.

Definition host_get_request_header : host_callback := fun e h args =>
  match h, args with
  | Some h, a0 :: a1 :: a2 :: a3 :: _ =>
      match hc_vrt h with
      | Some (HostVrt (Some (Some hp)) _) =>
          let! s := read_wasm_string (he_ok e 0%nat) h a0 a1 in
          match s with
          | None => Done (Some h, Ret (-1))
          | Some hdr_name =>
              let! val := search_header (Z.to_nat (nhd hp - HTTP_HDR_FIRST)) hp HTTP_HDR_FIRST hdr_name in
              match val with
              | None => Done (Some h, Ret (-1))
              | Some hdr_val =>
                  let! '(h, r) := write_to_wasm_buf h a2 a3 hdr_val in
                  Done (Some h, Ret r)
              end
          end
      | _ => Done (Some h, Ret (-1))
      end
  | _, _ => Fault
  end.

(** [host_get_request_url] and [host_get_request_method] differ in the slot. *)
Definition get_request_slot (slot : Z) : host_callback := fun e h args =>
  match h, args with
  | Some h, a0 :: a1 :: _ =>
      match hc_vrt h with
      | Some (HostVrt (Some (Some hp)) _) =>
          let! url := hd_at hp slot in
          match url with
          | None => Done (Some h, Ret (-1))
          | Some url =>
              let! '(h, r) := write_to_wasm_buf h a0 a1 url in
              Done (Some h, Ret r)
          end
      | _ => Done (Some h, Ret (-1))
      end
  | _, _ => Fault
  end.

Definition host_get_request_url : host_callback := get_request_slot HTTP_HDR_URL.
Definition host_get_request_method : host_callback := get_request_slot HTTP_HDR_METHOD.

Definition host_get_client_ip : host_callback := fun e h args =>
  match h, args with
  | Some h, a0 :: a1 :: _ =>
      match hc_vrt h with
      | None => Done (Some h, Ret (-1))
      | Some _ =>
          match client_ip_string with
          | None => Done (Some h, Ret (-1))
          | Some ip =>
              let! '(h, r) := write_to_wasm_buf h a0 a1 ip in
              Done (Some h, Ret r)
          end
      end
  | _, _ => Fault
  end.

(** [WS_Alloc] (the third allocation) gets the length as an [unsigned], the
    [snprintf] as a [size_t]. *)
Definition host_set_response_header : host_callback := fun e h args =>
  match h, args with
  | Some h, a0 :: a1 :: a2 :: a3 :: _ =>
      match hc_vrt h with
      | Some (HostVrt (Some http) l) =>
          let! name := read_wasm_string (he_ok e 0%nat) h a0 a1 in
          match name with
          | None => Done (Some h, Ret (-1))
          | Some name =>
              let! val := read_wasm_string (he_ok e 1%nat) h a2 a3 in
              match val with
              | None => Done (Some h, Ret (-1))
              | Some val =>
                  let hdr_len := strlen name + 2 + strlen val + 1 in
                  if negb (he_ok e 2%nat) then Done (Some h, Ret (-1))
                  else
                    let! '(line, _) := snprintf (he_uninit e (Z.to_nat (u32 hdr_len))) 0 hdr_len
                                         (name ++ str ": " ++ val) in
                    match http with
                    | None => Fault
                    | Some hp =>
                        Done (Some (set_hvrt h (HostVrt (Some (Some (http_SetHeader hp (cstr line)))) l)),
                              Ret 0)
                    end
              end
          end
      | _ => Done (Some h, Ret (-1))
      end
  | _, _ => Fault
  end.

Definition host_log_msg : host_callback := fun e h args =>
  match h, args with
  | Some h, level :: a1 :: a2 :: _ =>
      match hc_vrt h with
      | Some (HostVrt rq (Some l)) =>
          let! msg := read_wasm_string (he_ok e 0%nat) h a1 a2 in
          match msg with
          | None => Done (Some h, Void)
          | Some msg =>
              let tag := if level =? 0 then SLT_Debug else if level =? 1 then SLT_VCL_Log else SLT_Error in
              Done (Some (set_hvrt h (HostVrt rq (Some (l ++ [(tag, str "wasm: " ++ msg)])))), Void)
          end
      | _ => Done (Some h, Void)
      end
  | _, _ => Fault
  end.

Definition define_func_4_1 (name : string) (f : host_callback) : host_import :=
  HostImport "env" name 4 f.
Definition define_func_2_1 (name : string) (f : host_callback) : host_import :=
  HostImport "env" name 2 f.
Definition define_func_3_0 (name : string) (f : host_callback) : host_import :=
  HostImport "env" name 3 f.

Definition vwasm_host_define_imports : list host_import :=
  [ define_func_4_1 "get_request_header" host_get_request_header;
    define_func_2_1 "get_request_url" host_get_request_url;
    define_func_2_1 "get_request_method" host_get_request_method;
    define_func_2_1 "get_client_ip" host_get_client_ip;
    define_func_4_1 "set_response_header" host_set_response_header;
    define_func_3_0 "log_msg" host_log_msg ].
End HostFunctions.

(** ** The WASI stubs *)

(** The buffers of the [n] vectors from index [i] on: [None] when one of them
    is out of bounds; what was printed before that stays printed. *)
Fixpoint write_iovs (n : nat) (m : bytes) (iovs_ptr i total : Z) (out : bytes)
    : outcome (bytes * option Z) :=
  match n with
  | O => Done (out, Some total)
  | S n =>
      let iov_base := u32 (iovs_ptr + u32 (i * 8)) in
      let! b0 := rd m iov_base 4 in
      let! b1 := rd m (iov_base + 4) 4 in
      let buf_offset := get_u32 b0 in
      let buf_len := get_u32 b1 in
      if buf_len =? 0 then write_iovs n m iovs_ptr (i + 1) total out
      else if len m <? buf_offset + buf_len then Done (out, None)
      else
        let! s := rd m buf_offset buf_len in
        write_iovs n m iovs_ptr (i + 1) (u32 (total + buf_len)) (out ++ s)
  end.

Definition wasi_fd_write : host_callback := fun e h args =>
  match args with
  | fd :: a1 :: a2 :: a3 :: _ =>
      match h with
      | None => Done (None, Ret WASI_ERRNO_BADF)
      | Some h =>
          if negb (hc_memory_valid h) then Done (Some h, Ret WASI_ERRNO_BADF)
          else
            let m := hc_memory h in
            let iovs_ptr := u32 a1 in
            let iovs_len := u32 a2 in
            let nwritten_ptr := u32 a3 in
            if negb (fd =? 1) && negb (fd =? 2) then Done (Some h, Ret WASI_ERRNO_BADF)
            else if u32 (len m) <? u32 (nwritten_ptr + 4) then Done (Some h, Ret WASI_ERRNO_INVAL)
            else if len m <? iovs_ptr + iovs_len * 8 then Done (Some h, Ret WASI_ERRNO_INVAL)
            else
              let! '(out, r) := write_iovs (Z.to_nat iovs_len) m iovs_ptr 0 0 (hc_stderr h) in
              match r with
              | None => Done (Some (set_hstderr h out), Ret WASI_ERRNO_INVAL)
              | Some total =>
                  let! m := wr m nwritten_ptr (le_bytes 4 total) in
                  Done (Some (set_hmem (set_hstderr h out) m), Ret WASI_ERRNO_SUCCESS)
              end
      end
  | _ => Fault
  end.

Definition wasi_clock_time_get : host_callback := fun e h args =>
  match args with
  | clock_id :: _ :: a2 :: _ =>
      match h with
      | None => Done (None, Ret WASI_ERRNO_INVAL)
      | Some h =>
          if negb (hc_memory_valid h) then Done (Some h, Ret WASI_ERRNO_INVAL)
          else
            let m := hc_memory h in
            let time_ptr := u32 a2 in
            if negb (clock_id =? WASI_CLOCKID_REALTIME) && negb (clock_id =? WASI_CLOCKID_MONOTONIC)
            then Done (Some h, Ret WASI_ERRNO_INVAL)
            else if u32 (len m) <? u32 (time_ptr + 8) then Done (Some h, Ret WASI_ERRNO_INVAL)
            else
              match he_clock e clock_id with
              | None => Done (Some h, Ret WASI_ERRNO_INVAL)
              | Some (tv_sec, tv_nsec) =>
                  let nanos := u64 (u64 tv_sec * 1000000000 + u64 tv_nsec) in
                  let! m := wr m time_ptr (le_bytes 8 nanos) in
                  Done (Some (set_hmem h m), Ret WASI_ERRNO_SUCCESS)
              end
      end
  | _ => Fault
  end.

(** The loop around [getrandom]: the memory, and whether the buffer was filled. *)
Fixpoint fill_random (l : list bytes) (m : bytes) (buf_ptr buf_len filled : Z) : outcome (bytes * bool) :=
  if buf_len <=? filled then Done (m, true)
  else
    match l with
    | [] => Done (m, false)
    | chunk :: l =>
        let got := take (Z.to_nat (buf_len - filled)) chunk in
        let! m := wr m (buf_ptr + filled) got in
        fill_random l m buf_ptr buf_len (filled + len got)
    end.

Definition wasi_random_get : host_callback := fun e h args =>
  match args with
  | a0 :: a1 :: _ =>
      match h with
      | None => Done (None, Ret WASI_ERRNO_INVAL)
      | Some h =>
          if negb (hc_memory_valid h) then Done (Some h, Ret WASI_ERRNO_INVAL)
          else
            let buf_ptr := u32 a0 in
            let buf_len := u32 a1 in
            if len (hc_memory h) <? buf_ptr + buf_len then Done (Some h, Ret WASI_ERRNO_INVAL)
            else
              let! '(m, filled) := fill_random (he_random e) (hc_memory h) buf_ptr buf_len 0 in
              Done (Some (set_hmem h m), Ret (if (filled : bool) then WASI_ERRNO_SUCCESS else WASI_ERRNO_IO))
      end
  | _ => Fault
  end.

(** [if (p + 4 <= msz) memcpy(base + p, &zero, 4)], the sum in 32 bits. *)
Definition store_zero (m : bytes) (p : Z) : outcome bytes :=
  if u32 (p + 4) <=? len m then wr m p (le_bytes 4 0) else Done m.

Definition wasi_environ_sizes_get : host_callback := fun e h args =>
  match args with
  | a0 :: a1 :: _ =>
      match h with
      | None => Done (None, Ret 0)
      | Some h =>
          if negb (hc_memory_valid h) then Done (Some h, Ret 0)
          else
            let! m := store_zero (hc_memory h) (u32 a0) in
            let! m := store_zero m (u32 a1) in
            Done (Some (set_hmem h m), Ret 0)
      end
  | _ => Fault
  end.

Definition wasi_environ_get : host_callback := fun e h args => Done (h, Ret 0).

Definition wasi_args_sizes_get : host_callback := fun e h args =>
  match args with
  | a0 :: a1 :: _ =>
      match h with
      | None => Done (None, Ret 0)
      | Some h =>
          if negb (hc_memory_valid h) then Done (Some h, Ret 0)
          else
            let! m := store_zero (hc_memory h) (u32 a0) in
            let! m := store_zero m (u32 a1) in
            Done (Some (set_hmem h m), Ret 0)
      end
  | _ => Fault
  end.

Definition wasi_args_get : host_callback := fun e h args => Done (h, Ret 0).

Definition wasi_proc_exit : host_callback := fun e h args => Done (h, Trap).

Definition wasi_define_func (name : string) (nparams : nat) (f : host_callback) : host_import :=
  HostImport "wasi_snapshot_preview1" name nparams f.

Definition vwasm_host_define_wasi : list host_import :=
  [ wasi_define_func "fd_write" 4 wasi_fd_write;
    wasi_define_func "clock_time_get" 3 wasi_clock_time_get;
    wasi_define_func "random_get" 2 wasi_random_get;
    wasi_define_func "environ_sizes_get" 2 wasi_environ_sizes_get;
    wasi_define_func "environ_get" 2 wasi_environ_get;
    wasi_define_func "args_sizes_get" 2 wasi_args_sizes_get;
    wasi_define_func "args_get" 2 wasi_args_get;
    wasi_define_func "proc_exit" 1 wasi_proc_exit ].

#[global] Arguments validate_mem_region : simpl never.
#[global] Arguments read_wasm_string : simpl never.
#[global] Arguments write_to_wasm_buf : simpl never.
#[global] Arguments wasi_fd_write : simpl never.
#[global] Arguments wasi_clock_time_get : simpl never.
#[global] Arguments wasi_random_get : simpl never.

(** ** Histories *)

(** One call of the guest: the import, its arguments and its surroundings; a
    trap ends the execution of the guest. *)
Record host_call := HostCall { k_import : host_import; k_args : list Z; k_env : host_env }.

Fixpoint run_host (h : option host_ctx) (qs : list host_call)
    : outcome (option host_ctx * list host_result) :=
  match qs with
  | [] => Done (h, [])
  | q :: qs =>
      let! '(h, r) := hi_callback (k_import q) (k_env q) h (k_args q) in
      match r with
      | Trap => Done (h, [Trap])
      | _ =>
          let! '(h, rs) := run_host h qs in
          Done (h, r :: rs)
      end
  end.

(** * Safety *)

(** The arguments on which 32-bit arithmetic wraps around: the bounds checks of
    the WASI stubs, and the length of the header line that
    [host_set_response_header] passes to [WS_Alloc]. *)
Definition wraps (name : string) (args : list Z) : Prop :=
  if String.eqb name "fd_write" then 4294967292 <= u32 (nth 3 args 0)
  else if String.eqb name "clock_time_get" then 4294967288 <= u32 (nth 2 args 0)
  else if String.eqb name "environ_sizes_get" || String.eqb name "args_sizes_get" then
    4294967292 <= u32 (nth 0 args 0) \/ 4294967292 <= u32 (nth 1 args 0)
  else if String.eqb name "set_response_header" then 4294967293 <= nth 1 args 0 + nth 3 args 0
  else False.

Section HostSafety.
Context `{V : Varnish} `{VV : !VrtVars} `{VL : !VarnishLaws} `{PL : !VrtVarsLaws}.

(** The memory keeps its size [n]; a request has its headers. *)
Definition wf_host (n : Z) (h : host_ctx) : Prop :=
  len (hc_memory h) = n /\
  (forall v x, hc_vrt h = Some v -> hv_req v = Some x -> exists hp, x = Some hp /\ http_ok hp).

Definition host_safe (n : Z) (o : outcome (option host_ctx * host_result)) : Prop :=
  exists h r, o = Done (Some h, r) /\ wf_host n h.

Lemma host_done n h r : wf_host n h -> host_safe n (Done (Some h, r)).
Proof. intros. by exists h, r. Qed.

Lemma wf_host_mem n h m : wf_host n h -> len m = n -> wf_host n (set_hmem h m).
Proof. intros [_ H] Hm. by split. Qed.

Lemma validate_mem_region_iff h ptr n :
  validate_mem_region h ptr n = true <->
  hc_memory_valid h = true /\ 0 <= ptr /\ 0 <= n /\ ptr + n <= len (hc_memory h).
Proof.
  unfold validate_mem_region. destruct (hc_memory_valid h); simpl; [|naive_solver].
  repeat split_if; split; try naive_solver lia. 
Qed.

Lemma host_read n b h ptr k :
  forall sz, (forall s, len s <= sz -> len s <= len (hc_memory h) -> host_safe n (k (Some s))) ->
  host_safe n (k None) -> host_safe n (obind (read_wasm_string b h ptr sz) k).
Proof.
  intros sz HS HN. unfold read_wasm_string. destruct (validate_mem_region _ _ _) eqn:E; [|done].
  apply validate_mem_region_iff in E as (_ & ? & ? & ?). simpl. destruct b; [|done]. simpl.
  rewrite rd_done by lia. cbn [obind]. 
  pose proof (len_cstr_le (sub (hc_memory h) ptr sz)) as Hc. rewrite len_sub in Hc by lia.
  apply HS; lia.
Qed.

Lemma host_write n h buf_ptr buf_len s :
  wf_host n h -> len s <= 268435456 ->
  host_safe n (let! '(h, r) := write_to_wasm_buf h buf_ptr buf_len s in Done (Some h, Ret r)).
Proof.
  intros Hh Hs. unfold write_to_wasm_buf.
  pose proof (len_cstr_le s) as Hc. pose proof (len_nonneg (cstr s)) as H0.
  assert (i32 (strlen s) = len (cstr s)) as -> by (apply i32_small; unfold strlen; lia).
  split_if; cbn [obind]; [|by apply host_done].
  match goal with H : validate_mem_region _ _ _ = true |- _ =>
    apply validate_mem_region_iff in H as (_ & ? & ? & ?) end.
  set (cl := if _ <? buf_len then _ else _).
  assert (0 <= cl <= len (cstr s) /\ cl <= buf_len) as [? ?] by (subst cl; split_if; lia).
  clearbody cl. rewrite (proj2 (Z.ltb_ge _ _)) by lia.
  assert (len (take (Z.to_nat cl) (cstr s)) = cl) as El by (apply len_take; lia).
  rewrite wr_done by lia. cbn [obind].
  apply host_done, wf_host_mem; [done|]. rewrite len_upd by lia. apply Hh.
Qed.

(** A call of an import registered with [nparams] parameters. *)
Definition host_import_safe (i : host_import) : Prop :=
  forall n e h args, Forall2 typed (replicate (hi_nparams i) I32) args ->
    ~ wraps (hi_name i) args -> wf_host n h -> n < 4294967296 ->
    (forall k, length (he_uninit e k) = k) ->
    host_safe n (hi_callback i e (Some h) args).

Lemma search_header_safe n hp i name :
  http_ok hp -> 0 <= i -> i + Z.of_nat n <= nhd hp ->
  exists r, search_header n hp i name = Done r /\ (forall v, r = Some v -> len v <= 268435456).
Proof.
  intros Hp. pose proof (http_ok_bounds hp Hp) as (Hb & _ & Hl). revert i.
  induction n as [|n IH]; intros i Hi Hn; [by exists None|]. cbn [search_header].
  destruct (lookup_lt_is_Some_2 (hd hp) (Z.to_nat i)) as [x Ex]; [unfold len in *; lia|].
  unfold hd_at. rewrite (proj2 (Z.ltb_ge i 0)), Ex by lia. cbn [obind].
  destruct x as [b|]; [|apply IH; lia]. split_if; [|apply IH; lia].
  eexists. split; [done|]. intros v [= <-]. apply lines_bytes_lookup in Ex.
  pose proof (len_skip_blank (drop (S (length name)) (cstr b))).
  pose proof (len_drop_le (S (length name)) (cstr b)). pose proof (len_cstr_le b). lia.
Qed.

Ltac host_start :=
  let Ht := fresh in
  intros n e h args Ht Hw Hh Hn Hu;
  unfold define_func_4_1, define_func_2_1, define_func_3_0, wasi_define_func in *;
  cbn [hi_nparams hi_name replicate] in *;
  repeat match goal with
  | H : Forall2 _ (_ :: _) _ |- _ => inversion H; clear H; subst
  | H : Forall2 _ [] _ |- _ => inversion H; clear H; subst
  end; cbn [hi_callback] in *.

Lemma get_request_header_safe :
  host_import_safe (define_func_4_1 "get_request_header" host_get_request_header).
Proof.
  host_start. cbn. destruct (hc_vrt h) as [[[[hp|]|] l]|] eqn:Ev; try by apply host_done.
  apply host_read; [|by apply host_done]. intros s _ _.
  destruct Hh as [Hm Hv]. destruct (Hv _ _ Ev eq_refl) as (hp' & [= <-] & Hp).
  pose proof (http_ok_bounds hp Hp) as (Hb & _). pose proof hdr_method_lt.
  destruct (search_header_safe (Z.to_nat (nhd hp - HTTP_HDR_FIRST)) hp HTTP_HDR_FIRST s)
    as (r & -> & Hr); [done|lia..|]. cbn [obind].
  destruct r as [v|]; [|by apply host_done]. apply host_write; [done|by apply Hr].
Qed.

Lemma get_request_slot_safe name slot :
  0 <= slot < HTTP_HDR_FIRST -> host_import_safe (define_func_2_1 name (get_request_slot slot)).
Proof.
  intros Hs. host_start. cbn. destruct (hc_vrt h) as [[[[hp|]|] l]|] eqn:Ev; try by apply host_done.
  destruct Hh as [Hm Hv]. destruct (Hv _ _ Ev eq_refl) as (hp' & [= <-] & Hp).
  destruct (hd_at_tiny hp slot Hp Hs) as (v & -> & Hl). cbn [obind].
  destruct v as [v|]; [|by apply host_done]. apply host_write; [done|by apply Hl].
Qed.

Lemma get_client_ip_safe : host_import_safe (define_func_2_1 "get_client_ip" host_get_client_ip).
Proof.
  host_start. cbn. destruct (hc_vrt h); [|by apply host_done].
  destruct client_ip_string as [ip|] eqn:E; [|by apply host_done].
  apply host_write; [done|]. by apply client_ip_small.
Qed.

Lemma set_response_header_safe :
  host_import_safe (define_func_4_1 "set_response_header" host_set_response_header).
Proof.
  host_start. unfold wraps in Hw. cbn in Hw.
  cbn. destruct (hc_vrt h) as [[[ho|] l]|] eqn:Ev; try by apply host_done.
  destruct Hh as [Hm Hv]. destruct (Hv _ _ Ev eq_refl) as (hp & -> & Hp).
  apply host_read; [|by apply host_done]. intros name Hn1 _.
  apply host_read; [|by apply host_done]. intros val Hn2 _.
  destruct (he_ok e 2%nat); simpl; [|by apply host_done].
  pose proof (len_cstr_le name) as ?. pose proof (len_cstr_le val) as ?.
  pose proof (len_nonneg (cstr name)). pose proof (len_nonneg (cstr val)).
  set (hl := strlen name + 2 + strlen val + 1).
  assert (u32 hl = hl /\ 0 < hl) as [Eu ?] by (subst hl; unfold strlen; zlia).
  destruct (snprintf _ 0 hl _) as [[b k]|] eqn:Es; cbn [obind].
  - apply host_done. split; [done|]. intros v x [= <-] [= <-]. eexists. split; [done|].
    by apply http_SetHeader_ok.
  - exfalso. unfold snprintf in Es. rewrite (proj2 (Z.eqb_neq hl 0)) in Es by lia.
    assert (len (he_uninit e (Z.to_nat (u32 hl))) = hl) as El by (unfold len; rewrite Hu; lia).
    rewrite wr_done in Es; [done|lia|]. rewrite len_app, El. change (len [0]) with 1.
    unfold len. rewrite length_take. lia.
Qed.

Lemma log_msg_safe : host_import_safe (define_func_3_0 "log_msg" host_log_msg).
Proof.
  host_start. cbn. destruct (hc_vrt h) as [[rq [l|]]|] eqn:Ev; try by apply host_done.
  apply host_read; [|by apply host_done]. intros s _ _. apply host_done.
  destruct Hh as [Hm Hv]. split; [done|]. intros v x [= <-] Hx. by eapply (Hv _ _ Ev).
Qed.

Lemma write_iovs_safe n m iovs_ptr i total out :
  0 <= iovs_ptr -> 0 <= i -> iovs_ptr + (i + Z.of_nat n) * 8 <= len m -> len m < 4294967296 ->
  exists out' r, write_iovs n m iovs_ptr i total out = Done (out', r).
Proof.
  revert i total out. induction n as [|n IH]; intros i total out Hp Hi Hn Hm; [by eexists _, _|].
  cbn [write_iovs]. rewrite (u32_small (i * 8)), u32_small by (unfold is_u32; lia).
  rewrite !rd_done by lia. cbn [obind]. split_if; [apply IH; lia|]. split_if; [by eexists _, _|].
  pose proof (get_u32_range (sub m (iovs_ptr + i * 8) 4)).
  pose proof (get_u32_range (sub m (iovs_ptr + i * 8 + 4) 4)).
  rewrite rd_done by (unfold is_u32 in *; lia). cbn [obind]. apply IH; lia.
Qed.

Lemma fd_write_safe : host_import_safe (wasi_define_func "fd_write" 4 wasi_fd_write).
Proof.
  host_start. unfold wraps in Hw. cbn in Hw. unfold wasi_fd_write.
  repeat (split_if; [by apply host_done|]).
  pose proof (is_u32_u32 y0). pose proof (is_u32_u32 y1). pose proof (is_u32_u32 y2).
  destruct Hh as [Hm Hv]. unfold is_u32 in *.
  destruct (write_iovs_safe (Z.to_nat (u32 y1)) (hc_memory h) (u32 y0) 0 0 (hc_stderr h))
    as (out & r & ->); [lia..|]. cbn [obind].
  destruct r as [total|]; [|by apply host_done].
  rewrite (u32_small (len _)), (u32_small (u32 y2 + 4)) in * by (unfold is_u32; lia).
  rewrite wr_done by (rewrite ?len_le_bytes; lia). cbn [obind].
  apply host_done. split; [|done]. simpl. rewrite len_upd; [done|lia|rewrite len_le_bytes; lia].
Qed.

Lemma clock_time_get_safe : host_import_safe (wasi_define_func "clock_time_get" 3 wasi_clock_time_get).
Proof.
  host_start. unfold wraps in Hw. cbn in Hw. unfold wasi_clock_time_get.
  repeat (split_if; [by apply host_done|]).
  destruct (he_clock e y) as [[s ns]|]; [|by apply host_done].
  pose proof (is_u32_u32 y1). destruct Hh as [Hm Hv]. unfold is_u32 in *.
  pose proof (len_nonneg (hc_memory h)).
  rewrite (u32_small (len _)), (u32_small (u32 y1 + 8)) in * by (unfold is_u32; lia).
  rewrite wr_done by (rewrite ?len_le_bytes; lia). cbn [obind].
  apply host_done. split; [|done]. simpl. rewrite len_upd; [done|lia|rewrite len_le_bytes; lia].
Qed.

Lemma fill_random_safe l m p n filled :
  0 <= p -> 0 <= filled -> p + n <= len m ->
  exists m' b, fill_random l m p n filled = Done (m', b) /\ len m' = len m.
Proof.
  revert m filled. induction l as [|c l IH]; intros m filled Hp Hf Hn; cbn [fill_random];
    (split_if; [by eexists _, _|]); [by eexists _, _|].
  set (got := take _ c).
  assert (len got <= n - filled) by (subst got; unfold len; rewrite length_take; lia).
  rewrite wr_done by lia. cbn [obind]. pose proof (len_nonneg got).
  assert (len (upd m (p + filled) got) = len m) as El by (apply len_upd; lia).
  destruct (IH (upd m (p + filled) got) (filled + len got)) as (m' & b & E & Hl); [lia..|].
  exists m', b. split; [done|lia].
Qed.

Lemma random_get_safe : host_import_safe (wasi_define_func "random_get" 2 wasi_random_get).
Proof.
  host_start. unfold wasi_random_get. repeat (split_if; [by apply host_done|]).
  pose proof (is_u32_u32 y). unfold is_u32 in *.
  destruct (fill_random_safe (he_random e) (hc_memory h) (u32 y) (u32 y0) 0) as (m & b & -> & Hl);
    [lia..|]. cbn [obind]. apply host_done. destruct Hh. split; [simpl; lia|done].
Qed.

Lemma store_zero_safe m p :
  is_u32 p -> p < 4294967292 -> exists m', store_zero m p = Done m' /\ len m' = len m.
Proof.
  intros Hp Hw. unfold is_u32, store_zero in *. rewrite (u32_small (p + 4)) by (unfold is_u32; lia).
  split_if; [|by exists m]. rewrite wr_done by (rewrite ?len_le_bytes; lia). eexists. split; [done|].
  apply len_upd; [lia|rewrite len_le_bytes; lia].
Qed.

Lemma sizes_get_safe name :
  name = "environ_sizes_get"%string \/ name = "args_sizes_get"%string ->
  host_import_safe (wasi_define_func name 2 wasi_environ_sizes_get) /\
  host_import_safe (wasi_define_func name 2 wasi_args_sizes_get).
Proof.
  intros Hname. assert (forall a b, ~ wraps name [a; b] ->
    u32 a < 4294967292 /\ u32 b < 4294967292) as Hwr.
  { intros a b Hw. destruct Hname; subst name; unfold wraps in Hw; cbn in Hw; lia. }
  split; host_start; apply Hwr in Hw as [? ?]; (cbn; split_if; [by apply host_done|]);
    (destruct (store_zero_safe (hc_memory h) (u32 y)) as (m1 & -> & Hm1); [apply is_u32_u32|done|]);
    cbn [obind];
    (destruct (store_zero_safe m1 (u32 y0)) as (m2 & -> & Hm2); [apply is_u32_u32|done|]); cbn [obind];
    apply host_done; destruct Hh; (split; [simpl; lia|done]).
Qed.

Lemma wasi_safe : Forall host_import_safe vwasm_host_define_wasi.
Proof.
  repeat constructor; auto using fd_write_safe, clock_time_get_safe, random_get_safe.
  - by apply sizes_get_safe; left.
  - by host_start; apply host_done.
  - by apply sizes_get_safe; right.
  - by host_start; apply host_done.
  - by host_start; apply host_done.
Qed.

Lemma direct_safe : Forall host_import_safe vwasm_host_define_imports.
Proof.
  repeat constructor; auto using get_request_header_safe, get_client_ip_safe,
    set_response_header_safe, log_msg_safe.
  - apply get_request_slot_safe, hdr_url_lt.
  - apply get_request_slot_safe, hdr_method_lt.
Qed.
End HostSafety.

(** ** Gathered output *)

(** The vectors as the guest lays them out. *)
Definition enc_iovs (vs : list (Z * Z)) : bytes :=
  concat (map (fun v => le_bytes 4 v.1 ++ le_bytes 4 v.2) vs).

(** The bytes they denote. *)
Definition gathered (m : bytes) (vs : list (Z * Z)) : bytes :=
  concat (map (fun v => sub m v.1 v.2) vs).

Definition iov_ok (m : bytes) (v : Z * Z) : Prop := 0 <= v.1 /\ 0 <= v.2 /\ v.1 + v.2 <= len m.

Lemma sub_split (m : bytes) a n x y :
  0 <= a -> 0 <= n -> a + n <= len m -> sub m a n = x ++ y ->
  sub m a (len x) = x /\ sub m (a + len x) (n - len x) = y.
Proof.
  intros Ha Hn Hl E. pose proof (len_nonneg x). pose proof (len_nonneg y).
  assert (n = len x + len y) as Hn' by (rewrite <- len_app, <- E, len_sub; lia).
  unfold sub in *.
  assert (Z.to_nat n = (length x + length y)%nat) as En by (unfold len in *; lia).
  rewrite En in E. split.
  - assert (take (length x) (take (length x + length y) (drop (Z.to_nat a) m)) = x) as Hx
      by (rewrite E; apply take_app_length).
    rewrite take_take in Hx. replace (length x `min` _)%nat with (length x) in Hx by lia.
    unfold len. by rewrite Nat2Z.id.
  - replace (Z.to_nat (a + len x)) with (Z.to_nat a + length x)%nat by (unfold len; lia).
    replace (Z.to_nat (n - len x)) with (length y) by (unfold len in *; lia).
    rewrite <- drop_drop.
    assert (drop (length x) (take (length x + length y) (drop (Z.to_nat a) m)) = y) as Hy
      by (rewrite E; apply drop_app_length).
    rewrite skipn_firstn_comm in Hy. by replace (length x + length y - length x)%nat with (length y) in Hy by lia.
Qed.

Lemma write_iovs_gathers vs m p i total out :
  0 <= p -> 0 <= i -> p + (i + len vs) * 8 <= len m -> len m < 4294967296 ->
  sub m (p + i * 8) (len vs * 8) = enc_iovs vs -> Forall (iov_ok m) vs ->
  0 <= total -> total + len (gathered m vs) < 4294967296 ->
  write_iovs (length vs) m p i total out = Done (out ++ gathered m vs, Some (total + len (gathered m vs))).
Proof.
  revert i total out. induction vs as [|[o n] vs IH]; intros i total out Hp Hi Hb Hm E Hok Ht Hs.
  { cbn. rewrite app_nil_r. change (len (@nil Z)) with 0. by rewrite Z.add_0_r. }
  inversion Hok as [|? ? [Ho1 [Ho2 Ho3]] Hok']. subst. cbn [fst snd] in *.
  rewrite len_cons in *. pose proof (len_nonneg vs).
  change (enc_iovs ((o, n) :: vs)) with ((le_bytes 4 o ++ le_bytes 4 n) ++ enc_iovs vs) in E.
  change (gathered m ((o, n) :: vs)) with (sub m o n ++ gathered m vs) in *.
  rewrite len_app, len_sub in * by lia.
  rewrite <- app_assoc in E.
  apply sub_split in E as [E1 E]; [|lia..]. rewrite len_le_bytes in *.
  apply sub_split in E as [E2 E]; [|lia..]. rewrite len_le_bytes in *.
  cbn [length write_iovs]. rewrite (u32_small (i * 8)), u32_small by (unfold is_u32; lia).
  change (Z.of_nat 4) with 4 in *.
  rewrite !rd_done by lia. cbn [obind]. rewrite E1, E2, !get_u32_le_bytes by (unfold is_u32; lia).
  replace (p + i * 8 + 4 + 4) with (p + (i + 1) * 8) in E by lia.
  replace ((len vs + 1) * 8 - 4 - 4) with (len vs * 8) in E by lia.
  pose proof (len_nonneg (gathered m vs)).
  split_if.
  - subst n. rewrite IH by (try done; lia). repeat f_equal.
  - rewrite (proj2 (Z.ltb_ge _ _)), rd_done by lia. cbn [obind].
    rewrite u32_small by (unfold is_u32; lia). rewrite IH by (try done; lia).
    by rewrite <- app_assoc, Z.add_assoc.
Qed.

(** * Claims *)


(** The bounds checks of the WASI stubs wrap around: an output pointer in
    the last bytes of the 32-bit address space passes the check, and the store
    then lands up to 4 GiB past the start of linear memory, outside it. *)
Theorem wrapping_pointer_faults e h a b :
  hc_memory_valid h = true -> 8 <= len (hc_memory h) < 4294967288 ->
  (4294967292 <= u32 a ->
     wasi_fd_write e (Some h) [1; 0; 0; a] = Fault /\
     wasi_environ_sizes_get e (Some h) [a; b] = Fault /\
     wasi_args_sizes_get e (Some h) [a; b] = Fault) /\
  (4294967288 <= u32 a -> is_Some (he_clock e 0) ->
     wasi_clock_time_get e (Some h) [0; b; a] = Fault).
Proof.
  intros Hv Hl. pose proof (is_u32_u32 a). unfold is_u32 in *. split.
  - intros Ha. assert (u32 (u32 a + 4) = u32 a - 4294967292) as Ew by zlia.
    assert (wr (hc_memory h) (u32 a) (le_bytes 4 0) = Fault) as Hf
      by (apply wr_fault; rewrite ?len_le_bytes; lia).
    assert (store_zero (hc_memory h) (u32 a) = Fault) as Hz
      by (unfold store_zero; rewrite Ew, (proj2 (Z.leb_le _ _)) by lia; done).
    unfold wasi_fd_write, wasi_environ_sizes_get, wasi_args_sizes_get. rewrite Hv, Hz, Ew.
    rewrite (u32_small (len _)) by (unfold is_u32; lia).
    change (u32 0) with 0. rewrite !(proj2 (Z.ltb_ge _ _)) by lia.
    change (Z.to_nat 0) with 0%nat. cbn [negb andb Z.eqb Pos.eqb write_iovs obind]. by rewrite Hf.
  - intros Ha [[s ns] Hc]. unfold wasi_clock_time_get. rewrite Hv. cbn.
    assert (u32 (u32 a + 8) = u32 a - 4294967288) as -> by zlia.
    rewrite (u32_small (len _)) by (unfold is_u32; lia). rewrite (proj2 (Z.ltb_ge _ _)) by lia.
    rewrite Hc. rewrite wr_fault; [done|lia|rewrite len_le_bytes; lia].
Qed.

(** The length of the header line is truncated to 32 bits for [WS_Alloc] but not
    for [snprintf]: a name and a value of together at least 4 GiB less three
    bytes (they may overlap in linear memory) get a line of zero or one byte
    and are printed past its end. *)
Theorem overlong_header_faults `{V : Varnish} `{VV : !VrtVars} e h a0 a1 a2 a3 hp l :
  hc_vrt h = Some (HostVrt (Some (Some hp)) l) -> he_ok e = all_ok ->
  (forall k, length (he_uninit e k) = k) ->
  typed I32 a1 -> typed I32 a3 -> 4294967293 <= a1 + a3 ->
  validate_mem_region h a0 a1 = true -> validate_mem_region h a2 a3 = true ->
  nul_free (sub (hc_memory h) a0 a1) -> nul_free (sub (hc_memory h) a2 a3) ->
  host_set_response_header e (Some h) [a0; a1; a2; a3] = Fault.
Proof.
  intros Hv Hok Hu H1 H3 Hs V1 V3 N1 N3. unfold host_set_response_header. rewrite Hv.
  unfold read_wasm_string. rewrite V1, V3, Hok. cbn [negb all_ok].
  apply validate_mem_region_iff in V1 as (_ & ? & ? & ?).
  apply validate_mem_region_iff in V3 as (_ & ? & ? & ?).
  rewrite !rd_done by lia. cbn [obind]. rewrite !cstr_nul_free by done. unfold strlen.
  rewrite !cstr_nul_free, !len_sub by (done || lia). cbv zeta. unfold snprintf.
  unfold typed in *. rewrite (proj2 (Z.eqb_neq _ 0)) by lia.
  rewrite wr_fault; [done|lia|]. rewrite len_app. change (len [0]) with 1.
  assert (len (he_uninit e (Z.to_nat (u32 (a1 + 2 + a3 + 1)))) <= 1) by (unfold len; rewrite Hu; zlia).
  assert (0 < len (take (Z.to_nat (a1 + 2 + a3 + 1 - 1))
            (sub (hc_memory h) a0 a1 ++ str ": " ++ sub (hc_memory h) a2 a3))) as Hp; [|lia].
  unfold len. rewrite length_take, !length_app. unfold sub. rewrite !length_take, !length_drop.
  change (length (str ": ")) with 2%nat. lia.
Qed.

(** [fd_write] is a gather write: for a list of vectors in bounds it
    appends the concatenation of their bytes, in order, to the output, stores
    the number of bytes at the address the guest passed, and reports success. *)
Theorem fd_write_gathers e h fd a1 a2 a3 vs :
  let m := hc_memory h in
  let data := gathered m vs in
  hc_memory_valid h = true -> fd = 1 \/ fd = 2 -> len m < 4294967296 ->
  u32 a2 = len vs -> u32 a1 + len vs * 8 <= len m -> u32 a3 + 4 <= len m ->
  sub m (u32 a1) (len vs * 8) = enc_iovs vs -> Forall (iov_ok m) vs -> len data < 4294967296 ->
  wasi_fd_write e (Some h) [fd; a1; a2; a3] =
  Done (Some (set_hmem (set_hstderr h (hc_stderr h ++ data)) (upd m (u32 a3) (le_bytes 4 (len data)))),
        Ret WASI_ERRNO_SUCCESS).
Proof.
  intros m data Hv Hfd Hm Ha2 Hb Hw E Hok Hs. unfold wasi_fd_write. rewrite Hv. cbn [negb].
  fold m. pose proof (is_u32_u32 a1). pose proof (is_u32_u32 a3). unfold is_u32 in *.
  assert (negb (fd =? 1) && negb (fd =? 2) = false) as -> by (destruct Hfd; by subst).
  rewrite (u32_small (len m)), (u32_small (u32 a3 + 4)) by (unfold is_u32; lia).
  rewrite !(proj2 (Z.ltb_ge _ _)) by lia. rewrite Ha2.
  replace (Z.to_nat (len vs)) with (length vs) by (unfold len; lia).
  rewrite write_iovs_gathers by (try done; rewrite ?Z.mul_0_l, ?Z.add_0_r; try done; lia).
  cbn [obind]. rewrite wr_done by (rewrite ?len_le_bytes; lia). by rewrite Z.add_0_l.
Qed.

(** ** Witnesses *)

Definition small_host (m : bytes) : host_ctx :=
  HostCtx (Some (HostVrt None (Some []))) m true [].

Definition still_host_env : host_env :=
  HostEnv all_ok (fun _ => Some (0, 7)) [[1; 2]; [3; 4]] (fun n => replicate n 0).

(** A vector at address 0 that points to the five bytes at address 8. *)
Definition greeting_mem : bytes := le_bytes 4 8 ++ le_bytes 4 5 ++ str "hello" ++ replicate 11 0.

Lemma fd_write_gathers_witness :
  wasi_fd_write still_host_env (Some (small_host greeting_mem)) [1; 0; 1; 16] =
  Done (Some (HostCtx (Some (HostVrt None (Some [])))
                (le_bytes 4 8 ++ le_bytes 4 5 ++ str "hello" ++ [0; 0; 0] ++ le_bytes 4 5 ++ replicate 4 0)
                true (str "hello")), Ret 0).
Proof.
  rewrite (fd_write_gathers still_host_env (small_host greeting_mem) 1 0 1 16 [(8, 5)]);
    [vm_compute; reflexivity|reflexivity|by left|by_decide|by_decide|by_decide|by_decide|by_decide| |by_decide].
  repeat constructor; by_decide.
Defined.

Lemma wrapping_pointer_faults_witness :
  wasi_fd_write still_host_env (Some (small_host greeting_mem)) [1; 0; 0; -4] = Fault.
Proof.
  destruct (wrapping_pointer_faults still_host_env (small_host greeting_mem) (-4) 0) as [H _];
    [reflexivity|by_decide|]. apply H. by_decide.
Defined.

(** Print the greeting, fetch four random bytes, then exit. *)
Definition greeting_session : list host_call :=
  [ HostCall (wasi_define_func "fd_write" 4 wasi_fd_write) [1; 0; 1; 16] still_host_env;
    HostCall (wasi_define_func "random_get" 2 wasi_random_get) [20; 4] still_host_env;
    HostCall (wasi_define_func "proc_exit" 1 wasi_proc_exit) [0] still_host_env ].

