(* ===== verification/Runtime.v ===== *)
(** * Running guest code

    What the engine (src/wasm_engine.c) and the body filters (src/vdp_wasm.c)
    have in common: calling an export of an instance.  The guest is a parameter:
    during a call it performs a sequence of actions (calls of imports with
    whatever arguments, and changes of its own linear memory), then returns a
    result or fails. *)

From S2P Require Import Prelude Mem SharedData SharedQueue Metrics Ctx HostCalls.
From S2P Require Import Headers Properties HttpAddr Breaker HttpPool HttpParse HttpIo HttpCall.
From S2P Require Import Imports StorePool.

(** ** Actions *)

(** [Touch m]: the guest changed (or grew) its linear memory, which is now [m]. *)
Inductive action := CallImport (q : guest_call) | Touch (m : bytes).

Definition touch (h : host) (m : bytes) : host :=
  Host (set_w (hctx h) (set_memory (w (hctx h)) (Some m))) (hpool h).

Fixpoint run_actions (h : host) (l : list action) : outcome host :=
  match l with
  | [] => Done h
  | CallImport q :: l =>
      let! '(h, _) := i_callback (g_import q) (g_world q) h (g_args q) in
      run_actions h l
  | Touch m :: l => run_actions (touch h m) l
  end.

(** The code of a guest: the actions of a call of an export and how it ends,
    with the instance afterwards; [None] is an error or a trap.  [with_memory]
    is the instance whose linear memory has the given contents. *)
Class Program `{W : Wasm} : Type := {
  script : inst -> string -> list Z -> host -> list action;
  finish : inst -> string -> list Z -> host -> inst * option Z;
  with_memory : inst -> option bytes -> inst
}.

(** What happens to a store while it executes: the epoch deadline is set, an
    export is called. *)
Inductive xevent := Deadline (ms : Z) | Call (fn : string) (args : list Z).

Section Exec.
Context `{P : Program}.

(** The state of an execution: the context of the host functions and the
    connection pool, the instance, and the events so far. *)
Record exec := Exec { x_host : host; x_inst : inst; x_events : list xevent }.

Definition set_deadline (s : exec) (ms : Z) : exec :=
  Exec (x_host s) (x_inst s) (x_events s ++ [Deadline ms]).

Definition on_ctx (f : pctx -> pctx) (s : exec) : exec :=
  Exec (Host (f (hctx (x_host s))) (hpool (x_host s))) (x_inst s) (x_events s).

(** The result of a function with one [i32] result; [None]: not exported, or it
    failed. *)
Definition call_wasm_func (s : exec) (fn : string) (args : list Z) : outcome (exec * option Z) :=
  if negb (export_func (x_inst s) fn) then Done (s, None)
  else
    let! h := run_actions (x_host s) (script (x_inst s) fn args (x_host s)) in
    let '(x, r) := finish (x_inst s) fn args (x_host s) in
    Done (Exec h x (x_events s ++ [Call fn args]), r).

Definition call_wasm_void (s : exec) (fn : string) (args : list Z) : outcome exec :=
  if negb (export_func (x_inst s) fn) then Done s
  else
    let! h := run_actions (x_host s) (script (x_inst s) fn args (x_host s)) in
    let '(x, _) := finish (x_inst s) fn args (x_host s) in
    Done (Exec h x (x_events s ++ [Call fn args])).
End Exec.

(** * Properties *)

(** ** Which fields the imports leave alone *)

Section Keeps.
Context `{G : Guest} `{V : Varnish} `{VV : !VrtVars}.

(** The part [pr] of the context is as before when the call returns. *)
Definition keeps {A} (pr : pctx -> A) (c : pctx) (o : outcome (pctx * Z)) : Prop :=
  forall c' r, o = Done (c', r) -> pr c' = pr c.

(** The part that no import but [proxy_http_call] changes: the callouts and the
    configuration. *)
Definition accounts (c : pctx) : calls * config := (cl c, cfg c).

Section Parts.
Context {A : Type} (pr : pctx -> A).

Lemma keeps_done c c' r : pr c' = pr c -> keeps pr c (Done (c', r)).
Proof. by intros ? ? ? [= <- <-]. Qed.

Lemma keeps_fault c : keeps pr c Fault.
Proof. done. Qed.

Lemma keeps_bind {B} c (o : outcome B) k : (forall x, keeps pr c (k x)) -> keeps pr c (obind o k).
Proof. intros H. destruct o; [apply H|done]. Qed.

Lemma keeps_set_w c (o : outcome (wctx * Z)) c0 k :
  (forall c x, pr (set_w c x) = pr c) -> pr c0 = pr c ->
  (forall c' r, pr c' = pr c -> keeps pr c (k (c', r))) ->
  keeps pr c (obind (let! '(x, r) := o in Done (set_w c0 x, r)) k).
Proof. intros Hw H1 H. destruct o as [[x r]|]; [|done]. apply H. by rewrite Hw. Qed.

Lemma keeps_local f wd h args h' r :
  (forall e c a, keeps pr c (f e c a)) -> local_call f wd h args = Done (h', r) ->
  pr (hctx h') = pr (hctx h).
Proof.
  intros Hf. unfold local_call. destruct (f _ _ _) as [[c' r']|] eqn:E; [|done].
  intros [= <- <-]. by eapply Hf.
Qed.
End Parts.

Lemma put_maps_keep {A} (pr : pctx -> A) c t :
  (forall v, pr (set_vrt c v) = pr c) -> (forall x y, pr (set_trailers c x y) = pr c) ->
  (forall tm, pr (put_trailer_map c t tm) = pr c) /\ (forall hp, pr (put_header_map c t hp) = pr c).
Proof.
  intros H1 H2. split; intros ?; unfold put_trailer_map, put_header_map;
    repeat (case_match; try done); auto.
Qed.
End Keeps.

Ltac keep :=
  repeat first
  [ progress intros
  | apply keeps_fault
  | apply keeps_done; first [done | by apply put_maps_keep]
  | eapply keeps_set_w; [done|done|]
  | apply keeps_bind
  | match goal with
    | |- keeps _ _ (match ?x with _ => _ end) => destruct x
    | |- keeps _ _ (let '(_, _) := ?x in _) => destruct x
    end ].

Ltac keep_handler :=
  intros e c a;
  match goal with |- keeps _ _ ?t => let f := head_of t in unfold f end;
  unfold return_pairs, write_u32, return_bytes; cbv zeta; keep.

(** A callout takes at most one token and never removes a stored response. *)
Definition calls_step (k k' : calls) : Prop :=
  (http_call_next_token k' = http_call_next_token k \/
   http_call_next_token k' = u32 (http_call_next_token k + 1)) /\
  http_calls k ⊆ http_calls k'.

Lemma write_u32_calls c off v c' r : write_u32 c off v = Done (c', r) -> cl c' = cl c.
Proof. unfold write_u32. destruct (pw_write_u32 _ _ _) as [[x y]|]; [|done]. by intros [= <- <-]. Qed.

Lemma store_response_step e c buf ret c' r :
  store_response e c buf ret = Done (c', r) -> calls_step (cl c) (cl c').
Proof.
  unfold store_response. cbv zeta. split_if; [by intros [= <- <-]; split; [right|]|].
  destruct (write_u32 _ _ _) as [[c1 r1]|] eqn:Ew; [|done]. cbn [obind].
  apply write_u32_calls in Ew. cbn [cl set_cl] in Ew.
  set (t := u32 (http_call_next_token (cl c) + 1)) in *.
  case_bool_decide as Hp; split_if; try done; intros [= <- <-]; rewrite ?Ew;
    (split; [by right|]); cbn [cl set_cl http_calls]; try done.
  - rewrite delete_insert_id; [done|]. by apply eq_None_not_Some.
  - apply insert_subseteq. by apply eq_None_not_Some.
Qed.

Lemma http_call_step e h c pool args c' p' tr r :
  pw_proxy_http_call e h c pool args = Done (c', p', tr, r) -> calls_step (cl c) (cl c').
Proof.
  unfold pw_proxy_http_call. cbv zeta. intros E.
  repeat match type of E with
  | (match ?x with _ => _ end) = _ => destruct x; try discriminate E
  | obind ?x _ = _ => destruct x; cbn [obind] in E; try discriminate E
  | Done _ = Done _ => injection E as <- <- <- <-; by split; [left|]
  end.
  unfold run_call in E. cbv zeta in E.
  repeat match type of E with
  | (match ?x with _ => _ end) = _ => destruct x eqn:?; try discriminate E
  | obind ?x _ = _ => destruct x eqn:?; cbn [obind] in E; try discriminate E
  | Done _ = Done _ => injection E as <- <- <- <-; try by split; [left|]
  end.
  by match goal with H : store_response _ _ _ _ = _ |- _ => apply store_response_step in H end.
Qed.

(** ** The callout limit as an invariant *)

(** Tokens and callouts stay within the limit, when there is one. *)
Definition limited (c : pctx) : Prop :=
  0 < http_call_max (cfg c) < 4294967296 ->
  0 <= http_call_next_token (cl c) <= http_call_count (cl c) /\
  http_call_count (cl c) <= http_call_max (cfg c).

(** How a context changes while the guest runs: the configuration stays, stored
    responses stay, and the limit is respected. *)
Definition evolves (c c' : pctx) : Prop :=
  cfg c' = cfg c /\ http_calls (cl c) ⊆ http_calls (cl c') /\ (limited c -> limited c').

Lemma evolves_refl c : evolves c c.
Proof. done. Qed.

Lemma evolves_trans c1 c2 c3 : evolves c1 c2 -> evolves c2 c3 -> evolves c1 c3.
Proof.
  intros (H1 & H2 & H3) (K1 & K2 & K3). split_and!; [by rewrite K1| |auto].
  by etrans.
Qed.

Lemma evolves_same c c' : cl c' = cl c -> cfg c' = cfg c -> evolves c c'.
Proof. unfold evolves, limited. by intros -> ->. Qed.

Section ActionSafety.
Context `{G : Guest} `{V : Varnish} `{VV : !VrtVars} `{VL : !VarnishLaws} `{PL : !VrtVarsLaws}.
Context {M : Z} `{L : !MemLimit M}.

Definition import_evolves (i : import) : Prop :=
  forall n wd h args h' r, Forall2 typed (i_params i) args -> wf_ctx M (hctx h) ->
    within n (hctx h) -> 0 <= n < 4294967295 ->
    i_callback i wd h args = Done (h', r) -> evolves (hctx h) (hctx h').

Lemma http_callback_evolves :
  import_evolves (Import "proxy_http_call" (replicate 10 I32) http_callback).
Proof.
  intros n wd h args h' r Ht Hc Hb Hn. cbn [i_params i_callback] in *. unfold http_callback.
  destruct (handler_spec (wenv wd) (wnet wd) n (hctx h) (hpool h) args Ht Hc Hb Hn)
    as (c' & p' & tr & r' & E & _ & _ & Hcfg & Hcase).
  rewrite E. cbn [obind]. intros [= <- <-]. cbn [hctx].
  apply http_call_step in E as [E Hsub]. split_and!; [done|done|].
  destruct Hcase as [(-> & _)|(Hno & Hcount & _)]; [done|]. unfold limited in *. rewrite Hcfg.
  intros Hl Hmax. destruct (Hl Hmax) as [? ?]. rewrite u32_small in Hcount by (unfold is_u32; lia).
  destruct E as [E|E]; [lia|]. rewrite u32_small in E by (unfold is_u32; lia). lia.
Qed.

Lemma local_evolves name params f :
  (forall e c a, keeps accounts c (f e c a)) -> import_evolves (Import name params (local_call f)).
Proof.
  intros Hf n wd h args h' r _ _ _ _ E.
  apply (keeps_local accounts f) in E; [|done]. injection E as ? ?. by apply evolves_same.
Qed.

Lemma imports_evolve : Forall import_evolves vwasm_proxy_wasm_define_imports.
Proof.
  unfold vwasm_proxy_wasm_define_imports, pw_define_func, pw_define_func_typed.
  repeat (constructor; [first [apply local_evolves|exact http_callback_evolves]|]); [..|constructor].
  all: keep_handler.
Qed.

(** What an action may add, and which actions a guest can perform. *)
Definition act_cost (a : action) : Z :=
  match a with CallImport q => growth (M := M) (g_import q) | Touch _ => 0 end.

Definition act_possible (a : action) : Prop :=
  match a with
  | CallImport q => possible q /\ ~ negates_min (g_import q) (g_args q)
  | Touch m => len m <= M
  end.

Definition cost (l : list action) : Z := foldr (fun a acc => act_cost a + acc) 0 l.

Lemma act_cost_nonneg a : 0 <= act_cost a.
Proof. destruct a; simpl; [apply growth_nonneg|lia]. Qed.

Lemma cost_nonneg l : 0 <= cost l.
Proof.
  induction l as [|a l IH]; [done|]. unfold cost in *. cbn [foldr]. pose proof (act_cost_nonneg a). lia.
Qed.

Lemma action_safe n h a l :
  act_possible a -> wf_ctx M (hctx h) -> within n (hctx h) -> 0 <= n < 4294967295 ->
  exists h', run_actions h (a :: l) = run_actions h' l /\ wf_ctx M (hctx h') /\
    within (n + act_cost a) (hctx h') /\ evolves (hctx h) (hctx h').
Proof.
  intros Ha Hc Hb Hn. destruct a as [q|m]; cbn [run_actions act_cost].
  - destruct Ha as ((Hin & Ht & He) & Hm).
    destruct (Forall_elem _ _ _ imports_safe Hin n (g_world q) h (g_args q) Ht Hm Hc Hb Hn He)
      as (h1 & r & E & Hc1 & Hb1). rewrite E. cbn [obind]. exists h1. split_and!; try done.
    all: by eapply (Forall_elem _ _ _ imports_evolve Hin n) in E as (? & ? & ?).
  - exists (touch h m). split_and!; try done; [|by rewrite Z.add_0_r].
    apply wf_ctx_mem; [done|]. by intros b [= <-].
Qed.

Lemma run_actions_safe l n h :
  Forall act_possible l -> wf_ctx M (hctx h) -> within n (hctx h) ->
  0 <= n -> n + cost l < 4294967295 ->
  exists h', run_actions h l = Done h' /\ wf_ctx M (hctx h') /\ within (n + cost l) (hctx h') /\
    evolves (hctx h) (hctx h').
Proof.
  revert n h. induction l as [|a l IH]; intros n h Hl Hc Hb Hn Hlt.
  { exists h. split_and!; try done. unfold cost. simpl. by rewrite Z.add_0_r. }
  inversion_clear Hl as [|?? Ha Hrest]. pose proof (act_cost_nonneg a). pose proof (cost_nonneg l).
  unfold cost in *. cbn [foldr] in *. fold (cost l) in *.
  destruct (action_safe n h a l Ha Hc Hb) as (h1 & -> & Hc1 & Hb1 & Hg1); [lia|].
  destruct (IH (n + act_cost a) h1 Hrest Hc1 Hb1) as (h2 & -> & Hc2 & Hb2 & Hg2); [lia..|].
  exists h2. split; [done|]. split; [done|]. split; [by rewrite Z.add_assoc|]. by eapply evolves_trans.
Qed.
End ActionSafety.

(** ** Calling exports safely *)

(** A guest that stays within the registered imports, a memory limit [M], and a
    budget [b] per call (see [growth]). *)
Class ProgramLimit `{G : Guest} `{V : Varnish} `{VV : !VrtVars} `{P : Program} (M b : Z) : Prop := {
  budget_nonneg_b : 0 <= b;
  script_possible x fn args h : Forall (act_possible (M := M)) (script x fn args h);
  script_cost x fn args h : cost (M := M) (script x fn args h) <= b;
  with_memory_data x m : memory_data (with_memory x m) = m;
  finish_limit x fn args h m : memory_data (finish x fn args h).1 = Some m -> len m <= M;
  instantiate_limit k x m : instantiate k = Some x -> memory_data x = Some m -> len m <= M
}.

Section ExecSafety.
Context `{G : Guest} `{V : Varnish} `{VV : !VrtVars} `{VL : !VarnishLaws} `{PL : !VrtVarsLaws}.
Context `{W : Wasm} `{P : !Program} {M b : Z} `{L : !MemLimit M} `{B : !ProgramLimit M b}.

(** The memory of an instance respects the limit. *)
Definition inst_le (x : inst) : Prop := forall m, memory_data x = Some m -> len m <= M.

(** The invariant of an execution; [n] bounds what it accumulated. *)
Definition ok_exec (n : Z) (s : exec) : Prop :=
  wf_ctx M (hctx (x_host s)) /\ within n (hctx (x_host s)) /\ limited (hctx (x_host s)) /\
  inst_le (x_inst s).

(** [s'] comes after [s]. *)
Definition later (s s' : exec) : Prop := evolves (hctx (x_host s)) (hctx (x_host s')).

Lemma ok_exec_mono n m s : ok_exec n s -> n <= m -> ok_exec m s.
Proof. intros (? & ? & ? & ?) ?. split_and!; try done. by eapply within_mono. Qed.

Lemma call_func_safe n s fn args :
  ok_exec n s -> 0 <= n -> n + b < 4294967295 ->
  exists s' r, call_wasm_func s fn args = Done (s', r) /\ ok_exec (n + b) s' /\ later s s'.
Proof.
  intros Hs Hn Hb. pose proof (@budget_nonneg_b _ _ _ _ _ M b B). unfold call_wasm_func.
  destruct (export_func _ _); cbn [negb].
  2:{ eexists s, None. split; [done|]. split; [|apply evolves_refl]. eapply ok_exec_mono; [done|lia]. }
  destruct Hs as (Hc & Hw & Hl & Hx).
  pose proof (finish_limit (M := M) (x_inst s) fn args (x_host s)) as Hf.
  pose proof (script_possible (M := M) (x_inst s) fn args (x_host s)) as Hp.
  pose proof (script_cost (M := M) (x_inst s) fn args (x_host s)) as Hco.
  destruct (run_actions_safe _ n (x_host s) Hp Hc Hw) as (h' & -> & Hc' & Hw' & He); [lia..|].
  cbn [obind]. destruct (finish _ _ _ _) as [x r]. eexists _, r. split; [done|]. split; [|done].
  split_and!; cbn [x_host x_inst]; [done| |by apply He|exact Hf]. eapply within_mono; [done|lia].
Qed.

Lemma call_void_safe n s fn args :
  ok_exec n s -> 0 <= n -> n + b < 4294967295 ->
  exists s', call_wasm_void s fn args = Done s' /\ ok_exec (n + b) s' /\ later s s'.
Proof.
  intros Hs Hn Hb. destruct (call_func_safe n s fn args Hs Hn Hb) as (s' & r & E & Hs' & Hl).
  exists s'. split; [|done]. unfold call_wasm_func, call_wasm_void in *.
  destruct (export_func _ _); cbn [negb] in *; [|by simplify_eq].
  destruct (run_actions _ _) as [h|]; [|done]. cbn [obind] in *.
  destruct (finish _ _ _ _) as [x r']. by simplify_eq.
Qed.
End ExecSafety.

#[global] Arguments inst_le {_} M x.
#[global] Arguments ok_exec {_ _ _} M n s.
