(* ===== verification/Engine.v ===== *)
(** * The engine and its configuration (src/wasm_engine.c)

    The engine holds the loaded modules, the limits and security settings, the
    statistics, the store pools with their warm instances, the HTTP connection
    pool and the tick timers.  This file models creating and configuring it;
    Execute.v models running guests in it.  Wasmtime is a parameter. *)

From S2P Require Import Prelude Mem SharedData SharedQueue Metrics Ctx HostCalls.
From S2P Require Import Headers Properties HttpAddr Breaker HttpPool HttpParse HttpIo HttpCall.
From S2P Require Import Imports StorePool.

Definition VWASM_DEFAULT_MEMLIMIT : Z := 16777216.
Definition VWASM_DEFAULT_EPOCH_DEADLINE_MS : Z := 5000.
Definition VWASM_DEFAULT_HTTP_CALL_MAX : Z := 5.
Definition VWASM_DEFAULT_STORE_POOL_SIZE : Z := 8.
Definition VWASM_DEFAULT_HTTP_POOL_SIZE : Z := 16.
Definition VWASM_FAIL_CLOSED : Z := 0.
Definition VWASM_FAIL_OPEN : Z := 1.

(** The limits and the security configuration. *)
Record settings := Settings {
  memory_limit : Z;
  epoch_deadline_ms : Z;
  e_http_timeout_ms : Z;
  e_allowed_upstreams : option (list bytes);
  e_http_call_max : Z;
  fail_mode : Z
}.

(** [struct vwasm_stats] *)
Record vwasm_stats := Stats {
  calls_total : Z;
  calls_ok : Z;
  calls_error : Z;
  calls_timeout : Z;
  local_responses : Z;
  http_calls_made : Z;
  http_calls_blocked : Z;
  body_bytes_in : Z
}.

Section Engine.
Context `{W : Wasm}.

(** [struct vwasm_engine]; the modules are named by their strings, in the order
    of loading. *)
Record vwasm_engine := VwasmEngine {
  modules : list bytes;
  conf : settings;
  stats : vwasm_stats;
  warm_instances : list warm_instance;
  pools : list (option store_pool);
  store_pool_size : Z;
  http_pool : option pool;
  timers : list (option Z)
}.

Definition set_conf (e : vwasm_engine) (k : settings) : vwasm_engine :=
  VwasmEngine (modules e) k (stats e) (warm_instances e) (pools e) (store_pool_size e) (http_pool e)
              (timers e).
Definition set_stats (e : vwasm_engine) (s : vwasm_stats) : vwasm_engine :=
  VwasmEngine (modules e) (conf e) s (warm_instances e) (pools e) (store_pool_size e) (http_pool e)
              (timers e).
Definition set_modules (e : vwasm_engine) (l : list bytes) : vwasm_engine :=
  VwasmEngine l (conf e) (stats e) (warm_instances e) (pools e) (store_pool_size e) (http_pool e)
              (timers e).
Definition set_pools (e : vwasm_engine) (wi : list warm_instance) (p : list (option store_pool)) (n : Z)
    : vwasm_engine :=
  VwasmEngine (modules e) (conf e) (stats e) wi p n (http_pool e) (timers e).
Definition set_http_pool (e : vwasm_engine) (p : option pool) : vwasm_engine :=
  VwasmEngine (modules e) (conf e) (stats e) (warm_instances e) (pools e) (store_pool_size e) p (timers e).
Definition set_timers (e : vwasm_engine) (l : list (option Z)) : vwasm_engine :=
  VwasmEngine (modules e) (conf e) (stats e) (warm_instances e) (pools e) (store_pool_size e) (http_pool e) l.

(** The part of the engine [Ctx] works with. *)
Definition tick_view (e : vwasm_engine) : tick_engine := TickEngine (modules e) (timers e).

(** [ok]: the allocations and Wasmtime constructors in program order, the three
    registrations, and the creation of the timer thread; [None] is NULL. *)
Definition vwasm_engine_new (ok : oracle) : option vwasm_engine :=
  if negb (ok 0%nat) then None          (* calloc *)
  else if negb (ok 1%nat) then None     (* wasm_config_new *)
  else if negb (ok 2%nat) then None     (* wasm_engine_new_with_config *)
  else if negb (ok 3%nat) then None     (* wasmtime_linker_new *)
  else if negb (ok 4%nat) then None     (* vwasm_host_define_imports *)
  else if negb (ok 5%nat) then None     (* vwasm_host_define_wasi *)
  else if negb (ok 6%nat) then None     (* vwasm_proxy_wasm_define_imports *)
  else if negb (ok 7%nat) then None     (* pthread_create *)
  else
    Some (VwasmEngine []
            (Settings VWASM_DEFAULT_MEMLIMIT VWASM_DEFAULT_EPOCH_DEADLINE_MS
               VWASM_DEFAULT_HTTP_TIMEOUT_MS None VWASM_DEFAULT_HTTP_CALL_MAX VWASM_FAIL_CLOSED)
            (Stats 0 0 0 0 0 0 0 0) (replicate 64 no_warm) (replicate 64 None) 0 None
            (replicate 64 None)).

(** ** Setters and getters *)

Definition vwasm_engine_set_memory_limit (e : option vwasm_engine) (bytes : Z) : option vwasm_engine :=
  match e with
  | None => None
  | Some e =>
      let k := conf e in
      Some (set_conf e (Settings bytes (epoch_deadline_ms k) (e_http_timeout_ms k)
                          (e_allowed_upstreams k) (e_http_call_max k) (fail_mode k)))
  end.

Definition vwasm_engine_get_memory_limit (e : option vwasm_engine) : Z :=
  match e with None => VWASM_DEFAULT_MEMLIMIT | Some e => memory_limit (conf e) end.

Definition vwasm_engine_set_epoch_deadline (e : option vwasm_engine) (ms : Z) : option vwasm_engine :=
  match e with
  | None => None
  | Some e =>
      let k := conf e in
      Some (set_conf e (Settings (memory_limit k) ms (e_http_timeout_ms k)
                          (e_allowed_upstreams k) (e_http_call_max k) (fail_mode k)))
  end.

Definition vwasm_engine_get_epoch_deadline (e : option vwasm_engine) : Z :=
  match e with None => VWASM_DEFAULT_EPOCH_DEADLINE_MS | Some e => epoch_deadline_ms (conf e) end.

(** The accessors that store_pool.c uses; without an engine, other defaults. *)
Definition vwasm_engine_get_epoch_deadline_ms (e : option vwasm_engine) : Z :=
  match e with None => 100 | Some e => epoch_deadline_ms (conf e) end.

Definition vwasm_engine_get_mem_limit (e : option vwasm_engine) : Z :=
  match e with None => VWASM_DEFAULT_MEMLIMIT | Some e => memory_limit (conf e) end.

Definition vwasm_engine_set_http_timeout (e : option vwasm_engine) (ms : Z) : option vwasm_engine :=
  match e with
  | None => None
  | Some e =>
      let k := conf e in
      let ms := if 30000 <? ms then 30000 else ms in
      Some (set_conf e (Settings (memory_limit k) (epoch_deadline_ms k) ms
                          (e_allowed_upstreams k) (e_http_call_max k) (fail_mode k)))
  end.

Definition vwasm_engine_get_http_timeout (e : option vwasm_engine) : Z :=
  match e with None => VWASM_DEFAULT_HTTP_TIMEOUT_MS | Some e => e_http_timeout_ms (conf e) end.

Definition vwasm_engine_set_http_call_max (e : option vwasm_engine) (max_calls : Z) : option vwasm_engine :=
  match e with
  | None => None
  | Some e =>
      let k := conf e in
      Some (set_conf e (Settings (memory_limit k) (epoch_deadline_ms k) (e_http_timeout_ms k)
                          (e_allowed_upstreams k) max_calls (fail_mode k)))
  end.

Definition vwasm_engine_get_http_call_max (e : option vwasm_engine) : Z :=
  match e with None => VWASM_DEFAULT_HTTP_CALL_MAX | Some e => e_http_call_max (conf e) end.

Definition vwasm_engine_set_fail_mode (e : option vwasm_engine) (mode : Z) : option vwasm_engine :=
  match e with
  | None => None
  | Some e =>
      let k := conf e in
      Some (set_conf e (Settings (memory_limit k) (epoch_deadline_ms k) (e_http_timeout_ms k)
                          (e_allowed_upstreams k) (e_http_call_max k)
                          (if mode =? VWASM_FAIL_OPEN then VWASM_FAIL_OPEN else VWASM_FAIL_CLOSED)))
  end.

Definition vwasm_engine_get_fail_mode (e : option vwasm_engine) : Z :=
  match e with None => VWASM_FAIL_CLOSED | Some e => fail_mode (conf e) end.

(** ** The upstream allowlist *)

Fixpoint skip_commas (s : bytes) : bytes :=
  match s with
  | [] => []
  | x :: r => if x =? comma then skip_commas r else s
  end.

(** The tokens successive [strtok_r(_, ",", _)] calls return. *)
Fixpoint strtok_all (fuel : nat) (s : bytes) : list bytes :=
  match fuel with
  | O => []
  | S fuel =>
      match skip_commas s with
      | [] => []
      | s =>
          let tok := until_comma s in
          tok :: strtok_all fuel (drop (length tok) s)
      end
  end.

(** First pass: how many tokens are not blank. *)
Definition count_tokens (toks : list bytes) : nat :=
  length (filter (fun t => skip_blank t <> []) toks).

(** Second pass: the copies of the tokens that are not blank, without the blanks
    around them; [None] when a copy (the [i]-th) cannot be allocated. *)
Fixpoint fill_list (ok : oracle) (toks : list bytes) (i count : nat) : option (list bytes) :=
  match toks with
  | [] => Some []
  | tok :: toks =>
      if (i <? count)%nat then
        match skip_blank tok with
        | [] => fill_list ok toks i count
        | t =>
            if negb (ok (3 + i)%nat) then None
            else
              match fill_list ok toks (S i) count with
              | None => None
              | Some l => Some (trim_blank t :: l)
              end
        end
      else Some []
  end.

(** The list [engine->allowed_upstreams] is set to; [None] is NULL. *)
Definition parse_allowlist (ok : oracle) (upstream_list : option bytes) : option (list bytes) :=
  match upstream_list with
  | None => None
  | Some s =>
      match cstr s with
      | [] => None
      | s =>
          if negb (ok 0%nat) then None
          else
            let toks := strtok_all (length s) s in
            let count := count_tokens toks in
            if (count =? 0)%nat then None
            else if negb (ok 1%nat) then None
            else if negb (ok 2%nat) then None
            else fill_list ok toks 0 count
      end
  end.

Definition vwasm_engine_set_allowed_upstreams (ok : oracle) (e : option vwasm_engine)
    (upstream_list : option bytes) : option vwasm_engine :=
  match e with
  | None => None
  | Some e =>
      let k := conf e in
      Some (set_conf e (Settings (memory_limit k) (epoch_deadline_ms k) (e_http_timeout_ms k)
                          (parse_allowlist ok upstream_list) (e_http_call_max k) (fail_mode k)))
  end.

(** ** Modules *)

(** The file: [None] when it cannot be opened, otherwise its size as [ftell]
    reports it and whether all of it could be read. *)
Record wasm_file := WasmFile { f_size : Z; f_read : bool }.

(** [ok]: the buffer, the compiler, the pre-instantiation, the name. *)
Definition vwasm_engine_load_module (ok : oracle) (file : bytes -> option wasm_file)
    (e : option vwasm_engine) (name path : option bytes) : option vwasm_engine * Z :=
  match e, name, path with
  | Some e, Some name, Some path =>
      let fail := (Some e, -1) in
      if existsb (fun n => strcmp_eq n name) (modules e) then fail
      else
        match file path with
        | None => fail
        | Some f =>
            if f_size f <=? 0 then fail
            else if negb (ok 0%nat) then fail
            else if negb (f_read f) then fail
            else if negb (ok 1%nat) then fail
            else if MAX_MODULES <=? len (modules e) then fail
            else if negb (ok 2%nat) then fail
            else if negb (ok 3%nat) then fail
            else (Some (set_modules e (modules e ++ [cstr name])), 0)
        end
  | _, _, _ => (e, -1)
  end.

(** The index of a module, as [find_module] and the subtraction of
    [engine->modules] compute it. *)
Definition vwasm_engine_find_module (e : option vwasm_engine) (name : option bytes) : option Z :=
  match e, name with
  | Some e, Some name => find_module (tick_view e) name
  | _, _ => None
  end.

(** ** Pools *)

Definition vwasm_engine_get_pool (e : option vwasm_engine) (idx : Z) : option store_pool :=
  match e with
  | None => None
  | Some e =>
      if (idx <? 0) || (len (modules e) <=? idx) then None
      else default None (pools e !! Z.to_nat idx)
  end.

(** [k]: the instantiation that creates the warm instance; [snap_ok]: the
    allocation of its snapshot; [ok]: the allocations of the pool. *)
Definition vwasm_engine_init_pool (k : nat) (snap_ok : bool) (ok : oracle) (e : option vwasm_engine)
    (module_name : option bytes) (pool_size : Z) (vm_config plugin_config : option bytes)
    : option vwasm_engine * Z :=
  match e, module_name with
  | Some e, Some name =>
      match find_module (tick_view e) name with
      | None => (Some e, -1)
      | Some idx =>
          if (idx <? 0) || (MAX_MODULES <=? idx) then (Some e, -1)
          else
            let i := Z.to_nat idx in
            let pool_size := if pool_size =? 0 then VWASM_DEFAULT_STORE_POOL_SIZE else pool_size in
            let '(wm, r) := vwasm_warm_instance_create k true snap_ok vm_config plugin_config in
            let wi := <[i := wm]> (warm_instances e) in
            if negb (r =? 0) then (Some (set_pools e wi (pools e) pool_size), -1)
            else if has_initialize wm then
              (Some (set_pools e (<[i := vwasm_warm_instance_destroy wm]> wi) (pools e) pool_size), 0)
            else
              let p := vwasm_store_pool_new ok true pool_size (Some wm) in
              match p with
              | None =>
                  (Some (set_pools e (<[i := vwasm_warm_instance_destroy wm]> wi)
                           (<[i := None]> (pools e)) pool_size), -1)
              | Some p => (Some (set_pools e wi (<[i := Some p]> (pools e)) pool_size), 0)
              end
      end
  | _, _ => (e, -1)
  end.

Definition vwasm_engine_destroy_pools (e : option vwasm_engine) : option vwasm_engine :=
  match e with
  | None => None
  | Some e =>
      Some (set_pools e
              (map (fun wm => if valid wm then vwasm_warm_instance_destroy wm else wm) (warm_instances e))
              (map (fun _ => None) (pools e)) (store_pool_size e))
  end.

Definition vwasm_engine_get_pool_stats_json (e : option vwasm_engine) (module_name : option bytes)
    (buf : option bytes) : outcome (option bytes) :=
  match e, module_name with
  | Some e, Some name =>
      match find_module (tick_view e) name with
      | None => Done None
      | Some idx =>
          if (idx <? 0) || (MAX_MODULES <=? idx) then Done None
          else
            match default None (pools e !! Z.to_nat idx) with
            | None => Done None
            | Some p => vwasm_store_pool_stats_json p buf
            end
      end
  | _, _ => Done None
  end.

Definition vwasm_engine_init_http_pool (ok : oracle) (e : option vwasm_engine) (pool_size : Z)
    : option vwasm_engine * Z :=
  match e with
  | None => (None, -1)
  | Some e =>
      let pool_size := if pool_size =? 0 then VWASM_DEFAULT_HTTP_POOL_SIZE else pool_size in
      let p := vwasm_http_pool_new ok pool_size (e_http_timeout_ms (conf e)) in
      (Some (set_http_pool e p), match p with Some _ => 0 | None => -1 end)
  end.
End Engine.

(** * Properties *)

(** ** The allowlist *)

(** The fields of a comma-separated list, and a field without the blanks around
    it. *)
Fixpoint fields (s : bytes) : list bytes :=
  match s with
  | [] => [[]]
  | x :: r =>
      if x =? comma then [] :: fields r
      else match fields r with f :: l => (x :: f) :: l | [] => [[x]] end
  end.

Definition strip (f : bytes) : bytes := trim_blank (skip_blank f).

(** What an allowlist means: its fields that are not blank. *)
Definition entries (s : bytes) : list bytes := filter (fun f => f <> []) (map strip (fields s)).

Lemma trim_blank_nonempty x l : is_blank x = false -> trim_blank (x :: l) <> [].
Proof.
  intros Hx. unfold trim_blank. rewrite reverse_cons.
  assert (forall k, skip_blank (k ++ [x]) <> []) as H.
  { induction k as [|y k IH]; simpl; [by rewrite Hx|]. by destruct (is_blank y). }
  specialize (H (reverse l)). destruct (skip_blank _) as [|y k] eqn:E; [done|].
  rewrite reverse_cons. by destruct (reverse k).
Qed.

Lemma skip_blank_head t x l : skip_blank t = x :: l -> is_blank x = false.
Proof. induction t as [|y t IH]; simpl; [done|]. destruct (is_blank y) eqn:E; [done|]. by intros [= <- _]. Qed.

Lemma strip_nonempty t : strip t <> [] <-> skip_blank t <> [].
Proof.
  unfold strip. destruct (skip_blank t) as [|x l] eqn:E; [done|].
  split; [done|]. intros _. apply trim_blank_nonempty. by eapply skip_blank_head.
Qed.

Lemma fields_skip s : filter (fun f => f <> []) (fields s) = filter (fun f => f <> []) (fields (skip_commas s)).
Proof. induction s as [|x s IH]; [done|]. simpl. by destruct (x =? comma) eqn:E; simpl; rewrite ?E. Qed.

Lemma fields_until s : exists l, fields s = until_comma s :: l /\
  filter (fun f => f <> []) l = filter (fun f => f <> []) (fields (drop (length (until_comma s)) s)).
Proof.
  induction s as [|x s (l & E & Hl)]; [by exists []|]. simpl. destruct (x =? comma) eqn:Ex; simpl.
  - rewrite Ex. by eexists.
  - rewrite E. by exists l.
Qed.

Lemma skip_commas_head s x r : skip_commas s = x :: r -> (x =? comma) = false.
Proof. induction s as [|y s IH]; simpl; [done|]. destruct (y =? comma) eqn:E; [done|]. by intros [= <- _]. Qed.

Lemma skip_commas_le s : (length (skip_commas s) <= length s)%nat.
Proof. induction s as [|x s IH]; simpl; [done|]. destruct (x =? comma); simpl; lia. Qed.

(** The tokens are the fields that are not empty. *)
Lemma strtok_fields fuel s :
  (length s <= fuel)%nat -> strtok_all fuel s = filter (fun f => f <> []) (fields s).
Proof.
  revert s. induction fuel as [|fuel IH]; intros s Hs; [by destruct s; [|simpl in Hs; lia]|]. cbn [strtok_all].
  rewrite fields_skip. pose proof (skip_commas_le s).
  destruct (skip_commas s) as [|x r] eqn:E; [done|].
  pose proof (skip_commas_head _ _ _ E) as Hx.
  destruct (fields_until (x :: r)) as (l & -> & Hl).
  assert (until_comma (x :: r) = x :: until_comma r) as Eu by (simpl; by rewrite Hx).
  rewrite filter_cons, decide_True by by rewrite Eu. rewrite Hl. f_equal. apply IH.
  rewrite Eu. simpl. rewrite length_drop. simpl in *. lia.
Qed.

Lemma strips_empty toks :
  filter (fun t => skip_blank t <> []) toks = [] -> filter (fun f => f <> []) (map strip toks) = [].
Proof.
  induction toks as [|t toks IH]; [done|]. cbn [map]. rewrite !filter_cons.
  destruct (decide (skip_blank t <> [])); [done|].
  rewrite decide_False by by rewrite strip_nonempty. apply IH.
Qed.

Lemma fill_list_all toks i count :
  count = (i + count_tokens toks)%nat ->
  fill_list all_ok toks i count = Some (filter (fun f => f <> []) (map strip toks)).
Proof.
  revert i. induction toks as [|t toks IH]; intros i Hc; [done|]. cbn [fill_list map].
  rewrite filter_cons. unfold count_tokens in *. rewrite filter_cons in Hc.
  destruct (decide (skip_blank t <> [])) as [Hb|Hb].
  - rewrite decide_True by by apply strip_nonempty. simpl in Hc.
    rewrite (proj2 (Nat.ltb_lt _ _)) by lia. unfold strip at 1.
    destruct (skip_blank t); [by destruct Hb|]. cbn. by rewrite IH by lia.
  - rewrite decide_False by by rewrite strip_nonempty.
    destruct (decide (filter (fun t => skip_blank t <> []) toks = [])) as [Ez|Ez].
    + rewrite Ez in Hc. simpl in Hc. rewrite (proj2 (Nat.ltb_ge _ _)) by lia.
      f_equal. symmetry. by apply strips_empty.
    + assert (i < count)%nat. { destruct (filter _ toks); simpl in *; [done|lia]. }
      rewrite (proj2 (Nat.ltb_lt _ _)) by lia.
      destruct (skip_blank t); [by apply IH|by destruct Hb].
Qed.

Lemma fill_list_length ok toks i count l :
  count = (i + count_tokens toks)%nat -> fill_list ok toks i count = Some l -> length l = count_tokens toks.
Proof.
  revert i l. induction toks as [|t toks IH]; intros i l Hc; cbn [fill_list]; [by intros [= <-]|].
  unfold count_tokens in *. rewrite filter_cons in *.
  destruct (decide (skip_blank t <> [])) as [Hb|Hb]; cbn [length] in *.
  - rewrite (proj2 (Nat.ltb_lt _ _)) by lia. destruct (skip_blank t); [by destruct Hb|].
    destruct (ok _); cbn [negb]; [|done]. destruct (fill_list ok toks (S i) count) as [l'|] eqn:E; [|done].
    intros [= <-]. simpl. f_equal. apply (IH (S i)); [lia|done].
  - destruct (Nat.ltb_spec i count) as [Hlt|Hge].
    + destruct (skip_blank t); [|by destruct Hb]. by apply IH.
    + intros [= <-]. simpl. lia.
Qed.

Lemma parse_allowlist_nonempty ok s l : parse_allowlist ok s = Some l -> l <> [].
Proof.
  unfold parse_allowlist. destruct s as [s|]; [|done]. destruct (cstr s) as [|x q]; [done|].
  split_if; [done|]. destruct (Nat.eqb_spec (count_tokens (strtok_all (length (x :: q)) (x :: q))) 0); [done|].
  repeat (split_if; [done|]). intros E%fill_list_length; [|done]. destruct l; [|done]. simpl in *. lia.
Qed.

Lemma strip_fields l :
  filter (fun f => f <> []) (map strip (filter (fun f => f <> []) l)) =
  filter (fun f => f <> []) (map strip l).
Proof.
  induction l as [|f l IH]; [done|]. cbn [map]. rewrite (filter_cons _ f).
  destruct (decide (f <> [])) as [Hf|Hf]; cbn [map]; rewrite !(filter_cons _ (strip f)).
  - by rewrite IH.
  - rewrite (decide_False (P := strip f <> [])); [done|]. destruct f; [|by destruct Hf]. by intros [].
Qed.

Lemma count_zero toks : count_tokens toks = 0%nat -> filter (fun f => f <> []) (map strip toks) = [].
Proof. intros H. apply strips_empty. by apply length_zero_iff_nil. Qed.

Lemma count_pos toks : count_tokens toks <> 0%nat -> filter (fun f => f <> []) (map strip toks) <> [].
Proof.
  unfold count_tokens. induction toks as [|t toks IH]; [done|]. cbn [map]. rewrite !filter_cons.
  destruct (decide (skip_blank t <> [])).
  - rewrite decide_True by by apply strip_nonempty. done.
  - rewrite decide_False by by rewrite strip_nonempty. apply IH.
Qed.

Lemma parse_allowlist_entries s :
  nul_free s -> parse_allowlist all_ok (Some s) = (if decide (entries s = []) then None else Some (entries s)).
Proof.
  intros Hn. unfold parse_allowlist. rewrite (cstr_nul_free s) by done.
  destruct s as [|x s]; [by rewrite decide_True|]. set (q := x :: s). cbn [negb all_ok].
  assert (filter (fun f => f <> []) (map strip (strtok_all (length q) q)) = entries q) as E.
  { rewrite strtok_fields by done. apply strip_fields. }
  destruct (Nat.eqb_spec (count_tokens (strtok_all (length q) q)) 0) as [Hz|Hz].
  - apply count_zero in Hz. rewrite E in Hz. by rewrite decide_True.
  - rewrite fill_list_all by done. rewrite E. apply count_pos in Hz. rewrite E in Hz.
    by rewrite decide_False.
Qed.

Lemma Forall_skip_blank (P : Z -> Prop) l : Forall P l -> Forall P (skip_blank l).
Proof. induction 1 as [|x l Hx Hl IH]; simpl; [done|]. destruct (is_blank x); [done|by constructor]. Qed.

Lemma Forall_fields (P : Z -> Prop) s : Forall P s -> Forall (Forall P) (fields s).
Proof.
  induction 1 as [|x s Hx Hs IH]; simpl; [by repeat constructor|].
  destruct (x =? comma); [by constructor|]. destruct (fields s) as [|f l]; [by repeat constructor|].
  inversion_clear IH. by repeat constructor.
Qed.

Lemma entries_nul_free s u : nul_free s -> u ∈ entries s -> nul_free u.
Proof.
  intros Hn Hu. unfold entries in Hu. apply list_elem_of_filter in Hu as [_ Hu].
  apply list_elem_of_fmap in Hu as (f & -> & Hf). unfold strip, trim_blank.
  apply Forall_reverse, Forall_skip_blank, Forall_reverse, Forall_skip_blank.
  by eapply (Forall_elem _ _ _ (Forall_fields _ s Hn)).
Qed.

(** ** Configuration histories *)

(** The operations of [vcl_init]. *)
Inductive setup :=
| SetMemoryLimit (bytes : Z)
| SetEpochDeadline (ms : Z)
| SetHttpTimeout (ms : Z)
| SetAllowedUpstreams (ok : oracle) (l : option bytes)
| SetHttpCallMax (n : Z)
| SetFailMode (mode : Z)
| LoadModule (ok : oracle) (file : bytes -> option wasm_file) (name path : option bytes)
| InitPool (k : nat) (snap_ok : bool) (ok : oracle) (name : option bytes) (size : Z)
| InitHttpPool (ok : oracle) (size : Z).

Section Histories.
Context `{W : Wasm}.

Definition configure (e : option vwasm_engine) (q : setup) : option vwasm_engine * Z :=
  match q with
  | SetMemoryLimit b => (vwasm_engine_set_memory_limit e b, 0)
  | SetEpochDeadline ms => (vwasm_engine_set_epoch_deadline e ms, 0)
  | SetHttpTimeout ms => (vwasm_engine_set_http_timeout e ms, 0)
  | SetAllowedUpstreams ok l => (vwasm_engine_set_allowed_upstreams ok e l, 0)
  | SetHttpCallMax n => (vwasm_engine_set_http_call_max e n, 0)
  | SetFailMode m => (vwasm_engine_set_fail_mode e m, 0)
  | LoadModule ok file name path => vwasm_engine_load_module ok file e name path
  | InitPool k snap_ok ok name size => vwasm_engine_init_pool k snap_ok ok e name size None None
  | InitHttpPool ok size => vwasm_engine_init_http_pool ok e size
  end.

(** A pool as created: 8 to 1024 slots, each with its state. *)
Definition wf_pool (p : store_pool) : Prop :=
  8 <= capacity p <= 1024 /\ length (slots p) = length (store_objects p) /\
  length (slot_states p) = length (store_objects p).

(** The invariant of an engine. *)
Definition wf_engine (e : vwasm_engine) : Prop :=
  NoDup (modules e) /\ Forall nul_free (modules e) /\ len (modules e) <= MAX_MODULES /\
  length (warm_instances e) = 64%nat /\ length (pools e) = 64%nat /\ length (timers e) = 64%nat /\
  Forall (fun p => forall p', p = Some p' -> wf_pool p') (pools e) /\
  (fail_mode (conf e) = VWASM_FAIL_OPEN \/ fail_mode (conf e) = VWASM_FAIL_CLOSED) /\
  e_http_timeout_ms (conf e) <= 30000 /\
  (forall l, e_allowed_upstreams (conf e) = Some l -> l <> []).

Lemma engine_new_wf ok e : vwasm_engine_new ok = Some e -> wf_engine e.
Proof.
  unfold vwasm_engine_new. repeat (split_if; [done|]). intros [= <-].
  unfold wf_engine. cbn [modules conf warm_instances pools timers fail_mode e_http_timeout_ms e_allowed_upstreams].
  split_and!; try done; [apply NoDup_nil_2| |by right]. by repeat constructor.
Qed.

Lemma find_module_from_spec l i name :
  (forall idx, find_module_from l i name = Some idx ->
     exists n, idx = i + Z.of_nat n /\ exists m, l !! n = Some m /\ strcmp_eq m name = true) /\
  (find_module_from l i name = None -> Forall (fun m => strcmp_eq m name = false) l).
Proof.
  revert i. induction l as [|m l IH]; intros i; [by split; [|constructor]|]. simpl.
  destruct (strcmp_eq m name) eqn:E.
  - split; [|done]. intros idx [= <-]. exists O. split; [lia|]. by exists m.
  - destruct (IH (i + 1)) as [IH1 IH2]. split.
    + intros idx Hi. destruct (IH1 _ Hi) as (n & -> & x & Hx & Hs). exists (S n).
      split; [lia|]. by exists x.
    + intros Hn. constructor; auto.
Qed.

(** A found module is a valid index. *)
Lemma find_module_lt e name idx :
  find_module (tick_view e) name = Some idx ->
  0 <= idx < len (modules e) /\ exists m, modules e !! Z.to_nat idx = Some m /\ strcmp_eq m name = true.
Proof.
  intros H. unfold find_module in H. cbn [tick_view module_names] in H.
  apply find_module_from_spec in H as (n & -> & m & Hm & Hs). rewrite Z.add_0_l, Nat2Z.id.
  split; [|by exists m]. apply lookup_lt_Some in Hm. unfold len. lia.
Qed.

Lemma wf_set_pools e wi p n :
  wf_engine e -> length wi = 64%nat -> length p = 64%nat ->
  Forall (fun p => forall p', p = Some p' -> wf_pool p') p -> wf_engine (set_pools e wi p n).
Proof. intros (? & ? & ? & ? & ? & ? & ? & ? & ? & ?) ? ? ?. by split_and!. Qed.

Lemma wf_set_conf e k :
  wf_engine e -> (fail_mode k = VWASM_FAIL_OPEN \/ fail_mode k = VWASM_FAIL_CLOSED) ->
  e_http_timeout_ms k <= 30000 -> (forall l, e_allowed_upstreams k = Some l -> l <> []) ->
  wf_engine (set_conf e k).
Proof. intros (? & ? & ? & ? & ? & ? & ? & ? & ? & ?) ? ? ?. by split_and!. Qed.

Lemma new_pool_wf ok n wm p : vwasm_store_pool_new ok true n wm = Some p -> wf_pool p.
Proof.
  unfold vwasm_store_pool_new. cbn [negb]. split_if; [done|].
  set (sz := if VWASM_POOL_MAX_SIZE <? _ then _ else _).
  assert (8 <= sz <= 1024) as Hs
    by (subst sz; unfold VWASM_POOL_MAX_SIZE, VWASM_POOL_MIN_SIZE in *; repeat split_if; lia).
  clearbody sz. pose proof (init_slots_length (Z.to_nat sz) 0 wm) as Hi.
  destruct (init_slots _ _ _) as [l bs]. cbn [fst snd] in Hi. destruct Hi as [Hl Hb]. intros [= <-].
  unfold wf_pool, capacity, len. cbn [store_objects slots slot_states].
  rewrite length_replicate. split_and!; lia.
Qed.

Lemma load_module_wf ok file e name path :
  wf_engine e ->
  exists e', (vwasm_engine_load_module ok file (Some e) name path).1 = Some e' /\ wf_engine e'.
Proof.
  intros He. pose proof He as (Hd & Hf & Hm & Hw & Hp & Ht & Hpl & Hfm & Hto & Hal).
  unfold vwasm_engine_load_module. destruct name as [name|]; [|by eexists]. destruct path as [path|]; [|by eexists].
  destruct (existsb _ _) eqn:Ex; [by eexists|]. destruct (file path) as [f|]; [|by eexists].
  repeat (split_if; [by eexists|]). eexists. split; [done|].
  unfold wf_engine, set_modules. cbn [modules conf warm_instances pools timers]. split_and!; try done.
  - apply list.NoDup_app. split_and!; [done| |apply NoDup_singleton].
    intros x Hx ->%list_elem_of_singleton.
    assert (existsb (fun n => strcmp_eq n name) (modules e) = true) as Ht'; [|by rewrite Ht' in Ex].
    apply existsb_exists. exists (cstr name). split; [by apply list_elem_of_In|].
    unfold strcmp_eq. rewrite cstr_idem. apply bytes_eqb_refl.
  - apply Forall_app. split; [done|]. repeat constructor. apply nul_free_cstr.
  - rewrite len_app. change (len [cstr name]) with 1. unfold MAX_MODULES in *. lia.
Qed.

Lemma init_pool_wf k snap_ok ok e name size vm plugin :
  wf_engine e ->
  exists e', (vwasm_engine_init_pool k snap_ok ok (Some e) name size vm plugin).1 = Some e' /\ wf_engine e'.
Proof.
  intros He. pose proof He as (Hd & Hf & Hm & Hw & Hp & Ht & Hpl & Hfm & Hto & Hal).
  unfold vwasm_engine_init_pool. destruct name as [name|]; [|by eexists].
  destruct (find_module _ _) as [idx|]; [|by eexists]. split_if; [by eexists|].
  destruct (vwasm_warm_instance_create _ _ _ _ _) as [wm r].
  repeat (split_if; [eexists; split; [done|]; apply wf_set_pools; by rewrite ?length_insert|]).
  destruct (vwasm_store_pool_new _ _ _ _) as [p|] eqn:Ep; eexists; (split; [done|]);
    apply wf_set_pools; rewrite ?length_insert; try done; apply Forall_insert; try done.
  intros p' [= <-]. by eapply new_pool_wf.
Qed.

Lemma configure_wf e q : wf_engine e -> exists e', (configure (Some e) q).1 = Some e' /\ wf_engine e'.
Proof.
  intros He. pose proof He as (Hd & Hf & Hm & Hw & Hp & Ht & Hpl & Hfm & Hto & Hal).
  destruct q; cbn [configure fst];
    try (eexists; split; [reflexivity|]; apply wf_set_conf; cbn; try done).
  - split_if; lia.
  - intros l' E. by eapply parse_allowlist_nonempty.
  - unfold VWASM_FAIL_OPEN, VWASM_FAIL_CLOSED. split_if; auto.
  - by apply load_module_wf.
  - by apply init_pool_wf.
Qed.
End Histories.

(** C34 The configuration keeps the engine consistent: after any sequence of
    configuration calls from a new engine, with any arguments and whichever
    allocations, files and instantiations fail, module names are distinct, at
    most 64 modules are loaded, every store pool has 8 to 1024 slots, the HTTP
    timeout is at most 30 seconds, the fail mode is one of the two modes and an
    allowlist that is set is not empty. *)
Theorem configured_engine_wf `{W : Wasm} ok e qs :
  vwasm_engine_new ok = Some e ->
  exists e', (run configure (Some e) qs).1 = Some e' /\ wf_engine e'.
Proof.
  intros He. apply (run_inv configure (fun o => exists e', o = Some e' /\ wf_engine e')).
  - intros s q (e' & -> & Hw). by apply configure_wf.
  - exists e. split; [done|]. by eapply engine_new_wf.
Qed.

(** C35 The allowlist means what the operator wrote: after
    [set_allowed_upstreams] with a comma-separated list, a callout to a host and
    port is accepted exactly when [host:port] is one of the fields of the list,
    blanks around the fields and empty fields not counting. *)
Theorem allowlist_confines `{W : Wasm} e e' s c host port :
  nul_free s -> nul_free host -> len host < 256 -> entries s <> [] ->
  vwasm_engine_set_allowed_upstreams all_ok (Some e) (Some s) = Some e' ->
  allowed_upstreams (cfg c) = e_allowed_upstreams (conf e') ->
  check_allowlist c host port =
  if decide (host ++ str ":" ++ dec port ∈ entries s) then Some true else None.
Proof.
  intros Hs Hh Hl Hne He Ha.
  assert (e_allowed_upstreams (conf e') = parse_allowlist all_ok (Some s)) as Ep
    by (by injection He as <-).
  rewrite Ep, parse_allowlist_entries, decide_False in Ha by done.
  unfold check_allowlist. rewrite Ha. destruct (entries s) as [|u l] eqn:El; [done|]. cbv zeta.
  set (up := host ++ str ":" ++ dec port).
  assert (nul_free up) as Hu.
  { apply Forall_app. split; [done|]. apply Forall_app. split; [by_decide|apply dec_nul_free]. }
  rewrite cstr_nul_free by done. fold up.
  rewrite take_ge.
  2:{ pose proof (dec_len port). unfold up. rewrite !length_app. unfold len in *.
      change (length (str ":")) with 1%nat. lia. }
  case_decide as Hin.
  - rewrite (proj2 (existsb_exists _ _)); [done|]. exists up. split; [by apply list_elem_of_In|].
    by apply strcmp_eq_iff.
  - destruct (existsb _ _) eqn:Ex; [|done]. destruct Hin. apply existsb_exists in Ex as (v & Hv & Heq).
    apply list_elem_of_In in Hv. apply strcmp_eq_iff in Heq; [by rewrite Heq|done|].
    apply (entries_nul_free s); [done|]. by rewrite El.
Qed.

(** A list that cannot be stored is no list: when an allocation fails, the old
    allowlist is gone and every upstream is allowed. *)
Theorem allowlist_lost_on_failure `{W : Wasm} ok e s e' :
  ok 0%nat && ok 1%nat && ok 2%nat = false ->
  vwasm_engine_set_allowed_upstreams ok (Some e) s = Some e' -> e_allowed_upstreams (conf e') = None.
Proof.
  intros Hok [= <-]. cbn. unfold parse_allowlist. destruct s as [s|]; [|done]. destruct (cstr s); [done|].
  destruct (ok 0%nat); [|done]. cbn [negb]. split_if; [done|].
  destruct (ok 1%nat); [|done]. cbn [negb]. destruct (ok 2%nat); [by destruct Hok|done].
Qed.

(** ** Witnesses *)

Definition toy_setup : list setup :=
  [ SetAllowedUpstreams all_ok (Some (str "api:80, db:5432"));
    LoadModule all_ok (fun _ => Some (WasmFile 8 true)) (Some (str "auth")) (Some (str "/a.wasm"));
    LoadModule all_ok (fun _ => Some (WasmFile 8 true)) (Some (str "auth")) (Some (str "/b.wasm"));
    SetHttpTimeout 60000;
    InitPool 0 true all_ok (Some (str "auth")) 2 ].

Definition toy_engine : vwasm_engine (W := toy_wasm) :=
  default (VwasmEngine [] (Settings 0 0 0 None 0 0) (Stats 0 0 0 0 0 0 0 0) [] [] 0 None [])
    (vwasm_engine_new all_ok).

Lemma configured_engine_wf_witness :
  exists e, (run configure (Some toy_engine) toy_setup).1 = Some e /\ wf_engine e.
Proof. apply (configured_engine_wf (W := toy_wasm) all_ok toy_engine toy_setup). reflexivity. Defined.

Lemma allowlist_confines_witness :
  let c := call_ctx 5 (Some [str "api:80"; str "db:5432"]) in
  check_allowlist c (str "db") 5432 = Some true /\ check_allowlist c (str "db") 80 = None.
Proof.
  split.
  - rewrite (allowlist_confines (W := toy_wasm) toy_engine
      (set_conf toy_engine (Settings VWASM_DEFAULT_MEMLIMIT VWASM_DEFAULT_EPOCH_DEADLINE_MS
         VWASM_DEFAULT_HTTP_TIMEOUT_MS (Some [str "api:80"; str "db:5432"]) 5 0))
      (str "api:80, db:5432")); [vm_compute; reflexivity|by_decide|by_decide|by_decide|by_decide|
      vm_compute; reflexivity|reflexivity].
  - rewrite (allowlist_confines (W := toy_wasm) toy_engine
      (set_conf toy_engine (Settings VWASM_DEFAULT_MEMLIMIT VWASM_DEFAULT_EPOCH_DEADLINE_MS
         VWASM_DEFAULT_HTTP_TIMEOUT_MS (Some [str "api:80"; str "db:5432"]) 5 0))
      (str "api:80, db:5432")); [vm_compute; reflexivity|by_decide|by_decide|by_decide|by_decide|
      vm_compute; reflexivity|reflexivity].
Defined.
