(* ===== verification/Execute.v ===== *)
(** * Running a request through a module (src/wasm_engine.c, proxy_wasm_execute)

    One execution: claim a pooled store or create a fresh one, run the
    Proxy-Wasm lifecycle in it, deliver the responses of the callouts, read the
    decision of the module, and give everything back; for a response whose
    module filters bodies, hand the execution over to the body filter (Vdp.v). *)

From Stdlib Require Import Sorted.
From S2P Require Import Prelude Mem SharedData SharedQueue Metrics Ctx HostCalls.
From S2P Require Import Headers Properties HttpAddr Breaker HttpPool HttpParse HttpIo HttpCall.
From S2P Require Import Imports StorePool Runtime Engine.

Definition VWASM_BODY_STACK_MAX : Z := 65536.

Inductive phase := VWASM_PHASE_REQUEST | VWASM_PHASE_RESPONSE.

(** What an execution takes from Varnish and the system: the number of its
    instantiation, the allocations of the global stores, the request body
    ([t_req_body]: there is one; what [VRT_CacheReqBody] returns, the chunks
    [VRB_Iterate] passes on and whether it succeeds itself), whether the
    allocations of a large body and of a task succeed, whether [VRT_priv_task]
    does, how long it all takes, whether the transaction has a log ([ctx->req] or
    [ctx->bo] is set; it is the log of the VCL context), and how a failing
    instantiation ends (a trap or an error, and the message). *)
Record txn := Txn {
  t_inst : nat;
  t_ok : oracle;
  t_req_body : bool;
  t_cached : Z;
  t_chunks : list bytes;
  t_iter_ok : bool;
  t_body_ok : bool;
  t_task_ok : bool;
  t_priv_ok : bool;
  t_elapsed : Z;
  t_vsl : bool;
  t_trap : bool;
  t_msg : bytes
}.

(** ** Log records *)

Definition vslb (v : vrt_ctx) (tag : vsl_tag) (text : bytes) : vrt_ctx :=
  VrtCtx (http_req v) (http_resp v) (http_beresp v)
    (match vsl v with Some l => Some (l ++ [(tag, text)]) | None => None end).

(** [msg]: what Wasmtime says about the trap or error. *)
Definition log_trap (v : vrt_ctx) (module_name func_name msg : bytes) : vrt_ctx :=
  match vsl v with
  | None => v
  | Some _ =>
      vslb v SLT_Error (str "wasm: trap in " ++ cstr module_name ++ str "." ++ func_name ++
        (if 0 <? len msg then str ": " ++ msg else str " (no message)"))
  end.

Definition log_error (v : vrt_ctx) (module_name func_name msg : bytes) : vrt_ctx :=
  match vsl v with
  | None => v
  | Some _ =>
      vslb v SLT_Error (str "wasm: error in " ++ cstr module_name ++ str "." ++ func_name ++
        (if 0 <? len msg then str ": " ++ msg else str " (no message)"))
  end.

(** An execution of more than 10 ms is logged, which needs a transaction. *)
Definition log_slow (tx : txn) (v : vrt_ctx) (module_name : option bytes) : outcome vrt_ctx :=
  if 10 <? t_elapsed tx then
    if negb (t_vsl tx) then Fault
    else Done (vslb v SLT_VCL_Log (str "vmod-wasm: " ++ cstr (default [] module_name) ++
                                     str " execution took " ++ dec (t_elapsed tx) ++ str "ms"))
  else Done v.

(** ** The global stores (src/proxy_wasm.c) *)

Definition vwasm_proxy_wasm_get_shared_data (ok : oracle) (s : stores) : stores :=
  match c_shared_data s with
  | Some _ => s
  | None => Stores (vwasm_shared_data_new (fun i => ok i) (ok 1%nat)) (c_queue_store s) (c_metric_store s)
  end.

Definition vwasm_proxy_wasm_get_queue_store (ok : oracle) (s : stores) : stores :=
  match c_queue_store s with
  | Some _ => s
  | None => Stores (c_shared_data s) (vwasm_queue_store_new (fun i => ok (2 + i)%nat) (ok 3%nat))
                   (c_metric_store s)
  end.

Definition vwasm_proxy_wasm_get_metric_store (ok : oracle) (s : stores) : stores :=
  match c_metric_store s with
  | Some _ => s
  | None => Stores (c_shared_data s) (c_queue_store s)
                   (if ok 4%nat then Some metric_store_new else None)
  end.

(** ** Request bodies *)

(** [None]: the callback returns -1. *)
Definition body_collect_cb (cap : Z) (buf chunk : bytes) : option bytes :=
  if len chunk <=? 0 then Some buf
  else if cap <? len buf + len chunk then None
  else Some (buf ++ chunk).

(** [VRB_Iterate] with that callback: what was collected, and whether no call
    returned -1. *)
Fixpoint iterate_body (cap : Z) (chunks : list bytes) (buf : bytes) : bytes * bool :=
  match chunks with
  | [] => (buf, true)
  | c :: chunks =>
      match body_collect_cb cap buf c with
      | None => (buf, false)
      | Some buf => iterate_body cap chunks buf
      end
  end.

(** The body and whether it is on the heap (else it is in the array
    [stack_body]); [None]: [request_body] stays NULL. *)
Definition collect_body (tx : txn) : option (bytes * bool) :=
  if 0 <? t_cached tx then
    let heap := VWASM_BODY_STACK_MAX <? t_cached tx in
    if heap && negb (t_body_ok tx) then None
    else
      let '(buf, r) := iterate_body (t_cached tx) (t_chunks tx) [] in
      if r && t_iter_ok tx && (0 <? len buf) then Some (buf, heap) else None
  else None.

(** The responses in order of their tokens: the next one after [t]. *)
Definition next_token (t : Z) (m : gmap Z call_response) : option Z :=
  foldr (fun k acc =>
    if t <? k then match acc with Some k' => Some (Z.min k k') | None => Some k end else acc)
    None (map fst (map_to_list m)).

(** A store: one of the pool, or one created for this execution. *)
Inductive store_ref := Slot (i : nat) | Fresh.

Section Execute.
Context `{G : Guest} `{V : Varnish} `{VV : !VrtVars} `{W : Wasm} `{P : !Program}.

(** The engine and the stores shared by all executions. *)
Record process := Process { p_engine : vwasm_engine; p_stores : stores }.

(** [struct vdp_wasm_task]: an execution handed over to the body filter;
    [tk_store = None]: already given back. *)
Record task := Task {
  tk_exec : exec;
  tk_store : option store_ref;
  tk_idx : Z;
  tk_body_fn : string
}.

(** What the caller sees. *)
Record result := Result {
  ret : Z;
  status_code : Z;
  r_vrt : vrt_ctx;
  r_events : list xevent;
  r_task : option task
}.

(** ** Stores *)

Definition put_pool (e : vwasm_engine) (i : nat) (p : store_pool) : vwasm_engine :=
  set_pools e (warm_instances e) (<[i := Some p]> (pools e)) (store_pool_size e).

(** The pool refers to the warm instance of the engine, not to a copy. *)
Definition with_warm (p : store_pool) (wm : warm_instance) : store_pool :=
  StorePool (store_objects p) (slots p) (slot_states p) (scan_hint p) (acquires p) (releases p)
    (fallbacks p) (resets p) (Some wm).

(** A pooled store for module [i], if there is a pool that may be used and it
    has a free slot. *)
Definition acquire_store (e : vwasm_engine) (i : nat) : vwasm_engine * option (nat * inst) :=
  match default None (pools e !! i) with
  | None => (e, None)
  | Some p =>
      let wm := default no_warm (warm_instances e !! i) in
      if has_initialize wm then (put_pool e i (fall_back p), None)
      else
        let '(p, r) := vwasm_store_pool_acquire (with_warm p wm) in
        (put_pool e i p,
         slot ← r; ps ← store_objects p !! slot; x ← ps_store ps; Some (slot, x))
  end.

(** The pooled store as the execution leaves it. *)
Definition sync_slot (p : store_pool) (slot : nat) (x : inst) : store_pool :=
  match store_objects p !! slot with
  | None => p
  | Some ps =>
      StorePool (<[slot := Pooled (Some x) (ps_memory_valid ps) (ps_allocator_valid ps) (ps_data ps)
                             (seq ps)]> (store_objects p))
        (slots p) (slot_states p) (scan_hint p) (acquires p) (releases p) (fallbacks p) (resets p)
        (warm_ref p)
  end.

(** Give a store back: a pooled one to its pool; a fresh one is deleted, which
    must not happen twice ([live]: it was not). *)
Definition drop_store (e : vwasm_engine) (idx : Z) (own : store_ref) (live : bool) (x : inst)
    : outcome vwasm_engine :=
  match own with
  | Fresh => if live then Done e else Fault
  | Slot slot =>
      match default None (pools e !! Z.to_nat idx) with
      | None => Done e
      | Some p => Done (put_pool e (Z.to_nat idx) (vwasm_store_pool_release (sync_slot p slot x) slot))
      end
  end.

(** The instance an execution leaves in its store: its linear memory is the one
    the host functions and the guest worked on. *)
Definition leave (s : exec) : inst :=
  let x := w (hctx (x_host s)) in
  if memory_valid x then with_memory (x_inst s) (memory x) else x_inst s.

(** Whether the cleanup of a context has anything to free. *)
Definition owns_memory (c : pctx) : bool :=
  bool_decide (http_calls (cl c) <> ∅)
  || match request_body (bod c) with Some _ => request_body_heap (bod c) | None => false end
  || match response_body (bod c) with Some _ => response_body_heap (bod c) | None => false end
  || match modified_body (bod c) with Some _ => true | None => false end
  || match local_response_body (local c) with Some _ => true | None => false end
  || match local_response_headers (local c) with Some _ => true | None => false end
  || negb (len (request_trailers c) =? 0) || negb (len (response_trailers c) =? 0).

(** ** The pieces of an execution *)

(** The context of a new execution. *)
Definition new_ctx (e : vwasm_engine) (s : stores) (v : vrt_ctx) (name : bytes)
    (vm plugin : option bytes) : pctx :=
  let k := conf e in
  PCtx (Config 1 2 (Some name) (option_map cstr vm) (option_map cstr plugin) 0 None
          (e_http_call_max k) (e_http_timeout_ms k) (e_allowed_upstreams k))
    (Some v) (Some (tick_view e)) (WCtx false true None false)
    (LocalResponse false 0 None 0 None 0) (Bodies None false None false None false)
    s (Calls ∅ 0 None 0) (Stream 0 false false) [] [].

(** The exports [memory] and the allocator of the instance. *)
Definition attach (c : pctx) (x : inst) : pctx :=
  set_w c (WCtx (export_memory x) true (if export_memory x then memory_data x else None)
             (export_func x "proxy_on_memory_allocate" || export_func x "malloc")).

(** The initialization of a fresh store, or the configuration of a warm one. *)
Definition init_guest (d : Z) (pooled : bool) (vm_config_len plugin_config_len : Z) (s : exec)
    : outcome exec :=
  if negb pooled then
    let! s := call_wasm_void s "_initialize" [] in
    let! s := call_wasm_void (set_deadline s d) "proxy_on_context_create" [1; 0] in
    let! '(s, _) := call_wasm_func (set_deadline s d) "proxy_on_vm_start" [1; i32 vm_config_len] in
    let! '(s, _) := call_wasm_func (set_deadline s d) "proxy_on_configure" [1; i32 plugin_config_len] in
    Done s
  else
    let! s :=
      (if 0 <? vm_config_len then
         let! '(s, _) := call_wasm_func (set_deadline s d) "proxy_on_vm_start" [1; i32 vm_config_len] in
         Done s
       else Done s) in
    if 0 <? plugin_config_len then
      let! '(s, _) := call_wasm_func (set_deadline s d) "proxy_on_configure" [1; i32 plugin_config_len] in
      Done s
    else Done s.

Definition headers_fn (ph : phase) : string :=
  match ph with
  | VWASM_PHASE_REQUEST => "proxy_on_request_headers"
  | VWASM_PHASE_RESPONSE => "proxy_on_response_headers"
  end.

Definition body_fn (ph : phase) : string :=
  match ph with
  | VWASM_PHASE_REQUEST => "proxy_on_request_body"
  | VWASM_PHASE_RESPONSE => "proxy_on_response_body"
  end.

(** [num_headers] *)
Definition count_headers (ph : phase) (v : option vrt_ctx) : Z :=
  match v with
  | None => 0
  | Some v =>
      let hp := match ph with
                | VWASM_PHASE_REQUEST => http_req v
                | VWASM_PHASE_RESPONSE =>
                    match http_beresp v with Some hp => Some hp | None => http_resp v end
                end in
      match hp with Some hp => nhd hp - HTTP_HDR_FIRST | None => 0 end
  end.

Definition set_active (r : option call_response) (c : pctx) : pctx :=
  let k := cl c in
  set_cl c (Calls (http_calls k) (http_call_next_token k) r (http_call_count k)).

Definition ctx (s : exec) : pctx := hctx (x_host s).

(** The callbacks of the stored responses, from token [cur] on; the successor is
    taken before the callback runs.  [true]: one of them sent a local response.
    [fuel] bounds the number of callbacks. *)
Fixpoint http_callbacks (fuel : nat) (s : exec) (cur : option Z) : outcome (exec * bool) :=
  match cur with
  | None => Done (s, false)
  | Some t =>
      match fuel with
      | O => Fault
      | S fuel =>
          match http_calls (cl (ctx s)) !! t with
          | None => Fault
          | Some r =>
              let next := next_token t (http_calls (cl (ctx s))) in
              let s := on_ctx (set_active (Some r)) (set_deadline s VWASM_DEFAULT_EPOCH_DEADLINE_MS) in
              let! s := call_wasm_void s "proxy_on_http_call_response"
                          [2; i32 t; i32 (num_headers r); i32 (r_body_len r); 0] in
              let s := on_ctx (set_active None) s in
              if local_response_set (local (ctx s)) then Done (s, true)
              else http_callbacks fuel s next
          end
      end
  end.

(** The deferred callbacks, with the action afterwards. *)
Definition run_callbacks (fuel : nat) (s : exec) (action : Z) : outcome (exec * Z) :=
  if bool_decide (http_calls (cl (ctx s)) <> ∅) && export_func (x_inst s) "proxy_on_http_call_response"
  then
    let! '(s, _) := http_callbacks fuel s (next_token 0 (http_calls (cl (ctx s)))) in
    Done (s, 0)
  else Done (s, action).

Definition set_request_body (b : bytes * bool) (c : pctx) : pctx :=
  set_bod c (Bodies (Some b.1) b.2 (response_body (bod c)) (response_body_heap (bod c))
               (modified_body (bod c)) (body_modified (bod c))).

(** The last callbacks of a stream. *)
Definition end_stream (s : exec) : outcome exec :=
  let! s := call_wasm_void s "proxy_on_log" [2] in
  let! '(s, _) := call_wasm_func s "proxy_on_done" [2] in
  call_wasm_void s "proxy_on_delete" [2].

(** ** The end of an execution *)

(** The counters at the label [cleanup]. *)
Definition count_call (st : vwasm_stats) (c : pctx) (ret elapsed_ms : Z) : vwasm_stats :=
  let add n m := u64 (n + m) in
  let body := len (default [] (request_body (bod c))) + len (default [] (response_body (bod c))) in
  Stats (add (calls_total st) 1)
    (if 0 <=? ret then add (calls_ok st) 1 else calls_ok st)
    (if 0 <=? ret then calls_error st else add (calls_error st) 1)
    (if 10 <? elapsed_ms then add (calls_timeout st) 1 else calls_timeout st)
    (if local_response_set (local c) then add (local_responses st) 1 else local_responses st)
    (add (http_calls_made st) (http_call_count (cl c)))
    (http_calls_blocked st)
    (add (body_bytes_in st) body).

(** The state the execution leaves behind in the process. *)
Definition absorb (e : vwasm_engine) (h : host) : process :=
  let e := set_http_pool e (hpool h) in
  let e := match engine (hctx h) with Some t => set_timers e (tick_timers t) | None => e end in
  Process e (st (hctx h)).

Definition vrt_of (v : vrt_ctx) (c : pctx) : vrt_ctx := default v (vrt c).

(** The label [cleanup]; [live]: the context and the store were not given back
    before. *)
Definition cleanup (tx : txn) (e : vwasm_engine) (v : vrt_ctx) (idx : Z) (own : store_ref) (live : bool)
    (s : exec) (r code : Z) : outcome (process * result) :=
  let c := ctx s in
  let p := absorb e (x_host s) in
  let e := set_stats (p_engine p) (count_call (stats (p_engine p)) c r (t_elapsed tx)) in
  let! v := log_slow tx (vrt_of v c) (module_name (cfg c)) in
  if negb live && owns_memory c then Fault
  else
    let! e := drop_store e idx own live (leave s) in
    Done (Process e (p_stores p), Result r code v (x_events s) None).

(** An execution that ends before the context is set up. *)
Definition refuse (p : process) (v : vrt_ctx) : outcome (process * result) :=
  Done (p, Result (-1) 0 v [] None).

(** Hand over to the body filter. *)
Definition hand_over (tx : txn) (e : vwasm_engine) (v : vrt_ctx) (idx : Z) (own : store_ref) (s : exec)
    (action : Z) : outcome (process * result) :=
  if negb (t_task_ok tx) then cleanup tx e v idx own true s (-1) 0
  else if negb (t_priv_ok tx) then
    let! e := drop_store e idx own true (leave s) in
    cleanup tx e v idx own false s (-1) 0
  else
    let p := absorb e (x_host s) in
    let st := stats (p_engine p) in
    let e := set_stats (p_engine p)
      (Stats (u64 (calls_total st + 1)) (calls_ok st) (calls_error st) (calls_timeout st)
         (if local_response_set (local (ctx s)) then u64 (local_responses st + 1) else local_responses st)
         (http_calls_made st) (http_calls_blocked st) (body_bytes_in st)) in
    Done (Process e (p_stores p),
          Result action 0 (vrt_of v (ctx s)) (x_events s)
            (Some (Task s (Some own) idx (body_fn VWASM_PHASE_RESPONSE)))).

(** The request body callback.  The array [stack_body] belongs to the block in
    which the body is collected, and that block ends before the callback runs:
    when the body is in the array, [request_body] points to an object that no
    longer exists, and running the callback, which reads it through that
    pointer, is undefined. *)
Definition body_call (tx : txn) (ph : phase) (s : exec) : outcome exec :=
  if export_func (x_inst s) (body_fn ph) then
    let! s :=
      (if t_req_body tx then
         match collect_body tx with
         | Some (buf, heap) => if heap then Done (on_ctx (set_request_body (buf, true)) s) else Fault
         | None => Done s
         end
       else Done s) in
    let! '(s, _) := call_wasm_func s (body_fn ph)
      [2; i32 (len (default [] (request_body (bod (ctx s))))); 1] in
    Done s
  else Done s.

(** From the headers callback on. *)
Definition run_stream (fuel : nat) (tx : txn) (e : vwasm_engine) (v : vrt_ctx) (idx : Z) (own : store_ref)
    (ph : phase) (s : exec) : outcome (process * result) :=
  let stop := cleanup tx e v idx own true in
  let s := set_deadline s (epoch_deadline_ms (conf e)) in
  let! '(s, r) := call_wasm_func s (headers_fn ph) [2; i32 (count_headers ph (vrt (ctx s))); 1] in
  match r with
  | None => stop s (-1) 0
  | Some action =>
      let! '(s, action) := run_callbacks fuel s action in
      if local_response_set (local (ctx s)) then stop s 0 (local_response_code (local (ctx s)))
      else if action =? 1 then
        stop (on_ctx (fun c => set_strm c (Stream (tick_period_ms (strm c)) true (done_ (strm c)))) s) 0 0
      else
        match ph with
        | VWASM_PHASE_RESPONSE =>
            if export_func (x_inst s) (body_fn ph) then hand_over tx e v idx own s action
            else
              let! s := end_stream s in
              stop s action (if local_response_set (local (ctx s))
                             then local_response_code (local (ctx s)) else 0)
        | VWASM_PHASE_REQUEST =>
            let! s := body_call tx ph s in
            let! s := end_stream s in
            stop s action (if local_response_set (local (ctx s))
                           then local_response_code (local (ctx s)) else 0)
        end
  end.

Definition config_len (s : option bytes) : Z := match s with Some s => strlen s | None => 0 end.

Definition proxy_wasm_execute (fuel : nat) (tx : txn) (p : process) (v : vrt_ctx)
    (module_name : option bytes) (ph : phase) (vm_config plugin_config : option bytes)
    : outcome (process * result) :=
  match module_name with
  | None => refuse p v
  | Some name =>
      match find_module (tick_view (p_engine p)) name with
      | None => refuse p v
      | Some idx =>
          let '(e, pooled) := acquire_store (p_engine p) (Z.to_nat idx) in
          let st := vwasm_proxy_wasm_get_metric_store (t_ok tx)
                      (vwasm_proxy_wasm_get_queue_store (t_ok tx)
                         (vwasm_proxy_wasm_get_shared_data (t_ok tx) (p_stores p))) in
          let c := new_ctx e st v name vm_config plugin_config in
          let d := epoch_deadline_ms (conf e) in
          let go (own : store_ref) (x : inst) : outcome (process * result) :=
            let s := Exec (Host (attach c x) (http_pool e)) x [Deadline d] in
            let! s := init_guest d (match own with Slot _ => true | Fresh => false end)
                        (config_len vm_config) (config_len plugin_config) s in
            let! s := call_wasm_void (set_deadline s d) "proxy_on_context_create" [2; 1] in
            run_stream fuel tx e v idx own ph s in
          match pooled with
          | Some (slot, x) => go (Slot slot) x
          | None =>
              if negb (store_new (t_inst tx)) then refuse (Process e st) v
              else
                match instantiate (t_inst tx) with
                | Some x => go Fresh x
                | None =>
                    let v := (if t_trap tx then log_trap else log_error) v name (str "instantiate")
                               (t_msg tx) in
                    let! v := log_slow tx v (Some name) in
                    Done (Process (set_stats e (count_call (stats e) c (-1) (t_elapsed tx))) st,
                          Result (-1) 0 v [Deadline d] None)
                end
          end
      end
  end.

(** ** The public entry points *)

Definition vwasm_proxy_wasm_call (fuel : nat) (tx : txn) (p : process) (v : vrt_ctx) (name : option bytes) :=
  proxy_wasm_execute fuel tx p v name VWASM_PHASE_REQUEST (Some []) (Some []).

Definition vwasm_proxy_wasm_response_call (fuel : nat) (tx : txn) (p : process) (v : vrt_ctx)
    (name : option bytes) :=
  proxy_wasm_execute fuel tx p v name VWASM_PHASE_RESPONSE (Some []) (Some []).

Definition vwasm_proxy_wasm_call_with_config (fuel : nat) (tx : txn) (p : process) (v : vrt_ctx)
    (name vm_config plugin_config : option bytes) :=
  proxy_wasm_execute fuel tx p v name VWASM_PHASE_REQUEST vm_config plugin_config.

Definition vwasm_proxy_wasm_response_call_with_config (fuel : nat) (tx : txn) (p : process) (v : vrt_ctx)
    (name vm_config plugin_config : option bytes) :=
  proxy_wasm_execute fuel tx p v name VWASM_PHASE_RESPONSE vm_config plugin_config.

(** The modules of a chain one after the other, each with its own [txn].  [tk]
    is the task in the private data of the transaction, which a later task
    replaces. *)
Fixpoint chain_loop (fuel : nat) (ph : phase) (p : process) (v : vrt_ctx) (code : Z) (tk : option task)
    (l : list (txn * option bytes)) : outcome (process * result) :=
  match l with
  | [] => Done (p, Result 0 code v [] tk)
  | (tx, name) :: l =>
      let! '(p, r) := proxy_wasm_execute fuel tx p v name ph None None in
      let tk := match r_task r with Some tk' => Some tk' | None => tk end in
      if negb (ret r =? 0) then Done (p, Result (ret r) (status_code r) (r_vrt r) (r_events r) tk)
      else chain_loop fuel ph p (r_vrt r) (status_code r) tk l
  end.

Definition vwasm_filter_chain_request (fuel : nat) (p : process) (v : vrt_ctx)
    (l : list (txn * option bytes)) : outcome (process * result) :=
  if len l <=? 0 then refuse p v else chain_loop fuel VWASM_PHASE_REQUEST p v 0 None l.

Definition vwasm_filter_chain_response (fuel : nat) (p : process) (v : vrt_ctx)
    (l : list (txn * option bytes)) : outcome (process * result) :=
  if len l <=? 0 then refuse p v else chain_loop fuel VWASM_PHASE_RESPONSE p v 0 None l.
End Execute.

#[global] Arguments process : clear implicits.
#[global] Arguments process {_}.

(** * Properties *)

(** ** Pools *)

Section PoolLemmas.
Context `{W : Wasm} `{WL : !WasmLaws} (M : Z).

(** The memories of the pooled stores respect the limit. *)
Definition pool_le (p : store_pool) : Prop :=
  Forall (fun ps => forall x, ps_store ps = Some x -> inst_le M x) (store_objects p).

Lemma restore_le wm x : inst_le M x -> inst_le M (vwasm_warm_instance_restore wm x).1.
Proof.
  intros Hx. unfold vwasm_warm_instance_restore. destruct wm as [wm|]; [|done].
  split_if; [done|]. destruct (memory_snapshot wm) as [snap|]; [|done].
  destruct (memory_data x) as [m|] eqn:Em; [|done]. split_if; [done|]. cbn [fst].
  intros m' Hm'. rewrite (memory_put_data x m snap) in Hm' by (done || lia). injection Hm' as <-.
  rewrite len_upd by lia. by apply Hx.
Qed.

(** What acquiring does to the pool. *)
Lemma acquire_cases p p' r :
  vwasm_store_pool_acquire p = (p', r) ->
  slots p' = slots p /\
  ((r = None /\ store_objects p' = store_objects p /\ slot_states p' = slot_states p) \/
   (exists idx ps ps' x, r = Some idx /\ slot_states p !! idx = Some false /\
      slot_states p' = <[idx := true]> (slot_states p) /\
      store_objects p !! idx = Some ps /\ ps_store ps = Some x /\
      store_objects p' = <[idx := ps']> (store_objects p) /\
      (ps_store ps' = Some x \/ ps_store ps' = Some (vwasm_warm_instance_restore (warm_ref p) x).1))).
Proof.
  unfold vwasm_store_pool_acquire. cbn [fetch_hint].
  set (p0 := StorePool _ _ _ _ _ _ _ _ _). cbn [store_objects p0]. intros E.
  destruct (acquire_loop_spec (length (store_objects p)) p0 (scan_hint p) 0)
    as [(k & _ & Hav & E')|[_ E']]; rewrite E in E'; simplify_eq.
  - cbv zeta in Hav. destruct Hav as [Hf Hi]. set (idx := slot_index p0 (scan_hint p) (0 + k)) in *.
    unfold initialized in Hi. change (slots p0) with (slots p) in Hi.
    change (store_objects p0) with (store_objects p) in Hi.
    destruct (slots p !! idx) as [[]|]; try done.
    destruct (store_objects p !! idx) as [ps|] eqn:Eo; [|done].
    apply bool_decide_eq_true in Hi as [x Hx].
    unfold hand_out. change (store_objects (set_in_use p0 idx true)) with (store_objects p). rewrite Eo.
    split; [done|]. right. eexists idx, ps, _, x. cbn [store_objects slot_states].
    split_and!; try done. cbn [ps_store]. split_if; [|by left]. right. unfold restore_slot.
    by rewrite Hx.
  - split; [done|]. left. by split_and!.
Qed.

Lemma acquire_le p p' r : vwasm_store_pool_acquire p = (p', r) -> pool_le p -> pool_le p'.
Proof.
  intros E Hp. apply acquire_cases in E as [_ [(_ & Ho & _)|(idx & ps & ps' & x & _ & _ & _ & Hl & Hx & Ho & Hs)]];
    unfold pool_le in *; rewrite Ho; [done|].
  apply Forall_insert; [done|]. assert (inst_le M x) as Hle by by eapply (Forall_lookup_1 _ _ _ _ Hp Hl).
  destruct Hs as [-> | ->]; intros y [= <-]; [done|]. by apply restore_le.
Qed.
End PoolLemmas.

(** ** The invariant of the process *)

Section Safety.
Context `{G : Guest} `{V : Varnish} `{VV : !VrtVars} `{VL : !VarnishLaws} `{PL : !VrtVarsLaws}.
Context `{W : Wasm} `{WL : !WasmLaws} `{P : !Program} {M b : Z} `{L : !MemLimit M} `{B : !ProgramLimit M b}.

Definition pools_ok (e : vwasm_engine) : Prop :=
  Forall (fun o => forall q, o = Some q -> pool_le M q) (pools e).

Definition wf_process (p : process) : Prop :=
  wf_engine (p_engine p) /\ pools_ok (p_engine p) /\ wf_stores (p_stores p).

Definition engine_ok (e : vwasm_engine) : Prop := wf_engine e /\ pools_ok e.

Lemma pool_at e i p : engine_ok e -> default None (pools e !! i) = Some p -> wf_pool p /\ pool_le M p.
Proof.
  intros [(_ & _ & _ & _ & _ & _ & Hp & _) Hl] E.
  destruct (pools e !! i) as [o|] eqn:Ei; [|done]. simpl in E. unfold id in E. subst o.
  split; [by eapply (Forall_lookup_1 _ _ _ _ Hp Ei)|by eapply (Forall_lookup_1 _ _ _ _ Hl Ei)].
Qed.

Lemma put_pool_ok e i p : engine_ok e -> wf_pool p -> pool_le M p -> engine_ok (put_pool e i p).
Proof.
  intros [He Hl] Hw Hp. split.
  - apply wf_set_pools; try apply He; [rewrite length_insert; apply He|].
    apply Forall_insert; [apply He|]. by intros p' [= <-].
  - apply Forall_insert; [done|]. by intros p' [= <-].
Qed.

Lemma wf_pool_same p p' :
  length (store_objects p') = length (store_objects p) -> length (slots p') = length (slots p) ->
  length (slot_states p') = length (slot_states p) -> wf_pool p -> wf_pool p'.
Proof. unfold wf_pool, capacity, len. intros -> -> ->. done. Qed.

Lemma acquire_wf p p' r : vwasm_store_pool_acquire p = (p', r) -> wf_pool p -> wf_pool p'.
Proof.
  intros [Hs [(_ & Ho & Ht)|(idx & ps & ps' & x & _ & _ & Ht & _ & _ & Ho & _)]]%acquire_cases;
    apply wf_pool_same; by rewrite ?Hs, ?Ho, ?Ht, ?length_insert.
Qed.

Lemma acquire_store_ok e i e' r :
  engine_ok e -> acquire_store e i = (e', r) ->
  engine_ok e' /\ conf e' = conf e /\ (forall slot x, r = Some (slot, x) -> inst_le M x).
Proof.
  intros He. unfold acquire_store. destruct (default None (pools e !! i)) as [p|] eqn:Ep;
    [|intros [= <- <-]; by split_and!].
  destruct (pool_at e i p He Ep) as [Hw Hl]. split_if.
  { intros [= <- <-]. split_and!; try done. by apply put_pool_ok. }
  destruct (vwasm_store_pool_acquire _) as [p' r'] eqn:Ea. intros [= <- <-].
  pose proof (acquire_le M _ _ _ Ea Hl) as Hl'. pose proof (acquire_wf _ _ _ Ea Hw) as Hw'.
  split_and!; [by apply put_pool_ok|done|]. intros slot x Hr.
  destruct r' as [sl|]; [|done]. simpl in Hr. destruct (store_objects p' !! sl) as [ps|] eqn:Eo; [|done].
  simpl in Hr. destruct (ps_store ps) as [y|] eqn:Ey; [|done]. simpl in Hr. simplify_eq.
  by eapply (Forall_lookup_1 _ _ _ _ Hl' Eo).
Qed.

Lemma drop_store_ok e idx own x :
  engine_ok e -> inst_le M x -> exists e', drop_store e idx own true x = Done e' /\ engine_ok e'.
Proof.
  intros He Hx. unfold drop_store. destruct own as [slot|]; [|by exists e].
  destruct (default None _) as [p|] eqn:Ep; [|by exists e]. destruct (pool_at _ _ _ He Ep) as [Hw Hl].
  eexists. split; [done|]. apply put_pool_ok; [done|..].
  - eapply wf_pool_same; [..|exact Hw]; unfold sync_slot, vwasm_store_pool_release, clear_data;
      destruct (store_objects p !! slot) eqn:Eo; cbn;
      repeat (rewrite ?Eo, ?list_lookup_insert_eq, ?length_insert by (by eapply lookup_lt_Some); cbn);
      rewrite ?length_insert; done.
  - unfold pool_le, sync_slot, vwasm_store_pool_release, clear_data. cbn [store_objects set_in_use].
    destruct (store_objects p !! slot) as [ps|] eqn:Eo; cbn [store_objects]; rewrite ?Eo; [|done].
    rewrite list_lookup_insert_eq by (by eapply lookup_lt_Some). cbn [store_objects].
    apply Forall_insert; [|by intros y [= <-]]. apply Forall_insert; [done|]. by intros y [= <-].
Qed.

Lemma absorb_ok e h :
  engine_ok e -> wf_ctx M (hctx h) -> wf_process (absorb e h).
Proof.
  intros [He Hl] (_ & Hst & _ & _ & Ht & _). unfold absorb.
  destruct (engine (hctx h)) as [t|] eqn:Et; (split; [|by split]); [|done].
  destruct He as (? & ? & ? & ? & ? & ? & ? & ? & ? & ?). split_and!; try done.
  cbn [p_engine set_timers set_http_pool timers]. by apply Ht.
Qed.

Lemma leave_le n s : ok_exec M n s -> inst_le M (leave s).
Proof.
  intros (Hc & _ & _ & Hx). unfold leave. destruct (memory_valid _); [|done].
  intros m. rewrite (with_memory_data (M := M) (b := b)). apply Hc.
Qed.

Lemma log_slow_done tx v name : t_vsl tx = true -> exists v', log_slow tx v name = Done v'.
Proof. intros E. unfold log_slow. rewrite E. destruct (10 <? _); by eexists. Qed.

Lemma cleanup_safe tx e v idx own n s r code :
  engine_ok e -> ok_exec M n s -> t_vsl tx = true ->
  exists p' v', cleanup tx e v idx own true s r code =
    Done (p', Result r code v' (x_events s) None) /\ wf_process p'.
Proof.
  intros He Hs Hv. unfold cleanup. destruct (log_slow_done tx (vrt_of v (ctx s)) (module_name (cfg (ctx s))) Hv)
    as [v' ->]. cbn [negb andb obind].
  pose proof (absorb_ok e (x_host s) He (proj1 Hs)) as (He1 & Hp1 & Hst).
  destruct (drop_store_ok (set_stats (p_engine (absorb e (x_host s)))
    (count_call (stats (p_engine (absorb e (x_host s)))) (ctx s) r (t_elapsed tx))) idx own (leave s))
    as (e' & -> & He'); [by split|by eapply leave_le|].
  cbn [obind]. eexists _, v'. split; [done|]. destruct He'. by split_and!.
Qed.

(** ** The callbacks of the callouts *)

Lemma next_token_spec t m k : next_token t m = Some k -> t < k /\ is_Some (m !! k).
Proof.
  unfold next_token. intros H.
  assert (t < k /\ k ∈ map fst (map_to_list m)) as [Ht Hk].
  { revert k H. induction (map fst (map_to_list m)) as [|a l IH]; intros k H; [done|]. simpl in H.
    split_if; [|destruct (IH _ H); by split; [|right]].
    destruct (foldr _ None l) as [k'|]; simplify_eq.
    - destruct (IH k' eq_refl) as [? ?]. destruct (Z.min_dec a k') as [-> | ->];
        split; try done; [left|by right].
    - split; [done|left]. }
  split; [done|]. apply list_elem_of_fmap in Hk as ([a r] & -> & Hin).
  apply elem_of_map_to_list in Hin. by eexists.
Qed.

Lemma ok_active n s r : ok_exec M n s -> (forall x, r = Some x -> wf_response x) -> ok_exec M n (on_ctx (set_active r) s).
Proof.
  intros (Hc & Hw & Hl & Hx) Hr. split_and!; try done.
  apply wf_ctx_cl; [done|]. destruct Hc as (_ & _ & _ & (H1 & H2 & _) & _). by split_and!.
Qed.

(** With a limit on the callouts there are at most that many callbacks. *)
Lemma http_callbacks_safe fuel n s cur :
  ok_exec M n s -> 0 <= n -> n + Z.of_nat fuel * b < 4294967295 ->
  0 < http_call_max (cfg (ctx s)) < 4294967296 ->
  (forall t, cur = Some t -> http_call_max (cfg (ctx s)) - t < Z.of_nat fuel /\
                             is_Some (http_calls (cl (ctx s)) !! t)) ->
  exists s' r, http_callbacks fuel s cur = Done (s', r) /\ ok_exec M (n + Z.of_nat fuel * b) s' /\ later s s'.
Proof.
  pose proof (@budget_nonneg_b _ _ _ _ _ M b B) as Hb.
  revert n s cur. induction fuel as [|fuel IH]; intros n s cur Hs Hn Hlt Hmax Hcur.
  - destruct cur as [t|]; cbn [http_callbacks].
    + destruct (Hcur t eq_refl) as [Hf [r Hr]]. exfalso.
      destruct Hs as ((_ & _ & _ & (Hk & _) & _) & _ & Hl & _).
      destruct (Hk t r Hr) as [_ ?]. destruct (Hl Hmax). fold (ctx s) in *. lia.
    + eexists s, false. split; [done|]. split; [|apply evolves_refl]. eapply ok_exec_mono; [done|lia].
  - rewrite Nat2Z.inj_succ in *.
    destruct cur as [t|]; cbn [http_callbacks].
    2:{ eexists s, false. split; [done|]. split; [|apply evolves_refl]. eapply ok_exec_mono; [done|nia]. }
    destruct (Hcur t eq_refl) as [Hf [r Hr]]. rewrite Hr.
    set (s1 := on_ctx (set_active (Some r)) (set_deadline s VWASM_DEFAULT_EPOCH_DEADLINE_MS)).
    assert (ok_exec M n s1) as Hs1.
    { apply ok_active; [done|]. intros x [= <-].
      destruct Hs as ((_ & _ & _ & (Hk & _) & _) & _). by destruct (Hk t r Hr). }
    destruct (call_void_safe n s1 "proxy_on_http_call_response"
                [2; i32 t; i32 (num_headers r); i32 (r_body_len r); 0] Hs1 Hn) as (s2 & -> & Hs2 & Hl2); [nia|].
    cbn [obind]. set (s3 := on_ctx (set_active None) s2).
    assert (ok_exec M (n + b) s3) as Hs3 by (by apply ok_active).
    assert (later s s3) as Hl3 by exact Hl2.
    split_if.
    { eexists s3, true. split; [done|]. split; [|done]. eapply ok_exec_mono; [done|nia]. }
    destruct Hl3 as (Hc3 & Hsub & Hlim). unfold ctx in *.
    destruct (IH (n + b) s3 (next_token t (http_calls (cl (hctx (x_host s)))))) as (s4 & r4 & E & Hs4 & Hl4);
      [done|lia|nia|by rewrite Hc3| |].
    { intros t' Ht'. apply next_token_spec in Ht' as [? [r' Hr']]. rewrite Hc3. split; [lia|].
      exists r'. by eapply lookup_weaken. }
    exists s4, r4. split; [exact E|]. split; [eapply ok_exec_mono; [done|nia]|]. by eapply evolves_trans.
Qed.

(** ** The lifecycle *)

(** The calls in continuation form. *)
Lemma call_void_then {A} (Q : outcome A -> Prop) n s fn args k :
  ok_exec M n s -> 0 <= n -> n + b < 4294967295 ->
  (forall s', ok_exec M (n + b) s' -> later s s' -> Q (k s')) ->
  Q (obind (call_wasm_void s fn args) k).
Proof.
  intros Hs Hn Hb Hk. destruct (call_void_safe n s fn args Hs Hn Hb) as (s' & -> & Hs' & Hl).
  by apply Hk.
Qed.

Lemma call_func_then {A} (Q : outcome A -> Prop) n s fn args k :
  ok_exec M n s -> 0 <= n -> n + b < 4294967295 ->
  (forall s' r, ok_exec M (n + b) s' -> later s s' -> Q (k (s', r))) ->
  Q (obind (call_wasm_func s fn args) k).
Proof.
  intros Hs Hn Hb Hk. destruct (call_func_safe n s fn args Hs Hn Hb) as (s' & r & -> & Hs' & Hl).
  by apply Hk.
Qed.

(** The piece completes within a budget. *)
Definition piece_ok (n : Z) (s : exec) (o : outcome exec) : Prop :=
  exists s', o = Done s' /\ ok_exec M n s' /\ later s s'.

Lemma piece_done n m s s' : ok_exec M n s' -> n <= m -> later s s' -> piece_ok m s (Done s').
Proof. intros. exists s'. split_and!; try done. by eapply ok_exec_mono. Qed.

Lemma init_guest_safe d pooled vl pl n s :
  ok_exec M n s -> 0 <= n -> n + 4 * b < 4294967295 -> piece_ok (n + 4 * b) s (init_guest d pooled vl pl s).
Proof.
  pose proof (@budget_nonneg_b _ _ _ _ _ M b B) as Hb. intros Hs Hn Hlt.
  unfold init_guest. destruct pooled; cbn [negb].
  - destruct (0 <? vl).
    + eapply call_func_then; [exact Hs|lia..|]. intros s1 r1 H1 L1. cbn [obind]. destruct (0 <? pl).
      * eapply call_func_then; [exact H1|lia..|]. intros s2 r2 H2 L2.
        eapply piece_done; [exact H2|lia|]. by eapply evolves_trans.
      * by eapply piece_done; [exact H1|lia|].
    + cbn [obind]. destruct (0 <? pl); [|by eapply piece_done; [exact Hs|lia|]].
      eapply call_func_then; [exact Hs|lia..|]. intros s1 r1 H1 L1. by eapply piece_done; [exact H1|lia|].
  - eapply call_void_then; [exact Hs|lia..|]. intros s1 H1 L1.
    eapply call_void_then; [exact H1|lia..|]. intros s2 H2 L2.
    eapply call_func_then; [exact H2|lia..|]. intros s3 r3 H3 L3.
    eapply call_func_then; [exact H3|lia..|]. intros s4 r4 H4 L4.
    eapply piece_done; [exact H4|lia|].
    eapply evolves_trans; [exact L1|]. eapply evolves_trans; [exact L2|]. by eapply evolves_trans.
Qed.

Lemma end_stream_safe n s :
  ok_exec M n s -> 0 <= n -> n + 3 * b < 4294967295 -> piece_ok (n + 3 * b) s (end_stream s).
Proof.
  pose proof (@budget_nonneg_b _ _ _ _ _ M b B) as Hb. intros Hs Hn Hlt. unfold end_stream.
  eapply call_void_then; [exact Hs|lia..|]. intros s1 H1 L1.
  eapply call_func_then; [exact H1|lia..|]. intros s2 r2 H2 L2.
  destruct (call_void_safe (n + b + b) s2 "proxy_on_delete" [2] H2) as (s3 & -> & H3 & L3); [lia..|].
  eapply piece_done; [exact H3|lia|]. eapply evolves_trans; [exact L1|]. by eapply evolves_trans.
Qed.

Lemma run_callbacks_safe fuel n s action :
  ok_exec M n s -> 0 <= n -> n + Z.of_nat fuel * b < 4294967295 ->
  0 < http_call_max (cfg (ctx s)) < 4294967296 -> http_call_max (cfg (ctx s)) <= Z.of_nat fuel ->
  exists s' a, run_callbacks fuel s action = Done (s', a) /\ ok_exec M (n + Z.of_nat fuel * b) s' /\ later s s'.
Proof.
  pose proof (@budget_nonneg_b _ _ _ _ _ M b B) as Hb. intros Hs Hn Hlt Hmax Hf. unfold run_callbacks.
  destruct (_ && _).
  2:{ eexists s, action. split; [done|]. split; [|apply evolves_refl]. eapply ok_exec_mono; [done|nia]. }
  destruct (http_callbacks_safe fuel n s (next_token 0 (http_calls (cl (ctx s))))) as (s' & r & -> & H' & L');
    [done..| |by eexists s', 0].
  intros t [? ?]%next_token_spec. split; [lia|done].
Qed.

Lemma collect_len tx bd : collect_body tx = Some bd -> len bd.1 <= t_cached tx.
Proof.
  unfold collect_body. split_if; [|done]. split_if; [done|].
  assert (forall l buf, len buf <= t_cached tx -> len (iterate_body (t_cached tx) l buf).1 <= t_cached tx) as Hi.
  { induction l as [|c l IH]; intros buf Hb; [done|]. cbn [iterate_body]. unfold body_collect_cb.
    split_if; [by apply IH|]. split_if; [done|]. apply IH. rewrite len_app. lia. }
  specialize (Hi (t_chunks tx) []). change (len (@nil Z)) with 0 in Hi.
  destruct (iterate_body _ _ _) as [buf r]. cbn [fst] in Hi. split_if; [|done]. intros [= <-]. simpl. lia.
Qed.

Lemma ok_request_body n s bd :
  ok_exec M n s -> len bd.1 <= n -> ok_exec M n (on_ctx (set_request_body bd) s).
Proof.
  intros (Hc & (H1 & H2 & H3 & H4) & Hl & Hx) Hb. split_and!; try done; apply Hc || done.
Qed.

(** The execution completes, leaves the process well formed, and a task it
    hands over is within a budget. *)
Definition finished (n : Z) (o : outcome (process * result)) : Prop :=
  exists p r, o = Done (p, r) /\ wf_process p /\
    (forall tk, r_task r = Some tk -> ok_exec M n (tk_exec tk)).

Lemma stop_finished tx e v idx own n m s r code :
  engine_ok e -> ok_exec M n s -> t_vsl tx = true -> finished m (cleanup tx e v idx own true s r code).
Proof. intros He Hs Hv. destruct (cleanup_safe tx e v idx own n s r code) as (p' & v' & -> & Hp); [done..|].
  by eexists p', _. Qed.

Lemma hand_over_finished tx e v idx own n s a :
  engine_ok e -> ok_exec M n s -> t_vsl tx = true -> t_priv_ok tx = true ->
  finished n (hand_over tx e v idx own s a).
Proof.
  intros He Hs Hv Hp. unfold hand_over. rewrite Hp. cbn [negb].
  destruct (t_task_ok tx); cbn [negb]; [|by eapply stop_finished].
  eexists _, _. split; [done|]. pose proof (absorb_ok e (x_host s) He (proj1 Hs)) as (? & ? & ?).
  split; [by split_and!|]. by intros tk [= <-].
Qed.

Lemma paused_ok n s :
  ok_exec M n s ->
  ok_exec M n (on_ctx (fun c => set_strm c (Stream (tick_period_ms (strm c)) true (done_ (strm c)))) s).
Proof. intros (Hc & Hw & Hl & Hx). by split_and!. Qed.

(** No request body is left in [stack_body]: it is larger than the array, or
    there is none. *)
Definition heap_body (tx : txn) (ph : phase) : Prop :=
  ph = VWASM_PHASE_REQUEST -> t_req_body tx = true ->
  forall buf heap, collect_body tx = Some (buf, heap) -> heap = true.

Lemma body_call_safe tx n s :
  ok_exec M n s -> 0 <= n -> t_cached tx <= 1048576 -> n + 1048576 + b < 4294967295 ->
  heap_body tx VWASM_PHASE_REQUEST ->
  piece_ok (n + 1048576 + b) s (body_call tx VWASM_PHASE_REQUEST s).
Proof.
  pose proof (@budget_nonneg_b _ _ _ _ _ M b B) as Hb. intros Hs Hn Hc Hlt Hh. unfold body_call.
  destruct (export_func _ _); [|eapply piece_done; [exact Hs|lia|apply evolves_refl]].
  assert (ok_exec M (n + 1048576) s) by (eapply ok_exec_mono; [done|lia]).
  assert (exists s1, (if t_req_body tx then
         match collect_body tx with
         | Some (buf, heap) => if heap then Done (on_ctx (set_request_body (buf, true)) s) else Fault
         | None => Done s
         end
       else Done s) = Done s1 /\ ok_exec M (n + 1048576) s1 /\ later s s1) as (s1 & -> & H1 & L1).
  { destruct (t_req_body tx) eqn:Er; [|exists s; split_and!; [done|done|apply evolves_refl]].
    destruct (collect_body tx) as [[buf heap]|] eqn:Eb;
      [|exists s; split_and!; [done|done|apply evolves_refl]].
    rewrite (Hh eq_refl Er buf heap Eb). eexists. split; [done|].
    split; [|by apply (evolves_refl (ctx s))]. apply ok_request_body; [done|].
    apply collect_len in Eb. simpl in *. lia. }
  cbn [obind]. eapply call_func_then; [exact H1|lia..|]. intros s2 r2 H2 L2.
  eapply piece_done; [exact H2|lia|]. by eapply evolves_trans.
Qed.

Lemma run_stream_finished fuel tx e v idx own ph n s :
  engine_ok e -> ok_exec M n s -> 0 <= n ->
  n + (Z.of_nat fuel + 5) * b + 1048576 < 4294967295 ->
  0 < http_call_max (cfg (ctx s)) < 4294967296 -> http_call_max (cfg (ctx s)) <= Z.of_nat fuel ->
  t_vsl tx = true -> t_priv_ok tx = true -> t_cached tx <= 1048576 -> heap_body tx ph ->
  finished (n + (Z.of_nat fuel + 5) * b + 1048576) (run_stream fuel tx e v idx own ph s).
Proof.
  pose proof (@budget_nonneg_b _ _ _ _ _ M b B) as Hb.
  intros He Hs Hn Hlt Hmax Hf Hv Hp Hc Hh. unfold run_stream.
  set (s0 := set_deadline s _). assert (ok_exec M n s0) as H0 by exact Hs.
  eapply call_func_then; [exact H0|lia|nia|]. intros s1 r H1 L1. cbn [obind].
  destruct r as [action|]; [|by eapply stop_finished].
  destruct L1 as (Lc & _ & _).
  destruct (run_callbacks_safe fuel (n + b) s1 action) as (s2 & a2 & -> & H2 & L2);
    [done|lia|nia|unfold ctx in *; by rewrite Lc..|]. cbn [obind].
  split_if; [by eapply stop_finished|].
  split_if; [eapply stop_finished; [done|by apply paused_ok|done]|].
  destruct ph.
  - destruct (body_call_safe tx _ s2 H2) as (s3 & -> & H3 & _); [lia|done|nia|done|].
    cbn [obind]. destruct (end_stream_safe _ s3 H3) as (s4 & -> & H4 & _); [lia|nia|].
    cbn [obind]. by eapply stop_finished.
  - split_if.
    + destruct (hand_over_finished tx e v idx own _ s2 a2 He H2 Hv Hp) as (p & r & -> & Hpr & Ht).
      eexists p, r. split; [done|]. split; [done|]. intros tk Htk. eapply ok_exec_mono; [by apply Ht|nia].
    + destruct (end_stream_safe _ s2 H2) as (s4 & -> & H4 & _); [lia|nia|].
      cbn [obind]. by eapply stop_finished.
Qed.

(** ** The whole execution *)

Lemma stores_ready ok s :
  wf_stores s ->
  wf_stores (vwasm_proxy_wasm_get_metric_store ok
    (vwasm_proxy_wasm_get_queue_store ok (vwasm_proxy_wasm_get_shared_data ok s))).
Proof.
  intros (H1 & H2 & H3).
  unfold vwasm_proxy_wasm_get_metric_store, vwasm_proxy_wasm_get_queue_store,
    vwasm_proxy_wasm_get_shared_data, vwasm_shared_data_new, vwasm_queue_store_new.
  destruct s as [[sd|] [qs|] [ms|]]; cbn [c_shared_data c_queue_store c_metric_store] in *;
    repeat (split_if; cbn [c_shared_data c_queue_store c_metric_store]); split_and!;
    cbn [c_shared_data c_queue_store c_metric_store]; intros ? [= <-]; auto;
    first [apply wf_store_new | apply (proj1 queue_sim_new) | apply (proj1 abs_new)].
Qed.

(** A new context in an instance within the limit. *)
Lemma new_exec_ok e sts v name vm plugin x evs p :
  engine_ok e -> wf_stores sts -> wf_vrt (Some v) -> small (option_map cstr vm) ->
  small (option_map cstr plugin) -> inst_le M x ->
  ok_exec M 0 (Exec (Host (attach (new_ctx e sts v name vm plugin) x) p) x evs).
Proof.
  intros [He _] Hst Hv Hvm Hpl Hx. split_and!; try done.
  - split_and!; try done.
    + unfold attach. cbn. destruct (export_memory x); [exact Hx|done].
    + intros e' [= <-]. apply He.
  - unfold limited. cbn. lia.
Qed.

(** The limits an execution needs: at most [fuel] callouts, bodies and
    callbacks that together stay below 4 GiB. *)
Definition fits (fuel : nat) (k : settings) : Prop :=
  0 < e_http_call_max k < 4294967296 /\ e_http_call_max k <= Z.of_nat fuel /\
  (Z.of_nat fuel + 10) * b + 1048576 < 4294967295.

Definition tx_ok (tx : txn) : Prop :=
  t_vsl tx = true /\ t_priv_ok tx = true /\ t_cached tx <= 1048576.

Lemma execute_finished fuel tx p v name ph vm plugin :
  wf_process p -> fits fuel (conf (p_engine p)) -> tx_ok tx -> heap_body tx ph -> wf_vrt (Some v) ->
  small (option_map cstr vm) -> small (option_map cstr plugin) ->
  finished ((Z.of_nat fuel + 10) * b + 1048576) (proxy_wasm_execute fuel tx p v name ph vm plugin).
Proof.
  pose proof (@budget_nonneg_b _ _ _ _ _ M b B) as Hb.
  intros Hp (Hm1 & Hm2 & Hlt) (Hv & Hpr & Hc) Hhb Hvrt Hvm Hpl. unfold proxy_wasm_execute.
  destruct name as [name|]; [|by eexists _, _].
  destruct (find_module _ _) as [idx|]; [|by eexists _, _].
  destruct (acquire_store (p_engine p) (Z.to_nat idx)) as [e pooled] eqn:Ea.
  destruct Hp as (Hpe & Hpp & Hps).
  destruct (acquire_store_ok _ _ _ _ (conj Hpe Hpp) Ea) as (He & Hconf & Hx).
  pose proof (stores_ready (t_ok tx) _ Hps) as Hst. rewrite <- Hconf in Hm1, Hm2.
  set (sts := vwasm_proxy_wasm_get_metric_store _ _) in *. cbv zeta.
  assert (forall own x, inst_le M x ->
    finished ((Z.of_nat fuel + 10) * b + 1048576)
      (let! s := init_guest (epoch_deadline_ms (conf e)) (match own with Slot _ => true | Fresh => false end)
                   (config_len vm) (config_len plugin)
                   (Exec (Host (attach (new_ctx e sts v name vm plugin) x) (http_pool e)) x
                      [Deadline (epoch_deadline_ms (conf e))]) in
       let! s := call_wasm_void (set_deadline s (epoch_deadline_ms (conf e))) "proxy_on_context_create" [2; 1] in
       run_stream fuel tx e v idx own ph s)) as Hgo.
  { intros own x Hle.
    match goal with |- context [init_guest ?d ?po ?a1 ?a2 ?s] =>
      destruct (init_guest_safe d po a1 a2 0 s) as (s1 & -> & H1 & L1);
        [by apply new_exec_ok|lia|nia|] end. cbn [obind].
    eapply call_void_then; [exact H1|lia|nia|]. intros s2 H2 L2.
    destruct L1 as (L1 & _), L2 as (L2 & _).
    destruct (run_stream_finished fuel tx e v idx own ph _ s2 He H2) as (p' & r' & -> & Hp' & Hr');
      [lia|nia|unfold ctx; rewrite L2; cbn [set_deadline x_host]; rewrite L1; done..|done|done|done|done|].
    eexists p', r'. split; [done|]. split; [done|]. intros tk Htk. eapply ok_exec_mono; [by apply Hr'|nia]. }
  destruct pooled as [[slot x]|]; [by eapply (Hgo (Slot slot)), Hx|].
  destruct (store_new _); cbn [negb]; [|destruct He; by eexists _, _].
  destruct (instantiate _) as [x|] eqn:Ei.
  { apply (Hgo Fresh). intros m Hmem. by eapply (instantiate_limit (M := M) (b := b)). }
  match goal with |- context [log_slow tx ?v ?nm] => destruct (log_slow_done tx v nm Hv) as [v' ->] end.
  cbn [obind]. destruct He. by eexists _, _.
Qed.
End Safety.

(** ** The store an execution holds *)

Section Discipline.
Context `{G : Guest} `{V : Varnish} `{VV : !VrtVars} `{W : Wasm} `{P : !Program}.

(** Which slots of which pools are taken. *)
Definition taken (e : vwasm_engine) : list (option (list bool)) := map (option_map slot_states) (pools e).

Definition mark (b : bool) (idx : Z) (own : store_ref) (l : list (option (list bool)))
    : list (option (list bool)) :=
  match own with
  | Fresh => l
  | Slot i => alter (option_map (fun s => <[i := b]> s)) (Z.to_nat idx) l
  end.

Definition is_free (idx : Z) (own : store_ref) (l : list (option (list bool))) : Prop :=
  match own with
  | Fresh => True
  | Slot i => exists s, l !! Z.to_nat idx = Some (Some s) /\ s !! i = Some false
  end.

Lemma taken_put e i p q :
  pools e !! i = Some (Some p) ->
  taken (put_pool e i q) = alter (fun _ => Some (slot_states q)) i (taken e).
Proof.
  intros Hp. unfold taken, put_pool. cbn [set_pools pools].
  apply list_eq. intros j. rewrite list_lookup_fmap. destruct (decide (j = i)) as [->|Hj].
  - rewrite list_lookup_alter_eq, list_lookup_fmap, Hp, list_lookup_insert_eq; [done|].
    by eapply lookup_lt_Some.
  - by rewrite list_lookup_alter_ne, list_lookup_insert_ne, list_lookup_fmap.
Qed.

Lemma taken_lookup e i p : pools e !! i = Some (Some p) -> taken e !! i = Some (Some (slot_states p)).
Proof. intros H. unfold taken. by rewrite list_lookup_fmap, H. Qed.

Lemma alter_same {A} (f : A -> A) (l : list A) i x : l !! i = Some x -> f x = x -> alter f i l = l.
Proof.
  intros Hx Hf. apply list_eq. intros j. destruct (decide (j = i)) as [->|Hj].
  - rewrite list_lookup_alter_eq, Hx. simpl. by rewrite Hf.
  - by rewrite list_lookup_alter_ne.
Qed.

Lemma pool_default e i p : default None (pools e !! i) = Some p -> pools e !! i = Some (Some p).
Proof. by destruct (pools e !! i) as [[]|]; simpl; intros [= <-]. Qed.

(** Acquiring takes a free slot, or none. *)
Lemma acquire_taken e idx e' r :
  acquire_store e (Z.to_nat idx) = (e', r) ->
  match r with
  | None => taken e' = taken e
  | Some (slot, _) => is_free idx (Slot slot) (taken e) /\ taken e' = mark true idx (Slot slot) (taken e)
  end.
Proof.
  unfold acquire_store. destruct (default None _) as [p|] eqn:Ep; [|by intros [= <- <-]].
  apply pool_default in Ep. split_if.
  { intros [= <- <-]. rewrite (taken_put e _ p) by done.
    by apply (alter_same _ _ _ _ (taken_lookup e _ p Ep)). }
  destruct (vwasm_store_pool_acquire _) as [p' r'] eqn:Ea. intros [= <- <-].
  apply acquire_cases in Ea as [_ [(-> & _ & Hs)|(i & ps & ps' & x & -> & Hf & Ht & Ho & Hx & Ho' & Hs)]].
  - cbn [mbind option_bind]. rewrite (taken_put e _ p) by done. apply (alter_same _ _ _ _ (taken_lookup e _ p Ep)).
    by rewrite Hs.
  - cbn [mbind option_bind]. rewrite Ho', list_lookup_insert_eq by (by eapply lookup_lt_Some).
    destruct Hs as [Hs|Hs]; cbn [mbind option_bind]; rewrite Hs; cbn [mbind option_bind]; (split; [exists (slot_states p); split; [by apply taken_lookup|done]|]);
      rewrite (taken_put e _ p) by done; apply list_alter_ext; try done;
      rewrite (taken_lookup e _ p) by done; by intros ? [= <-]; rewrite Ht.
Qed.

(** Giving a store back frees its slot. *)
Lemma drop_taken e idx own live x e' :
  drop_store e idx own live x = Done e' -> taken e' = mark false idx own (taken e).
Proof.
  unfold drop_store, mark. destruct own as [slot|]; [|by destruct live; intros [= <-]].
  destruct (default None _) as [p|] eqn:Ep.
  - apply pool_default in Ep. intros [= <-]. rewrite (taken_put e _ p) by done.
    apply list_alter_ext; [|done]. rewrite (taken_lookup e _ p) by done. intros ? [= <-].
    unfold sync_slot, vwasm_store_pool_release, clear_data. cbn [slot_states set_in_use option_map].
    destruct (store_objects p !! slot) as [ps|] eqn:Eo; cbn [store_objects slot_states]; rewrite ?Eo; [|done].
    by rewrite list_lookup_insert_eq by (by eapply lookup_lt_Some).
  - intros [= <-]. symmetry. apply list_eq. intros j.
    destruct (decide (j = Z.to_nat idx)) as [->|Hj]; [|by rewrite list_lookup_alter_ne].
    rewrite list_lookup_alter_eq. unfold taken. rewrite list_lookup_fmap.
    by destruct (pools e !! Z.to_nat idx) as [[q|]|] eqn:E.
Qed.

Lemma absorb_taken e h : taken (p_engine (absorb e h)) = taken e.
Proof. unfold absorb. by destruct (engine (hctx h)). Qed.

Lemma cleanup_taken tx e v idx own live s r code p' res :
  cleanup tx e v idx own live s r code = Done (p', res) ->
  r_task res = None /\ taken (p_engine p') = mark false idx own (taken e).
Proof.
  unfold cleanup. destruct (log_slow _ _ _) as [v'|]; [|done]. cbn [obind]. split_if; [done|].
  destruct (drop_store _ _ _ _ _) as [e'|] eqn:Ed; [|done]. cbn [obind]. intros [= <- <-].
  split; [done|]. apply drop_taken in Ed. cbn [p_engine]. rewrite Ed. f_equal. exact (absorb_taken e (x_host s)).
Qed.

Lemma mark_mark b b' idx own l : mark b idx own (mark b' idx own l) = mark b idx own l.
Proof.
  destruct own as [i|]; [|done]. unfold mark. apply list_eq. intros j.
  destruct (decide (j = Z.to_nat idx)) as [->|Hj]; [|by rewrite !list_lookup_alter_ne].
  rewrite !list_lookup_alter_eq. destruct (l !! Z.to_nat idx) as [[s|]|]; [|done..].
  simpl. by rewrite list_insert_insert_eq.
Qed.

Lemma mark_free idx own l : is_free idx own l -> mark false idx own l = l.
Proof.
  destruct own as [i|]; [|done]. intros (s & Hs & Hi). unfold mark.
  apply (alter_same _ _ _ _ Hs). simpl. by rewrite list_insert_id.
Qed.

(** The slots after an execution that held [own]: the task it left holds it
    still, else it is free. *)
Definition gives_back (e : vwasm_engine) (idx : Z) (own : store_ref) (o : outcome (process * result)) : Prop :=
  forall p' r, o = Done (p', r) ->
    match r_task r with
    | None => taken (p_engine p') = mark false idx own (taken e)
    | Some tk => taken (p_engine p') = taken e /\ tk_store tk = Some own /\ tk_idx tk = idx
    end.

Lemma stop_gives tx e v idx own live s r code :
  gives_back e idx own (cleanup tx e v idx own live s r code).
Proof. intros p' res E. apply cleanup_taken in E as [-> E]. done. Qed.

Lemma hand_over_gives tx e v idx own s a : gives_back e idx own (hand_over tx e v idx own s a).
Proof.
  unfold hand_over. destruct (t_task_ok tx); cbn [negb]; [|apply stop_gives].
  destruct (t_priv_ok tx); cbn [negb].
  - intros p' r [= <- <-]. cbn [r_task p_engine tk_store tk_idx]. split; [|done]. exact (absorb_taken e (x_host s)).
  - destruct (drop_store _ _ _ _ _) as [e1|] eqn:Ed; [|by intros ? ?]. cbn [obind]. intros p' r E.
    apply cleanup_taken in E as [-> ->]. rewrite (drop_taken _ _ _ _ _ _ Ed). apply mark_mark.
Qed.

Lemma gives_bind {A} e idx own (o : outcome A) k :
  (forall a, gives_back e idx own (k a)) -> gives_back e idx own (obind o k).
Proof. intros Hk. destruct o as [a|]; [apply Hk|by intros ? ?]. Qed.

Lemma run_stream_gives fuel tx e v idx own ph s :
  gives_back e idx own (run_stream fuel tx e v idx own ph s).
Proof.
  unfold run_stream. apply gives_bind. intros [s1 [action|]]; [|apply stop_gives].
  apply gives_bind. intros [s2 a2]. do 2 (split_if; [apply stop_gives|]). destruct ph.
  - apply gives_bind. intros s3. apply gives_bind. intros s4. apply stop_gives.
  - split_if; [apply hand_over_gives|]. apply gives_bind. intros s4. apply stop_gives.
Qed.

(** The slots after an execution: as before, but for the one a task holds,
    which was free before. *)
Definition holds (l l' : list (option (list bool))) (tk : option task) : Prop :=
  match tk with
  | None => l' = l
  | Some tk => exists own, tk_store tk = Some own /\ is_free (tk_idx tk) own l /\ l' = mark true (tk_idx tk) own l
  end.

Lemma gives_holds e idx own l o p' r :
  gives_back e idx own o -> is_free idx own l -> taken e = mark true idx own l -> o = Done (p', r) ->
  holds l (taken (p_engine p')) (r_task r).
Proof.
  intros Ho Hf He E. specialize (Ho p' r E). unfold holds. destruct (r_task r) as [tk|].
  - destruct Ho as (-> & ? & <-). by exists own.
  - rewrite Ho, He, mark_mark. by apply mark_free.
Qed.

Lemma execute_holds fuel tx p v name ph vm plugin p' r :
  proxy_wasm_execute fuel tx p v name ph vm plugin = Done (p', r) ->
  holds (taken (p_engine p)) (taken (p_engine p')) (r_task r).
Proof.
  unfold proxy_wasm_execute. destruct name as [name|]; [|by intros [= <- <-]].
  destruct (find_module _ _) as [idx|]; [|by intros [= <- <-]].
  destruct (acquire_store _ _) as [e pooled] eqn:Ea. apply acquire_taken in Ea. cbv zeta.
  destruct pooled as [[slot x]|].
  { destruct Ea as [Hf He]. apply (gives_holds e idx (Slot slot)); [|done..].
    do 2 (apply gives_bind; intros ?). apply run_stream_gives. }
  destruct (store_new _); cbn [negb]; [|by intros [= <- <-]].
  destruct (instantiate _) as [x|].
  { apply (gives_holds e idx Fresh); [|done..].
    do 2 (apply gives_bind; intros ?). apply run_stream_gives. }
  destruct (log_slow _ _ _) as [v'|]; [|done]. cbn [obind]. by intros [= <- <-].
Qed.
End Discipline.

(** ** The order of the lifecycle *)

(** The place of a callback in the lifecycle of a stream. *)
Definition stage (fn : string) (args : list Z) : nat :=
  if String.eqb fn "_initialize" then 1
  else if String.eqb fn "proxy_on_context_create" then
    match args with 1 :: _ => 2 | _ => 5 end
  else if String.eqb fn "proxy_on_vm_start" then 3
  else if String.eqb fn "proxy_on_configure" then 4
  else if String.eqb fn "proxy_on_request_headers" || String.eqb fn "proxy_on_response_headers" then 6
  else if String.eqb fn "proxy_on_http_call_response" then 7
  else if String.eqb fn "proxy_on_request_body" || String.eqb fn "proxy_on_response_body" then 8
  else if String.eqb fn "proxy_on_log" then 9
  else if String.eqb fn "proxy_on_done" then 10
  else if String.eqb fn "proxy_on_delete" then 11
  else 12.

Definition stages (l : list xevent) : list nat :=
  omap (fun ev => match ev with Call fn args => Some (stage fn args) | Deadline _ => None end) l.

(** Only the callbacks of callouts may come several times. *)
Definition precedes (i j : nat) : Prop := (i < j)%nat \/ (i = j /\ i = 7%nat).

Section Lifecycle.
Context `{G : Guest} `{V : Varnish} `{VV : !VrtVars} `{W : Wasm} `{P : !Program}.

(** The callbacks so far are in order, none after stage [k]. *)
Definition reached (k : nat) (l : list xevent) : Prop :=
  StronglySorted precedes (stages l) /\ Forall (fun i => i <= k)%nat (stages l).

Definition post {A} (Q : A -> Prop) (o : outcome A) : Prop := forall a, o = Done a -> Q a.

Lemma post_done {A} (Q : A -> Prop) a : Q a -> post Q (Done a).
Proof. by intros ? ? [= <-]. Qed.

Lemma post_bind {A B} (Q : A -> Prop) (R : B -> Prop) o k :
  post Q o -> (forall a, Q a -> post R (k a)) -> post R (obind o k).
Proof. intros Ho Hk. destruct o as [a|]; [by apply Hk, Ho|by intros ?]. Qed.

Lemma reached_mono j k l : reached j l -> (j <= k)%nat -> reached k l.
Proof. intros [? H] ?. split; [done|]. eapply list.Forall_impl; [done|]. simpl. lia. Qed.

Lemma reached_deadline k l d : reached k l -> reached k (l ++ [Deadline d]).
Proof. unfold reached, stages. rewrite omap_app. cbn. by rewrite app_nil_r. Qed.

Lemma sorted_snoc (l : list nat) j :
  StronglySorted precedes l -> Forall (fun i => precedes i j) l -> StronglySorted precedes (l ++ [j]).
Proof.
  induction 1 as [|i l Hs IH Hi]; intros Hj; simpl; [by repeat constructor|].
  inversion Hj; subst. constructor; [by apply IH|]. apply Forall_app. split; [done|by constructor].
Qed.

Lemma reached_call k l fn args :
  reached k l -> precedes k (stage fn args) -> reached (stage fn args) (l ++ [Call fn args]).
Proof.
  intros [Hs Hk] Hp. unfold reached, stages. rewrite omap_app. cbn [omap list_omap].
  fold (stages l). split.
  - apply sorted_snoc; [done|]. eapply list.Forall_impl; [done|]. simpl. unfold precedes in *. lia.
  - apply Forall_app. split; [|by repeat constructor].
    eapply list.Forall_impl; [done|]. simpl. unfold precedes in *. lia.
Qed.

Lemma call_func_reached k j s fn args :
  reached k (x_events s) -> stage fn args = j -> precedes k j ->
  post (fun sr => reached j (x_events sr.1)) (call_wasm_func s fn args).
Proof.
  intros Hk <- Hp [s' r]. unfold call_wasm_func. destruct (export_func _ _); cbn [negb].
  - destruct (run_actions _ _) as [h|]; [|done]. cbn [obind]. destruct (finish _ _ _ _) as [x r'].
    intros [= <- <-]. by eapply reached_call.
  - intros [= <- <-]. eapply reached_mono; [done|]. unfold precedes in Hp. lia.
Qed.

Lemma call_void_reached k j s fn args :
  reached k (x_events s) -> stage fn args = j -> precedes k j ->
  post (fun s' => reached j (x_events s')) (call_wasm_void s fn args).
Proof.
  intros Hk <- Hp s'. unfold call_wasm_void. destruct (export_func _ _); cbn [negb].
  - destruct (run_actions _ _) as [h|]; [|done]. cbn [obind]. destruct (finish _ _ _ _) as [x r'].
    intros [= <-]. by eapply reached_call.
  - intros [= <-]. eapply reached_mono; [done|]. unfold precedes in Hp. lia.
Qed.
End Lifecycle.

(** One step of a piece of the lifecycle. *)
Ltac stage_step := cbv beta in *;
  first
    [ eapply post_bind; [first [eapply call_func_reached | eapply call_void_reached];
        [try apply reached_deadline; eassumption | cbn; reflexivity | unfold precedes; lia] |]
    | first [eapply call_func_reached | eapply call_void_reached];
        [try apply reached_deadline; eassumption | cbn; reflexivity | unfold precedes; lia] ].

Section LifecycleOrder.
Context `{G : Guest} `{V : Varnish} `{VV : !VrtVars} `{W : Wasm} `{P : !Program}.

Definition exec_reached (k : nat) (o : outcome exec) : Prop := post (fun s => reached k (x_events s)) o.

Lemma exec_done k j s : reached j (x_events s) -> (j <= k)%nat -> exec_reached k (Done s).
Proof. intros. apply post_done. by eapply reached_mono. Qed.

Lemma init_guest_reached d pooled vl pl s :
  reached 0 (x_events s) -> exec_reached 4 (init_guest d pooled vl pl s).
Proof.
  intros Hs. unfold init_guest. destruct pooled; cbn [negb].
  - eapply (post_bind (fun s => reached 3 (x_events s))).
    + destruct (0 <? vl); [|eapply exec_done; [eassumption|lia]]. stage_step. intros [s1 r1] H1. by apply post_done.
    + intros s1 H1. destruct (0 <? pl); [|eapply exec_done; [eassumption|lia]].
      stage_step. intros [s2 r2] H2. by apply post_done.
  - stage_step. intros s1 H1. stage_step. intros s2 H2. stage_step. intros [s3 r3] H3. cbn [fst] in H3.
    stage_step. intros [s4 r4] H4. by apply post_done.
Qed.

Lemma end_stream_reached s : reached 8 (x_events s) -> exec_reached 11 (end_stream s).
Proof.
  intros Hs. unfold end_stream. stage_step. intros s1 H1. stage_step. intros [s2 r2] H2. cbn [fst] in H2.
  stage_step.
Qed.

Lemma http_callbacks_reached fuel s cur :
  reached 7 (x_events s) -> post (fun sr => reached 7 (x_events sr.1)) (http_callbacks fuel s cur).
Proof.
  revert s cur. induction fuel as [|fuel IH]; intros s [t|] Hs; cbn [http_callbacks]; try by apply post_done.
  { by intros ?. }
  destruct (_ !! t) as [r|]; [|by intros ?]. cbv zeta.
  eapply post_bind; [eapply call_void_reached;
    [cbn; apply reached_deadline; exact Hs|cbn; reflexivity|unfold precedes; lia]|].
  intros s1 H1. split_if; [by apply post_done|]. by apply IH.
Qed.

Lemma body_call_reached tx ph s : reached 7 (x_events s) -> exec_reached 8 (body_call tx ph s).
Proof.
  intros Hs. unfold body_call. split_if; [|eapply exec_done; [eassumption|lia]].
  eapply (post_bind (fun s1 => reached 7 (x_events s1))).
  { destruct (t_req_body tx); [|by apply post_done].
    destruct (collect_body tx) as [[buf heap]|]; [|by apply post_done].
    destruct heap; [by apply post_done|by intros ?]. }
  intros s1 H1. eapply post_bind; [eapply (call_func_reached 7 8);
    [exact H1|by destruct ph|unfold precedes; lia]|].
  intros [s2 r2] H2. by apply post_done.
Qed.

(** The events a result reports, and those of a task it leaves. *)
Definition in_order (pr : process * result) : Prop :=
  StronglySorted precedes (stages (r_events pr.2)) /\
  (forall tk, r_task pr.2 = Some tk -> reached 7 (x_events (tk_exec tk))).

Lemma stop_in_order tx e v idx own live s r code k :
  reached k (x_events s) -> post in_order (cleanup tx e v idx own live s r code).
Proof.
  intros Hs. unfold cleanup. destruct (log_slow _ _ _) as [v'|]; [|by intros ?]. cbn [obind].
  split_if; [by intros ?|]. destruct (drop_store _ _ _ _ _) as [e'|]; [|by intros ?]. cbn [obind].
  apply post_done. split; [|done]. apply Hs.
Qed.

Lemma hand_over_in_order tx e v idx own s a :
  reached 7 (x_events s) -> post in_order (hand_over tx e v idx own s a).
Proof.
  intros Hs. unfold hand_over. split_if; [by eapply stop_in_order|]. split_if.
  - destruct (drop_store _ _ _ _ _) as [e'|]; [|by intros ?]. cbn [obind]. by eapply stop_in_order.
  - apply post_done. split; [apply Hs|]. by intros tk [= <-].
Qed.

Lemma run_stream_in_order fuel tx e v idx own ph s :
  reached 5 (x_events s) -> post in_order (run_stream fuel tx e v idx own ph s).
Proof.
  intros Hs. unfold run_stream. cbv zeta.
  eapply (post_bind (fun sr => reached 6 (x_events sr.1))).
  { eapply call_func_reached; [apply reached_deadline; exact Hs|by destruct ph|unfold precedes; lia]. }
  intros [s1 [action|]] H1; [|by eapply stop_in_order]. cbn [fst] in H1.
  eapply (post_bind (fun sr => reached 7 (x_events sr.1))).
  { unfold run_callbacks. split_if; [|apply post_done; eapply reached_mono; [eassumption|lia]].
    eapply post_bind; [apply http_callbacks_reached; eapply reached_mono; [eassumption|lia]|].
    intros [s2 b2] H2. by apply post_done. }
  intros [s2 a2] H2. cbn [fst] in H2. do 2 (split_if; [eapply stop_in_order; exact H2|]). destruct ph.
  - eapply post_bind; [by apply body_call_reached|]. intros s3 H3.
    eapply post_bind; [by apply end_stream_reached|]. intros s4 H4. eapply stop_in_order; exact H4.
  - split_if; [by apply hand_over_in_order|].
    eapply post_bind; [apply end_stream_reached; eapply reached_mono; [eassumption|lia]|].
    intros s4 H4. eapply stop_in_order; exact H4.
Qed.

Lemma execute_in_order fuel tx p v name ph vm plugin :
  post in_order (proxy_wasm_execute fuel tx p v name ph vm plugin).
Proof.
  assert (forall p v, post in_order (refuse p v)) as Hr.
  { intros. apply post_done. split; [constructor|done]. }
  unfold proxy_wasm_execute. destruct name as [name|]; [|apply Hr].
  destruct (find_module _ _) as [idx|]; [|apply Hr].
  destruct (acquire_store _ _) as [e pooled]. cbv zeta.
  assert (forall o d, exec_reached 4 o -> post in_order (
    let! s := o in let! s := call_wasm_void (set_deadline s d) "proxy_on_context_create" [2; 1] in
    run_stream fuel tx e v idx (match pooled with Some (i, _) => Slot i | None => Fresh end) ph s)) as Hgo.
  { intros o d Ho. eapply post_bind; [exact Ho|]. intros s1 H1. stage_step. intros s2 H2.
    by apply run_stream_in_order. }
  assert (forall d, reached 0 [Deadline d]) as H0 by (split; constructor).
  destruct pooled as [[slot x]|]; [apply Hgo, init_guest_reached; exact (H0 _)|].
  split_if; [apply Hr|]. destruct (instantiate _) as [x|]; [apply Hgo, init_guest_reached; exact (H0 _)|].
  destruct (log_slow _ _ _) as [v'|]; [|by intros ?]. cbn [obind]. apply post_done.
  split; [constructor|done].
Qed.
End LifecycleOrder.

(** ** The decision of a module *)

Section Decision.
Context `{G : Guest} `{V : Varnish} `{VV : !VrtVars} `{W : Wasm} `{P : !Program}.

(** What the result of an execution says: -1 without a status when it failed;
    else what the module decided.  The headers callback returned an action
    [a], and the callbacks of callouts, if any ran, made it 0.  A local response
    gives its status and the result 0; the action 1 (pause) gives 0; any other
    action is the result (the status is then the one of a local response sent by
    a later callback, or 0). *)
Definition decided (fuel : nat) (ph : phase) (r : result) : Prop :=
  (ret r = -1 /\ status_code r = 0) \/
  exists s s1 a s2 a2,
    call_wasm_func s (headers_fn ph) [2; i32 (count_headers ph (vrt (ctx s))); 1] = Done (s1, Some a) /\
    run_callbacks fuel s1 a = Done (s2, a2) /\
    if local_response_set (local (ctx s2))
    then ret r = 0 /\ status_code r = local_response_code (local (ctx s2))
    else if a2 =? 1 then ret r = 0 /\ status_code r = 0
    else ret r = a2.

Lemma cleanup_result tx e v idx own live s r code p' res :
  cleanup tx e v idx own live s r code = Done (p', res) -> ret res = r /\ status_code res = code.
Proof.
  unfold cleanup. destruct (log_slow _ _ _) as [v'|]; [|done]. cbn [obind]. split_if; [done|].
  destruct (drop_store _ _ _ _ _) as [e'|]; [|done]. by intros [= <- <-].
Qed.

Lemma hand_over_result tx e v idx own s a p' res :
  hand_over tx e v idx own s a = Done (p', res) ->
  (ret res = -1 /\ status_code res = 0) \/ ret res = a.
Proof.
  unfold hand_over. split_if; [intros E%cleanup_result; by left|]. split_if.
  - destruct (drop_store _ _ _ _ _) as [e'|]; [|done]. cbn [obind]. intros E%cleanup_result. by left.
  - intros [= <- <-]. by right.
Qed.

Lemma run_stream_decided fuel tx e v idx own ph s p' r :
  run_stream fuel tx e v idx own ph s = Done (p', r) -> decided fuel ph r.
Proof.
  unfold run_stream. cbv zeta. set (s0 := set_deadline s _).
  destruct (call_wasm_func s0 _ _) as [[s1 [a|]]|] eqn:E1; [| |done]; cbn [obind];
    [|intros E%cleanup_result; by left].
  destruct (run_callbacks fuel s1 a) as [[s2 a2]|] eqn:E2; [|done]. cbn [obind]. intros E.
  assert (forall x, (ret x = -1 /\ status_code x = 0) \/
    (if local_response_set (local (ctx s2))
     then ret x = 0 /\ status_code x = local_response_code (local (ctx s2))
     else if a2 =? 1 then ret x = 0 /\ status_code x = 0 else ret x = a2) -> decided fuel ph x) as Hd.
  { intros x [Hx|Hx]; [by left|]. right. by exists s0, s1, a, s2, a2. }
  apply Hd. clear Hd. destruct (local_response_set _); [apply cleanup_result in E; by right|].
  destruct (a2 =? 1); [apply cleanup_result in E; by right|].
  assert (forall s3, (let! s := end_stream s3 in
    cleanup tx e v idx own true s a2 (if local_response_set (local (ctx s))
      then local_response_code (local (ctx s)) else 0)) = Done (p', r) -> ret r = a2) as Hend.
  { intros s3. destruct (end_stream s3) as [s4|]; [|done]. cbn [obind]. by intros [? _]%cleanup_result. }
  destruct ph.
  - destruct (body_call _ _ _) as [s3|]; [|done]. cbn [obind] in E. right. by eapply Hend.
  - destruct (export_func _ _); [by apply hand_over_result in E|]. right. by eapply Hend.
Qed.

Lemma execute_decided fuel tx p v name ph vm plugin p' r :
  proxy_wasm_execute fuel tx p v name ph vm plugin = Done (p', r) -> decided fuel ph r.
Proof.
  unfold proxy_wasm_execute, refuse. destruct name as [name|]; [|intros [= <- <-]; by left].
  destruct (find_module _ _) as [idx|]; [|intros [= <- <-]; by left].
  destruct (acquire_store _ _) as [e pooled]. cbv zeta.
  assert (forall o d own, (let! s := o in
      let! s := call_wasm_void (set_deadline s d) "proxy_on_context_create" [2; 1] in
      run_stream fuel tx e v idx own ph s) = Done (p', r) -> decided fuel ph r) as Hgo.
  { intros [s|] d own; [|done]. cbn [obind].
    destruct (call_wasm_void _ _ _) as [s2|]; [|done]. apply run_stream_decided. }
  destruct pooled as [[slot x]|]; [apply Hgo|]. split_if; [intros [= <- <-]; by left|].
  destruct (instantiate _) as [x|]; [apply Hgo|].
  destruct (log_slow _ _ _) as [v'|]; [|done]. intros [= <- <-]. by left.
Qed.
End Decision.

(** Each callback adds at most one call to the events. *)
Lemma http_callbacks_count `{V : Varnish} `{W : Wasm} `{P : !Program} fuel s cur :
  post (fun sr => (length (stages (x_events sr.1)) <= fuel + length (stages (x_events s)))%nat)
    (http_callbacks fuel s cur).
Proof.
  revert s cur. induction fuel as [|fuel IH]; intros s [t|]; cbn [http_callbacks]; try by apply post_done.
  { by intros ?. }
  2:{ apply post_done. cbn [fst]. lia. }
  destruct (_ !! t) as [r|]; [|by intros ?]. cbv zeta.
  set (s0 := on_ctx _ (set_deadline s _)).
  assert (stages (x_events s0) = stages (x_events s)) as E0.
  { unfold s0, stages. cbn. rewrite omap_app. cbn. by rewrite app_nil_r. }
  clearbody s0. eapply (post_bind (fun s1 => length (stages (x_events s1)) <= 1 + length (stages (x_events s)))%nat).
  { intros s1. unfold call_wasm_void. destruct (export_func _ _); cbn [negb].
    - destruct (run_actions _ _) as [h|]; [|done]. cbn [obind]. destruct (finish _ _ _ _) as [x r'].
      intros [= <-]. rewrite <- E0. cbn [x_events]. unfold stages. rewrite omap_app, length_app.
      cbn [omap list_omap length]. lia.
    - intros [= <-]. rewrite E0. lia. }
  intros s1 H1. cbv beta in H1. split_if; [apply post_done; cbn [fst on_ctx x_events]; lia|].
  intros sr E. specialize (IH _ _ sr E). cbn [on_ctx x_events] in IH. lia.
Qed.

(** ** Claims *)

Section Claims.
Context `{G : Guest} `{V : Varnish} `{VV : !VrtVars} `{VL : !VarnishLaws} `{PL : !VrtVarsLaws}.
Context `{W : Wasm} `{WL : !WasmLaws} `{P : !Program} {M b : Z} `{L : !MemLimit M} `{B : !ProgramLimit M b}.


(** C14 The callbacks of an execution come in the order of the Proxy-Wasm
    lifecycle: initialization, root context, vm start, configuration, stream
    context, headers, the responses of callouts, body, log, done, delete; each
    at most once, except for the responses of callouts.  A task left for the
    body filter has not passed the responses of callouts.  (The conditions are
    those of the safety of an execution.) *)
Theorem lifecycle_ordered fuel tx p v name ph vm plugin :
  wf_process (M := M) p -> fits (b := b) fuel (conf (p_engine p)) -> tx_ok tx -> heap_body tx ph ->
  wf_vrt (Some v) -> small (option_map cstr vm) -> small (option_map cstr plugin) ->
  exists p' r, proxy_wasm_execute fuel tx p v name ph vm plugin = Done (p', r) /\
    StronglySorted precedes (stages (r_events r)) /\
    (forall tk, r_task r = Some tk -> reached 7 (x_events (tk_exec tk))).
Proof.
  intros Hp Hf Ht Hh Hv Hvm Hpl.
  destruct (execute_finished fuel tx p v name ph vm plugin) as (p' & r & E & Hp' & _); [done..|].
  exists p', r. split; [done|]. exact (execute_in_order fuel tx p v name ph vm plugin _ E).
Qed.

(** C38 The deferred callbacks end, even when they make further callouts, which
    are delivered too: with a limit on the callouts, at most that many callbacks
    run, and fuel for that many is enough. *)
Theorem callbacks_terminate n s action :
  ok_exec M n s -> 0 <= n -> 0 < http_call_max (cfg (ctx s)) < 4294967296 ->
  n + http_call_max (cfg (ctx s)) * b < 4294967295 ->
  exists s' a, run_callbacks (Z.to_nat (http_call_max (cfg (ctx s)))) s action = Done (s', a) /\
    Z.of_nat (length (stages (x_events s'))) <=
      Z.of_nat (length (stages (x_events s))) + http_call_max (cfg (ctx s)).
Proof.
  intros Hs Hn Hm Hlt. set (max := http_call_max (cfg (ctx s))) in *.
  destruct (run_callbacks_safe (Z.to_nat max) n s action) as (s' & a & E & _);
    [done|done|lia|done|fold max; lia|]. exists s', a. split; [done|].
  unfold run_callbacks in E. split_if.
  - destruct (http_callbacks _ s _) as [[s1 r1]|] eqn:E1; [|done]. cbn [obind] in E.
    injection E as <- <-. pose proof (http_callbacks_count _ _ _ _ E1) as Hc. cbn [fst] in Hc. lia.
  - injection E as <- <-. lia.
Qed.
End Claims.

(** Every small request body dangles: when a body of at most 64 KiB was
    collected and the module exports [proxy_on_request_body], the callback runs
    on an array whose block has ended. *)
Theorem small_body_dangles `{G : Guest} `{V : Varnish} `{VV : !VrtVars} `{W : Wasm} `{P : !Program} tx s bd :
  export_func (x_inst s) "proxy_on_request_body" = true -> t_req_body tx = true ->
  t_cached tx <= VWASM_BODY_STACK_MAX -> collect_body tx = Some bd ->
  body_call tx VWASM_PHASE_REQUEST s = Fault.
Proof.
  intros He Hr Hc Hb. unfold body_call. cbn [body_fn]. rewrite He, Hr, Hb. unfold collect_body in Hb.
  rewrite (proj2 (Z.ltb_ge _ _) Hc) in Hb. destruct (0 <? _); [|done]. cbn [andb] in Hb.
  destruct (iterate_body _ _ _) as [buf r]. destruct (_ && _); [|done]. by injection Hb as <-.
Qed.

(** When the task area cannot be allocated, the context and the store are given
    back twice: a fresh store is deleted again at the label [cleanup]. *)
Theorem priv_task_failure `{G : Guest} `{V : Varnish} `{VV : !VrtVars} `{W : Wasm} `{P : !Program}
    tx e v idx s action :
  t_task_ok tx = true -> t_priv_ok tx = false -> hand_over tx e v idx Fresh s action = Fault.
Proof.
  intros Ht Hp. unfold hand_over. rewrite Ht, Hp. cbn [negb drop_store obind]. unfold cleanup.
  destruct (log_slow _ _ _) as [v'|]; [|done]. cbn [obind negb andb].
  by destruct (owns_memory _).
Qed.

(** ** A guest *)

(** A module that exports every callback; its memory is its whole state. *)
Definition filter_wasm : Wasm := {|
  inst := option bytes;
  store_new := fun _ => true;
  instantiate := fun _ => Some (Some (str "a:80" ++ replicate 8 0));
  export_memory := fun _ => true;
  export_func := fun _ name => negb (String.eqb name "_initialize");
  call_func := fun x _ _ => (x, true);
  memory_data := fun x => x;
  memory_put := fun x b => option_map (fun m => upd m 0 b) x;
  memory_size := fun _ => 1
|}.

#[export] Instance filter_wasm_laws : WasmLaws (H := filter_wasm).
Proof. split. intros x m b Hx _. change (x = Some m) in Hx. subst x. reflexivity. Defined.

(** It logs, calls an upstream and edits the body in the headers callbacks, and
    replaces chunks of response bodies. *)
Definition filter_guest : Program (W := filter_wasm) := {|
  script := fun x fn args h =>
    if String.eqb fn "proxy_on_request_headers" then map CallImport session
    else if String.eqb fn "proxy_on_response_body"
    then [CallImport (GuestCall (session_import 12) [1; 0; 0; 0; 4] (World quiet_env calm))]
    else [];
  finish := fun x fn args h => ((Some (str "a:80" ++ replicate 8 0) : @inst filter_wasm), Some 0);
  with_memory := fun x m => (m : @inst filter_wasm)
|}.

Lemma session_possible :
  Forall (act_possible (G := deaf_guest) (VV := plain_vars) (M := 65536)) (map CallImport session).
Proof.
  assert (wf_env quiet_env) by (split; [reflexivity|intros k; apply (length_replicate k 0)]).
  constructor; [|constructor; [|constructor; [|constructor]]]; (split; [|by intros [? _]]).
  - split; [apply list_elem_of_lookup; by exists 0%nat|]. split; [|done].
    repeat (constructor; [simpl; lia|]). constructor.
  - split; [apply list_elem_of_lookup; by exists 32%nat|]. split; [apply call_args_typed|done].
  - split; [apply list_elem_of_lookup; by exists 12%nat|]. split; [|done].
    repeat (constructor; [simpl; lia|]). constructor.
Qed.

#[export] Instance filter_guest_limit :
  ProgramLimit (G := deaf_guest) (VV := plain_vars) (P := filter_guest) 65536 70000.
Proof.
  pose proof session_possible as Hs. split.
  - lia.
  - intros x fn args h. cbn [script filter_guest]. split_if; [exact Hs|]. split_if; [|constructor].
    constructor; [|constructor]. by eapply (Forall_lookup_1 _ _ 2 _ Hs).
  - intros x fn args h. cbn [script filter_guest]. split_if; [by_decide|]. split_if; by_decide.
  - reflexivity.
  - intros x fn args h m [= <-]. by_decide.
  - intros k x m [= <-] [= <-]. by_decide.
Defined.

(** An engine with that module and a pool of its stores. *)
Definition filter_engine : vwasm_engine (W := filter_wasm) :=
  Eval vm_compute in
  default (VwasmEngine [] (Settings 0 0 0 None 0 0) (Stats 0 0 0 0 0 0 0 0) [] [] 0 None [])
    (e ← vwasm_engine_new (W := filter_wasm) all_ok;
     (run configure (Some e)
       [LoadModule all_ok (fun _ => Some (WasmFile 8 true)) (Some (str "auth")) (Some (str "/a.wasm"));
        InitPool 0 true all_ok (Some (str "auth")) 8]).1).

Definition filter_process : process (W := filter_wasm) := Process filter_engine (Stores None None None).

Lemma filter_process_wf : wf_process (W := filter_wasm) (M := 65536) filter_process.
Proof.
  split; [|split; [|by split_and!]].
  - split_and!; try done; try by_decide.
    repeat (constructor; [intros p [= <-]; split_and!; by_decide|]).
    repeat (constructor; [by intros ?|]). constructor.
  - constructor; [|repeat (constructor; [by intros ?|]); constructor].
    intros q [= <-]. repeat (constructor; [intros x [= <-] m [= <-]; by_decide|]). constructor.
Qed.

(** A body of more than 64 KiB was cached, of which one chunk is passed on. *)
Definition one_txn : txn :=
  Txn 0 all_ok true 65537 [str "hello"] true true true true 3 true false [].

Definition bare_vrt : vrt_ctx := VrtCtx None None None (Some []).


(** The callbacks of that execution. *)
Definition filter_stages (ph : phase) : list nat :=
  match proxy_wasm_execute (V := plain_varnish) (P := filter_guest) 5 one_txn
          filter_process bare_vrt (Some (str "auth")) ph None (Some (str "cfg")) with
  | Done (_, r) => stages (r_events r)
  | Fault => []
  end.

Lemma lifecycle_ordered_witness :
  filter_stages VWASM_PHASE_REQUEST = [4; 5; 6; 7; 8; 9; 10; 11]%nat /\
  StronglySorted precedes (filter_stages VWASM_PHASE_REQUEST).
Proof.
  split; [vm_compute; reflexivity|]. unfold filter_stages.
  destruct (lifecycle_ordered (G := deaf_guest) (VV := plain_vars) (VL := plain_laws) (PL := plain_vars_laws)
           (M := 65536) (b := 70000) (P := filter_guest) 5 one_txn filter_process bare_vrt (Some (str "auth"))
           VWASM_PHASE_REQUEST None (Some (str "cfg"))) as (p' & r & -> & Hs & _).
  - apply filter_process_wf.
  - split_and!; by_decide.
  - split_and!; by_decide.
  - intros _ _ buf heap E. vm_compute in E. by injection E as _ <-.
  - intros v [= <-]. by split_and!.
  - by_decide.
  - by_decide.
  - exact Hs.
Defined.

(** A context with a stored response, whose callback the module exports. *)
Definition answered_exec : exec (W := filter_wasm) :=
  let c := call_ctx 2 None in
  @Exec filter_wasm
    (Host (set_cl c (Calls {[1 := CallResponse None None 0 0 true]} 1 None 1)) None) (Some (str "scratch")) [].

Lemma answered_ok : ok_exec (W := filter_wasm) (VL := plain_laws) 65536 1 answered_exec.
Proof.
  split_and!.
  - apply wf_ctx_cl; [apply call_ctx_wf|]. split_and!; [|done|done].
    apply map_Forall_singleton. split; [split; by_decide|by_decide].
  - split_and!; by_decide.
  - intros _. by_decide.
  - intros m [= <-]. by_decide.
Qed.

Lemma callbacks_terminate_witness :
  exists s' a, run_callbacks (P := filter_guest) 2 answered_exec 1 = Done (s', a) /\
    Z.of_nat (length (stages (x_events s'))) <= 2.
Proof.
  apply (callbacks_terminate (G := deaf_guest) (VV := plain_vars) (VL := plain_laws) (PL := plain_vars_laws)
           (M := 65536) (b := 70000) (P := filter_guest) 1 answered_exec 1).
  - apply answered_ok.
  - lia.
  - split; by_decide.
  - by_decide.
Defined.
