(* ===== verification/Vdp.v ===== *)
(** * The body filters (src/vdp_wasm.c)

    A response whose module has a body callback leaves its execution behind as a
    task ([hand_over] of Execute.v).  The delivery processor [wasm_body] runs the
    callback on each chunk, ends the lifecycle, and gives the store back; a task
    no filter took is given back at the end of the transaction.  The processor
    [wasm_body_chain] passes each chunk through several modules. *)

From Stdlib Require Import Sorted.
From S2P Require Import Prelude Mem SharedData SharedQueue Metrics Ctx HostCalls.
From S2P Require Import Headers Properties HttpAddr Breaker HttpPool HttpParse HttpIo HttpCall.
From S2P Require Import Imports StorePool Runtime Engine Execute.

Definition VDP_WASM_CHAIN_MAX : Z := 16.

(** What is passed down the delivery: [VDP_END] or not, and the data ([None] for
    NULL). *)
Definition chunk : Type := bool * option bytes.

Definition chunk_len (c : chunk) : Z := len (default [] c.2).

(** The context of a callback: only the log is set. *)
Definition tmp_ctx (log : option (list (vsl_tag * bytes))) : vrt_ctx := VrtCtx None None None log.

Section Vdp.
Context `{G : Guest} `{V : Varnish} `{VV : !VrtVars} `{W : Wasm} `{P : !Program}.

(** The context of a task refers to the engine, the connection pool and the
    stores of the process, as they are now. *)
Definition resume (p : process) (s : exec) : exec :=
  let c := ctx s in
  Exec (Host (set_engine (set_st c (p_stores p)) (Some (tick_view (p_engine p)))) (http_pool (p_engine p)))
    (x_inst s) (x_events s).

Definition vwasm_engine_reset_epoch_deadline (e : vwasm_engine) (s : exec) : exec :=
  set_deadline s (epoch_deadline_ms (conf e)).

(** What the task's context logged. *)
Definition log_of (s : exec) : option (list (vsl_tag * bytes)) :=
  match vrt (ctx s) with Some v => vsl v | None => None end.

(** The private data of a transaction; [None]: NULL. *)
Definition vdp_wasm_task_fini (p : process) (tk : option task) : outcome process :=
  match tk with
  | None => Done p
  | Some tk =>
      match tk_store tk with
      | None => Done p
      | Some own =>
          let! e := drop_store (p_engine p) (tk_idx tk) own true (leave (tk_exec tk)) in
          Done (Process e (p_stores p))
      end
  end.

(** [None]: the processor is not pushed. *)
Definition vdp_wasm_init (task_priv : option (option task)) : option task :=
  match task_priv with Some (Some tk) => Some tk | _ => None end.

Definition clear_modified (c : pctx) : pctx :=
  let b := bod c in
  set_bod c (Bodies (request_body b) (request_body_heap b) (response_body b) (response_body_heap b) None false).

Definition expose (body : option bytes) (c : pctx) : pctx :=
  let b := bod c in
  set_bod c (Bodies (request_body b) (request_body_heap b) body (response_body_heap b)
               (modified_body b) (body_modified b)).

(** The callback on one chunk, with the log afterwards; the store of a task that
    was given back must not be used. *)
Definition vdp_callback (p : process) (tk : task) (log : option (list (vsl_tag * bytes))) (c : chunk)
    : outcome (process * task * option (list (vsl_tag * bytes))) :=
  match tk_store tk with
  | None => Fault
  | Some _ =>
      let s := resume p (tk_exec tk) in
      let s := on_ctx (fun x => expose (if 0 <? chunk_len c then c.2 else None)
                                  (clear_modified (set_vrt x (Some (tmp_ctx log))))) s in
      let s := vwasm_engine_reset_epoch_deadline (p_engine p) s in
      let! '(s, _) := call_wasm_func s (tk_body_fn tk)
        [i32 (stream_context_id (cfg (ctx s))); i32 (chunk_len c); if c.1 then 1 else 0] in
      let log := log_of s in
      let p := absorb (p_engine p) (x_host s) in
      let s := on_ctx (fun x => set_vrt (expose None x) None) s in
      Done (p, Task s (tk_store tk) (tk_idx tk) (tk_body_fn tk), log)
  end.

(** What the processor passes on; its result is the one of the next processor. *)
Definition vdp_wasm_bytes (p : process) (tk : task) (log : option (list (vsl_tag * bytes))) (c : chunk)
    : outcome (process * task * option (list (vsl_tag * bytes)) * chunk) :=
  let! '(p, tk, log) :=
    (if (0 <? chunk_len c) || c.1 then vdp_callback p tk log c else Done (p, tk, log)) in
  let b := bod (ctx (tk_exec tk)) in
  if body_modified b then
    Done (p, Task (on_ctx clear_modified (tk_exec tk)) (tk_store tk) (tk_idx tk) (tk_body_fn tk), log,
          (c.1, modified_body b))
  else Done (p, tk, log, c).

Definition count_delivery (st : vwasm_stats) (elapsed_ms : Z) : vwasm_stats :=
  Stats (calls_total st) (u64 (calls_ok st + 1)) (calls_error st)
    (if 10 <? elapsed_ms then u64 (calls_timeout st + 1) else calls_timeout st)
    (local_responses st) (http_calls_made st) (http_calls_blocked st) (body_bytes_in st).

Definition vdp_wasm_fini (p : process) (tk : option task) (log : option (list (vsl_tag * bytes)))
    (elapsed_ms : Z) : outcome (process * option task * option (list (vsl_tag * bytes))) :=
  match tk with
  | None => Done (p, None, log)
  | Some tk =>
      match tk_store tk with
      | None => Fault
      | Some own =>
          let s := on_ctx (fun x => set_vrt x (Some (tmp_ctx log))) (resume p (tk_exec tk)) in
          let s := vwasm_engine_reset_epoch_deadline (p_engine p) s in
          let! s := end_stream s in
          let log := log_of s in
          let p := absorb (p_engine p) (x_host s) in
          let s := on_ctx (fun x => set_vrt x None) s in
          let e := set_stats (p_engine p) (count_delivery (stats (p_engine p)) elapsed_ms) in
          let log := match log with
                     | Some l => if 10 <? elapsed_ms
                                 then Some (l ++ [(SLT_VCL_Log,
                                        str "vmod-wasm: " ++ cstr (default [] (module_name (cfg (ctx s)))) ++
                                        str " VDP execution took " ++ dec elapsed_ms ++ str "ms")])
                                 else Some l
                     | None => None
                     end in
          let! e := drop_store e (tk_idx tk) own true (leave s) in
          Done (Process e (p_stores p),
                Some (Task (on_ctx vwasm_proxy_ctx_cleanup s) None (tk_idx tk) (tk_body_fn tk)), log)
      end
  end.

(** ** A delivery *)

(** The chunks one after the other, with what was passed on. *)
Fixpoint filter_body (p : process) (tk : task) (log : option (list (vsl_tag * bytes))) (l : list chunk)
    : outcome (process * task * option (list (vsl_tag * bytes)) * list chunk) :=
  match l with
  | [] => Done (p, tk, log, [])
  | c :: l =>
      let! '(p, tk, log, c') := vdp_wasm_bytes p tk log c in
      let! '(p, tk, log, out) := filter_body p tk log l in
      Done (p, tk, log, c' :: out)
  end.

(** The delivery of a body ([Some l]) or of none (the processor is not in
    [resp.filters], or there is no body), and the end of the transaction. *)
Definition deliver (p : process) (tk : option task) (log : option (list (vsl_tag * bytes)))
    (body : option (list chunk)) (elapsed_ms : Z)
    : outcome (process * list chunk * option (list (vsl_tag * bytes))) :=
  match body, vdp_wasm_init (Some tk) with
  | Some l, Some t =>
      let! '(p, t, log, out) := filter_body p t log l in
      let! '(p, t, log) := vdp_wasm_fini p (Some t) log elapsed_ms in
      let! p := vdp_wasm_task_fini p t in
      Done (p, out, log)
  | _, _ =>
      let! p := vdp_wasm_task_fini p tk in
      Done (p, default [] body, log)
  end.

(** ** Chains of filters *)

(** The variable [trap] of the loop: NULL, a trap, or one already deleted. *)
Inductive trap_ptr := NoTrap | LiveTrap | DeletedTrap.

(** [struct vdp_wasm_chain_task]; [kinds] says of a failing callback of task [i]
    whether it was a trap, else it was an error. *)
Fixpoint chain_filters (kinds : nat -> bool) (i : nat) (p : process) (l : list task) (trap : trap_ptr)
    (act : bool) (cur : option bytes) : outcome (process * list task * option bytes) :=
  match l with
  | [] => Done (p, [], cur)
  | tk :: l =>
      let skip tk :=
        let! '(p, l, out) := chain_filters kinds (S i) p l trap act cur in Done (p, tk :: l, out) in
      match tk_store tk with
      | None => skip tk
      | Some _ =>
          if negb (export_func (x_inst (tk_exec tk)) (tk_body_fn tk))
          then skip (Task (on_ctx (expose None) (tk_exec tk)) (tk_store tk) (tk_idx tk) (tk_body_fn tk))
          else
            let s := on_ctx (expose cur) (resume p (tk_exec tk)) in
            let! '(s, r) := call_wasm_func s (tk_body_fn tk)
              [i32 (stream_context_id (cfg (ctx s))); i32 (len (default [] cur)); if act then 1 else 0] in
            let trap := match r with
                        | None => if kinds i then LiveTrap else trap
                        | Some _ => trap
                        end in
            let! trap := (match trap with
                          | NoTrap => Done NoTrap
                          | LiveTrap => Done DeletedTrap
                          | DeletedTrap => Fault
                          end) in
            let p := absorb (p_engine p) (x_host s) in
            let b := bod (ctx s) in
            let cur := if body_modified b then modified_body b else cur in
            let s := on_ctx (fun c => expose None
                       (set_bod c (Bodies (request_body b) (request_body_heap b) (response_body b)
                                     (response_body_heap b) (modified_body b) false))) s in
            let tk := Task s (tk_store tk) (tk_idx tk) (tk_body_fn tk) in
            let! '(p, l, out) := chain_filters kinds (S i) p l trap act cur in
            Done (p, tk :: l, out)
      end
  end.

(** What the processor passes on, with the tasks afterwards. *)
Definition vdp_wasm_chain_bytes (kinds : nat -> bool) (p : process) (ct : list task) (c : chunk)
    : outcome (process * list task * chunk) :=
  if chunk_len c <=? 0 then Done (p, ct, c)
  else
    let! '(p, ct, out) := chain_filters kinds 0 p ct NoTrap c.1 c.2 in
    Done (p, ct, (c.1, out)).

(** [None]: an error. *)
Definition vdp_wasm_chain_init (task_priv : option (option (list task))) : option (list task) :=
  match task_priv with Some (Some ct) => Some ct | _ => None end.

Fixpoint vdp_wasm_chain_fini (p : process) (ct : list task) : outcome (process * list task) :=
  match ct with
  | [] => Done (p, [])
  | tk :: ct =>
      match tk_store tk with
      | None => let! '(p, ct) := vdp_wasm_chain_fini p ct in Done (p, tk :: ct)
      | Some _ =>
          let! s := end_stream (resume p (tk_exec tk)) in
          let p := absorb (p_engine p) (x_host s) in
          let! '(p, ct) := vdp_wasm_chain_fini p ct in
          Done (p, Task s (tk_store tk) (tk_idx tk) (tk_body_fn tk) :: ct)
      end
  end.

Fixpoint vdp_wasm_chain_task_free (p : process) (ct : list task) : outcome process :=
  match ct with
  | [] => Done p
  | tk :: ct =>
      match tk_store tk with
      | None => vdp_wasm_chain_task_free p ct
      | Some own =>
          let! e := drop_store (p_engine p) (tk_idx tk) own true (leave (tk_exec tk)) in
          vdp_wasm_chain_task_free (Process e (p_stores p)) ct
      end
  end.
End Vdp.

(** * Properties *)

(** ** Safety *)

Section Safety.
Context `{G : Guest} `{V : Varnish} `{VV : !VrtVars} `{VL : !VarnishLaws} `{PL : !VrtVarsLaws}.
Context `{W : Wasm} `{WL : !WasmLaws} `{P : !Program} {M b : Z} `{L : !MemLimit M} `{B : !ProgramLimit M b}.

Lemma resume_ok n p s : wf_process (M := M) p -> ok_exec M n s -> ok_exec M n (resume p s).
Proof.
  intros (He & _ & Hst) ((H1 & _ & H3 & H4 & _ & H6 & H7 & H8) & Hw & Hl & Hx). split_and!; try done.
  split_and!; try done. intros e [= <-]. apply He.
Qed.

Lemma tmp_ctx_wf log : wf_vrt (Some (tmp_ctx log)).
Proof. by intros v [= <-]. Qed.

Lemma set_vrt_ok n s v : ok_exec M n s -> wf_vrt v -> ok_exec M n (on_ctx (fun x => set_vrt x v) s).
Proof.
  intros ((H1 & H2 & H3 & H4 & H5 & _ & H7 & H8) & Hw & Hl & Hx) Hv. by split_and!.
Qed.

Lemma clear_ok n s : 0 <= n -> ok_exec M n s -> ok_exec M n (on_ctx clear_modified s).
Proof. intros Hn (Hc & (H1 & H2 & H3 & H4) & Hl & Hx). split_and!; try done; apply Hc. Qed.

Lemma expose_ok n s body :
  ok_exec M n s -> len (default [] body) <= n -> ok_exec M n (on_ctx (expose body) s).
Proof. intros (Hc & (H1 & H2 & H3 & H4) & Hl & Hx) Hb. split_and!; try done; apply Hc || done. Qed.

(** Two updates of the context. *)
Lemma on_ctx_twice f g s : on_ctx f (on_ctx g s) = on_ctx (fun c => f (g c)) s.
Proof. done. Qed.

Lemma callback_safe p tk log c own n :
  wf_process (M := M) p -> ok_exec M n (tk_exec tk) -> tk_store tk = Some own ->
  0 <= n -> chunk_len c <= n -> n + b < 4294967295 ->
  exists p' s' log', vdp_callback p tk log c =
      Done (p', Task s' (Some own) (tk_idx tk) (tk_body_fn tk), log') /\
    wf_process (M := M) p' /\ ok_exec M (n + b) s' /\ taken (p_engine p') = taken (p_engine p).
Proof.
  pose proof (@budget_nonneg_b _ _ _ _ _ M b B) as Hb.
  intros Hp Hs Ho Hn Hc Hlt. unfold vdp_callback. rewrite Ho. cbv zeta.
  set (s1 := on_ctx _ (resume p (tk_exec tk))).
  assert (ok_exec M n s1) as H1.
  { assert (s1 = on_ctx (expose (if 0 <? chunk_len c then c.2 else None))
              (on_ctx clear_modified (on_ctx (fun x => set_vrt x (Some (tmp_ctx log))) (resume p (tk_exec tk)))))
      as -> by done.
    apply expose_ok; [|by destruct (0 <? _)].
    apply clear_ok; [done|]. apply set_vrt_ok; [by apply resume_ok|apply tmp_ctx_wf]. }
  set (s2 := vwasm_engine_reset_epoch_deadline _ s1). assert (ok_exec M n s2) as H2 by exact H1.
  destruct (call_func_safe n s2 (tk_body_fn tk)
    [i32 (stream_context_id (cfg (ctx s2))); i32 (chunk_len c); if c.1 then 1 else 0] H2)
    as (s3 & r & -> & H3 & _); [done..|]. cbn [obind].
  destruct Hp as (He & Hpl & Hst).
  eexists _, _, _. split; [done|]. split; [by apply absorb_ok; [split|apply H3]|].
  split; [|apply absorb_taken].
  change (ok_exec M (n + b) (on_ctx (fun x => set_vrt x None) (on_ctx (expose None) s3))).
  apply set_vrt_ok; [|done]. apply expose_ok; [done|]. simpl. change (len (@nil Z)) with 0. lia.
Qed.

(** Each chunk is answered by one chunk with the same action. *)
Lemma bytes_safe p tk log c own n :
  wf_process (M := M) p -> ok_exec M n (tk_exec tk) -> tk_store tk = Some own ->
  0 <= n -> chunk_len c <= n -> n + b < 4294967295 ->
  exists p' s' log' c', vdp_wasm_bytes p tk log c =
      Done (p', Task s' (Some own) (tk_idx tk) (tk_body_fn tk), log', c') /\
    wf_process (M := M) p' /\ ok_exec M (n + b) s' /\ taken (p_engine p') = taken (p_engine p) /\ c'.1 = c.1.
Proof.
  pose proof (@budget_nonneg_b _ _ _ _ _ M b B) as Hb.
  intros Hp Hs Ho Hn Hc Hlt. unfold vdp_wasm_bytes.
  assert (exists p' s' log', (if (0 <? chunk_len c) || c.1 then vdp_callback p tk log c else Done (p, tk, log))
      = Done (p', Task s' (Some own) (tk_idx tk) (tk_body_fn tk), log') /\
    wf_process (M := M) p' /\ ok_exec M (n + b) s' /\ taken (p_engine p') = taken (p_engine p))
    as (p' & s' & log' & -> & Hp' & Hs' & Ht).
  { destruct (_ || _); [by apply callback_safe|].
    eexists p, (tk_exec tk), log. rewrite <- Ho. split; [by destruct tk|].
    split; [done|]. split; [|done]. eapply ok_exec_mono; [done|lia]. }
  cbn [obind tk_exec]. cbv zeta. destruct (body_modified _).
  - eexists p', _, log', _. split; [done|]. split; [done|]. split; [|done]. apply clear_ok; [lia|done].
  - by eexists p', s', log', c.
Qed.

Lemma filter_body_safe l p tk log own n :
  wf_process (M := M) p -> ok_exec M n (tk_exec tk) -> tk_store tk = Some own ->
  0 <= n -> Forall (fun c => chunk_len c <= n) l -> n + len l * b < 4294967295 ->
  exists p' s' log' out, filter_body p tk log l =
      Done (p', Task s' (Some own) (tk_idx tk) (tk_body_fn tk), log', out) /\
    wf_process (M := M) p' /\ ok_exec M (n + len l * b) s' /\ taken (p_engine p') = taken (p_engine p) /\
    map fst out = map fst l.
Proof.
  pose proof (@budget_nonneg_b _ _ _ _ _ M b B) as Hb.
  revert p tk log n. induction l as [|c l IH]; intros p tk log n Hp Hs Ho Hn Hl Hlt.
  { eexists p, (tk_exec tk), log, []. rewrite <- Ho. split; [by destruct tk|]. split; [done|].
    split; [eapply ok_exec_mono; [done|change (len (@nil chunk)) with 0; lia]|done]. }
  inversion Hl as [|?? Hc Hl']; subst. rewrite len_cons in *. pose proof (len_nonneg l).
  cbn [filter_body].
  destruct (bytes_safe p tk log c own n Hp Hs Ho Hn Hc) as (p1 & s1 & log1 & c1 & -> & Hp1 & Hs1 & Ht1 & Hc1); [nia|].
  cbn [obind].
  destruct (IH p1 (Task s1 (Some own) (tk_idx tk) (tk_body_fn tk)) log1 (n + b) Hp1 Hs1 eq_refl)
    as (p2 & s2 & log2 & out & -> & Hp2 & Hs2 & Ht2 & Ho2);
    [lia|eapply list.Forall_impl; [exact Hl'|simpl; lia]|nia|].
  cbn [obind tk_idx tk_body_fn]. eexists p2, s2, log2, _. split; [done|]. split; [done|].
  split; [eapply ok_exec_mono; [done|nia]|]. split; [by rewrite Ht2|]. simpl. by rewrite Hc1, Ho2.
Qed.

Lemma fini_safe p s own idx fn log ms n :
  wf_process (M := M) p -> ok_exec M n s -> 0 <= n -> n + 3 * b < 4294967295 ->
  exists p' tk' log', vdp_wasm_fini p (Some (Task s (Some own) idx fn)) log ms = Done (p', Some tk', log') /\
    wf_process (M := M) p' /\ tk_store tk' = None /\
    taken (p_engine p') = mark false idx own (taken (p_engine p)).
Proof.
  intros Hp Hs Hn Hlt. unfold vdp_wasm_fini. cbn [tk_store tk_exec tk_idx tk_body_fn]. cbv zeta.
  set (s1 := vwasm_engine_reset_epoch_deadline _ _). assert (ok_exec M n s1) as H1.
  { apply (set_vrt_ok n (resume p s)); [by apply resume_ok|apply tmp_ctx_wf]. }
  destruct (end_stream_safe n s1 H1) as (s2 & -> & H2 & _); [done..|]. cbn [obind].
  destruct Hp as (He & Hpl & Hst).
  pose proof (absorb_ok (p_engine p) (x_host s2) (conj He Hpl) (proj1 H2)) as (He2 & Hpl2 & Hst2).
  set (e2 := set_stats _ _). assert (engine_ok (M := M) e2) as Hok by done.
  set (s3 := on_ctx (fun x => set_vrt x None) s2).
  assert (ok_exec M (n + 3 * b) s3) as H3 by (by apply set_vrt_ok).
  destruct (drop_store_ok e2 idx own (leave s3) Hok) as (e3 & E & He3 & Hp3); [by eapply leave_le|].
  rewrite E. cbn [obind]. eexists _, _, _. split; [done|]. split; [by split_and!|]. split; [done|].
  cbn [p_engine]. rewrite (drop_taken _ _ _ _ _ _ E). f_equal. exact (absorb_taken (p_engine p) (x_host s2)).
Qed.

Lemma task_fini_safe p tk own n :
  wf_process (M := M) p -> ok_exec M n (tk_exec tk) -> tk_store tk = Some own ->
  exists p', vdp_wasm_task_fini p (Some tk) = Done p' /\ wf_process (M := M) p' /\
    taken (p_engine p') = mark false (tk_idx tk) own (taken (p_engine p)).
Proof.
  intros (He & Hpl & Hst) Hs Ho. unfold vdp_wasm_task_fini. rewrite Ho.
  destruct (drop_store_ok (p_engine p) (tk_idx tk) own (leave (tk_exec tk)) (conj He Hpl)) as (e' & E & He' & Hp');
    [by eapply leave_le|]. rewrite E. cbn [obind]. eexists. split; [done|]. split; [by split_and!|].
  by apply drop_taken in E.
Qed.

(** ** A delivery gives back what the task held *)
Lemma deliver_safe p tk log body ms own n :
  wf_process (M := M) p -> ok_exec M n (tk_exec tk) -> tk_store tk = Some own -> 0 <= n ->
  Forall (fun c => chunk_len c <= n) (default [] body) -> n + (len (default [] body) + 3) * b < 4294967295 ->
  exists p' out log', deliver p (Some tk) log body ms = Done (p', out, log') /\ wf_process (M := M) p' /\
    taken (p_engine p') = mark false (tk_idx tk) own (taken (p_engine p)) /\
    map fst out = map fst (default [] body).
Proof.
  pose proof (@budget_nonneg_b _ _ _ _ _ M b B) as Hb.
  intros Hp Hs Ho Hn Hl Hlt. unfold deliver. cbn [vdp_wasm_init]. destruct body as [l|]; cbn [default] in *.
  - destruct (filter_body_safe l p tk log own n Hp Hs Ho Hn Hl) as (p1 & s1 & log1 & out & -> & Hp1 & Hs1 & Ht1 & Ho1);
      [simpl in *; nia|]. cbn [obind].
    pose proof (len_nonneg l).
    destruct (fini_safe p1 s1 own (tk_idx tk) (tk_body_fn tk) log1 ms _ Hp1 Hs1)
      as (p2 & tk2 & log2 & -> & Hp2 & Hn2 & Ht2); [nia|simpl in *; nia|]. cbn [obind].
    unfold vdp_wasm_task_fini. rewrite Hn2. cbn [obind]. eexists _, _, _. split; [done|].
    split; [done|]. split; [by rewrite Ht2, Ht1|done].
  - destruct (task_fini_safe p tk own n Hp Hs Ho) as (p' & -> & Hp' & Ht'). cbn [obind].
    by eexists _, _, _.
Qed.
End Safety.

(** ** Bodies that are not rewritten *)

Section Transparent.
Context `{G : Guest} `{V : Varnish} `{VV : !VrtVars} `{W : Wasm} `{P : !Program}.

(** Every registered import but [proxy_set_buffer_bytes] leaves the bodies of
    the context as they are. *)
Definition keeps_bodies (i : import) : Prop :=
  i_name i <> "proxy_set_buffer_bytes" ->
  forall wd h args h' r, i_callback i wd h args = Done (h', r) -> bod (hctx h') = bod (hctx h).

Lemma store_response_bodies e c buf ret c' r :
  store_response e c buf ret = Done (c', r) -> bod c' = bod c.
Proof.
  unfold store_response. cbv zeta. split_if; [by intros [= <- <-]|].
  destruct (write_u32 _ _ _) as [[c1 r1]|] eqn:Ew; [|done]. cbn [obind].
  assert (bod c1 = bod c) as Eb.
  { unfold write_u32 in Ew. destruct (pw_write_u32 _ _ _) as [[x y]|]; [|done]. by injection Ew as <- <-. }
  repeat split_if; try done; by intros [= <- <-].
Qed.

Lemma http_call_bodies e h c pool args c' p' tr r :
  pw_proxy_http_call e h c pool args = Done (c', p', tr, r) -> bod c' = bod c.
Proof.
  unfold pw_proxy_http_call, run_call. cbv zeta. intros E.
  repeat match type of E with
  | (match ?x with _ => _ end) = _ => destruct x eqn:?; try discriminate E
  | obind ?x _ = _ => destruct x eqn:?; cbn [obind] in E; try discriminate E
  | Done _ = Done _ => injection E as <- <- <- <-; try done
  end.
  by match goal with H : store_response _ _ _ _ = _ |- _ => apply store_response_bodies in H end.
Qed.

Lemma imports_keep_bodies : Forall keeps_bodies vwasm_proxy_wasm_define_imports.
Proof.
  unfold vwasm_proxy_wasm_define_imports, pw_define_func, pw_define_func_typed.
  repeat (constructor; [first [intros Hn; exfalso; apply Hn; reflexivity|intros _ wd h args h' r]|]);
    [..|constructor].
  all: cbn [i_callback]; first
    [ apply (keeps_local bod); keep_handler
    | unfold http_callback; destruct (pw_proxy_http_call _ _ _ _ _) as [[[[c' p'] tr] r']|] eqn:E; [|done];
      cbn [obind]; intros [= <- <-]; exact (http_call_bodies _ _ _ _ _ _ _ _ _ E) ].
Qed.

(** The callback may call every import but the one that sets a buffer. *)
Definition no_rewrite (a : action) : Prop :=
  match a with
  | Touch _ => True
  | CallImport q => g_import q ∈ vwasm_proxy_wasm_define_imports /\
                    i_name (g_import q) <> "proxy_set_buffer_bytes"
  end.

Lemma actions_keep_bodies l h h' :
  Forall no_rewrite l -> run_actions h l = Done h' -> bod (hctx h') = bod (hctx h).
Proof.
  intros Hl. revert h. induction Hl as [|a l Ha Hl IH]; intros h E; [by injection E as <-|].
  destruct a as [q|m]; cbn [run_actions] in E.
  - destruct Ha as [Hin Hn]. destruct (i_callback _ _ _ _) as [[h1 r]|] eqn:E1; [|done]. cbn [obind] in E.
    rewrite (IH _ E). by eapply (Forall_elem _ _ _ imports_keep_bodies Hin Hn).
  - by rewrite (IH _ E).
Qed.

Lemma call_keeps_bodies s fn args s' r :
  (forall x a h, Forall no_rewrite (script x fn a h)) ->
  call_wasm_func s fn args = Done (s', r) -> bod (ctx s') = bod (ctx s).
Proof.
  intros Hq. unfold call_wasm_func. destruct (export_func _ _); cbn [negb]; [|by intros [= <- <-]].
  destruct (run_actions _ _) as [h|] eqn:E; [|done]. cbn [obind]. destruct (finish _ _ _ _) as [x r'].
  intros [= <- <-]. by eapply actions_keep_bodies.
Qed.

Lemma bytes_transparent p tk log c p' tk' log' c' :
  (forall x a h, Forall no_rewrite (script x (tk_body_fn tk) a h)) ->
  body_modified (bod (ctx (tk_exec tk))) = false ->
  vdp_wasm_bytes p tk log c = Done (p', tk', log', c') ->
  c' = c /\ tk_body_fn tk' = tk_body_fn tk /\ body_modified (bod (ctx (tk_exec tk'))) = false.
Proof.
  intros Hq Hm. unfold vdp_wasm_bytes. destruct (_ || _).
  - unfold vdp_callback. destruct (tk_store tk) as [own|]; [|done]. cbv zeta.
    destruct (call_wasm_func _ _ _) as [[s r]|] eqn:E; [|done]. cbn [obind tk_exec].
    apply call_keeps_bodies in E; [|done]. unfold ctx in *. cbn [on_ctx x_host hctx] in *.
    cbn [set_vrt expose set_bod bod body_modified]. rewrite E. cbn. intros [= <- <- <- <-].
    split_and!; try done. cbn. by rewrite E.
  - cbn [obind]. rewrite Hm. intros [= <- <- <- <-]. done.
Qed.

Lemma filter_transparent l p tk log p' tk' log' out :
  (forall x a h, Forall no_rewrite (script x (tk_body_fn tk) a h)) ->
  body_modified (bod (ctx (tk_exec tk))) = false ->
  filter_body p tk log l = Done (p', tk', log', out) -> out = l.
Proof.
  revert p tk log out. induction l as [|c l IH]; intros p tk log out Hq Hm; cbn [filter_body].
  { by intros [= <- <- <- <-]. }
  destruct (vdp_wasm_bytes p tk log c) as [[[[p1 tk1] log1] c1]|] eqn:E1; [|done]. cbn [obind].
  destruct (bytes_transparent _ _ _ _ _ _ _ _ Hq Hm E1) as (-> & Hf & Hm1).
  destruct (filter_body p1 tk1 log1 l) as [[[[p2 tk2] log2] out2]|] eqn:E2; [|done]. cbn [obind].
  intros [= <- <- <- <-]. f_equal. eapply IH; [by rewrite Hf|done|exact E2].
Qed.
End Transparent.

(** ** Claims *)

Section Claims.
Context `{G : Guest} `{V : Varnish} `{VV : !VrtVars} `{VL : !VarnishLaws} `{PL : !VrtVarsLaws}.
Context `{W : Wasm} `{WL : !WasmLaws} `{P : !Program} {M b : Z} `{L : !MemLimit M} `{B : !ProgramLimit M b}.


(** C32 A module that does not rewrite bodies does not change them: if its body
    callback never calls [proxy_set_buffer_bytes] (whatever other imports it
    calls and whatever it does to its memory) and no rewriting is pending, every
    chunk, empty or not, is passed on as it came. *)
Theorem untouched_body_passes p tk own log l n :
  wf_process (M := M) p -> ok_exec M n (tk_exec tk) -> tk_store tk = Some own -> 0 <= n ->
  Forall (fun c => chunk_len c <= n) l -> n + len l * b < 4294967295 ->
  (forall x a h q, CallImport q ∈ script x (tk_body_fn tk) a h ->
     i_name (g_import q) <> "proxy_set_buffer_bytes") ->
  body_modified (bod (ctx (tk_exec tk))) = false ->
  exists p' tk' log', filter_body p tk log l = Done (p', tk', log', l).
Proof.
  intros Hp Hs Ho Hn Hl Hlt Hset Hm.
  assert (forall x a h, Forall no_rewrite (script x (tk_body_fn tk) a h)) as Hq.
  { intros x a h. apply list.Forall_forall. intros [q|m] Hin; [|done]. split; [|by eapply Hset].
    pose proof (script_possible (M := M) x (tk_body_fn tk) a h) as Hpos.
    by destruct (Forall_elem _ _ _ Hpos Hin) as [[? _] _]. }
  destruct (filter_body_safe l p tk log own n Hp Hs Ho Hn Hl Hlt) as (p' & s' & log' & out & E & _).
  rewrite E. rewrite (filter_transparent _ _ _ _ _ _ _ _ Hq Hm E). by eexists _, _, _.
Qed.
End Claims.

(** In a chain, the trap of one filter is deleted again after the next filter:
    [trap] is not reset. *)
Theorem chain_trap_deleted_twice `{V : Varnish} `{W : Wasm} `{P : !Program} kinds p ct c tk1 tk2 rest s1 p1 s2 r2 :
  ct = tk1 :: tk2 :: rest -> 0 < chunk_len c ->
  is_Some (tk_store tk1) -> is_Some (tk_store tk2) ->
  export_func (x_inst (tk_exec tk1)) (tk_body_fn tk1) = true ->
  export_func (x_inst (tk_exec tk2)) (tk_body_fn tk2) = true ->
  kinds 0%nat = true -> kinds 1%nat = false ->
  call_wasm_func (on_ctx (expose c.2) (resume p (tk_exec tk1))) (tk_body_fn tk1)
    [i32 (stream_context_id (cfg (ctx (tk_exec tk1)))); i32 (chunk_len c); if c.1 then 1 else 0] = Done (s1, None) ->
  p1 = absorb (p_engine p) (x_host s1) ->
  (let cur := if body_modified (bod (ctx s1)) then modified_body (bod (ctx s1)) else c.2 in
   call_wasm_func (on_ctx (expose cur) (resume p1 (tk_exec tk2))) (tk_body_fn tk2)
     [i32 (stream_context_id (cfg (ctx (tk_exec tk2)))); i32 (len (default [] cur)); if c.1 then 1 else 0]
   = Done (s2, r2)) ->
  vdp_wasm_chain_bytes kinds p ct c = Fault.
Proof.
  intros -> Hc [o1 H1] [o2 H2] E1 E2 K1 K2 C1 -> C2. unfold vdp_wasm_chain_bytes.
  rewrite (proj2 (Z.leb_gt _ _)) by done. cbn [chain_filters]. rewrite H1, E1. cbn [negb]. cbv zeta.
  change (cfg (ctx (on_ctx (expose c.2) (resume p (tk_exec tk1))))) with (cfg (ctx (tk_exec tk1))).
  fold (chunk_len c). rewrite C1. cbn [obind]. rewrite K1. cbn [obind]. rewrite H2, E2. cbn [negb].
  cbv zeta in C2.
  match goal with |- context [ctx (on_ctx (expose ?cur) (resume ?q (tk_exec tk2)))] =>
    change (cfg (ctx (on_ctx (expose cur) (resume q (tk_exec tk2))))) with (cfg (ctx (tk_exec tk2))) end.
  rewrite C2. cbn [obind]. rewrite K2. by destruct r2.
Qed.

(** ** Witnesses *)

Definition some_body : list chunk := [(false, Some (str "first ")); (false, None); (true, Some (str "last"))].


(** A module whose callbacks log a line, call an upstream and work in their own
    memory. *)
Definition quiet_guest : Program (W := filter_wasm) := {|
  script := fun x fn args h => map CallImport (take 2 session) ++ [Touch (str "scratch")];
  finish := fun x fn args h => ((Some (str "scratch") : @inst filter_wasm), Some 0);
  with_memory := fun x m => (m : @inst filter_wasm)
|}.

#[export] Instance quiet_guest_limit :
  ProgramLimit (G := deaf_guest) (VV := plain_vars) (P := quiet_guest) 65536 1.
Proof.
  pose proof session_possible as Hs. split.
  - lia.
  - intros x fn args h. apply Forall_app. split; [change (map CallImport (take 2 session)) with (take 2 (map CallImport session)); by apply Forall_take|].
    constructor; [unfold act_possible; by_decide|constructor].
  - intros x fn args h. by_decide.
  - reflexivity.
  - intros x fn args h m [= <-]. by_decide.
  - intros k x m [= <-] [= <-]. by_decide.
Defined.

Definition quiet_task : task (W := filter_wasm) :=
  Task (@Exec filter_wasm (Host (call_ctx 5 None) None) (Some (str "scratch")) []) (Some (Slot 0)) 0
    "proxy_on_response_body".

Lemma quiet_task_ok : ok_exec (W := filter_wasm) (VL := plain_laws) 65536 6 (tk_exec quiet_task).
Proof.
  split_and!.
  - apply call_ctx_wf.
  - eapply within_mono; [apply call_ctx_within|lia].
  - intros _. by_decide.
  - intros m [= <-]. by_decide.
Qed.

Lemma untouched_body_passes_witness :
  exists p' tk' log', filter_body (P := quiet_guest) filter_process quiet_task None some_body =
    Done (p', tk', log', some_body).
Proof.
  apply (untouched_body_passes (G := deaf_guest) (VV := plain_vars) (VL := plain_laws) (PL := plain_vars_laws)
           (M := 65536) (b := 1) (P := quiet_guest) filter_process quiet_task (Slot 0) None some_body 6).
  - apply filter_process_wf.
  - apply quiet_task_ok.
  - reflexivity.
  - lia.
  - by_decide.
  - by_decide.
  - intros x a h q Hq. cbn in Hq. rewrite !elem_of_cons in Hq.
    destruct Hq as [[= ->]|[[= ->]|[Hq|Hq]]]; [discriminate|discriminate|discriminate Hq|].
    by apply not_elem_of_nil in Hq.
  - reflexivity.
Defined.
