(* ===== verification/Vmod.v ===== *)
(** * The VCL interface (src/vmod_wasm.c)

    One engine per loaded VCL, kept in a global list; the functions of the VMOD
    find the engine of their VCL, check their arguments, and call the engine.
    [get_metrics_json], which needs no engine, is in Metrics.v. *)

From S2P Require Import Prelude Mem SharedData SharedQueue Metrics Ctx HostCalls.
From S2P Require Import Headers Properties HttpAddr Breaker HttpPool HttpParse HttpIo HttpCall.
From S2P Require Import Imports StorePool Runtime Engine Execute.

Definition VMOD_WASM_VERSION : bytes := str "4.3.5".

(** [(VCL_INT)] of a [size_t]. *)
Definition i64 (x : Z) : Z := (x + 9223372036854775808) mod 18446744073709551616 - 9223372036854775808.

(** A VCL string is NULL or empty. *)
Definition missing (s : option bytes) : bool :=
  match s with None => true | Some s => match cstr s with [] => true | _ => false end end.

(** [VSLb(ctx->vsl, ...)], which needs a log. *)
Definition vslb_checked (v : vrt_ctx) (tag : vsl_tag) (text : bytes) : outcome vrt_ctx :=
  match vsl v with Some _ => Done (vslb v tag text) | None => Fault end.

(** ** Chain specifications *)

Definition is_sep (x : Z) : bool := (x =? 124) || (x =? 32) || (x =? 9).

Fixpoint skip_seps (s : bytes) : bytes :=
  match s with
  | [] => []
  | x :: r => if is_sep x then skip_seps r else s
  end.

Fixpoint until_sep (s : bytes) : bytes :=
  match s with
  | [] => []
  | x :: r => if is_sep x then [] else x :: until_sep r
  end.

(** The loop that collects the names, [room] more of them at most; each round
    consumes a name and the separator after it. *)
Fixpoint parse_chain (fuel : nat) (s : bytes) (room : nat) : list bytes :=
  match fuel with
  | O => []
  | S fuel =>
      match s, room with
      | [], _ | _, O => []
      | _, S room =>
          match skip_seps s with
          | [] => []
          | s =>
              let name := until_sep s in
              name :: parse_chain fuel (drop (S (length name)) s) room
          end
      end
  end.

(** ** Statistics *)

Definition stats_json_text (s : vwasm_stats) : bytes :=
  str "{" ++ field "calls_total" (calls_total s) ++ str "," ++ field "calls_ok" (calls_ok s) ++ str "," ++
  field "calls_error" (calls_error s) ++ str "," ++ field "calls_timeout" (calls_timeout s) ++ str "," ++
  field "local_responses" (local_responses s) ++ str "," ++ field "http_calls" (http_calls_made s) ++ str "," ++
  field "http_calls_blocked" (http_calls_blocked s) ++ str "," ++ field "body_bytes_in" (body_bytes_in s) ++
  str "}".

Definition http_stats_text (p : pool) : bytes :=
  let s := HttpPool.stats p in
  str "{" ++ field "max_conns" (len (conns p)) ++ str "," ++ field "acquires" (stat_acquires s) ++ str "," ++
  field "releases" (stat_releases s) ++ str "," ++ field "creates" (stat_creates s) ++ str "," ++
  field "reuses" (stat_reuses s) ++ str "," ++ field "evictions" (stat_evictions s) ++ str "," ++
  field "dns_hits" (stat_dns_hits s) ++ str "," ++ field "dns_misses" (stat_dns_misses s) ++ str "," ++
  field "cache_hits" (stat_cache_hits s) ++ str "," ++ field "cache_misses" (stat_cache_misses s) ++ str "," ++
  field "cb_rejections" (stat_cb_rejections (cbs p)) ++ str "}".

(** [buf]: the bytes [malloc] returned, [None] when it failed. *)
Definition vwasm_http_pool_stats_json (p : option pool) (buf : option bytes) : outcome (option bytes) :=
  match p, buf with
  | Some p, Some b =>
      let! '(b, n) := snprintf b 0 1024 (http_stats_text p) in
      if 1024 <=? n then Done None else Done (Some (cstr b))
  | _, _ => Done None
  end.

(** [WS_Copy] of [n] bytes; [ok]: the workspace has room. *)
Definition ws_copy (ok : bool) (buf : bytes) (n : Z) : outcome bytes :=
  if len buf <? n then Fault
  else if ok then Done (cstr (take (Z.to_nat n) buf)) else Done (str "{}").

Section Vmod.
Context `{G : Guest} `{V : Varnish} `{VV : !VrtVars} `{W : Wasm} `{P : !Program}.

(** [struct vmod_wasm_vcl], with its address. *)
Record vmod_wasm_vcl := VmodVcl { n_addr : nat; n_vcl : Z; n_engine : vwasm_engine }.

(** The global list, the next address [calloc] returns, and the stores every VCL
    shares. *)
Record vmod := Vmod { vwasm_vcls : list vmod_wasm_vcl; next_addr : nat; g_stores : stores }.

Fixpoint vmod_wasm_find_vcl_locked (l : list vmod_wasm_vcl) (vcl : Z) : option vmod_wasm_vcl :=
  match l with
  | [] => None
  | vwv :: l => if n_vcl vwv =? vcl then Some vwv else vmod_wasm_find_vcl_locked l vcl
  end.

Fixpoint vmod_wasm_unlink_vcl_locked (l : list vmod_wasm_vcl) (node : nat) : list vmod_wasm_vcl :=
  match l with
  | [] => []
  | vwv :: l => if (n_addr vwv =? node)%nat then l else vwv :: vmod_wasm_unlink_vcl_locked l node
  end.

Definition vmod_wasm_get_engine (g : vmod) (vcl : Z) : option vwasm_engine :=
  option_map n_engine (vmod_wasm_find_vcl_locked (vwasm_vcls g) vcl).

Definition vmod_wasm_error_result (e : option vwasm_engine) : Z :=
  match e with
  | Some _ => if vwasm_engine_get_fail_mode e =? VWASM_FAIL_OPEN then 0 else -1
  | None => -1
  end.

(** The engine of a VCL changed. *)
Definition put_engine (g : vmod) (vcl : Z) (e : vwasm_engine) : vmod :=
  Vmod (map (fun vwv => if n_vcl vwv =? vcl then VmodVcl (n_addr vwv) (n_vcl vwv) e else vwv) (vwasm_vcls g))
    (next_addr g) (g_stores g).

(** ** Events *)

Inductive vcl_event := VCL_EVENT_LOAD | VCL_EVENT_DISCARD | VCL_EVENT_OTHER.

(** [calloc_ok], [ok] and [filter_ok]: the allocation of the node, those of the
    engine, and whether [VRT_AddFilter] succeeds.  [priv]: [priv->priv], a node;
    [None] is NULL. *)
Definition vmod_vmod_event (calloc_ok : bool) (ok : oracle) (filter_ok : bool) (g : vmod) (vcl : Z)
    (priv : option nat) (ev : vcl_event) : vmod * option nat * Z :=
  match ev with
  | VCL_EVENT_LOAD =>
      if negb calloc_ok then (g, priv, -1)
      else
        match vwasm_engine_new ok with
        | None => (g, priv, -1)
        | Some e =>
            match vmod_wasm_find_vcl_locked (vwasm_vcls g) vcl with
            | Some _ => (g, priv, -1)
            | None =>
                let node := next_addr g in
                let g := Vmod (VmodVcl node vcl e :: vwasm_vcls g) (S node) (g_stores g) in
                if filter_ok then (g, Some node, 0)
                else (Vmod (vmod_wasm_unlink_vcl_locked (vwasm_vcls g) node) (next_addr g) (g_stores g),
                      None, -1)
            end
        end
  | VCL_EVENT_DISCARD =>
      let node := match priv with
                  | Some node => Some node
                  | None => option_map n_addr (vmod_wasm_find_vcl_locked (vwasm_vcls g) vcl)
                  end in
      match node with
      | None => (g, priv, 0)
      | Some node =>
          (Vmod (vmod_wasm_unlink_vcl_locked (vwasm_vcls g) node) (next_addr g) (g_stores g), None, 0)
      end
  | VCL_EVENT_OTHER => (g, priv, 0)
  end.

(** ** Configuration

    The second component is the message of [VRT_fail], when it was called. *)

Definition no_engine (fn : string) : option bytes := Some (str "wasm." ++ str fn ++ str "engine not initialized").

Definition vmod_load (ok : oracle) (file : bytes -> option wasm_file) (g : vmod) (vcl : Z)
    (name path : option bytes) : vmod * option bytes :=
  if missing name then (g, Some (str "wasm.load(): module name is required"))
  else if missing path then (g, Some (str "wasm.load(): path is required"))
  else
    match vmod_wasm_get_engine g vcl with
    | None => (g, no_engine "load(): ")
    | Some e =>
        let '(e', r) := vwasm_engine_load_module ok file (Some e) name path in
        (put_engine g vcl (default e e'),
         if r =? 0 then None
         else Some (str "wasm.load(): failed to load module '" ++ cstr (default [] name) ++ str "' from '" ++
                    cstr (default [] path) ++ str "'"))
    end.

Definition vmod_set_memory_limit (g : vmod) (vcl limit : Z) : vmod * option bytes :=
  if limit <=? 0 then (g, Some (str "wasm.set_memory_limit(): limit must be positive"))
  else
    match vmod_wasm_get_engine g vcl with
    | None => (g, no_engine "set_memory_limit(): ")
    | Some e => (put_engine g vcl (default e (vwasm_engine_set_memory_limit (Some e) limit)), None)
    end.

Definition vmod_get_memory_limit (g : vmod) (vcl : Z) : Z :=
  match vmod_wasm_get_engine g vcl with
  | None => 0
  | Some e => i64 (vwasm_engine_get_memory_limit (Some e))
  end.

Definition vmod_set_epoch_deadline (g : vmod) (vcl ms : Z) : vmod * option bytes :=
  if ms <=? 0 then (g, Some (str "wasm.set_epoch_deadline(): ms must be positive"))
  else
    match vmod_wasm_get_engine g vcl with
    | None => (g, no_engine "set_epoch_deadline(): ")
    | Some e => (put_engine g vcl (default e (vwasm_engine_set_epoch_deadline (Some e) ms)), None)
    end.

Definition vmod_get_epoch_deadline (g : vmod) (vcl : Z) : Z :=
  match vmod_wasm_get_engine g vcl with
  | None => 0
  | Some e => i64 (vwasm_engine_get_epoch_deadline (Some e))
  end.

Definition vmod_set_allowed_upstreams (ok : oracle) (g : vmod) (vcl : Z) (l : option bytes)
    : vmod * option bytes :=
  match vmod_wasm_get_engine g vcl with
  | None => (g, no_engine "set_allowed_upstreams(): ")
  | Some e => (put_engine g vcl (default e (vwasm_engine_set_allowed_upstreams ok (Some e) l)), None)
  end.

Definition vmod_set_http_call_limit (g : vmod) (vcl limit : Z) : vmod * option bytes :=
  if limit <? 0 then (g, Some (str "wasm.set_http_call_limit(): limit must be >= 0"))
  else
    match vmod_wasm_get_engine g vcl with
    | None => (g, no_engine "set_http_call_limit(): ")
    | Some e => (put_engine g vcl (default e (vwasm_engine_set_http_call_max (Some e) (u32 limit))), None)
    end.

Definition quoted (s : string) : bytes := quote ++ str s ++ quote.

Definition vmod_set_fail_mode (g : vmod) (vcl : Z) (mode : option bytes) : vmod * option bytes :=
  match vmod_wasm_get_engine g vcl with
  | None => (g, no_engine "set_fail_mode(): ")
  | Some e =>
      if missing mode then (g, Some (str "wasm.set_fail_mode(): mode is required"))
      else
        let m := cstr (default [] mode) in
        if bool_decide (m = str "open")
        then (put_engine g vcl (default e (vwasm_engine_set_fail_mode (Some e) VWASM_FAIL_OPEN)), None)
        else if bool_decide (m = str "closed")
        then (put_engine g vcl (default e (vwasm_engine_set_fail_mode (Some e) VWASM_FAIL_CLOSED)), None)
        else (g, Some (str "wasm.set_fail_mode(): invalid mode '" ++ m ++ str "' (use " ++ quoted "open" ++
                       str " or " ++ quoted "closed" ++ str ")"))
  end.

Definition vmod_set_store_pool_size (k : nat) (snap_ok : bool) (ok : oracle) (g : vmod) (vcl : Z)
    (module : option bytes) (size : Z) : vmod * option bytes :=
  match vmod_wasm_get_engine g vcl with
  | None => (g, no_engine "set_store_pool_size: ")
  | Some e =>
      if missing module then (g, Some (str "wasm.set_store_pool_size: module name required"))
      else if (size <? 1) || (256 <? size)
      then (g, Some (str "wasm.set_store_pool_size: size must be 1-256"))
      else
        let '(e', r) := vwasm_engine_init_pool k snap_ok ok (Some e) module size None None in
        (put_engine g vcl (default e e'),
         if r =? 0 then None
         else Some (str "wasm.set_store_pool_size: pool init failed for " ++ cstr (default [] module)))
  end.

Definition vmod_set_http_pool_size (ok : oracle) (g : vmod) (vcl size : Z) : vmod * option bytes :=
  match vmod_wasm_get_engine g vcl with
  | None => (g, no_engine "set_http_pool_size: ")
  | Some e =>
      if (size <? 1) || (1024 <? size) then (g, Some (str "wasm.set_http_pool_size: size must be 1-1024"))
      else
        let '(e', r) := vwasm_engine_init_http_pool ok (Some e) size in
        (put_engine g vcl (default e e'),
         if r =? 0 then None else Some (str "wasm.set_http_pool_size: pool init failed"))
  end.

(** ** Execution *)

Definition with_process (g : vmod) (vcl : Z) (p : process) : vmod :=
  let g := put_engine g vcl (p_engine p) in
  Vmod (vwasm_vcls g) (next_addr g) (p_stores p).

(** The value VCL gets: what the fail mode says of an error, the status of a
    local response, or the action. *)
Definition verdict (e : vwasm_engine) (r : result) : Z :=
  if ret r <? 0 then vmod_wasm_error_result (Some e)
  else if 0 <? status_code r then status_code r
  else ret r.

(** The four functions that run one module; [fn] is the name in the log. *)
Definition run_module (fn : string) (ph : phase) (fuel : nat) (tx : txn) (g : vmod) (vcl : Z) (v : vrt_ctx)
    (module vm_config plugin_config : option bytes) : outcome (vmod * vrt_ctx * option task * Z) :=
  match vmod_wasm_get_engine g vcl with
  | None => Done (g, v, None, -1)
  | Some e =>
      if missing module then
        let! v := vslb_checked v SLT_Error (str "wasm." ++ str fn ++ str "(): module name required") in
        Done (g, v, None, -1)
      else
        let! '(p, r) := proxy_wasm_execute fuel tx (Process e (g_stores g)) v module ph vm_config plugin_config in
        Done (with_process g vcl p, r_vrt r, r_task r, verdict (p_engine p) r)
  end.

Definition vmod_proxy_wasm_on_request (fuel : nat) (tx : txn) (g : vmod) (vcl : Z) (v : vrt_ctx)
    (module : option bytes) :=
  run_module "proxy_wasm_on_request" VWASM_PHASE_REQUEST fuel tx g vcl v module (Some []) (Some []).

Definition vmod_proxy_wasm_on_response (fuel : nat) (tx : txn) (g : vmod) (vcl : Z) (v : vrt_ctx)
    (module : option bytes) :=
  run_module "proxy_wasm_on_response" VWASM_PHASE_RESPONSE fuel tx g vcl v module (Some []) (Some []).

Definition vmod_proxy_wasm_on_request_configured (fuel : nat) (tx : txn) (g : vmod) (vcl : Z) (v : vrt_ctx)
    (module vm_config plugin_config : option bytes) :=
  run_module "proxy_wasm_on_request_configured" VWASM_PHASE_REQUEST fuel tx g vcl v module vm_config plugin_config.

Definition vmod_proxy_wasm_on_response_configured (fuel : nat) (tx : txn) (g : vmod) (vcl : Z) (v : vrt_ctx)
    (module vm_config plugin_config : option bytes) :=
  run_module "proxy_wasm_on_response_configured" VWASM_PHASE_RESPONSE fuel tx g vcl v module vm_config plugin_config.

(** The two chain functions; [txs i] is the environment of the [i]-th module and
    [dup_ok] the copy of the specification. *)
Definition run_chain (ph : phase) (fuel : nat) (txs : nat -> txn) (dup_ok : bool) (g : vmod) (vcl : Z)
    (v : vrt_ctx) (chain_spec : option bytes) : outcome (vmod * vrt_ctx * option task * Z) :=
  match vmod_wasm_get_engine g vcl with
  | None => Done (g, v, None, -1)
  | Some e =>
      if missing chain_spec || negb dup_ok then Done (g, v, None, -1)
      else
        let s := cstr (default [] chain_spec) in
        let modules := imap (fun i name => (txs i, Some name)) (parse_chain (length s) s 64) in
        let p := Process e (g_stores g) in
        let! '(p, r) := (match ph with
                         | VWASM_PHASE_REQUEST => vwasm_filter_chain_request fuel p v modules
                         | VWASM_PHASE_RESPONSE => vwasm_filter_chain_response fuel p v modules
                         end) in
        Done (with_process g vcl p, r_vrt r, r_task r,
              if ret r <? 0 then vmod_wasm_error_result (Some (p_engine p)) else ret r)
  end.

Definition vmod_filter_chain := run_chain VWASM_PHASE_REQUEST.
Definition vmod_filter_chain_response := run_chain VWASM_PHASE_RESPONSE.

(** ** Reports *)

Definition vmod_version : bytes := VMOD_WASM_VERSION.

(** [buf]: the automatic array; [ws_ok]: the workspace has room. *)
Definition vmod_get_stats_json (g : vmod) (vcl : Z) (buf : bytes) (ws_ok : bool) : outcome bytes :=
  match vmod_wasm_get_engine g vcl with
  | None => Done (str "{}")
  | Some e =>
      let! '(buf, n) := snprintf buf 0 1024 (stats_json_text (stats e)) in
      ws_copy ws_ok buf (n + 1)
  end.

(** [buf]: what [malloc] returns to the pool. *)
Definition vmod_get_pool_stats_json (g : vmod) (vcl : Z) (module buf : option bytes) (ws_ok : bool)
    : outcome bytes :=
  match vmod_wasm_get_engine g vcl, module with
  | Some e, Some _ =>
      let! json := vwasm_engine_get_pool_stats_json (Some e) module buf in
      match json with
      | None => Done (str "{}")
      | Some json => ws_copy ws_ok (json ++ [0]) (len json + 1)
      end
  | _, _ => Done (str "{}")
  end.

Definition vwasm_engine_get_http_pool_stats_json (e : option vwasm_engine) (buf : option bytes)
    : outcome (option bytes) :=
  match e with
  | Some e => match http_pool e with
              | Some p => vwasm_http_pool_stats_json (Some p) buf
              | None => Done None
              end
  | None => Done None
  end.

Definition vmod_get_http_pool_stats_json (g : vmod) (vcl : Z) (buf : option bytes) (ws_ok : bool)
    : outcome bytes :=
  match vmod_wasm_get_engine g vcl with
  | None => Done (str "{}")
  | Some e =>
      let! json := vwasm_engine_get_http_pool_stats_json (Some e) buf in
      match json with
      | None => Done (str "{}")
      | Some json => ws_copy ws_ok (json ++ [0]) (len json + 1)
      end
  end.
End Vmod.

(** * Properties *)

(** ** Chain specifications *)

(** The pieces of a specification between separators, and its names: the pieces
    that are not empty. *)
Fixpoint pieces (s : bytes) : list bytes :=
  match s with
  | [] => [[]]
  | x :: r =>
      if is_sep x then [] :: pieces r
      else match pieces r with f :: l => (x :: f) :: l | [] => [[x]] end
  end.

Definition names (s : bytes) : list bytes := filter (fun f => f <> []) (pieces s).

Lemma names_skip s : names s = names (skip_seps s).
Proof. unfold names. induction s as [|x s IH]; [done|]. simpl. by destruct (is_sep x) eqn:E; simpl; rewrite ?E. Qed.

Lemma pieces_until s : exists l, pieces s = until_sep s :: l /\
  filter (fun f => f <> []) l = names (drop (S (length (until_sep s))) s).
Proof.
  unfold names. induction s as [|x s (l & E & Hl)]; [by exists []|]. simpl. destruct (is_sep x) eqn:Ex; simpl.
  - rewrite drop_0. by eexists.
  - rewrite E. by exists l.
Qed.

Lemma skip_seps_head s x r : skip_seps s = x :: r -> is_sep x = false.
Proof. induction s as [|y s IH]; simpl; [done|]. destruct (is_sep y) eqn:E; [done|]. by intros [= <- _]. Qed.

Lemma skip_seps_le s : (length (skip_seps s) <= length s)%nat.
Proof. induction s as [|x s IH]; simpl; [done|]. destruct (is_sep x); simpl; lia. Qed.

Lemma parse_chain_names fuel s room :
  (length s <= fuel)%nat -> parse_chain fuel s room = take room (names s).
Proof.
  revert s room. induction fuel as [|fuel IH]; intros s room Hs.
  { destruct s; [|simpl in Hs; lia]. by destruct room. }
  cbn [parse_chain]. destruct s as [|y s']; [by destruct room|]. set (s := y :: s') in *.
  destruct room as [|room]; [done|]. rewrite names_skip. pose proof (skip_seps_le s).
  destruct (skip_seps s) as [|x r] eqn:E; [done|].
  pose proof (skip_seps_head _ _ _ E) as Hx.
  destruct (pieces_until (x :: r)) as (l & E' & Hl). unfold names at 1. rewrite E'.
  assert (until_sep (x :: r) = x :: until_sep r) as Eu by (simpl; by rewrite Hx).
  rewrite filter_cons, decide_True by by rewrite Eu. rewrite Hl. cbn [take]. f_equal. apply IH.
  rewrite Eu, length_drop. simpl in *. lia.
Qed.

(** ** Statistics *)

(** The length of a text of fields: every field adds at most 23 to its name. *)
Ltac fields_len :=
  rewrite !len_app;
  repeat match goal with |- context [len (field ?n ?v)] =>
    lazymatch goal with
    | H : len (field n v) <= _ |- _ => fail
    | _ => pose proof (field_len n v)
    end end;
  repeat match goal with H : context [len (str ?x)] |- _ =>
    let n := eval vm_compute in (len (str x)) in change (len (str x)) with n in H end;
  repeat match goal with |- context [len (str ?x)] =>
    let n := eval vm_compute in (len (str x)) in change (len (str x)) with n end;
  lia.

Ltac fields_nul :=
  unfold nul_free; rewrite !Forall_app; split_and!; first [apply field_nul; by_decide|by_decide].

Lemma stats_json_len s : len (stats_json_text s) < 1024.
Proof. unfold stats_json_text. fields_len. Qed.

Lemma http_stats_len p : len (http_stats_text p) < 1024.
Proof. unfold http_stats_text. cbv zeta. fields_len. Qed.

Lemma http_stats_nul p : nul_free (http_stats_text p).
Proof. unfold http_stats_text. cbv zeta. fields_nul. Qed.

Lemma stats_json_nul s : nul_free (stats_json_text s).
Proof.
  unfold stats_json_text. fields_nul.
Qed.

(** A text without NUL, printed into a buffer and copied with its terminator. *)
Lemma copied_text t l :
  nul_free t -> ws_copy true (t ++ 0 :: l) (len t + 1) = Done t.
Proof.
  intros Hn. unfold ws_copy. rewrite len_app, len_cons. pose proof (len_nonneg l).
  rewrite (proj2 (Z.ltb_ge _ _)) by lia. f_equal.
  rewrite take_app_ge by (unfold len; lia). rewrite (cstr_app t) by exact Hn.
  replace (Z.to_nat (len t + 1) - length t)%nat with 1%nat by (unfold len; lia).
  cbn [take cstr Z.eqb]. by rewrite app_nil_r.
Qed.

Lemma printed_text t buf :
  exists l, upd buf 0 (t ++ [0]) = t ++ 0 :: l.
Proof.
  eexists. unfold upd. change (take (Z.to_nat 0) buf) with (@nil Z). cbn [app]. by rewrite <- app_assoc.
Qed.

(** ** The registry of engines

    As a finite map from VCLs to engines. *)

Section Registry.
Context `{W : Wasm}.

(** The registry with the private data of the VCLs. *)
Record vcl_registry := Registry { r_vmod : vmod; r_privs : gmap Z nat }.

Inductive vcl_request :=
| Event (calloc_ok : bool) (ok : oracle) (filter_ok : bool) (vcl : Z) (ev : vcl_event)
| Configure (vcl : Z) (q : setup)
| GetEngine (vcl : Z).

(** What the setters do when their arguments are accepted. *)
Definition configure_vcl (g : vmod) (vcl : Z) (q : setup) : vmod :=
  match vmod_wasm_get_engine g vcl with
  | None => g
  | Some e => put_engine g vcl (default e (configure (Some e) q).1)
  end.

Definition serve (s : vcl_registry) (q : vcl_request) : vcl_registry * (Z * option vwasm_engine) :=
  match q with
  | Event calloc_ok ok filter_ok vcl ev =>
      let '(g, priv, r) := vmod_vmod_event calloc_ok ok filter_ok (r_vmod s) vcl (r_privs s !! vcl) ev in
      (Registry g (match priv with Some n => <[vcl := n]> (r_privs s) | None => delete vcl (r_privs s) end),
       (r, None))
  | Configure vcl q => (Registry (configure_vcl (r_vmod s) vcl q) (r_privs s), (0, None))
  | GetEngine vcl => (s, (0, vmod_wasm_get_engine (r_vmod s) vcl))
  end.

(** The specification. *)
Definition serve_spec (m : gmap Z vwasm_engine) (q : vcl_request) : gmap Z vwasm_engine * (Z * option vwasm_engine) :=
  match q with
  | Event calloc_ok ok filter_ok vcl VCL_EVENT_LOAD =>
      match m !! vcl, vwasm_engine_new ok with
      | None, Some e => if calloc_ok && filter_ok then (<[vcl := e]> m, (0, None)) else (m, (-1, None))
      | _, _ => (m, (-1, None))
      end
  | Event _ _ _ vcl VCL_EVENT_DISCARD => (delete vcl m, (0, None))
  | Event _ _ _ vcl VCL_EVENT_OTHER => (m, (0, None))
  | Configure vcl q => (alter (fun e => default e (configure (Some e) q).1) vcl m, (0, None))
  | GetEngine vcl => (m, (0, m !! vcl))
  end.

(** The nodes have distinct VCLs and distinct addresses below the next one, and
    the private data of a VCL is its node. *)
Definition wf_registry (s : vcl_registry) : Prop :=
  let l := vwasm_vcls (r_vmod s) in
  NoDup (map n_vcl l) /\ NoDup (map n_addr l) /\ Forall (fun n => n_addr n < next_addr (r_vmod s))%nat l /\
  (forall vcl a, r_privs s !! vcl = Some a -> exists n, n ∈ l /\ n_addr n = a /\ n_vcl n = vcl).

Definition registry_sim (s : vcl_registry) (m : gmap Z vwasm_engine) : Prop :=
  wf_registry s /\ forall vcl, vmod_wasm_get_engine (r_vmod s) vcl = m !! vcl.

Lemma find_vcl_spec l vcl n :
  NoDup (map n_vcl l) -> (vmod_wasm_find_vcl_locked l vcl = Some n <-> n ∈ l /\ n_vcl n = vcl).
Proof.
  induction l as [|x l IH]; intros Hd; simpl; [split; [done|intros [H _]; by inversion H]|].
  inversion Hd as [|?? Hx Hd']; subst. split_if.
  - split; [intros [= <-]; by split; [left|]|]. intros [[->|Hn]%elem_of_cons Hv]; [done|].
    exfalso. apply Hx. apply list_elem_of_fmap. exists n. split; [congruence|done].
  - rewrite IH by done. split.
    + intros [? ?]. by split; [right|].
    + intros [[->|Hn]%elem_of_cons Hv]; [done|]. done.
Qed.

Lemma find_vcl_none l vcl : vmod_wasm_find_vcl_locked l vcl = None <-> vcl ∉ map n_vcl l.
Proof.
  induction l as [|x l IH]; simpl; [split; [intros _ H; by inversion H|done]|]. split_if.
  - split; [done|]. intros H. exfalso. apply H. rewrite Heqb. left.
  - rewrite IH, not_elem_of_cons. split; [by split|by intros [_ ?]].
Qed.

Lemma filter_all {A} (Q : A -> Prop) `{!forall x, Decision (Q x)} l : Forall Q l -> filter Q l = l.
Proof. induction 1 as [|x l Hx _ IH]; [done|]. by rewrite filter_cons, decide_True, IH. Qed.

Lemma unlink_filter l a :
  NoDup (map n_addr l) -> vmod_wasm_unlink_vcl_locked l a = filter (fun n => n_addr n <> a) l.
Proof.
  induction l as [|x l IH]; intros Hd; [done|]. inversion Hd as [|?? Hx Hd']; subst. cbn [vmod_wasm_unlink_vcl_locked].
  rewrite filter_cons. destruct (Nat.eqb_spec (n_addr x) a) as [E|E].
  - rewrite decide_False by auto. symmetry. apply filter_all. apply list.Forall_forall. intros y Hy E'.
    apply Hx. apply list_elem_of_fmap. exists y. split; [congruence|done].
  - rewrite decide_True by done. f_equal. by apply IH.
Qed.

Lemma unlink_find l n vcl :
  NoDup (map n_vcl l) -> NoDup (map n_addr l) -> n ∈ l ->
  vmod_wasm_find_vcl_locked (vmod_wasm_unlink_vcl_locked l (n_addr n)) vcl =
    if decide (vcl = n_vcl n) then None else vmod_wasm_find_vcl_locked l vcl.
Proof.
  intros Hv Ha Hn. rewrite unlink_filter by done.
  assert (forall x, x ∈ l -> n_addr x = n_addr n -> x = n) as Hu.
  { intros x Hx E. apply list_elem_of_lookup in Hx as [i Hi], Hn as [j Hj].
    assert (i = j) as ->; [|congruence].
    eapply (NoDup_lookup _ _ _ (n_addr n) Ha); rewrite list_lookup_fmap; [by rewrite Hi, <- E|by rewrite Hj]. }
  assert (NoDup (map n_vcl (filter (fun x => n_addr x <> n_addr n) l))) as Hf.
  { eapply sublist_NoDup; [exact Hv|]. apply (fmap_sublist n_vcl). apply sublist_filter. }
  case_decide as Hd.
  - apply find_vcl_none. intros (x & E & Hx)%list_elem_of_fmap. apply list_elem_of_filter in Hx as [Hne Hx].
    apply Hne. f_equal. apply list_elem_of_lookup in Hx as [i Hi], Hn as [j Hj].
    assert (i = j) as ->; [|congruence].
    eapply (NoDup_lookup _ _ _ vcl Hv); rewrite list_lookup_fmap; [by rewrite Hi, E|by rewrite Hj, Hd].
  - destruct (vmod_wasm_find_vcl_locked l vcl) as [x|] eqn:E.
    + apply find_vcl_spec in E as [Hx E]; [|done]. apply find_vcl_spec; [done|]. split; [|done].
      apply list_elem_of_filter. split; [|done]. intros E'. apply Hd. by rewrite <- (Hu x Hx E').
    + apply find_vcl_none. apply find_vcl_none in E. intros (x & Ex & Hx)%list_elem_of_fmap.
      apply list_elem_of_filter in Hx as [_ Hx]. apply E. apply list_elem_of_fmap. by exists x.
Qed.

Lemma put_engine_get g vcl e v :
  vmod_wasm_get_engine (put_engine g vcl e) v =
    if decide (v = vcl) then option_map (fun _ => e) (vmod_wasm_get_engine g v)
    else vmod_wasm_get_engine g v.
Proof.
  unfold vmod_wasm_get_engine, put_engine. cbn [vwasm_vcls]. induction (vwasm_vcls g) as [|x l IH]; simpl.
  { by case_decide. }
  destruct (Z.eqb_spec (n_vcl x) vcl) as [E|E]; simpl; destruct (Z.eqb_spec (n_vcl x) v) as [E'|E'];
    simpl; case_decide; try done; congruence.
Qed.

Lemma put_engine_wf g pr vcl e : wf_registry (Registry g pr) -> wf_registry (Registry (put_engine g vcl e) pr).
Proof.
  unfold wf_registry, put_engine. cbn [r_vmod vwasm_vcls next_addr r_privs].
  set (f := fun vwv => if n_vcl vwv =? vcl then VmodVcl (n_addr vwv) (n_vcl vwv) e else vwv).
  assert (forall x, n_vcl (f x) = n_vcl x /\ n_addr (f x) = n_addr x) as Hf.
  { intros x. unfold f. by destruct (_ =? _). }
  intros (H1 & H2 & H3 & H4). rewrite !map_map.
  rewrite (map_ext (fun x => n_vcl (f x)) n_vcl) by apply Hf.
  rewrite (map_ext (fun x => n_addr (f x)) n_addr) by apply Hf. split_and!; try done.
  - apply Forall_fmap. eapply list.Forall_impl; [done|]. intros x. unfold compose. by rewrite (proj2 (Hf x)).
  - intros v a Ha. destruct (H4 v a Ha) as (n & Hn & E1 & E2). exists (f n).
    split; [apply list_elem_of_fmap; by exists n|]. by rewrite (proj1 (Hf n)), (proj2 (Hf n)).
Qed.

Lemma get_some g vcl e :
  vmod_wasm_get_engine g vcl = Some e ->
  exists n, vmod_wasm_find_vcl_locked (vwasm_vcls g) vcl = Some n /\ n_engine n = e.
Proof. unfold vmod_wasm_get_engine. destruct (vmod_wasm_find_vcl_locked _ _) as [n|]; [|done]. intros [= <-]. by exists n. Qed.

(** Removing the node [n]. *)
Lemma unlink_sim g pr m n :
  registry_sim (Registry g pr) m -> n ∈ vwasm_vcls g ->
  registry_sim (Registry (Vmod (vmod_wasm_unlink_vcl_locked (vwasm_vcls g) (n_addr n)) (next_addr g) (g_stores g))
                  (delete (n_vcl n) pr)) (delete (n_vcl n) m).
Proof.
  intros [(H1 & H2 & H3 & H4) Hg] Hn. cbn [r_vmod r_privs] in *. split.
  - unfold wf_registry. cbn [r_vmod r_privs vwasm_vcls next_addr]. rewrite unlink_filter by done.
    split_and!.
    + eapply sublist_NoDup; [exact H1|]. apply (fmap_sublist n_vcl). apply sublist_filter.
    + eapply sublist_NoDup; [exact H2|]. apply (fmap_sublist n_addr). apply sublist_filter.
    + apply list.Forall_forall. intros x Hx. apply list_elem_of_filter in Hx as [_ Hx].
      by apply (Forall_elem _ _ _ H3 Hx).
    + intros v a. rewrite lookup_delete_Some. intros [Hne Ha]. destruct (H4 v a Ha) as (x & Hx & E1 & E2).
      exists x. split_and!; try done. apply list_elem_of_filter. split; [|done]. intros E.
      apply Hne. apply list_elem_of_lookup in Hx as [i Hi], Hn as [j Hj]. assert (i = j) as ->; [|congruence].
      eapply (NoDup_lookup _ _ _ (n_addr n) H2); rewrite list_lookup_fmap; [by rewrite Hi, <- E|by rewrite Hj].
  - intros v. unfold vmod_wasm_get_engine. cbn [r_vmod vwasm_vcls]. rewrite unlink_find by done.
    case_decide as Hd; [by rewrite Hd, lookup_delete_eq|]. rewrite lookup_delete_ne by done. by rewrite <- Hg.
Qed.

(** Adding a node for a VCL that has none. *)
Lemma link_sim g pr m vcl e :
  registry_sim (Registry g pr) m -> m !! vcl = None ->
  registry_sim (Registry (Vmod (VmodVcl (next_addr g) vcl e :: vwasm_vcls g) (S (next_addr g)) (g_stores g))
                  (<[vcl := next_addr g]> pr)) (<[vcl := e]> m).
Proof.
  intros [(H1 & H2 & H3 & H4) Hg] Hm. cbn [r_vmod r_privs] in *.
  assert (vcl ∉ map n_vcl (vwasm_vcls g)) as Hv.
  { apply find_vcl_none. specialize (Hg vcl). rewrite Hm in Hg. unfold vmod_wasm_get_engine in Hg.
    by destruct (vmod_wasm_find_vcl_locked _ _). }
  split.
  - unfold wf_registry. cbn [r_vmod r_privs vwasm_vcls next_addr map n_vcl n_addr]. split_and!.
    + by constructor.
    + constructor; [|done]. intros (x & E & Hx)%list_elem_of_fmap. pose proof (Forall_elem _ _ _ H3 Hx). simpl in *. lia.
    + constructor; [simpl; lia|]. eapply list.Forall_impl; [exact H3|]. simpl. lia.
    + intros v a. rewrite lookup_insert_Some. intros [[<- <-]|[Hne Ha]].
      * eexists. split; [left|done].
      * destruct (H4 v a Ha) as (x & Hx & E). exists x. split; [by right|done].
  - intros v. unfold vmod_wasm_get_engine. cbn [r_vmod vwasm_vcls vmod_wasm_find_vcl_locked n_vcl].
    destruct (Z.eqb_spec vcl v) as [<-|Hne]; [by rewrite lookup_insert_eq|].
    rewrite lookup_insert_ne by done. by rewrite <- Hg.
Qed.

Lemma priv_same (pr : gmap Z nat) vcl :
  match pr !! vcl with Some n => <[vcl := n]> pr | None => delete vcl pr end = pr.
Proof. destruct (pr !! vcl) as [n|] eqn:E; [by apply insert_id|by apply delete_id]. Qed.

Lemma load_sim calloc_ok ok filter_ok vcl s m :
  registry_sim s m ->
  registry_sim (serve s (Event calloc_ok ok filter_ok vcl VCL_EVENT_LOAD)).1
               (serve_spec m (Event calloc_ok ok filter_ok vcl VCL_EVENT_LOAD)).1 /\
  (serve s (Event calloc_ok ok filter_ok vcl VCL_EVENT_LOAD)).2 =
  (serve_spec m (Event calloc_ok ok filter_ok vcl VCL_EVENT_LOAD)).2.
Proof.
  destruct s as [g pr]. intros Hs. pose proof Hs as [Hw Hg]. specialize (Hg vcl). cbn [r_vmod] in Hg.
  cbn [serve serve_spec vmod_vmod_event r_vmod r_privs]. rewrite <- Hg. unfold vmod_wasm_get_engine.
  destruct calloc_ok; cbn [negb andb].
  2:{ rewrite priv_same. by destruct (option_map _ _), (vwasm_engine_new ok). }
  destruct (vwasm_engine_new ok) as [e|].
  2:{ rewrite priv_same. by destruct (option_map _ _). }
  unfold vmod_wasm_get_engine in Hg.
  destruct (vmod_wasm_find_vcl_locked (vwasm_vcls g) vcl) as [n|] eqn:E; cbn [option_map] in *.
  { by rewrite priv_same. }
  destruct filter_ok; cbn [fst snd].
  { split; [|done]. by apply link_sim. }
  cbn [vwasm_vcls vmod_wasm_unlink_vcl_locked n_addr next_addr g_stores]. rewrite Nat.eqb_refl.
  split; [|done]. destruct Hs as [(H1 & H2 & H3 & H4) Hg']. split; [|done].
  unfold wf_registry. cbn [r_vmod r_privs vwasm_vcls next_addr] in *. split_and!; try done.
  - eapply list.Forall_impl; [exact H3|]. simpl. lia.
  - intros v a. rewrite lookup_delete_Some. intros [_ Ha]. by apply H4.
Qed.

Lemma discard_sim calloc_ok ok filter_ok vcl s m :
  registry_sim s m ->
  registry_sim (serve s (Event calloc_ok ok filter_ok vcl VCL_EVENT_DISCARD)).1 (delete vcl m) /\
  (serve s (Event calloc_ok ok filter_ok vcl VCL_EVENT_DISCARD)).2 = (0, None).
Proof.
  destruct s as [g pr]. intros Hs. pose proof Hs as [(H1 & _ & _ & H4) Hg]. cbn [r_vmod r_privs] in *.
  cbn [serve vmod_vmod_event r_vmod r_privs]. destruct (pr !! vcl) as [a|] eqn:Ea.
  { destruct (H4 vcl a Ea) as (n & Hn & <- & <-). split; [|done]. by apply unlink_sim. }
  specialize (Hg vcl). unfold vmod_wasm_get_engine in Hg.
  destruct (vmod_wasm_find_vcl_locked (vwasm_vcls g) vcl) as [n|] eqn:E; cbn [option_map] in *.
  - apply find_vcl_spec in E as [Hn <-]; [|done]. split; [|done]. by apply unlink_sim.
  - cbn [fst snd]. rewrite (delete_id pr) by done. rewrite (delete_id m) by done. done.
Qed.

Lemma serve_sim s m q :
  registry_sim s m -> True ->
  registry_sim (serve s q).1 (serve_spec m q).1 /\ (serve s q).2 = (serve_spec m q).2.
Proof.
  intros Hs _. destruct q as [calloc_ok ok filter_ok vcl [| |]|vcl q|vcl].
  - by apply load_sim.
  - by apply discard_sim.
  - cbn [serve serve_spec vmod_vmod_event]. rewrite priv_same. destruct s. done.
  - cbn [serve serve_spec fst snd]. split; [|done]. destruct s as [g pr]. cbn [r_vmod r_privs].
    destruct Hs as [Hw Hg]. unfold configure_vcl. cbn [r_vmod] in Hg. rewrite (Hg vcl).
    destruct (m !! vcl) as [e|] eqn:E.
    + split; [by apply put_engine_wf|]. intros v. cbn [r_vmod]. rewrite put_engine_get.
      case_decide as Hd; [subst v; by rewrite Hg, lookup_alter_eq, E|]. by rewrite lookup_alter_ne.
    + split; [done|]. intros v. cbn [r_vmod]. rewrite Hg. destruct (decide (v = vcl)) as [->|Hd].
      * by rewrite lookup_alter_eq, E.
      * by rewrite lookup_alter_ne.
  - split; [done|]. cbn. by rewrite (proj2 Hs vcl).
Qed.

Lemma empty_registry_sim st : registry_sim (Registry (Vmod [] 0 st) ∅) ∅.
Proof.
  split; [|done]. split_and!; cbn; try apply NoDup_nil_2; [constructor|]. intros v a H. by rewrite lookup_empty in H.
Qed.

(** The functions of the VMOD that configure an engine do what [Configure] does,
    or nothing. *)
Definition configures (g : vmod) (vcl : Z) (r : vmod * option bytes) : Prop :=
  (exists msg, r = (g, Some msg)) \/ exists q, r.1 = configure_vcl g vcl q.

Lemma set_fail_mode_configures g vcl mode : configures g vcl (vmod_set_fail_mode g vcl mode).
Proof.
  unfold configures, vmod_set_fail_mode, configure_vcl.
  destruct (vmod_wasm_get_engine g vcl) as [e|]; [|by left; eexists]. split_if; [by left; eexists|]. cbv zeta.
  destruct (bool_decide _); [right; by exists (SetFailMode VWASM_FAIL_OPEN)|].
  destruct (bool_decide _); [right; by exists (SetFailMode VWASM_FAIL_CLOSED)|by left; eexists].
Qed.

Lemma setters_configure g vcl :
  (forall ok file name path, configures g vcl (vmod_load ok file g vcl name path)) /\
  (forall n, configures g vcl (vmod_set_memory_limit g vcl n)) /\
  (forall n, configures g vcl (vmod_set_epoch_deadline g vcl n)) /\
  (forall ok l, configures g vcl (vmod_set_allowed_upstreams ok g vcl l)) /\
  (forall n, configures g vcl (vmod_set_http_call_limit g vcl n)) /\
  (forall mode, configures g vcl (vmod_set_fail_mode g vcl mode)) /\
  (forall k sn ok name n, configures g vcl (vmod_set_store_pool_size k sn ok g vcl name n)) /\
  (forall ok n, configures g vcl (vmod_set_http_pool_size ok g vcl n)).
Proof.
  pose proof (set_fail_mode_configures g vcl).
  unfold configures, vmod_load, vmod_set_memory_limit, vmod_set_epoch_deadline, vmod_set_allowed_upstreams,
    vmod_set_http_call_limit, vmod_set_store_pool_size, vmod_set_http_pool_size, configure_vcl in *.
  split_and!; intros; try done; destruct (vmod_wasm_get_engine g vcl) as [e|];
    repeat (split_if; [by left; eexists|]); try (by left; eexists); right.
  - exists (LoadModule ok file name path). cbn [configure]. by destruct (vwasm_engine_load_module _ _ _ _ _).
  - by exists (SetMemoryLimit n).
  - by exists (SetEpochDeadline n).
  - by exists (SetAllowedUpstreams ok l).
  - by exists (SetHttpCallMax (u32 n)).
  - exists (InitPool k sn ok name n). cbn [configure]. by destruct (vwasm_engine_init_pool _ _ _ _ _ _ _ _).
  - exists (InitHttpPool ok n). cbn [configure]. by destruct (vwasm_engine_init_http_pool _ _ _).
Qed.
End Registry.

(** ** Executions keep the configuration *)

Section Conf.
Context `{V : Varnish} `{W : Wasm} `{P : !Program}.

Definition same_conf (k : settings) : outcome (process * result) -> Prop :=
  post (fun pr => conf (p_engine pr.1) = k).

Lemma absorb_conf e h : conf (p_engine (absorb e h)) = conf e.
Proof. unfold absorb. by destruct (engine (hctx h)). Qed.

Lemma drop_conf e idx own live x e' : drop_store e idx own live x = Done e' -> conf e' = conf e.
Proof.
  unfold drop_store. destruct own; [|by destruct live; intros [= <-]].
  by destruct (default None _); intros [= <-].
Qed.

Lemma stop_conf k tx e v idx own live s r code :
  conf e = k -> same_conf k (cleanup tx e v idx own live s r code).
Proof.
  intros He [p res]. unfold cleanup. destruct (log_slow _ _ _) as [v'|]; [|done]. cbn [obind]. split_if; [done|].
  destruct (drop_store _ _ _ _ _) as [e'|] eqn:Ed; [|done]. cbn [obind]. intros [= <- <-].
  cbn [fst p_engine]. rewrite (drop_conf _ _ _ _ _ _ Ed), <- He. exact (absorb_conf e (x_host s)).
Qed.

Lemma hand_over_conf k tx e v idx own s a : conf e = k -> same_conf k (hand_over tx e v idx own s a).
Proof.
  intros He. unfold hand_over. split_if; [by apply stop_conf|]. split_if.
  - destruct (drop_store _ _ _ _ _) as [e1|] eqn:Ed; [|by intros ?]. cbn [obind].
    apply stop_conf. by rewrite (drop_conf _ _ _ _ _ _ Ed).
  - intros pr [= <-]. rewrite <- He. exact (absorb_conf e (x_host s)).
Qed.

Lemma conf_bind {A} k (o : outcome A) f : (forall a, same_conf k (f a)) -> same_conf k (obind o f).
Proof. intros Hf. destruct o as [a|]; [apply Hf|by intros ?]. Qed.

Lemma run_stream_conf k fuel tx e v idx own ph s :
  conf e = k -> same_conf k (run_stream fuel tx e v idx own ph s).
Proof.
  intros He. unfold run_stream. apply conf_bind. intros [s1 [action|]]; [|by apply stop_conf].
  apply conf_bind. intros [s2 a2]. do 2 (split_if; [by apply stop_conf|]). destruct ph.
  - apply conf_bind. intros s3. apply conf_bind. intros s4. by apply stop_conf.
  - split_if; [by apply hand_over_conf|]. apply conf_bind. intros s4. by apply stop_conf.
Qed.

Lemma execute_conf fuel tx p v name ph vm plugin :
  same_conf (conf (p_engine p)) (proxy_wasm_execute fuel tx p v name ph vm plugin).
Proof.
  assert (forall p v, same_conf (conf (p_engine p)) (refuse p v)) as Hr by by intros p' v' pr [= <-].
  unfold proxy_wasm_execute. destruct name as [name|]; [|apply Hr].
  destruct (find_module _ _) as [idx|]; [|apply Hr].
  destruct (acquire_store (p_engine p) (Z.to_nat idx)) as [e pooled] eqn:Ea. cbv zeta.
  assert (conf e = conf (p_engine p)) as He.
  { unfold acquire_store in Ea. destruct (default None _); [|by injection Ea as <- _].
    destruct (has_initialize _); [by injection Ea as <- _|].
    destruct (vwasm_store_pool_acquire _). by injection Ea as <- _. }
  destruct pooled as [[slot x]|].
  { do 2 (apply conf_bind; intros ?). by apply run_stream_conf. }
  split_if; [rewrite <- He; apply Hr|]. destruct (instantiate _) as [x|].
  { do 2 (apply conf_bind; intros ?). by apply run_stream_conf. }
  apply conf_bind. intros v'. by intros pr [= <-].
Qed.
End Conf.

(** ** Claims *)

(** C37 The VCLs do not interfere: from the empty list, every history of VCL
    events (loads and discards, with failing allocations and registrations, and
    with the private data the events leave), of configuration calls and of
    lookups is answered as by a finite map from VCLs to engines: a load adds a
    fresh engine or fails and changes nothing, a discard removes the engine of
    its VCL, a configuration call changes no other engine. *)
Theorem registry_refines_map `{W : Wasm} st qs :
  (run serve (Registry (Vmod [] 0 st) ∅) qs).2 = (run serve_spec ∅ qs).2.
Proof.
  apply (run_sim serve serve_spec registry_sim (fun _ => True) serve_sim).
  - apply empty_registry_sim.
  - by apply list.Forall_forall.
Qed.

(** The names of a chain are read as written: [filter_chain] runs the first
    64 of the maximal runs of characters other than bars, blanks and tabs of its
    argument, in order. *)
Theorem chain_names_exact s : parse_chain (length s) s 64 = take 64 (names s).
Proof. by apply parse_chain_names. Qed.

(** The statistics always fit: whatever the counters, the text of the report
    fits its array, the copy to the workspace stays inside the array, and the
    report is whole. *)
Theorem stats_report_whole `{W : Wasm} g vcl e buf :
  vmod_wasm_get_engine g vcl = Some e -> len buf = 1024 ->
  vmod_get_stats_json g vcl buf true = Done (stats_json_text (stats e)).
Proof.
  intros He Hb. unfold vmod_get_stats_json. rewrite He.
  pose proof (stats_json_len (stats e)) as Hl. pose proof (stats_json_nul (stats e)) as Hn.
  generalize dependent (stats_json_text (stats e)). intros t Hl Hn. pose proof (len_nonneg t).
  rewrite snprintf_fits by lia. cbn [obind]. destruct (printed_text t buf) as [l ->]. by apply copied_text.
Qed.

(** The same of the statistics of the connection pool. *)
Theorem http_stats_report_whole `{W : Wasm} g vcl e p buf :
  vmod_wasm_get_engine g vcl = Some e -> http_pool e = Some p -> len buf = 1024 ->
  vmod_get_http_pool_stats_json g vcl (Some buf) true = Done (http_stats_text p).
Proof.
  intros He Hp Hb. unfold vmod_get_http_pool_stats_json, vwasm_engine_get_http_pool_stats_json,
    vwasm_http_pool_stats_json. rewrite He, Hp.
  pose proof (http_stats_len p) as Hl. pose proof (http_stats_nul p) as Hn.
  generalize dependent (http_stats_text p). intros t Hl Hn. pose proof (len_nonneg t).
  rewrite snprintf_fits by lia. cbn [obind]. rewrite (proj2 (Z.leb_gt _ _)) by lia. cbn [obind].
  destruct (printed_text t buf) as [l ->]. rewrite (cstr_app t) by exact Hn. cbn [cstr Z.eqb]. rewrite app_nil_r.
  by apply copied_text.
Qed.

Section Verdict.
Context `{G : Guest} `{V : Varnish} `{VV : !VrtVars} `{VL : !VarnishLaws} `{PL : !VrtVarsLaws}.
Context `{W : Wasm} `{WL : !WasmLaws} `{P : !Program} {M b : Z} `{L : !MemLimit M} `{B : !ProgramLimit M b}.

End Verdict.

(** In a chain the status of a local response does not reach VCL: a chain of one
    module reports 0 where the module alone reports the status, and a chain goes
    on with the next module. *)
Theorem chain_drops_local_response `{V : Varnish} `{W : Wasm} `{P : !Program}
    fuel txs g vcl v spec name e p r p1 r1 :
  vmod_wasm_get_engine g vcl = Some e -> missing (Some spec) = false -> missing (Some name) = false ->
  parse_chain (length (cstr spec)) (cstr spec) 64 = [name] ->
  proxy_wasm_execute fuel (txs 0%nat) (Process e (g_stores g)) v (Some name) VWASM_PHASE_REQUEST None None = Done (p, r) ->
  proxy_wasm_execute fuel (txs 0%nat) (Process e (g_stores g)) v (Some name) VWASM_PHASE_REQUEST (Some []) (Some [])
    = Done (p1, r1) ->
  ret r = 0 -> ret r1 = 0 -> 0 < status_code r1 ->
  (exists g' v' tk, vmod_proxy_wasm_on_request fuel (txs 0%nat) g vcl v (Some name) = Done (g', v', tk, status_code r1)) /\
  (exists g' v' tk, vmod_filter_chain fuel txs true g vcl v (Some spec) = Done (g', v', tk, 0)).
Proof.
  intros He Hs Hn Hp E E1 Hr Hr1 Hc. split.
  - unfold vmod_proxy_wasm_on_request, run_module. rewrite He, Hn, E1. cbn [obind].
    unfold verdict. rewrite Hr1, (proj2 (Z.ltb_lt 0 (status_code r1))) by done. cbn. by eexists _, _, _.
  - unfold vmod_filter_chain, run_chain. rewrite He, Hs. cbn [orb negb]. cbn [default]. unfold id.
    rewrite Hp. cbn [imap vwasm_filter_chain_request]. unfold vwasm_filter_chain_request.
    change (len _ <=? 0) with false. cbn [chain_loop]. rewrite E. cbn [obind]. rewrite Hr. cbn.
    by eexists _, _, _.
Qed.

(** ** Witnesses *)

Definition filter_vmod : vmod (W := filter_wasm) :=
  Vmod [VmodVcl 0 7 filter_engine] 1 (Stores None None None).


Lemma stats_report_whole_witness :
  vmod_get_stats_json filter_vmod 7 (replicate 1024 0) true = Done (stats_json_text (stats filter_engine)).
Proof. apply (stats_report_whole (W := filter_wasm) filter_vmod 7 filter_engine); reflexivity. Defined.

Example chain_spec_read :
  parse_chain 17 (str " auth |geo|| waf ") 64 = [str "auth"; str "geo"; str "waf"].
Proof. reflexivity. Qed.
