(* ===== verification/Direct.v ===== *)
(** * Calling a function of a module (src/wasm_engine.c, vwasm_engine_call)

    [wasm.execute] calls an exported function without arguments in a store of
    its own.  During the call the guest may call the functions of
    HostFunctions.v and change its memory. *)

From S2P Require Import Prelude Mem SharedData SharedQueue Metrics Ctx HostCalls.
From S2P Require Import Headers Properties HttpAddr Breaker HttpPool HttpParse HttpIo HttpCall.
From S2P Require Import Imports StorePool HostFunctions Runtime Engine Execute Vmod.

Inductive direct_action := CallHost (q : host_call) | Write (m : bytes).

(** The code of a guest: what it does when a function is called, and the result
    of the function; [None] is an error or a trap. *)
Class DirectProgram `{W : Wasm} : Type := {
  direct_script : inst -> string -> list direct_action;
  direct_result : inst -> string -> option Z
}.

(** The actions of a call; [true]: a host function trapped. *)
Fixpoint run_direct (h : host_ctx) (l : list direct_action) : outcome (host_ctx * bool) :=
  match l with
  | [] => Done (h, false)
  | Write m :: l => run_direct (set_hmem h m) l
  | CallHost q :: l =>
      let! '(h', r) := hi_callback (k_import q) (k_env q) (Some h) (k_args q) in
      match h', r with
      | None, _ => Fault
      | Some h', Trap => Done (h', true)
      | Some h', _ => run_direct h' l
      end
  end.

(** A record in the log of the transaction, if it has one. *)
Definition log_direct (v : host_vrt) (tag : vsl_tag) (text : bytes) : host_vrt :=
  HostVrt (hv_req v) (match hv_vsl v with Some l => Some (l ++ [(tag, text)]) | None => None end).

Section Direct.
Context `{W : Wasm} `{D : !DirectProgram}.

(** [k]: the instantiation; [failure]: whether a failing instantiation or call
    is a trap, and the message.  The transaction and the result; [None]: the
    call returned -1. *)
Definition vwasm_engine_call (k : nat) (failure : bool * bytes) (e : option vwasm_engine) (v : host_vrt)
    (module_name : option bytes) (func_name : option string) : outcome (host_vrt * option Z) :=
  match e, module_name, func_name with
  | Some e, Some name, Some fn =>
      match find_module (tick_view e) name with
      | None => Done (v, None)
      | Some _ =>
          if negb (store_new k) then Done (v, None)
          else
            let failed (v : host_vrt) :=
              log_direct v SLT_Error
                (str (if failure.1 then "wasm: trap in " else "wasm: error in ") ++ cstr name ++ str "." ++ str fn ++
                 (if 0 <? len failure.2 then str ": " ++ failure.2 else str " (no message)")) in
            match instantiate k with
            | None => Done (failed v, None)
            | Some x =>
                let h := HostCtx (Some v) (if export_memory x then default [] (memory_data x) else [])
                           (export_memory x) [] in
                if negb (export_func x fn) then Done (v, None)
                else
                  let! '(h, trapped) := run_direct h (direct_script x fn) in
                  let v := default v (hc_vrt h) in
                  match (if trapped then None else direct_result x fn) with
                  | None => Done (failed v, None)
                  | Some r =>
                      Done (log_direct v SLT_Debug
                              (str "wasm: " ++ cstr name ++ str "." ++ str fn ++ str " ok (epoch-guarded, " ++
                               dec (epoch_deadline_ms (conf e)) ++ str "ms deadline)"), Some r)
                  end
            end
      end
  | _, _, _ => Done (v, None)
  end.

(** The message of [VRT_fail], when it was called, and the result. *)
Definition vmod_execute (k : nat) (failure : bool * bytes) (g : vmod) (vcl : Z) (v : host_vrt)
    (name : option bytes) (function : option string) : outcome (host_vrt * option bytes * Z) :=
  if missing name then Done (v, Some (str "wasm.execute(): module name is required"), -1)
  else if missing (option_map str function) then Done (v, Some (str "wasm.execute(): function name is required"), -1)
  else
    match vmod_wasm_get_engine g vcl with
    | None => Done (v, None, -1)
    | Some e =>
        let! '(v, r) := vwasm_engine_call k failure (Some e) v name function in
        match r with
        | Some r => Done (v, None, r)
        | None =>
            match hv_vsl v with
            | None => Fault
            | Some _ =>
                Done (log_direct v SLT_Error
                        (str "wasm.execute(): failed to call '" ++ str (default "" function) ++
                         str "' in module '" ++ cstr (default [] name) ++ str "'"),
                      None, vmod_wasm_error_result (Some e))
            end
        end
    end.
End Direct.

(** * Properties *)

Section Safety.
Context `{V : Varnish} `{VV : !VrtVars} `{VL : !VarnishLaws} `{PL : !VrtVarsLaws}.

(** What a guest may do: calls with typed arguments on which no 32-bit
    arithmetic wraps around, and writes within the memory limit [n]. *)
Definition direct_ok (n : Z) (a : direct_action) : Prop :=
  match a with
  | Write m => len m <= n
  | CallHost q =>
      k_import q ∈ vwasm_host_define_imports ++ vwasm_host_define_wasi /\
      Forall2 typed (replicate (hi_nparams (k_import q)) I32) (k_args q) /\
      ~ wraps (hi_name (k_import q)) (k_args q) /\
      (forall k, length (he_uninit (k_env q) k) = k)
  end.

Lemma run_direct_safe l n h k :
  Forall (direct_ok n) l -> wf_host k h -> k <= n -> n < 4294967296 ->
  exists h' t, run_direct h l = Done (h', t).
Proof.
  intros Hl. revert h k. induction Hl as [|a l Ha _ IH]; intros h k Hh Hk Hn; [by eexists _, _|].
  destruct a as [q|m]; cbn [run_direct].
  - destruct Ha as (Hi & Ht & Hw & Hu). assert (host_import_safe (k_import q)) as Hs.
    { eapply Forall_elem; [|exact Hi]. apply Forall_app. split; [apply direct_safe|apply wasi_safe]. }
    destruct (Hs k (k_env q) h (k_args q) Ht Hw Hh) as (h1 & r & -> & Hh1); [lia|done|]. cbn [obind].
    destruct r; [by eapply IH..|by eexists _, _].
  - eapply (IH _ (len m)); [|exact Ha|done]. destruct Hh as [_ Hr]. by split.
Qed.

Ltac no_result :=
  split; [by intros []|intros ([? ?] & ? & ? & ? & ? & ? & _); congruence].

(** Calling a function is safe: with a guest that respects the memory limit,
    the call completes without undefined behaviour, and it returns a result
    exactly when the module is loaded, its store can be created, the function is
    exported, and it ends neither in a trap nor in an error. *)
Theorem direct_call_safe `{W : Wasm} `{D : !DirectProgram} k failure e v name fn n :
  (forall x f, Forall (direct_ok n) (direct_script x f)) ->
  (forall x m, instantiate k = Some x -> memory_data x = Some m -> len m <= n) ->
  0 <= n < 4294967296 ->
  (forall x, hv_req v = Some x -> exists hp, x = Some hp /\ http_ok hp) ->
  exists v' r, vwasm_engine_call k failure (Some e) v (Some name) (Some fn) = Done (v', r) /\
    (is_Some r <->
     is_Some (find_module (tick_view e) name) /\ store_new k = true /\
     exists x h, instantiate k = Some x /\ export_func x fn = true /\ is_Some (direct_result x fn) /\
       run_direct (HostCtx (Some v) (if export_memory x then default [] (memory_data x) else [])
                     (export_memory x) []) (direct_script x fn) = Done (h, false)).
Proof.
  intros Hs Hm Hn Hv. unfold vwasm_engine_call.
  destruct (find_module _ _); [|eexists _, None; split; [done|no_result]].
  destruct (store_new k); cbn [negb]; [|eexists _, None; split; [done|no_result]].
  destruct (instantiate k) as [x|] eqn:Ei; [|eexists _, None; split; [done|no_result]].
  destruct (export_func x fn) eqn:Ef; cbn [negb]; [|eexists _, None; split; [done|no_result]].
  set (h := HostCtx _ _ _ _). set (m := hc_memory h).
  destruct (run_direct_safe (direct_script x fn) n h (len m) (Hs x fn)) as (h' & t & E).
  - split; [done|]. intros w y [= <-]. apply Hv.
  - subst m h. cbn [hc_memory]. destruct (export_memory x); [|change (len (@nil Z)) with 0; lia].
    destruct (memory_data x) as [m|] eqn:Em; simpl; [by eapply Hm|]. change (len (@nil Z)) with 0. lia.
  - lia.
  - rewrite E. cbn [obind]. destruct t.
    + eexists _, None. split; [done|]. split; [by intros []|]. intros (_ & _ & x' & h2 & [= <-] & _ & _ & E2). fold h in E2. by rewrite E in E2.
    + destruct (direct_result x fn) as [r|] eqn:Er; eexists _, _; (split; [done|]).
      * split; [|done]. intros _. split_and!; try done. exists x, h'. by split_and!.
      * split; [by intros []|]. intros (_ & _ & x' & h2 & [= <-] & _ & [? Hr] & _). congruence.
Qed.
End Safety.
