(* ===== verification/Tick.v ===== *)
(** * Tick timers (src/wasm_engine.c, tick_timer_thread)

    A module with a tick period has a thread of its own, which sleeps for the
    period, initializes a fresh instance and calls [proxy_on_tick] in it.  Its
    variable [trap] is tested after each instantiation, which stores nothing in it
    unless it traps: uninitialized in the first round, a deleted trap after a tick
    that trapped.  Setting the period is in HostCalls.v. *)

From Stdlib Require Import Sorted.
From S2P Require Import Prelude Mem SharedData SharedQueue Metrics Ctx HostCalls.
From S2P Require Import Headers Properties HttpAddr Breaker HttpPool HttpParse HttpIo HttpCall.
From S2P Require Import Imports StorePool Runtime Engine Execute.

(** The time to sleep, in seconds and nanoseconds. *)
Definition tick_sleep (period_ms : Z) : Z * Z := (period_ms / 1000, period_ms mod 1000 * 1000000).

(** What a round finds after its sleep: whether the timer is still running, the
    number of its instantiation, and how what fails in it fails: with a trap, or
    else with an error; first the instantiation, then the call of an export. *)
Record wake := Wake { wk_running : bool; wk_inst : nat; wk_inst_trap : bool; wk_trap : string -> bool }.

(** The variable [trap] between rounds: NULL, or a pointer to no trap, which is
    what an uninitialized variable may hold, and a trap already deleted. *)
Inductive tick_trap := Null | Stale.

(** [if (trap) wasm_trap_delete(trap)] when nothing was stored in it. *)
Definition trap_delete (t : tick_trap) : outcome unit :=
  match t with Null => Done () | Stale => Fault end.

Section Tick.
Context `{V : Varnish} `{W : Wasm} `{P : !Program}.

(** The context of a tick: no transaction, no memory, no stores, no limits. *)
Definition tick_ctx (e : vwasm_engine) (name : option bytes) : pctx :=
  PCtx (Config 1 0 name None None 0 None 0 0 None) None (Some (tick_view e)) (WCtx false true None false)
    (LocalResponse false 0 None 0 None 0) (Bodies None false None false None false)
    (Stores None None None) (Calls ∅ 0 None 0) (Stream 0 false false) [] [].

Definition tick_deadline (e : vwasm_engine) : Z :=
  if 0 <? epoch_deadline_ms (conf e) then epoch_deadline_ms (conf e) else 5000.

(** A call of an export, when the module has it: [trap] is set to NULL before, and
    a trap is deleted after the call. *)
Definition tick_call (wk : wake) (s : exec) (fn : string) (args : list Z) (t : tick_trap) :
    outcome (exec * tick_trap) :=
  if negb (export_func (x_inst s) fn) then Done (s, t)
  else
    let! '(s, r) := call_wasm_func s fn args in
    Done (s, match r with None => if wk_trap wk fn then Stale else Null | Some _ => Null end).

(** One round: the engine afterwards, whether the timer goes on, the variable
    [trap], and what happened to the store.  A successful instantiation stores
    nothing in [trap]. *)
Definition tick_round (e : vwasm_engine) (idx : Z) (t : tick_trap) (wk : wake) :
    outcome (vwasm_engine * bool * tick_trap * list xevent) :=
  if negb (store_new (wk_inst wk)) then Done (e, true, t, [])
  else
    match instantiate (wk_inst wk) with
    | None =>
        if wk_inst_trap wk then Done (e, true, Stale, [Deadline (tick_deadline e)])
        else let! _ := trap_delete t in Done (e, true, t, [Deadline (tick_deadline e)])
    | Some x =>
        let! _ := trap_delete t in
        let s := Exec (Host (tick_ctx e (modules e !! Z.to_nat idx)) (http_pool e)) x
                   [Deadline (tick_deadline e)] in
        let! '(s, t) := tick_call wk s "_initialize" [] t in
        let! '(s, t) := tick_call wk s "proxy_on_context_create" [1; 0] t in
        let! '(s, t) := tick_call wk s "proxy_on_vm_start" [1; 0] t in
        if negb (export_func (x_inst s) "proxy_on_tick")
        then Done (p_engine (absorb e (x_host s)), false, t, x_events s)
        else
          let! '(s, t) := tick_call wk s "proxy_on_tick" [1] t in
          Done (p_engine (absorb e (x_host s)), true, t, x_events s)
    end.

(** The thread: the rounds until the timer is stopped; [t] is what [trap] holds
    before it is first assigned. *)
Fixpoint tick_timer_thread (e : vwasm_engine) (idx : Z) (t : tick_trap) (l : list wake) :
    outcome (vwasm_engine * bool) :=
  match l with
  | [] => Done (e, true)
  | wk :: l =>
      if negb (wk_running wk) then Done (e, false)
      else
        let! '(e, running, t, _) := tick_round e idx t wk in
        if running then tick_timer_thread e idx t l else Done (e, false)
  end.
End Tick.

(** * Properties *)

(** A period is slept exactly. *)
Lemma tick_sleep_exact p :
  0 <= p -> 0 <= (tick_sleep p).2 < 1000000000 /\ (tick_sleep p).1 * 1000000000 + (tick_sleep p).2 = p * 1000000.
Proof.
  intros Hp. unfold tick_sleep. cbn [fst snd]. pose proof (Z.mod_pos_bound p 1000).
  pose proof (Z.div_mod p 1000). lia.
Qed.

(** ** Calls from the thread of a timer

    Only [proxy_set_tick_period_milliseconds] asks which thread it runs on. *)

Definition as_worker (x : world) : world :=
  let e := wenv x in World (Env (ok e) (thread_ok e) None (tv_sec e) (tv_nsec e) (uninit e)) (wnet x).

Definition worker_action (a : action) : action :=
  match a with
  | CallImport q => CallImport (GuestCall (g_import q) (g_args q) (as_worker (g_world q)))
  | Touch m => Touch m
  end.

(** The same guest on a worker thread. *)
Definition on_worker `{W : Wasm} (P : Program) : Program := {|
  script := fun x fn args h => map worker_action (script x fn args h);
  finish := finish;
  with_memory := with_memory
|}.

Section Worker.
Context `{G : Guest} `{V : Varnish} `{VV : !VrtVars}.

Lemma table_worker :
  Forall (fun i => i_name i <> "proxy_set_tick_period_milliseconds" ->
    forall x h args, i_callback i x h args = i_callback i (as_worker x) h args) vwasm_proxy_wasm_define_imports.
Proof.
  unfold vwasm_proxy_wasm_define_imports, pw_define_func, pw_define_func_typed.
  repeat (constructor; [first [intros Hn; exfalso; apply Hn; reflexivity|intros _ [[] ?] h args; reflexivity]|]).
  constructor.
Qed.

(** A registered import other than the one that sets the tick period. *)
Definition no_retick (a : action) : Prop :=
  match a with
  | CallImport q => g_import q ∈ vwasm_proxy_wasm_define_imports /\
                    i_name (g_import q) <> "proxy_set_tick_period_milliseconds"
  | Touch _ => True
  end.

Lemma run_actions_worker l h :
  Forall no_retick l -> run_actions h l = run_actions h (map worker_action l).
Proof.
  intros Hl. revert h. induction Hl as [|a l Ha _ IH]; intros h; [done|]. destruct a as [q|m]; cbn [map worker_action run_actions].
  - destruct Ha as [Hi Hn]. cbn [g_import g_args g_world]. rewrite <- (Forall_elem _ _ _ table_worker Hi Hn).
    destruct (i_callback _ _ _ _) as [[h1 r]|]; [|done]. cbn [obind]. apply IH.
  - apply IH.
Qed.
End Worker.

Section Safety.
Context `{G : Guest} `{V : Varnish} `{VV : !VrtVars} `{VL : !VarnishLaws} `{PL : !VrtVarsLaws}.
Context `{W : Wasm} `{WL : !WasmLaws} {P : Program} {M b : Z} `{L : !MemLimit M}
  `{B : !ProgramLimit (P := on_worker P) M b}.

(** The guest does not set the tick period in its ticks. *)
Hypothesis no_reticks : forall x fn args h, Forall no_retick (script x fn args h).

Lemma call_func_worker s fn args :
  call_wasm_func (P := P) s fn args = call_wasm_func (P := on_worker P) s fn args.
Proof.
  unfold call_wasm_func. destruct (export_func _ _); [|done]. cbn [negb].
  by rewrite (run_actions_worker _ _ (no_reticks _ _ _ _)).
Qed.

Lemma tick_exec_ok e name x p evs :
  wf_engine e -> inst_le M x -> ok_exec M 0 (Exec (Host (tick_ctx e name) p) x evs).
Proof.
  intros He Hx. split_and!; try done.
  - split_and!; try done. intros e' [= <-]. apply He.
Qed.

Lemma absorb_pools e h : pools (p_engine (absorb e h)) = pools e.
Proof. unfold absorb. by destruct (engine (hctx h)). Qed.

(** A call from the timer thread is safe, and next in the lifecycle; it leaves no
    trap behind unless it failed with one. *)
Lemma tick_call_safe wk n j k s fn args t :
  ok_exec M n s -> reached j (x_events s) -> stage fn args = k -> precedes j k -> 0 <= n -> n + b < 4294967295 ->
  exists s' t', tick_call (P := P) wk s fn args t = Done (s', t') /\ ok_exec M (n + b) s' /\
    reached k (x_events s') /\
    (export_func (x_inst s) fn = true ->
     (forall x args h, (finish x fn args h).2 = None -> wk_trap wk fn = false) -> t' = Null).
Proof.
  pose proof (@budget_nonneg_b _ _ _ _ _ M b B) as Hb0. intros Hs Hr Hk Hp Hn Hb. unfold tick_call.
  destruct (call_func_safe (P := on_worker P) n s fn args Hs Hn Hb) as (s' & r & E & Hs' & _).
  pose proof (call_func_reached (P := on_worker P) j k s fn args Hr Hk Hp _ E) as Hr'. cbn [fst] in Hr'.
  rewrite <- call_func_worker in E. destruct (export_func (x_inst s) fn) eqn:Ex; cbn [negb].
  - rewrite E. cbn [obind]. eexists _, _. split; [done|]. split; [done|]. split; [done|]. intros _ Ht.
    unfold call_wasm_func in E. rewrite Ex in E. cbn [negb] in E.
    destruct (run_actions _ _) as [h|]; [|done]. cbn [obind] in E.
    specialize (Ht (x_inst s) args (x_host s)). destruct (finish _ _ _ _) as [x r0]. cbn [snd] in Ht.
    injection E as <- <-. destruct r0; [done|]. by rewrite Ht.
  - unfold call_wasm_func in E. rewrite Ex in E. cbn [negb] in E. injection E as <- <-.
    eexists _, _. by split.
Qed.

Lemma tick_end e n s j :
  engine_ok (M := M) e -> ok_exec M n s -> reached j (x_events s) ->
  engine_ok (M := M) (p_engine (absorb e (x_host s))) /\ pools (p_engine (absorb e (x_host s))) = pools e /\
  StronglySorted precedes (stages (x_events s)).
Proof.
  intros He Hs Hr. destruct (absorb_ok e (x_host s) He (proj1 Hs)) as (? & ? & _).
  split; [done|]. split; [apply absorb_pools|]. apply Hr.
Qed.

(** What fails in the round leaves no trap behind for the next one. *)
Definition no_trap (wk : wake) : Prop :=
  (instantiate (wk_inst wk) = None -> wk_inst_trap wk = false) /\
  (forall x args h, (finish x "proxy_on_tick" args h).2 = None -> wk_trap wk "proxy_on_tick" = false).

Lemma tick_round_safe e idx wk :
  engine_ok (M := M) e -> 4 * b < 4294967295 ->
  exists e' running t evs, tick_round (P := P) e idx Null wk = Done (e', running, t, evs) /\
    engine_ok (M := M) e' /\ pools e' = pools e /\ StronglySorted precedes (stages evs) /\
    (no_trap wk -> running = true -> t = Null).
Proof.
  pose proof (@budget_nonneg_b _ _ _ _ _ M b B) as Hb. intros He Hlt. unfold tick_round.
  destruct (store_new (wk_inst wk)); cbn [negb]; [|eexists _, _, _, []; split_and!; try done; constructor].
  destruct (instantiate (wk_inst wk)) as [x|] eqn:Ei.
  2:{ destruct (wk_inst_trap wk) eqn:Et; cbn [trap_delete obind]; eexists _, _, _, _; split_and!; try done; try constructor.
      intros [H _]. by rewrite H in Et. }
  cbn [trap_delete obind]. cbv zeta. set (s0 := Exec _ x _).
  assert (ok_exec M 0 s0) as H0.
  { apply tick_exec_ok; [apply He|]. intros m Hm. by eapply (instantiate_limit (P := on_worker P) (M := M) (b := b)). }
  assert (reached 0 (x_events s0)) as R0 by (split; constructor).
  assert (forall i j, (i < j)%nat -> precedes i j) as Hlt' by (unfold precedes; lia).
  destruct (tick_call_safe wk 0 0 1 s0 "_initialize" [] Null H0 R0 eq_refl) as (s1 & t1 & -> & H1 & R1 & _);
    [by apply Hlt'; lia|lia..|]. cbn [obind].
  destruct (tick_call_safe wk _ 1 2 s1 "proxy_on_context_create" [1; 0] t1 H1 R1 eq_refl)
    as (s2 & t2 & -> & H2 & R2 & _); [by apply Hlt'; lia|lia..|]. cbn [obind].
  destruct (tick_call_safe wk _ 2 3 s2 "proxy_on_vm_start" [1; 0] t2 H2 R2 eq_refl)
    as (s3 & t3 & -> & H3 & R3 & _); [by apply Hlt'; lia|lia..|]. cbn [obind].
  destruct (export_func (x_inst s3) "proxy_on_tick") eqn:Ex; cbn [negb].
  - destruct (tick_call_safe wk _ 3 12 s3 "proxy_on_tick" [1] t3 H3 R3 eq_refl) as (s4 & t4 & -> & H4 & R4 & Ht);
      [by apply Hlt'; lia|lia..|]. cbn [obind]. eexists _, _, _, _. split; [done|].
    destruct (tick_end e _ s4 _ He H4 R4) as (? & ? & ?). split_and!; try done. intros [_ Hf] _. by apply Ht.
  - destruct (tick_end e _ s3 _ He H3 R3) as (? & ? & ?). by eexists _, _, _, _.
Qed.

End Safety.

(** ** The variable [trap] *)

Section Trap.
Context `{V : Varnish} `{W : Wasm} `{P : !Program}.

(** The first successful instantiation of the thread tests [trap] before anything
    was stored in it: if it is not NULL by chance, it is deleted. *)
Lemma uninitialized_trap_faults e idx wk l x :
  wk_running wk = true -> store_new (wk_inst wk) = true -> instantiate (wk_inst wk) = Some x ->
  tick_timer_thread e idx Stale (wk :: l) = Fault.
Proof. intros Hr Hs Hi. cbn [tick_timer_thread]. unfold tick_round. by rewrite Hr, Hs, Hi. Qed.

(** A [proxy_on_tick] that traps leaves the deleted trap in the variable, and the
    next round deletes it once more. *)
Lemma trapped_tick_faults e idx t wk1 wk2 l x y :
  wk_running wk1 = true -> store_new (wk_inst wk1) = true -> instantiate (wk_inst wk1) = Some x ->
  wk_running wk2 = true -> store_new (wk_inst wk2) = true -> instantiate (wk_inst wk2) = Some y ->
  (forall x, export_func x "proxy_on_tick" = true) ->
  (forall x args h, (finish x "proxy_on_tick" args h).2 = None) -> wk_trap wk1 "proxy_on_tick" = true ->
  tick_timer_thread e idx t (wk1 :: wk2 :: l) = Fault.
Proof.
  intros Hr1 Hs1 Hi1 Hr2 Hs2 Hi2 Hx Hf Ht.
  enough (forall e' r t' evs, tick_round e idx t wk1 = Done (e', r, t', evs) -> r = true /\ t' = Stale) as H.
  { cbn [tick_timer_thread]. rewrite Hr1. cbn [negb].
    destruct (tick_round e idx t wk1) as [[[[e' r] t'] evs]|] eqn:E; [|done].
    destruct (H _ _ _ _ eq_refl) as [-> ->]. cbn [obind]. eapply uninitialized_trap_faults; eassumption. }
  intros e' r t' evs. unfold tick_round. rewrite Hs1, Hi1. cbn [negb].
  destruct t; cbn [trap_delete obind]; [|done]. cbv zeta.
  destruct (tick_call _ _ "_initialize" _ _) as [[s1 t1]|]; [|done]. cbn [obind].
  destruct (tick_call _ _ "proxy_on_context_create" _ _) as [[s2 t2]|]; [|done]. cbn [obind].
  destruct (tick_call _ _ "proxy_on_vm_start" _ _) as [[s3 t3]|]; [|done]. cbn [obind].
  rewrite Hx. cbn [negb]. unfold tick_call. rewrite Hx. cbn [negb]. unfold call_wasm_func. rewrite Hx. cbn [negb].
  destruct (run_actions _ _) as [h|]; [|done]. cbn [obind].
  specialize (Hf (x_inst s3) [1] (x_host s3)). destruct (finish _ _ _ _) as [x' r']. cbn [snd] in Hf. subst r'.
  rewrite Ht. cbn [obind]. by intros [= <- <- <- <-].
Qed.
End Trap.

(** ** Witness *)

(** The module of Execute.v, whose calls now come from the thread of timer 0. *)
Definition tick_world (x : world) : world :=
  let e := wenv x in World (Env (ok e) (thread_ok e) (Some 0) (tv_sec e) (tv_nsec e) (uninit e)) (wnet x).

Definition tick_guest : Program (W := filter_wasm) := {|
  script := fun x fn args h =>
    if String.eqb fn "proxy_on_tick"
    then map (fun q => CallImport (GuestCall (g_import q) (g_args q) (tick_world (g_world q)))) session
    else [];
  finish := fun x fn args h => ((Some (str "a:80" ++ replicate 8 0) : @inst filter_wasm), Some 0);
  with_memory := fun x m => (m : @inst filter_wasm)
|}.

#[export] Instance tick_guest_limit :
  ProgramLimit (G := deaf_guest) (VV := plain_vars) (P := on_worker tick_guest) 65536 70000.
Proof.
  pose proof session_possible as Hs. split.
  - lia.
  - intros x fn args h. cbn [script on_worker tick_guest]. split_if; [exact Hs|constructor].
  - intros x fn args h. cbn [script on_worker tick_guest]. split_if; by_decide.
  - reflexivity.
  - intros x fn args h m [= <-]. by_decide.
  - intros k x m [= <-] [= <-]. by_decide.
Defined.

(** A round in which what fails fails with a trap. *)
Definition waking (running : bool) (k : nat) : wake := Wake running k true (fun _ => true).

