(* ===== verification/Heap.v ===== *)
(** * The C heap: allocation, loads and stores, and a logic for them

    A program over the heap is a function of the heap that is [Done] with a
    value and the heap afterwards, or faults: a NULL or dangling pointer is
    dereferenced, a block is freed twice, a lock is taken twice.  The
    assertions about the heap form a linear separation logic, an instance of
    Iris's interface, so the proofs use its proof mode; being linear, an
    assertion accounts for every block, and a program whose postcondition is
    [emp] has freed all it allocated. *)

From iris.proofmode Require Import proofmode.
From S2P Require Import Prelude.

(** ** Programs *)

(** A pointer; [None] is NULL. *)
Abbreviation ptr := (option positive).

Section programs.
Context {B : Type}.

Abbreviation heap := (gmap positive B).

Definition prog (A : Type) : Type := heap -> outcome (A * heap).

Definition ret {A} (a : A) : prog A := fun h => Done (a, h).

Definition bind {A C} (m : prog A) (k : A -> prog C) : prog C :=
  fun h => let! '(a, h1) := m h in k a h1.

(** A computation without access to the heap. *)
Definition pure_ {A} (c : outcome A) : prog A :=
  fun h => let! a := c in Done (a, h).

Definition fault {A} : prog A := fun _ => Fault.

(** [malloc] or [calloc] of an object with contents [b]; [ok] says whether the
    allocation succeeds. *)
Definition alloc (ok : bool) (b : B) : prog ptr :=
  fun h =>
    if ok then let l := fresh (dom h) in Done (Some l, <[l := b]> h)
    else Done (None, h).

(** [free]: NULL is allowed, a pointer to no block is not. *)
Definition free (p : ptr) : prog unit :=
  fun h =>
    match p with
    | None => Done (tt, h)
    | Some l => match h !! l with Some _ => Done (tt, delete l h) | None => Fault end
    end.

Definition load (p : ptr) : prog B :=
  fun h =>
    match p with
    | None => Fault
    | Some l => match h !! l with Some b => Done (b, h) | None => Fault end
    end.

Definition store (p : ptr) (b : B) : prog unit :=
  fun h =>
    match p with
    | None => Fault
    | Some l => match h !! l with Some _ => Done (tt, <[l := b]> h) | None => Fault end
    end.

(** The number of blocks: the fuel of a loop that follows pointers, which
    visits a block at most once when the blocks form a list. *)
Definition heap_size : prog nat := fun h => Done (size h, h).

Definition is_null (p : ptr) : bool := match p with None => true | Some _ => false end.

(** [for (x = p; x != NULL; x = x->next) if (test(x)) break;] and the [x] it
    ends with. *)
Fixpoint list_search (test : ptr -> prog bool) (next : ptr -> prog ptr) (fuel : nat) (p : ptr)
    : prog ptr :=
  if is_null p then ret None
  else
    match fuel with
    | O => fun _ => Fault
    | S fuel =>
        bind (test p) (fun m => if m then ret p
          else bind (next p) (fun n => list_search test next fuel n))
    end.

(** [while (x != NULL) { next = x->next; ...; x = next; }], where the body
    releases [x] and returns [next]. *)
Fixpoint list_release (body : ptr -> prog ptr) (fuel : nat) (p : ptr) : prog unit :=
  if is_null p then ret tt
  else
    match fuel with
    | O => fun _ => Fault
    | S fuel => bind (body p) (fun n => list_release body fuel n)
    end.

End programs.

#[global] Arguments prog : clear implicits.

Declare Scope prog_scope.
Delimit Scope prog_scope with prog.
Notation "x <- m ; k" := (bind m (fun x => k%prog))
  (at level 100, m at next level, right associativity) : prog_scope.
Notation "m ;; k" := (bind m (fun _ => k%prog))
  (at level 100, right associativity) : prog_scope.
Open Scope prog_scope.

(** ** Assertions *)

Record hprop (B : Type) := HProp { holds_in : gmap positive B -> Prop }.
Arguments HProp {B} _.
Arguments holds_in {B} _ _.

Section assertions.
Context {B : Type}.
Implicit Types (P Q : hprop B) (h : gmap positive B).

#[export] Instance hprop_equiv : Equiv (hprop B) :=
  fun P Q => forall h, holds_in P h <-> holds_in Q h.

#[export] Instance hprop_equivalence : Equivalence (≡@{hprop B}).
Proof. split; repeat intro; unfold equiv, hprop_equiv in *; naive_solver. Qed.

Canonical Structure hpropO := discreteO (hprop B).

Record h_entails P Q : Prop := HEntails { entails_in : forall h, holds_in P h -> holds_in Q h }.
Definition h_emp : hprop B := HProp (fun h => h = ∅).
Definition h_pure (φ : Prop) : hprop B := HProp (fun _ => φ).
Definition h_and P Q : hprop B := HProp (fun h => holds_in P h /\ holds_in Q h).
Definition h_or P Q : hprop B := HProp (fun h => holds_in P h \/ holds_in Q h).
Definition h_impl P Q : hprop B := HProp (fun h => holds_in P h -> holds_in Q h).
Definition h_forall {A} (Φ : A -> hprop B) : hprop B := HProp (fun h => forall a, holds_in (Φ a) h).
Definition h_exist {A} (Φ : A -> hprop B) : hprop B := HProp (fun h => exists a, holds_in (Φ a) h).
Definition h_sep P Q : hprop B :=
  HProp (fun h => exists h1 h2, h = h1 ∪ h2 /\ h1 ##ₘ h2 /\ holds_in P h1 /\ holds_in Q h2).
Definition h_wand P Q : hprop B :=
  HProp (fun h => forall h', h ##ₘ h' -> holds_in P h' -> holds_in Q (h ∪ h')).
Definition h_persistently P : hprop B := h_pure (h_entails h_emp P).

Lemma hprop_bi_mixin :
  BiMixin h_entails h_emp h_pure h_and h_or h_impl (@h_forall) (@h_exist) h_sep h_wand.
Proof.
  split.
  - split; [by intros P|]. intros P Q R [H1] [H2]. split. auto.
  - intros P Q. split.
    + intros H. by split; split; intros h; apply H.
    + intros [[H1] [H2]] h. by split; auto.
  - intros n φ1 φ2 H h. exact H.
  - intros n P1 P2 HP Q1 Q2 HQ h. cbn. by rewrite (HP h) (HQ h).
  - intros n P1 P2 HP Q1 Q2 HQ h. cbn. by rewrite (HP h) (HQ h).
  - intros n P1 P2 HP Q1 Q2 HQ h. cbn. by rewrite (HP h) (HQ h).
  - intros A n Φ Ψ H h. cbn. split; intros HΦ a; by apply (H a).
  - intros A n Φ Ψ H h. cbn. split; intros [a HΦ]; exists a; by apply (H a).
  - intros n P1 P2 HP Q1 Q2 HQ h. cbn.
    split; intros (h1 & h2 & ? & ? & ? & ?); exists h1, h2; split_and!; try done;
      first [by apply HP|by apply HQ].
  - intros n P1 P2 HP Q1 Q2 HQ h. cbn.
    split; intros H h' Hd Hp; apply HQ, H; try done; by apply HP.
  - intros φ P Hφ. by split.
  - intros φ P H. split. intros h Hφ. by apply (H Hφ).
  - intros P Q. split. by intros h [].
  - intros P Q. split. by intros h [].
  - intros P Q R [HQ] [HR]. split. cbn. auto.
  - intros P Q. split. cbn. auto.
  - intros P Q. split. cbn. auto.
  - intros P Q R [HP] [HQ]. split. intros h [|]; auto.
  - intros P Q R [H]. split. intros h HP HQ. by apply H.
  - intros P Q R [H]. split. intros h [HP HQ]. by apply H.
  - intros A P Ψ H. split. intros h HP a. by apply (H a).
  - intros A Ψ a. split. intros h H. apply H.
  - intros A Ψ a. split. intros h H. by exists a.
  - intros A Φ Q H. split. intros h [a Ha]. by apply (H a).
  - intros P P' Q Q' [HP] [HQ]. split. intros h (h1 & h2 & ? & ? & ? & ?).
    exists h1, h2. cbn. auto.
  - intros P. split. intros h HP. exists ∅, h.
    split_and!; try done; [by rewrite (left_id_L ∅ (∪))|apply map_disjoint_empty_l].
  - intros P. split. intros h (h1 & h2 & -> & ? & -> & ?). by rewrite (left_id_L ∅ (∪)).
  - intros P Q. split. intros h (h1 & h2 & -> & ? & ? & ?). exists h2, h1.
    split_and!; try done. by apply map_union_comm.
  - intros P Q R. split. intros h (h12 & h3 & -> & Hd & (h1 & h2 & -> & ? & ? & ?) & ?).
    apply map_disjoint_union_l in Hd as [Hd1 Hd2].
    exists h1, (h2 ∪ h3). split_and!; try done.
    + by rewrite (assoc_L (∪)).
    + by apply map_disjoint_union_r.
    + exists h2, h3. by split_and!.
  - intros P Q R [H]. split. intros h HP h' Hd HQ. apply H. exists h, h'. by split_and!.
  - intros P Q R [H]. split. intros h (h1 & h2 & -> & Hd & HP & HQ). by apply (H h1).
Qed.

Lemma hprop_bi_persistently_mixin :
  BiPersistentlyMixin h_entails h_emp h_and (@h_exist) h_sep h_persistently.
Proof.
  eapply bi_persistently_mixin_discrete, hprop_bi_mixin; [done| |done].
  intros A Φ [H]. destruct (H ∅ eq_refl) as [a Ha]. exists a. split. by intros h ->.
Qed.

Lemma hprop_bi_later_mixin :
  BiLaterMixin h_entails h_pure h_or h_impl (@h_forall) (@h_exist) h_sep h_persistently id.
Proof. eapply bi_later_mixin_id, hprop_bi_mixin. done. Qed.

Canonical Structure hpropI : bi :=
  {| bi_ofe_mixin := ofe_mixin_of (hprop B); bi_bi_mixin := hprop_bi_mixin;
     bi_bi_persistently_mixin := hprop_bi_persistently_mixin;
     bi_bi_later_mixin := hprop_bi_later_mixin |}.

#[export] Instance hprop_pure_forall : BiPureForall hpropI.
Proof. intros A φ. by split. Qed.

(** The block at [l] holds [b], and nothing else is owned. *)
Definition pointsto (l : positive) (b : B) : hpropI := HProp (fun h => h = {[ l := b ]}).

(** [wp m Φ]: from the owned blocks, whatever else the heap holds, [m] does not
    fault, returns some [a] and owned blocks for which [Φ a] holds, and leaves
    the rest of the heap as it was. *)
Definition wp {A} (m : prog B A) (Φ : A -> hpropI) : hpropI :=
  HProp (fun h => forall hf, h ##ₘ hf ->
    exists a h', m (h ∪ hf) = Done (a, h' ∪ hf) /\ h' ##ₘ hf /\ holds_in (Φ a) h').

End assertions.

#[global] Arguments hpropI : clear implicits.
Notation "l ↦ b" := (pointsto l b) (at level 20) : bi_scope.

(** ** Rules *)

Section rules.
Context {B : Type}.
Implicit Types (P Q R : hpropI B) (b : B).

Lemma wp_ret {A} (a : A) (Φ : A -> hpropI B) : Φ a ⊢ wp (ret a) Φ.
Proof. split. intros h H hf Hd. by exists a, h. Qed.

Lemma wp_bind {A C} (m : prog B A) (k : A -> prog B C) (Φ : C -> hpropI B) :
  wp m (fun a => wp (k a) Φ) ⊢ wp (bind m k) Φ.
Proof.
  split. intros h H hf Hd. destruct (H hf Hd) as (a & h1 & E & Hd1 & H1).
  destruct (H1 hf Hd1) as (c & h2 & E2 & Hd2 & H2). exists c, h2. split; [|done].
  unfold bind. rewrite E. exact E2.
Qed.

Lemma wp_wand {A} (m : prog B A) (Φ Ψ : A -> hpropI B) :
  wp m Φ -∗ (∀ a, Φ a -∗ Ψ a) -∗ wp m Ψ.
Proof.
  apply bi.entails_wand, bi.wand_intro_r. split. intros h (h1 & h2 & -> & Hd & Hwp & Hw) hf Hf.
  apply map_disjoint_union_l in Hf as [Hf1 Hf2].
  destruct (Hwp (h2 ∪ hf)) as (a & h' & E & Hd' & HΦ); [by apply map_disjoint_union_r|].
  apply map_disjoint_union_r in Hd' as [Hd1 Hd2].
  exists a, (h' ∪ h2). split_and!.
  - by rewrite -!(assoc_L (∪)).
  - by apply map_disjoint_union_l.
  - rewrite map_union_comm; [|done]. by apply (Hw a).
Qed.

Lemma wp_pure {A} (c : outcome A) a (Φ : A -> hpropI B) :
  c = Done a -> Φ a ⊢ wp (pure_ c) Φ.
Proof. intros ->. split. intros h H hf Hd. by exists a, h. Qed.

Lemma wp_alloc_ok b (Φ : ptr -> hpropI B) : (∀ l, l ↦ b -∗ Φ (Some l)) ⊢ wp (alloc true b) Φ.
Proof.
  split. intros h H hf Hd. set (l := fresh (dom (h ∪ hf))).
  assert ((h ∪ hf) !! l = None) as Hl by (apply not_elem_of_dom, is_fresh).
  apply lookup_union_None in Hl as [Hl1 Hl2].
  exists (Some l), (h ∪ {[ l := b ]}). split_and!.
  - unfold alloc. fold l. rewrite insert_union_l insert_union_singleton_r //.
  - apply map_disjoint_union_l. split; [done|]. by apply map_disjoint_singleton_l.
  - apply (H l); [|done]. by apply map_disjoint_singleton_r.
Qed.

Lemma wp_alloc_fail b (Φ : ptr -> hpropI B) : Φ None ⊢ wp (alloc false b) Φ.
Proof. split. intros h H hf Hd. by exists None, h. Qed.

(** What the operations on a block have in common: the block is in the heap. *)
Lemma owned_lookup l b R h hf :
  holds_in (l ↦ b ∗ R)%I h -> h ##ₘ hf ->
  exists hr, h = <[ l := b ]> hr /\ hr !! l = None /\ hf !! l = None /\ hr ##ₘ hf /\
    holds_in R hr.
Proof.
  intros (h1 & hr & -> & Hd & Hh1 & HR) Hf. cbn in Hh1. subst h1.
  apply map_disjoint_union_l in Hf as [Hf1 Hf2].
  apply map_disjoint_singleton_l in Hd, Hf1. exists hr. split_and!; try done.
  symmetry. apply insert_union_singleton_l.
Qed.

Lemma wp_load l b (Φ : B -> hpropI B) : l ↦ b -∗ (l ↦ b -∗ Φ b) -∗ wp (load (Some l)) Φ.
Proof.
  apply bi.entails_wand, bi.wand_intro_r. split. intros h H hf Hd.
  destruct (owned_lookup _ _ _ _ _ H Hd) as (hr & -> & Hl & Hlf & Hd' & Hr).
  exists b, (<[ l := b ]> hr). unfold load. split_and!; [|done|].
  - rewrite (lookup_union_Some_l _ _ l b); [done|]. by rewrite lookup_insert_eq.
  - rewrite insert_union_singleton_r //. apply Hr; [|done]. by apply map_disjoint_singleton_r.
Qed.

Lemma wp_store l b b' (Φ : unit -> hpropI B) :
  l ↦ b -∗ (l ↦ b' -∗ Φ tt) -∗ wp (store (Some l) b') Φ.
Proof.
  apply bi.entails_wand, bi.wand_intro_r. split. intros h H hf Hd.
  destruct (owned_lookup _ _ _ _ _ H Hd) as (hr & -> & Hl & Hlf & Hd' & Hr).
  exists tt, (<[ l := b' ]> hr). unfold store. split_and!.
  - rewrite (lookup_union_Some_l _ _ l b); [|by rewrite lookup_insert_eq].
    by rewrite insert_union_l insert_insert_eq.
  - by apply map_disjoint_insert_l.
  - rewrite insert_union_singleton_r //. apply Hr; [|done]. by apply map_disjoint_singleton_r.
Qed.

Lemma wp_free l b (Φ : unit -> hpropI B) : l ↦ b -∗ Φ tt -∗ wp (free (Some l)) Φ.
Proof.
  apply bi.entails_wand, bi.wand_intro_r. split. intros h H hf Hd.
  destruct (owned_lookup _ _ _ _ _ H Hd) as (hr & -> & Hl & Hlf & Hd' & Hr).
  exists tt, hr. unfold free. split_and!; [|done|done].
  rewrite (lookup_union_Some_l _ _ l b); [|by rewrite lookup_insert_eq].
  rewrite -insert_union_l delete_insert_id //. by apply lookup_union_None.
Qed.

Lemma wp_free_null (Φ : unit -> hpropI B) : Φ tt ⊢ wp (free None) Φ.
Proof. split. intros h H hf Hd. by exists tt, h. Qed.

(** The fuel of a loop over blocks that [P] owns at least [n] of. *)
Definition owns_blocks P (n : nat) : Prop := forall h, holds_in P h -> (n <= size h)%nat.

Lemma wp_heap_size P n (Φ : nat -> hpropI B) :
  owns_blocks P n -> P -∗ (∀ m, <affine> ⌜(n <= m)%nat⌝ -∗ P -∗ Φ m) -∗ wp heap_size Φ.
Proof.
  intros Hn. apply bi.entails_wand, bi.wand_intro_r.
  split. intros h (h1 & h2 & -> & Hd & HP & HΦ) hf Hf.
  exists (size ((h1 ∪ h2) ∪ hf)), (h1 ∪ h2). split_and!; [done|done|].
  assert (holds_in (<affine> ⌜(n <= size ((h1 ∪ h2) ∪ hf))%nat⌝ : hpropI B)%I ∅) as Hle.
  { split; [done|]. rewrite /=. specialize (Hn h1 HP).
    rewrite !map_size_disj_union //. lia. }
  pose proof (HΦ (size ((h1 ∪ h2) ∪ hf)) ∅ (map_disjoint_empty_r _) Hle) as H.
  rewrite (right_id_L ∅ (∪)) in H. revert H. generalize (size (h1 ∪ h2 ∪ hf)).
  intros sz H. rewrite (map_union_comm h1 h2 Hd). by apply H.
Qed.

Lemma owns_blocks_pointsto l b R n :
  owns_blocks R n -> owns_blocks (l ↦ b ∗ R)%I (S n).
Proof.
  intros Hn h (h1 & h2 & -> & Hd & Hh1 & HR). cbn in Hh1. subst h1. specialize (Hn h2 HR).
  rewrite map_size_disj_union // map_size_singleton. lia.
Qed.

Lemma owns_blocks_sep_r P R n : owns_blocks R n -> owns_blocks (P ∗ R)%I n.
Proof.
  intros Hn h (h1 & h2 & -> & Hd & HP & HR). specialize (Hn h2 HR).
  rewrite map_size_disj_union //. lia.
Qed.

Lemma owns_blocks_mono P R n : (P ⊢ R) -> owns_blocks R n -> owns_blocks P n.
Proof. intros [HPR] Hn h HP. by apply Hn, HPR. Qed.

(** From the logic back to the program: whatever else is in the heap. *)
Lemma wp_sound {A} (m : prog B A) P (Φ : A -> hpropI B) h hf :
  (P ⊢ wp m Φ) -> holds_in P h -> h ##ₘ hf ->
  exists a h', m (h ∪ hf) = Done (a, h' ∪ hf) /\ h' ##ₘ hf /\ holds_in (Φ a) h'.
Proof. intros HP Hh Hd. by apply (entails_in _ _ HP h Hh). Qed.

(** A program that owns nothing before and after leaves the heap as it was. *)
Lemma wp_closed {A} (m : prog B A) (Q : A -> Prop) h :
  (emp ⊢ wp m (fun a => <affine> ⌜Q a⌝)) -> exists a, m h = Done (a, h) /\ Q a.
Proof.
  intros H. destruct (wp_sound m emp%I _ ∅ h H eq_refl (map_disjoint_empty_l _))
    as (a & h' & E & Hd & [He Hq]).
  rewrite (left_id_L ∅ (∪)) in E. assert (h' = ∅) as -> by exact He.
  rewrite (left_id_L ∅ (∪)) in E. by exists a.
Qed.

End rules.

(** ** Linked lists *)

Section lists.
Context {B A : Type} (node : positive -> A -> ptr -> hpropI B).

(** The nodes [xs] linked from [p] to [q]; [node l x n] owns the node at [l]
    with contents [x] and successor [n]. *)
Fixpoint lseg (p : ptr) (xs : list A) (q : ptr) : hpropI B :=
  match xs with
  | [] => <affine> ⌜p = q⌝
  | x :: xs => ∃ l next, <affine> ⌜p = Some l⌝ ∗ node l x next ∗ lseg next xs q
  end.

Lemma lseg_snoc p xs l x q : lseg p xs (Some l) -∗ node l x q -∗ lseg p (xs ++ [x]) q.
Proof.
  revert p. induction xs as [|y xs IH]; intros p; simpl.
  - iIntros "-> Hn". iExists l, q. by iFrame.
  - iIntros "(%l' & %n & -> & Hy & Hs) Hn". iExists l', n. iFrame "Hy". iSplitR; [done|].
    iApply (IH with "Hs Hn").
Qed.

(** A list owns a block per node: the heap is large enough a fuel. *)
Context (Hnode : forall l x n, owns_blocks (node l x n) 1).

Lemma lseg_blocks p xs q : owns_blocks (lseg p xs q) (length xs).
Proof.
  revert p. induction xs as [|x xs IH]; intros p h; simpl; [lia|].
  intros (l & n & h1 & h2 & -> & Hd & [H1 _] & h3 & h4 & -> & Hd2 & Hn & Hs).
  apply map_disjoint_union_r in Hd as [Hd3 Hd4].
  specialize (Hnode _ _ _ _ Hn). specialize (IH _ _ Hs).
  rewrite !map_size_disj_union //; [lia|]. by apply map_disjoint_union_r.
Qed.

Lemma wp_list_fuel p xs Φ :
  lseg p xs None -∗ (∀ n, <affine> ⌜(length xs <= n)%nat⌝ -∗ lseg p xs None -∗ Φ n) -∗
  wp heap_size Φ.
Proof. apply (wp_heap_size _ _ _ (lseg_blocks p xs None)). Qed.

(** A search stops at the first node the test [f] accepts. *)
Context (f : A -> bool).

Definition first_at (xs xs1 : list A) (x : A) (xs2 : list A) : Prop :=
  xs = xs1 ++ x :: xs2 /\ Forall (fun y => f y = false) xs1 /\ f x = true.

Lemma wp_list_search test next fuel p xs Φ :
  (forall l x n Φ, node l x n -∗ (node l x n -∗ Φ (f x)) -∗ wp (test (Some l)) Φ) ->
  (forall l x n Φ, node l x n -∗ (node l x n -∗ Φ n) -∗ wp (next (Some l)) Φ) ->
  (length xs <= fuel)%nat ->
  lseg p xs None -∗
  ((<affine> ⌜Forall (fun y => f y = false) xs⌝ -∗ lseg p xs None -∗ Φ None) ∧
   (∀ l x n xs1 xs2, <affine> ⌜first_at xs xs1 x xs2⌝ -∗ node l x n -∗
      (∀ x', node l x' n -∗ lseg p (xs1 ++ x' :: xs2) None) -∗ Φ (Some l))) -∗
  wp (list_search test next fuel p) Φ.
Proof.
  intros Htest Hnext. revert p xs Φ.
  induction fuel as [|fuel IH]; intros p xs Φ Hf; iIntros "Hc HΦ";
    destruct xs as [|x xs]; simpl in Hf; try lia; simpl.
  1,2: iDestruct "Hc" as %->; iApply wp_ret; iDestruct "HΦ" as "[HΦ _]"; by iApply "HΦ".
  iDestruct "Hc" as (l n) "(-> & Hx & Hc)". simpl.
  iApply wp_bind. iApply (Htest with "Hx"). iIntros "Hx". destruct (f x) eqn:Ef.
  - iApply wp_ret. iDestruct "HΦ" as "[_ HΦ]".
    iApply ("HΦ" $! l x n [] xs with "[%] Hx"); [by repeat split|].
    iIntros (x') "Hx". iExists l, n. by iFrame.
  - iApply wp_bind. iApply (Hnext with "Hx"). iIntros "Hx".
    iApply (IH with "Hc"); [lia|]. iSplit.
    + iIntros "%Hn Hc". iDestruct "HΦ" as "[HΦ _]". iApply "HΦ"; [iPureIntro; by constructor|].
      iExists l, n. by iFrame.
    + iIntros (l' x' n' xs1 xs2) "%Hfnd Hx' Hback". iDestruct "HΦ" as "[_ HΦ]".
      destruct Hfnd as (-> & Hall & Hx').
      iApply ("HΦ" $! l' x' n' (x :: xs1) xs2 with "[%] Hx'").
      { split_and!; [done|by constructor|done]. }
      iIntros (x2) "Hx2". iExists l, n. iFrame "Hx". iSplitR; [done|]. by iApply "Hback".
Qed.

Lemma wp_list_release body fuel p xs Φ :
  (forall l x n Φ, node l x n -∗ Φ n -∗ wp (body (Some l)) Φ) ->
  (length xs <= fuel)%nat -> lseg p xs None -∗ Φ tt -∗ wp (list_release body fuel p) Φ.
Proof.
  intros Hbody. revert p xs. induction fuel as [|fuel IH]; intros p xs Hf; iIntros "Hc HΦ";
    destruct xs as [|x xs]; simpl in Hf; try lia; simpl.
  1,2: iDestruct "Hc" as %->; by iApply wp_ret.
  iDestruct "Hc" as (l n) "(-> & Hx & Hc)". simpl.
  iApply wp_bind. iApply (Hbody with "Hx"). iApply (IH with "Hc HΦ"). lia.
Qed.

End lists.
