(* ===== verification/SharedHeap.v ===== *)
(** * Shared data as C keeps it: pointers, malloc and free
    (src/proxy_wasm_shared.c)

    [SharedData] models the table as a list of chains.  Here the same functions
    act on the heap: a table block with 64 bucket pointers and its lock, an
    entry block per key linked by [next], and a block for each key and value.
    The functions are proved to compute what those of [SharedData] compute,
    without a fault, and to own exactly the blocks the table needs. *)

From iris.proofmode Require Import proofmode.
From S2P Require Import Prelude Mem SharedData SharedQueue Metrics Heap.

(** ** Blocks *)

(** [struct vwasm_shared_entry] *)
Record c_entry := CEntry {
  ce_key : ptr;
  ce_value : ptr;
  ce_value_len : Z;
  ce_cas : Z;
  ce_next : ptr
}.

(** [struct vwasm_shared_data]; [ct_locked] is the state of the lock. *)
Record c_table := CTable { ct_buckets : list ptr; ct_locked : bool }.

(** [struct vwasm_queue_msg] *)
Record c_msg := CMsg { cm_data : ptr; cm_len : Z; cm_next : ptr }.

(** [struct vwasm_queue] *)
Record c_queue := CQueue {
  cq_vm_id : ptr;
  cq_name : ptr;
  cq_id : Z;
  cq_head : ptr;
  cq_tail : ptr;
  cq_depth : Z;
  cq_next : ptr
}.

(** [struct vwasm_queue_store] *)
Record c_store := CStore { cs_queues : ptr; cs_next_id : Z; cs_locked : bool }.

Inductive block :=
| BBytes (b : bytes)
| BEntry (e : c_entry)
| BTable (t : c_table)
| BMsg (m : c_msg)
| BQueue (q : c_queue)
| BStore (s : c_store)
| BMetrics (s : metric_store).

(** Typed loads: a block of another type is a fault. *)
Definition load_bytes (p : ptr) : prog block bytes :=
  b <- load p; match b with BBytes v => ret v | _ => fault end.
Definition load_entry (p : ptr) : prog block c_entry :=
  b <- load p; match b with BEntry e => ret e | _ => fault end.
Definition load_table (p : ptr) : prog block c_table :=
  b <- load p; match b with BTable t => ret t | _ => fault end.

(** ** Helpers *)

(** [strlen(s) == n && memcmp(s, key, n) == 0] on the block of [s]; [strlen]
    reads up to a NUL that must be inside the block. *)
Definition c_key_eq (p : ptr) (key : bytes) : prog block bool :=
  b <- load_bytes p;
  if strlen b =? len b then fault
  else if strlen b =? len key then
    c <- pure_ (rd b 0 (len key));
    ret (bytes_eqb c key)
  else ret false.

(** [malloc(n)] and, when it succeeds, the [memcpy] of [n] bytes that fills it. *)
Definition malloc_copy (ok : bool) (src : bytes) (n : Z) : prog block ptr :=
  if ok then c <- pure_ (rd src 0 n); alloc true (BBytes c)
  else alloc false (BBytes []).

(** The lock of the table; taking it twice or releasing it unheld is a fault. *)
Definition sd_lock (sd : ptr) : prog block unit :=
  t <- load_table sd;
  if ct_locked t then fault else store sd (BTable (CTable (ct_buckets t) true)).

Definition sd_unlock (sd : ptr) : prog block unit :=
  t <- load_table sd;
  if ct_locked t then store sd (BTable (CTable (ct_buckets t) false)) else fault.

(** [sd->buckets[i]] *)
Definition sd_bucket (sd : ptr) (i : nat) : prog block ptr :=
  t <- load_table sd;
  match ct_buckets t !! i with Some p => ret p | None => fault end.

Definition sd_set_bucket (sd : ptr) (i : nat) (p : ptr) : prog block unit :=
  t <- load_table sd;
  if (i <? length (ct_buckets t))%nat
  then store sd (BTable (CTable (<[i := p]> (ct_buckets t)) (ct_locked t)))
  else fault.

(** ** Operations *)

Definition c_shared_data_new (ok : oracle) (lock_ok : bool) : prog block ptr :=
  sd <- alloc (ok 0%nat) (BTable (CTable (replicate (Z.to_nat VWASM_SHARED_DATA_BUCKETS) None) false));
  if is_null sd then ret None
  else if negb lock_ok then free sd;; ret None
  else ret sd.

(** The body of the [while] loop of [vwasm_shared_data_destroy]. *)
Definition c_free_entry (entry : ptr) : prog block ptr :=
  e <- load_entry entry;
  free (ce_key e);;
  free (ce_value e);;
  free entry;;
  ret (ce_next e).

(** The [for] loop: the [n] buckets from [i] on. *)
Fixpoint c_free_buckets (n i : nat) (sd : ptr) : prog block unit :=
  match n with
  | O => ret tt
  | S n =>
      entry <- sd_bucket sd i;
      fuel <- heap_size;
      list_release c_free_entry fuel entry;;
      c_free_buckets n (S i) sd
  end.

(** Returns what [*sdp] is afterwards; destroying a held lock is a fault. *)
Definition c_shared_data_destroy (sd : ptr) : prog block ptr :=
  if is_null sd then ret None
  else
    c_free_buckets (Z.to_nat VWASM_SHARED_DATA_BUCKETS) 0 sd;;
    t <- load_table sd;
    if ct_locked t then fault
    else free sd;; ret None.

(** The [for] loops of get and set: their test, and the step. *)
Definition c_entry_test (key : bytes) (entry : ptr) : prog block bool :=
  e <- load_entry entry;
  c_key_eq (ce_key e) key.

Definition c_entry_next (entry : ptr) : prog block ptr :=
  e <- load_entry entry;
  ret (ce_next e).

(** What get and set begin with: the lock, and the search of the bucket. *)
Definition c_lookup (sd : ptr) (key : bytes) : prog block ptr :=
  sd_lock sd;;
  p <- sd_bucket sd (bucket_of key);
  fuel <- heap_size;
  list_search (c_entry_test key) c_entry_next fuel p.

(** [Some (value_out, value_len_out, cas_out)]: returns 0; [None]: returns -1. *)
Definition c_shared_data_get (ok : oracle) (sd : ptr) (key : option bytes)
    : prog block (option (ptr * Z * Z)) :=
  match sd, key with
  | None, _ | _, None | _, Some [] => ret None
  | Some _, Some key =>
      entry <- c_lookup sd key;
      if is_null entry then sd_unlock sd;; ret None
      else
        e <- load_entry entry;
        if (0 <? ce_value_len e) && negb (is_null (ce_value e)) then
          v <- load_bytes (ce_value e);
          value_out <- malloc_copy (ok 0%nat) v (ce_value_len e);
          if is_null value_out then sd_unlock sd;; ret None
          else sd_unlock sd;; ret (Some (value_out, ce_value_len e, ce_cas e))
        else
          sd_unlock sd;; ret (Some (None, 0, ce_cas e))
  end.

(** The body of the update loop for the entry found. *)
Definition c_set_update (sd entry new_val : ptr) (value_len cas : Z) : prog block Z :=
  e <- load_entry entry;
  if negb (cas =? 0) && negb (ce_cas e =? cas) then
    sd_unlock sd;;
    free new_val;;
    ret (-1)
  else
    free (ce_value e);;
    store entry (BEntry (CEntry (ce_key e) new_val value_len (u32 (ce_cas e + 1)) (ce_next e)));;
    sd_unlock sd;;
    ret 0.

(** The code after the loop; the key block gets the key and a NUL. *)
Definition c_set_insert (ok : oracle) (sd : ptr) (key : bytes) (new_val : ptr) (value_len : Z)
    : prog block Z :=
  entry <- alloc (ok 1%nat) (BEntry (CEntry None None 0 0 None));
  if is_null entry then sd_unlock sd;; free new_val;; ret (-2)
  else
    k <- malloc_copy (ok 2%nat) (key ++ [0]) (len key + 1);
    if is_null k then sd_unlock sd;; free new_val;; free entry;; ret (-2)
    else
      next <- sd_bucket sd (bucket_of key);
      store entry (BEntry (CEntry k new_val value_len 1 next));;
      sd_set_bucket sd (bucket_of key) entry;;
      sd_unlock sd;;
      ret 0.

(** The code after the value copy, with the copy in [new_val]. *)
Definition c_set_locked (ok : oracle) (sd : ptr) (key : bytes) (new_val : ptr)
    (value_len cas : Z) : prog block Z :=
  entry <- c_lookup sd key;
  if is_null entry then c_set_insert ok sd key new_val value_len
  else c_set_update sd entry new_val value_len cas.

Definition c_shared_data_set (ok : oracle) (sd : ptr) (key value : option bytes)
    (value_len cas : Z) : prog block Z :=
  match sd, key with
  | None, _ | _, None | _, Some [] => ret (-2)
  | Some _, Some key =>
      if VWASM_SHARED_DATA_MAX_KEY <? len key then ret (-2)
      else if VWASM_SHARED_DATA_MAX_VALUE <? value_len then ret (-2)
      else
        match value with
        | Some v =>
            if 0 <? value_len then
              new_val <- malloc_copy (ok 0%nat) v value_len;
              if is_null new_val then ret (-2)
              else c_set_locked ok sd key new_val value_len cas
            else c_set_locked ok sd key None value_len cas
        | None => c_set_locked ok sd key None value_len cas
        end
  end.

(** * Representation *)

Section representation.
Implicit Types (l : positive) (p : ptr).

(** An allocated copy of [v], or NULL. *)
Definition bytes_at (p : ptr) (v : option bytes) : hpropI block :=
  match p, v with
  | None, None => emp
  | Some l, Some b => l ↦ BBytes b
  | _, _ => False
  end.

(** An entry block with the blocks of its key and value. *)
Definition entry_at (l : positive) (e : entry) (next : ptr) : hpropI block :=
  ∃ k vp, l ↦ BEntry (CEntry (Some k) vp (e_value_len e) (e_cas e) next) ∗
    k ↦ BBytes (e_key e ++ [0]) ∗ bytes_at vp (e_value e).

(** A chain of entries from [p] to NULL. *)
Definition chain_at (p : ptr) (es : list entry) : hpropI block := lseg entry_at p es None.

(** The table and everything it points to. *)
Definition table_at (l : positive) (s : shared_data) (locked : bool) : hpropI block :=
  ∃ ps, <affine> ⌜length ps = 64%nat⌝ ∗ l ↦ BTable (CTable ps locked) ∗
    [∗ list] p;c ∈ ps;buckets s, chain_at p c.

End representation.

#[global] Arguments bytes_at : simpl never.
#[global] Arguments entry_at : simpl never.
#[global] Arguments table_at : simpl never.

(** ** Rules of the typed loads and the helpers *)

Section helpers.
Implicit Types (l : positive) (p : ptr).

Lemma wp_load_bytes l b Φ :
  l ↦ BBytes b -∗ (l ↦ BBytes b -∗ Φ b) -∗ wp (load_bytes (Some l)) Φ.
Proof.
  iIntros "Hl HΦ". iApply wp_bind. iApply (wp_load with "Hl"). iIntros "Hl".
  iApply wp_ret. by iApply "HΦ".
Qed.

Lemma wp_load_entry l e Φ :
  l ↦ BEntry e -∗ (l ↦ BEntry e -∗ Φ e) -∗ wp (load_entry (Some l)) Φ.
Proof.
  iIntros "Hl HΦ". iApply wp_bind. iApply (wp_load with "Hl"). iIntros "Hl".
  iApply wp_ret. by iApply "HΦ".
Qed.

Lemma wp_load_table l t Φ :
  l ↦ BTable t -∗ (l ↦ BTable t -∗ Φ t) -∗ wp (load_table (Some l)) Φ.
Proof.
  iIntros "Hl HΦ". iApply wp_bind. iApply (wp_load with "Hl"). iIntros "Hl".
  iApply wp_ret. by iApply "HΦ".
Qed.

Lemma wp_free_bytes p v Φ : bytes_at p v -∗ Φ tt -∗ wp (free p) Φ.
Proof.
  iIntros "Hp HΦ". destruct p as [l|], v as [b|]; try done; simpl.
  - iApply (wp_free with "Hp HΦ").
  - iApply wp_free_null. iApply "HΦ".
Qed.

Lemma wp_malloc_copy_ok src n Φ :
  0 <= n <= len src ->
  (∀ l, l ↦ BBytes (take (Z.to_nat n) src) -∗ Φ (Some l)) -∗ wp (malloc_copy true src n) Φ.
Proof.
  iIntros (Hn) "HΦ". iApply wp_bind. iApply (wp_pure _ (take (Z.to_nat n) src)).
  { apply rd_done; lia. }
  iApply wp_alloc_ok. iExact "HΦ".
Qed.

Lemma wp_malloc_copy_fail src n Φ : Φ None -∗ wp (malloc_copy false src n) Φ.
Proof. iIntros "HΦ". iApply wp_alloc_fail. iExact "HΦ". Qed.

(** The copy of a name with its NUL. *)
Lemma wp_malloc_name name Φ :
  (∀ l, l ↦ BBytes (name ++ [0]) -∗ Φ (Some l)) -∗
  wp (malloc_copy true (name ++ [0]) (len name + 1)) Φ.
Proof.
  assert (len (name ++ [0]) = len name + 1) as Hn by (by rewrite len_app).
  pose proof (len_nonneg name). iIntros "HΦ". iApply wp_malloc_copy_ok; [lia|].
  rewrite -Hn take_ge; [done|unfold len; lia].
Qed.

Lemma strlen_snoc_nul name : strlen (name ++ [0]) = strlen name.
Proof.
  unfold strlen. f_equal. induction name as [|x name IH]; simpl; [done|].
  destruct (x =? 0); [done|]. by f_equal.
Qed.

(** The comparison on the block of a stored name. *)
Lemma wp_key_eq l name key Φ :
  l ↦ BBytes (name ++ [0]) -∗
  (l ↦ BBytes (name ++ [0]) -∗ Φ (buf_match name key)) -∗ wp (c_key_eq (Some l) key) Φ.
Proof.
  iIntros "Hl HΦ". iApply wp_bind. iApply (wp_load_bytes with "Hl"). iIntros "Hl". cbv beta.
  rewrite strlen_snoc_nul. pose proof (len_cstr_le name). pose proof (len_nonneg key).
  assert (len (name ++ [0]) = len name + 1) as Hlen by (by rewrite len_app).
  rewrite Hlen.
  rewrite (proj2 (Z.eqb_neq (strlen name) (len name + 1))); [|unfold strlen; lia].
  unfold buf_match. destruct (strlen name =? len key) eqn:E; btest; simpl.
  - iApply wp_bind. iApply (wp_pure _ (take (Z.to_nat (len key)) name)).
    { rewrite rd_done; [|unfold strlen in *; lia..].
      rewrite /sub drop_0 take_app_le //. unfold strlen, len in *. lia. }
    iApply wp_ret. rewrite /memcmp_eq (take_ge key); [|unfold len; lia]. by iApply "HΦ".
  - iApply wp_ret. by iApply "HΦ".
Qed.

End helpers.

(** ** The table block *)

Section table.
Implicit Types (l : positive) (p : ptr).

Lemma wp_sd_lock l ps Φ :
  l ↦ BTable (CTable ps false) -∗ (l ↦ BTable (CTable ps true) -∗ Φ tt) -∗
  wp (sd_lock (Some l)) Φ.
Proof.
  iIntros "Hl HΦ". iApply wp_bind. iApply (wp_load_table with "Hl"). iIntros "Hl".
  iApply (wp_store with "Hl HΦ").
Qed.

Lemma wp_sd_unlock l ps Φ :
  l ↦ BTable (CTable ps true) -∗ (l ↦ BTable (CTable ps false) -∗ Φ tt) -∗
  wp (sd_unlock (Some l)) Φ.
Proof.
  iIntros "Hl HΦ". iApply wp_bind. iApply (wp_load_table with "Hl"). iIntros "Hl".
  iApply (wp_store with "Hl HΦ").
Qed.

Lemma wp_sd_bucket l ps lk i p Φ :
  ps !! i = Some p ->
  l ↦ BTable (CTable ps lk) -∗ (l ↦ BTable (CTable ps lk) -∗ Φ p) -∗
  wp (sd_bucket (Some l) i) Φ.
Proof.
  iIntros (Hp) "Hl HΦ". iApply wp_bind. iApply (wp_load_table with "Hl"). iIntros "Hl".
  cbn [ct_buckets]. rewrite Hp. iApply wp_ret. by iApply "HΦ".
Qed.

Lemma wp_sd_set_bucket l ps lk i p Φ :
  (i < length ps)%nat ->
  l ↦ BTable (CTable ps lk) -∗ (l ↦ BTable (CTable (<[i := p]> ps) lk) -∗ Φ tt) -∗
  wp (sd_set_bucket (Some l) i p) Φ.
Proof.
  iIntros (Hi) "Hl HΦ". iApply wp_bind. iApply (wp_load_table with "Hl"). iIntros "Hl".
  cbn [ct_buckets ct_locked]. rewrite (proj2 (Nat.ltb_lt _ _) Hi).
  iApply (wp_store with "Hl HΦ").
Qed.

(** The chain of bucket [b], and the table around it. *)
Lemma table_open l s lk b :
  (b < 64)%nat -> length (buckets s) = 64%nat ->
  table_at l s lk ⊢ ∃ ps p, <affine> ⌜length ps = 64%nat /\ ps !! b = Some p⌝ ∗
    l ↦ BTable (CTable ps lk) ∗ chain_at p (bucket_at s b) ∗
    (∀ p' c lk', l ↦ BTable (CTable (<[b := p']> ps) lk') -∗ chain_at p' c -∗
       table_at l (SharedData (<[b := c]> (buckets s))) lk').
Proof.
  iIntros (Hb Hs) "(%ps & %Hps & Hl & Hcs)".
  destruct (lookup_lt_is_Some_2 ps b) as [p Hp]; [lia|].
  destruct (lookup_lt_is_Some_2 (buckets s) b) as [c Hc]; [lia|].
  iExists ps, p. unfold bucket_at. rewrite Hc /=. iSplitR; [done|]. iFrame "Hl".
  iDestruct (big_sepL2_insert_acc with "Hcs") as "[$ Hback]"; [done..|].
  iIntros (p' c' lk') "Hl Hc". iExists _. iFrame "Hl". iSplitR.
  - iPureIntro. by rewrite length_insert.
  - by iApply "Hback".
Qed.

Lemma table_same s b : SharedData (<[b := bucket_at s b]> (buckets s)) = s.
Proof.
  destruct s as [bs]. unfold bucket_at. simpl. f_equal.
  destruct (bs !! b) as [c|] eqn:E; simpl; [by apply list_insert_id|].
  apply list_insert_ge. by apply lookup_ge_None.
Qed.

End table.

(** ** The loops *)

Lemma entry_blocks l e n : owns_blocks (entry_at l e n) 1.
Proof. intros h (k & vp & H). revert h H. apply owns_blocks_pointsto. intros h _. lia. Qed.

Lemma wp_entry_test key l e n Φ :
  entry_at l e n -∗ (entry_at l e n -∗ Φ (key_match e key)) -∗ wp (c_entry_test key (Some l)) Φ.
Proof.
  iIntros "(%k & %vp & Hl & Hk & Hv) HΦ". iApply wp_bind. iApply (wp_load_entry with "Hl").
  iIntros "Hl". iApply (wp_key_eq with "Hk"). iIntros "Hk". iApply "HΦ". iExists k, vp. iFrame.
Qed.

Lemma wp_entry_next l e n Φ :
  entry_at l e n -∗ (entry_at l e n -∗ Φ n) -∗ wp (c_entry_next (Some l)) Φ.
Proof.
  iIntros "(%k & %vp & Hl & Hk & Hv) HΦ". iApply wp_bind. iApply (wp_load_entry with "Hl").
  iIntros "Hl". iApply wp_ret. iApply "HΦ". iExists k, vp. iFrame.
Qed.

Lemma wp_free_entry l e n Φ : entry_at l e n -∗ Φ n -∗ wp (c_free_entry (Some l)) Φ.
Proof.
  iIntros "(%k & %vp & Hl & Hk & Hv) HΦ". iApply wp_bind. iApply (wp_load_entry with "Hl").
  iIntros "Hl". cbn [ce_key ce_next ce_value].
  iApply wp_bind. iApply (wp_free with "Hk").
  iApply wp_bind. iApply (wp_free_bytes with "Hv").
  iApply wp_bind. iApply (wp_free with "Hl"). by iApply wp_ret.
Qed.

(** What the loops of [SharedData] answer when the search ends. *)
Lemma chain_find_none es key :
  Forall (fun e => key_match e key = false) es -> chain_find es key = None.
Proof. induction 1 as [|e es He _ IH]; simpl; [done|]. by rewrite He. Qed.

Lemma chain_find_first es key es1 e es2 :
  first_at (fun e => key_match e key) es es1 e es2 -> chain_find es key = Some e.
Proof.
  intros (-> & H1 & He). induction H1 as [|y es1 Hy _ IH]; simpl; [by rewrite He|]. by rewrite Hy.
Qed.

Lemma chain_update_first es key es1 e es2 nv vl cas :
  first_at (fun e => key_match e key) es es1 e es2 ->
  chain_update es key nv vl cas =
    if negb (cas =? 0) && negb (e_cas e =? cas) then Some (es, -1)
    else Some (es1 ++ Entry (e_key e) nv vl (u32 (e_cas e + 1)) :: es2, 0).
Proof.
  intros (-> & H1 & He). induction H1 as [|y es1 Hy _ IH]; simpl; [by rewrite He|].
  rewrite Hy IH. by destruct (_ && _).
Qed.

Lemma wp_free_buckets n i l ps cs lk Φ :
  (i + n = length ps)%nat ->
  l ↦ BTable (CTable ps lk) -∗ ([∗ list] p;c ∈ drop i ps;cs, chain_at p c) -∗
  (l ↦ BTable (CTable ps lk) -∗ Φ tt) -∗ wp (c_free_buckets n i (Some l)) Φ.
Proof.
  revert i cs. induction n as [|n IH]; intros i cs Hi; iIntros "Hl Hcs HΦ"; simpl.
  - iApply wp_ret. rewrite drop_ge; [|lia]. destruct cs as [|c cs]; [|by iDestruct "Hcs" as "[]"].
    iApply ("HΦ" with "Hl").
  - destruct (lookup_lt_is_Some_2 ps i) as [p Hp]; [lia|]. rewrite (drop_S _ _ _ Hp).
    destruct cs as [|c cs]; [by iDestruct "Hcs" as "[]"|]. iDestruct "Hcs" as "[Hc Hcs]".
    iApply wp_bind. iApply (wp_sd_bucket with "Hl"); [done|]. iIntros "Hl".
    iApply wp_bind. iApply (wp_list_fuel _ entry_blocks with "Hc"). iIntros (m) "%Hm Hc".
    iApply wp_bind. iApply (wp_list_release with "Hc"); [apply wp_free_entry|done|].
    iApply (IH with "Hl Hcs HΦ"). lia.
Qed.

(** ** The operations compute what those of [SharedData] compute *)

Definition table_opt (p : ptr) (s : option shared_data) : hpropI block :=
  match p, s with
  | None, None => emp
  | Some l, Some s => <affine> ⌜wf_store s⌝ ∗ table_at l s false
  | _, _ => False
  end.

Lemma wp_shared_data_new ok lock_ok :
  emp ⊢ wp (c_shared_data_new ok lock_ok) (fun p => table_opt p (vwasm_shared_data_new ok lock_ok)).
Proof.
  iIntros "_". unfold c_shared_data_new, vwasm_shared_data_new. iApply wp_bind.
  destruct (ok 0%nat); [|iApply wp_alloc_fail; by iApply wp_ret].
  iApply wp_alloc_ok. iIntros (l) "Hl". simpl. destruct lock_ok; simpl.
  - iApply wp_ret. iSplitR; [iPureIntro; apply wf_store_new|]. iExists _. iFrame "Hl". iSplitR; [done|].
    simpl. by repeat (iSplitR; [done|]).
  - iApply wp_bind. iApply (wp_free with "Hl"). by iApply wp_ret.
Qed.

Lemma wp_shared_data_destroy p s :
  table_opt p s ⊢ wp (c_shared_data_destroy p) (fun q => <affine> ⌜q = None⌝).
Proof.
  iIntros "H". destruct p as [l|], s as [s|]; try done.
  - iDestruct "H" as "(%Hs & %ps & %Hps & Hl & Hcs)". unfold c_shared_data_destroy. simpl is_null.
    cbn iota. iApply wp_bind. iApply (wp_free_buckets _ 0 l ps (buckets s) with "Hl [Hcs]");
      [by rewrite Hps|by rewrite drop_0|].
    iIntros "Hl". iApply wp_bind. iApply (wp_load_table with "Hl"). iIntros "Hl".
    cbn [ct_locked]. iApply wp_bind. iApply (wp_free with "Hl"). by iApply wp_ret.
  - by iApply wp_ret.
Qed.

(** The value a successful get hands to its caller. *)
Definition got_at (r : option (ptr * Z * Z)) (r' : option (option bytes * Z * Z)) : hpropI block :=
  match r, r' with
  | None, None => emp
  | Some (p, n, c), Some (v, n', c') => <affine> ⌜n = n' /\ c = c'⌝ ∗ bytes_at p v
  | _, _ => False
  end.


Lemma wp_table_unlock l s Φ :
  table_at l s true -∗ (table_at l s false -∗ Φ tt) -∗ wp (sd_unlock (Some l)) Φ.
Proof.
  iIntros "(%ps & %Hps & Hl & Hcs) HΦ". iApply (wp_sd_unlock with "Hl"). iIntros "Hl".
  iApply "HΦ". iExists ps. by iFrame.
Qed.

(** The common prefix: with the lock taken, the entry of the key is found, in
    the table it is part of. *)
Lemma wp_lookup l s key Φ :
  length (buckets s) = 64%nat ->
  table_at l s false -∗
  ((<affine> ⌜Forall (fun e => key_match e key = false) (bucket_at s (bucket_of key))⌝ -∗ table_at l s true -∗ Φ None) ∧
   (∀ le e next es1 es2,
      <affine> ⌜first_at (fun e => key_match e key) (bucket_at s (bucket_of key)) es1 e es2⌝ -∗ entry_at le e next -∗
      (∀ e', entry_at le e' next -∗
         table_at l (SharedData (<[bucket_of key := es1 ++ e' :: es2]> (buckets s))) true) -∗
      Φ (Some le))) -∗
  wp (c_lookup (Some l) key) Φ.
Proof.
  iIntros (Hlen) "H HΦ". pose proof (bucket_of_lt key) as Hb.
  iDestruct (table_open l s false (bucket_of key) with "H") as (ps p) "(%Hp & Hl & Hc & Hback)"; [done..|].
  destruct Hp as [Hps Hp]. iSpecialize ("Hback" $! p). rewrite (list_insert_id _ _ _ Hp).
  iApply wp_bind. iApply (wp_sd_lock with "Hl"). iIntros "Hl".
  iApply wp_bind. iApply (wp_sd_bucket with "Hl"); [done|]. iIntros "Hl".
  iApply wp_bind. iApply (wp_list_fuel _ entry_blocks with "Hc"). iIntros (m) "%Hm Hc".
  iApply (wp_list_search _ _ (c_entry_test key) with "Hc");
    [apply wp_entry_test|apply wp_entry_next|done|]. iSplit.
  - iIntros "%Hn Hc". iDestruct "HΦ" as "[HΦ _]". iApply "HΦ"; [done|].
    iSpecialize ("Hback" with "Hl Hc"). by rewrite table_same.
  - iIntros (le e next es1 es2) "%Hf He Hbk". iDestruct "HΦ" as "[_ HΦ]".
    iApply ("HΦ" with "[%] He"); [done|]. iIntros (e') "He".
    iApply ("Hback" with "Hl"). by iApply "Hbk".
Qed.

Lemma wp_shared_data_get ok p s key :
  table_opt p s ⊢ wp (c_shared_data_get ok p key)
    (fun r => table_opt p s ∗ got_at r (vwasm_shared_data_get ok s key)).
Proof.
  iIntros "H". destruct p as [l|], s as [s|]; try done; [|by iApply wp_ret; iFrame].
  destruct key as [[|x key]|]; [by iApply wp_ret; iFrame| |by iApply wp_ret; iFrame].
  unfold c_shared_data_get, vwasm_shared_data_get. set (k := x :: key).
  iDestruct "H" as "(%Hwf & H)". pose proof Hwf as [Hlen Hall].
  iApply wp_bind. iApply (wp_lookup with "H"); [done|]. iSplit.
  - iIntros "%Hn H". rewrite chain_find_none //. iApply wp_bind. iApply (wp_table_unlock with "H"). iIntros "H".
    iApply wp_ret. by iFrame.
  - iIntros (le e next es1 es2) "%Hf He Hbk". pose proof (proj1 Hf) as Hes.
    apply chain_find_first in Hf. rewrite Hf /=.
    assert (wf_entry e) as (_ & Hvl & _ & Hv).
    { eapply Forall_elem; [apply Hall|]. by apply chain_find_elem in Hf as []. }
    iDestruct "He" as (kk vp) "(Hle & Hk & Hv)".
    iApply wp_bind. iApply (wp_load_entry with "Hle"). iIntros "Hle".
    cbn [ce_value_len ce_value ce_cas].
    (* whatever is answered, the entry is given back and the lock released *)
    assert (forall r r', ((entry_at le e next -∗ table_at l s true) ∗ le ↦ BEntry (CEntry (Some kk) vp (e_value_len e) (e_cas e) next) ∗
       kk ↦ BBytes (e_key e ++ [0]) ∗ bytes_at vp (e_value e) ∗ got_at r r' ⊢
       wp (sd_unlock (Some l);; ret r) (fun r => table_opt (Some l) (Some s) ∗ got_at r r'))) as Hend.
    { intros r r'. iIntros "(Hbk & Hle & Hk & Hv & Hg)". iApply wp_bind.
      iApply (wp_table_unlock with "[Hbk Hle Hk Hv]").
      - iApply "Hbk". iExists kk, vp. iFrame.
      - iIntros "H". iApply wp_ret. by iFrame. }
    iSpecialize ("Hbk" $! e). rewrite -Hes table_same.
    destruct vp as [vl|], (e_value e) as [v|] eqn:Ev; try done; simpl.
    + destruct Hv as [Hvl' Hpos]. rewrite (proj2 (Z.ltb_lt _ _) Hpos) /=.
      iApply wp_bind. iApply (wp_load_bytes with "Hv"). iIntros "Hv". iApply wp_bind.
      destruct (ok 0%nat); simpl.
      * iApply wp_malloc_copy_ok; [lia|]. iIntros (lv) "Hlv". simpl.
        iApply (Hend (Some (Some lv, e_value_len e, e_cas e)) 
          (Some (Some (take (Z.to_nat (e_value_len e)) v), e_value_len e, e_cas e))).
        iFrame. by iFrame.
      * iApply (wp_malloc_copy_fail v (e_value_len e)). simpl. iApply (Hend None None). by iFrame.
    + rewrite andb_false_r. iApply (Hend (Some (None, 0, e_cas e)) (Some (None, 0, e_cas e))).
      iFrame. by iFrame.
Qed.

(** Both ends of set consume the copy of the value: they store it or free it. *)
Lemma wp_set_insert ok l s key nvp nv vl :
  wf_store s ->
  table_at l s true -∗ bytes_at nvp nv -∗
  wp (c_set_insert ok (Some l) key nvp vl)
    (fun r => ∃ s', <affine> ⌜(Some s', r) =
        if ok 1%nat && ok 2%nat then
          (Some (SharedData (<[bucket_of key :=
             Entry key nv vl 1 :: bucket_at s (bucket_of key)]> (buckets s))), 0)
        else (Some s, -2)⌝ ∗ table_at l s' false).
Proof.
  iIntros (Hwf) "H Hnv". pose proof Hwf as [Hlen _].
  iApply wp_bind. destruct (ok 1%nat); simpl.
  2:{ iApply wp_alloc_fail. simpl. iApply wp_bind. iApply (wp_table_unlock with "H"). iIntros "H".
      iApply wp_bind. iApply (wp_free_bytes with "Hnv"). iApply wp_ret. iExists s. by iFrame. }
  iApply wp_alloc_ok. iIntros (le) "Hle". simpl. iApply wp_bind. destruct (ok 2%nat); simpl.
  2:{ iApply (wp_malloc_copy_fail (key ++ [0]) (len key + 1)). simpl.
      iApply wp_bind. iApply (wp_table_unlock with "H"). iIntros "H".
      iApply wp_bind. iApply (wp_free_bytes with "Hnv").
      iApply wp_bind. iApply (wp_free with "Hle"). iApply wp_ret. iExists s. by iFrame. }
  iApply wp_malloc_name. iIntros (k) "Hkey". simpl.
  iDestruct (table_open l s true (bucket_of key) with "H") as (ps p) "(%Hp & Hl & Hc & Hback)";
    [apply bucket_of_lt|done|]. destruct Hp as [Hps Hp].
  iApply wp_bind. iApply (wp_sd_bucket with "Hl"); [done|]. iIntros "Hl".
  iApply wp_bind. iApply (wp_store with "Hle"). iIntros "Hle".
  iApply wp_bind. iApply (wp_sd_set_bucket with "Hl"); [rewrite Hps; apply bucket_of_lt|].
  iIntros "Hl". iApply wp_bind. iApply (wp_sd_unlock with "Hl"). iIntros "Hl".
  iApply wp_ret. iExists _. iSplitR; [done|]. iApply ("Hback" with "Hl").
  iExists le, p. iFrame "Hc". iSplitR; [done|]. iExists k, nvp. iFrame.
Qed.

Lemma wp_set_update l (T : entry -> hpropI block) le e next nvp nv vl cas
    (T' : entry -> hpropI block) :
  (forall e' Φ, T e' -∗ (T' e' -∗ Φ tt) -∗ wp (sd_unlock (Some l)) Φ) ->
  entry_at le e next -∗ (∀ e', entry_at le e' next -∗ T e') -∗ bytes_at nvp nv -∗
  wp (c_set_update (Some l) (Some le) nvp vl cas)
    (fun r =>
       if negb (cas =? 0) && negb (e_cas e =? cas) then <affine> ⌜r = -1⌝ ∗ T' e
       else <affine> ⌜r = 0⌝ ∗ T' (Entry (e_key e) nv vl (u32 (e_cas e + 1)))).
Proof.
  iIntros (Hun) "(%k & %vp & Hle & Hk & Hv) Hbk Hnv".
  iApply wp_bind. iApply (wp_load_entry with "Hle"). iIntros "Hle".
  cbn [ce_cas ce_key ce_value ce_next]. destruct (negb (cas =? 0) && negb (e_cas e =? cas)).
  - iApply wp_bind. iApply (Hun e with "[Hbk Hle Hk Hv]").
    { iApply ("Hbk" $! e). iExists k, vp. iFrame. }
    iIntros "H". iApply wp_bind. iApply (wp_free_bytes with "Hnv"). iApply wp_ret. by iFrame.
  - iApply wp_bind. iApply (wp_free_bytes with "Hv").
    iApply wp_bind. iApply (wp_store with "Hle"). iIntros "Hle". iApply wp_bind.
    set (e' := Entry (e_key e) nv vl (u32 (e_cas e + 1))).
    iApply (Hun e' with "[Hbk Hle Hk Hnv]").
    { iApply ("Hbk" $! e'). iExists k, nvp. iFrame. }
    iIntros "H". iApply wp_ret. by iFrame.
Qed.

Lemma wp_set_locked ok l s key nvp nv vl cas :
  wf_store s ->
  table_at l s false -∗ bytes_at nvp nv -∗
  wp (c_set_locked ok (Some l) key nvp vl cas)
    (fun r => ∃ s', <affine> ⌜(Some s', r) =
        match chain_update (bucket_at s (bucket_of key)) key nv vl cas with
        | Some (chain', r) => (Some (SharedData (<[bucket_of key := chain']> (buckets s))), r)
        | None =>
            if ok 1%nat && ok 2%nat then
              (Some (SharedData (<[bucket_of key :=
                 Entry key nv vl 1 :: bucket_at s (bucket_of key)]> (buckets s))), 0)
            else (Some s, -2)
        end⌝ ∗ table_at l s' false).
Proof.
  iIntros (Hwf) "H Hnv". iApply wp_bind. iApply (wp_lookup with "H"); [apply Hwf|]. iSplit.
  - iIntros "%Hn H". cbn [is_null].
    pose proof (chain_update_spec (bucket_at s (bucket_of key)) key nv vl cas) as Hu.
    rewrite chain_find_none // in Hu. rewrite Hu. iApply (wp_set_insert with "H Hnv"). done.
  - iIntros (le e next es1 es2) "%Hf He Hbk". pose proof (proj1 Hf) as Hes.
    rewrite (chain_update_first _ _ _ _ _ _ _ _ Hf).
    cbn [is_null]. iApply (wp_wand with "[He Hbk Hnv]").
    + iApply (wp_set_update l _ le e next nvp nv vl cas
        (fun e' => table_at l (SharedData (<[bucket_of key := es1 ++ e' :: es2]> (buckets s))) false)
        with "He Hbk Hnv"). intros e' Φ. apply wp_table_unlock.
    + iIntros (r) "H". rewrite -Hes table_same. destruct (_ && _).
      * iDestruct "H" as "[-> H]". iExists s. iFrame "H". iPureIntro. by rewrite table_same.
      * iDestruct "H" as "[-> H]". iExists _. iFrame "H". done.
Qed.

(** Without memory for the copy nothing is changed. *)
Lemma set_no_copy ok s key v vl cas :
  ok 0%nat = false -> 0 < vl -> vwasm_shared_data_set ok (Some s) (Some key) (Some v) vl cas = (Some s, -2).
Proof.
  intros Hok Hvl. unfold vwasm_shared_data_set. destruct key; [done|].
  destruct (_ <? _); [done|]. destruct (_ <? _); [done|].
  by rewrite (proj2 (Z.ltb_lt _ _) Hvl) Hok.
Qed.

Lemma wp_set_table ok l s key value vl cas :
  wf_store s -> vl = len (default [] value) ->
  table_at l s false ⊢ wp (c_shared_data_set ok (Some l) key value vl cas)
    (fun r => ∃ s', <affine> ⌜(Some s', r) = vwasm_shared_data_set ok (Some s) key value vl cas⌝ ∗
       table_at l s' false).
Proof.
  iIntros (Hwf Hvl) "H". pose proof (len_nonneg (default [] value)).
  unfold c_shared_data_set.
  destruct key as [[|x key]|]; [by iApply wp_ret; iExists s; iFrame| |by iApply wp_ret; iExists s; iFrame].
  set (k := x :: key).
  destruct (_ <? len k) eqn:E1; btest.
  { rewrite set_too_big; [|by left]. iApply wp_ret. iExists s. by iFrame. }
  destruct (_ <? vl) eqn:E2; btest.
  { rewrite set_too_big; [|by right]. iApply wp_ret. iExists s. by iFrame. }
  destruct value as [v|]; simpl in Hvl.
  2:{ rewrite set_unfold //; [|by right]. iApply (wp_set_locked with "H []"); done. }
  destruct (0 <? vl) eqn:E3; btest.
  2:{ rewrite set_unfold //; [|right; unfold new_val_of; by rewrite (proj2 (Z.ltb_ge _ _))].
      rewrite /new_val_of (proj2 (Z.ltb_ge _ _)) //. iApply (wp_set_locked with "H []"); done. }
  iApply wp_bind. destruct (ok 0%nat) eqn:Eok.
  - iApply wp_malloc_copy_ok; [lia|]. iIntros (lv) "Hlv". simpl.
    rewrite set_unfold //; [|by left]. rewrite /new_val_of (proj2 (Z.ltb_lt _ _)) //.
    iApply (wp_set_locked ok l s k (Some lv) (Some (take (Z.to_nat vl) v)) with "H Hlv"). done.
  - iApply (wp_malloc_copy_fail v vl). simpl. rewrite set_no_copy //. iApply wp_ret. iExists s. by iFrame.
Qed.

Lemma wp_shared_data_set ok p s key value cas :
  table_opt p s ⊢ wp (c_shared_data_set ok p key value (len (default [] value)) cas)
    (fun r => ∃ s', <affine> ⌜(s', r) =
        vwasm_shared_data_set ok s key value (len (default [] value)) cas⌝ ∗ table_opt p s').
Proof.
  iIntros "H". destruct p as [l|], s as [s|]; try done.
  2:{ iApply wp_ret. iExists None. by destruct key. }
  iDestruct "H" as "(%Hwf & H)".
  pose proof (set_wf ok s key value _ cas Hwf eq_refl) as (s' & Es' & Hwf').
  iApply (wp_wand with "[H]"); [by iApply (wp_set_table with "H")|].
  iIntros (r) "(%s1 & %Hr & H)". iExists (Some s1). iSplitR; [done|]. iFrame "H".
  iPureIntro. rewrite -Hr in Es'. simpl in Es'. by simplify_eq.
Qed.
