(* ===== verification/QueueHeap.v ===== *)
(** * Shared queues as C keeps them: pointers, malloc and free
    (src/proxy_wasm_shared.c)

    The store block points to a list of queue blocks, each with a block for its
    name and a list of message blocks between its [head] and [tail] pointers.
    The functions are proved to compute what those of [SharedQueue] compute. *)

From iris.proofmode Require Import proofmode.
From S2P Require Import Prelude Mem SharedData SharedQueue Metrics Heap SharedHeap.

Definition load_msg (p : ptr) : prog block c_msg :=
  b <- load p; match b with BMsg m => ret m | _ => fault end.
Definition load_queue (p : ptr) : prog block c_queue :=
  b <- load p; match b with BQueue q => ret q | _ => fault end.
Definition load_store (p : ptr) : prog block c_store :=
  b <- load p; match b with BStore s => ret s | _ => fault end.

(** The mutex of the store. *)
Definition qs_lock (qs : ptr) : prog block unit :=
  s <- load_store qs;
  if cs_locked s then fault else store qs (BStore (CStore (cs_queues s) (cs_next_id s) true)).

Definition qs_unlock (qs : ptr) : prog block unit :=
  s <- load_store qs;
  if cs_locked s then store qs (BStore (CStore (cs_queues s) (cs_next_id s) false)) else fault.

(** ** Operations *)

Definition c_queue_store_new (ok : oracle) (lock_ok : bool) : prog block ptr :=
  qs <- alloc (ok 0%nat) (BStore (CStore None 0 false));
  if is_null qs then ret None
  else
    store qs (BStore (CStore None 1 false));;
    if negb lock_ok then free qs;; ret None
    else ret qs.

(** The bodies of the two loops of [vwasm_queue_store_destroy]. *)
Definition c_free_msg (msg : ptr) : prog block ptr :=
  m <- load_msg msg;
  free (cm_data m);;
  free msg;;
  ret (cm_next m).

Definition c_free_queue (q : ptr) : prog block ptr :=
  cq <- load_queue q;
  fuel <- heap_size;
  list_release c_free_msg fuel (cq_head cq);;
  free (cq_vm_id cq);;
  free (cq_name cq);;
  free q;;
  ret (cq_next cq).

Definition c_queue_store_destroy (qs : ptr) : prog block ptr :=
  if is_null qs then ret None
  else
    s <- load_store qs;
    fuel <- heap_size;
    list_release c_free_queue fuel (cs_queues s);;
    s <- load_store qs;
    if cs_locked s then fault
    else free qs;; ret None.

(** The tests of the search loops, by name and by id, and their step. *)
Definition c_name_test (name : bytes) (q : ptr) : prog block bool :=
  cq <- load_queue q;
  if is_null (cq_name cq) then ret false else c_key_eq (cq_name cq) name.

Definition c_id_test (id : Z) (q : ptr) : prog block bool :=
  cq <- load_queue q;
  ret (cq_id cq =? id).

Definition c_queue_next (q : ptr) : prog block ptr :=
  cq <- load_queue q;
  ret (cq_next cq).

(** [for (q = qs->queues; q != NULL; q = q->next)] with one of the tests. *)
Definition c_search_queues (test : ptr -> prog block bool) (qs : ptr) : prog block ptr :=
  s <- load_store qs;
  fuel <- heap_size;
  list_search test c_queue_next fuel (cs_queues s).

(** The end of register, for a name that is not there. *)
Definition c_queue_create (ok : oracle) (qs : ptr) (name : bytes) : prog block Z :=
  s <- load_store qs;
  if VWASM_QUEUE_MAX_COUNT <? cs_next_id s then qs_unlock qs;; ret 0
  else
    q <- alloc (ok 0%nat) (BQueue (CQueue None None 0 None None 0 None));
    if is_null q then qs_unlock qs;; ret 0
    else
      n <- malloc_copy (ok 1%nat) (name ++ [0]) (len name + 1);
      if is_null n then free q;; qs_unlock qs;; ret 0
      else
        s <- load_store qs;
        store qs (BStore (CStore (cs_queues s) (u32 (cs_next_id s + 1)) (cs_locked s)));;
        store q (BQueue (CQueue None n (cs_next_id s) None None 0 (cs_queues s)));;
        s <- load_store qs;
        store qs (BStore (CStore q (cs_next_id s) (cs_locked s)));;
        cq <- load_queue q;
        qs_unlock qs;;
        ret (cq_id cq).

Definition c_queue_register (ok : oracle) (qs : ptr) (name : option bytes) : prog block Z :=
  match qs, name with
  | None, _ | _, None | _, Some [] => ret 0
  | Some _, Some name =>
      if VWASM_QUEUE_MAX_NAME <? len name then ret 0
      else
        qs_lock qs;;
        q <- c_search_queues (c_name_test name) qs;
        if negb (is_null q) then
          cq <- load_queue q;
          qs_unlock qs;;
          ret (cq_id cq)
        else c_queue_create ok qs name
  end.

Definition c_queue_resolve (qs : ptr) (vm_id name : option bytes) : prog block Z :=
  match qs, name with
  | None, _ | _, None | _, Some [] => ret 0
  | Some _, Some name =>
      qs_lock qs;;
      q <- c_search_queues (c_name_test name) qs;
      if negb (is_null q) then
        cq <- load_queue q;
        qs_unlock qs;;
        ret (cq_id cq)
      else qs_unlock qs;; ret 0
  end.

(** The end of enqueue: the message is linked behind the tail. *)
Definition c_append (q msg : ptr) : prog block unit :=
  cq <- load_queue q;
  (if negb (is_null (cq_tail cq)) then
     t <- load_msg (cq_tail cq);
     store (cq_tail cq) (BMsg (CMsg (cm_data t) (cm_len t) msg))
   else
     store q (BQueue (CQueue (cq_vm_id cq) (cq_name cq) (cq_id cq) msg (cq_tail cq)
                        (cq_depth cq) (cq_next cq))));;
  cq <- load_queue q;
  store q (BQueue (CQueue (cq_vm_id cq) (cq_name cq) (cq_id cq) (cq_head cq) msg
                     (u32 (cq_depth cq + 1)) (cq_next cq))).

(** The message of enqueue: built, filled and linked. *)
Definition c_enqueue_msg (ok : oracle) (qs q : ptr) (data : option bytes) (n : Z) : prog block Z :=
  msg <- alloc (ok 0%nat) (BMsg (CMsg None 0 None));
  if is_null msg then qs_unlock qs;; ret (-1)
  else
    match data with
    | Some d =>
        if 0 <? n then
          p <- malloc_copy (ok 1%nat) d n;
          if is_null p then free msg;; qs_unlock qs;; ret (-1)
          else
            store msg (BMsg (CMsg p n None));;
            c_append q msg;; qs_unlock qs;; ret 0
        else c_append q msg;; qs_unlock qs;; ret 0
    | None => c_append q msg;; qs_unlock qs;; ret 0
    end.

Definition c_queue_enqueue (ok : oracle) (qs : ptr) (queue_id : Z) (data : option bytes) (n : Z)
    : prog block Z :=
  if is_null qs || (queue_id =? 0) then ret (-1)
  else if VWASM_QUEUE_MAX_MSG <? n then ret (-1)
  else
    qs_lock qs;;
    q <- c_search_queues (c_id_test queue_id) qs;
    if is_null q then qs_unlock qs;; ret (-1)
    else
      cq <- load_queue q;
      if VWASM_QUEUE_MAX_DEPTH <=? cq_depth cq then qs_unlock qs;; ret (-1)
      else c_enqueue_msg ok qs q data n.

(** [q->head = msg->next; if (q->head == NULL) q->tail = NULL; q->depth--] *)
Definition c_pop (q : ptr) : prog block ptr :=
  cq <- load_queue q;
  let msg := cq_head cq in
  m <- load_msg msg;
  store q (BQueue (CQueue (cq_vm_id cq) (cq_name cq) (cq_id cq) (cm_next m)
             (if is_null (cm_next m) then None else cq_tail cq)
             (u32 (cq_depth cq - 1)) (cq_next cq)));;
  ret msg.

(** [Some (data_out, len_out)]: returns 0; [None]: returns -1. *)
Definition c_queue_dequeue (qs : ptr) (queue_id : Z) : prog block (option (ptr * Z)) :=
  if is_null qs || (queue_id =? 0) then ret None
  else
    qs_lock qs;;
    q <- c_search_queues (c_id_test queue_id) qs;
    if is_null q then qs_unlock qs;; ret None
    else
      cq <- load_queue q;
      if is_null (cq_head cq) then qs_unlock qs;; ret None
      else
        msg <- c_pop q;
        qs_unlock qs;;
        m <- load_msg msg;
        free msg;;
        ret (Some (cm_data m, cm_len m)).

(** * Representation *)

(** A message block with the block of its data. *)
Definition msg_at (l : positive) (m : queue_msg) (next : ptr) : hpropI block :=
  ∃ dp, l ↦ BMsg (CMsg dp (m_len m) next) ∗ bytes_at dp (m_data m).

(** The messages between [head] and [tail]: both NULL, or [tail] is the last. *)
Definition msgs_at (head tail : ptr) (ms : list queue_msg) : hpropI block :=
  (<affine> ⌜ms = [] /\ head = None /\ tail = None⌝) ∨
  (∃ ms' m t, <affine> ⌜ms = ms' ++ [m] /\ tail = Some t⌝ ∗
     lseg msg_at head ms' (Some t) ∗ msg_at t m None).

(** A queue block with its name and its messages. *)
Definition queue_at (l : positive) (q : queue) (next : ptr) : hpropI block :=
  ∃ n head tail, l ↦ BQueue (CQueue None (Some n) (q_id q) head tail (q_depth q) next) ∗
    n ↦ BBytes (q_name q ++ [0]) ∗ msgs_at head tail (q_msgs q).

(** The store and everything it points to. *)
Definition store_at (l : positive) (s : queue_store) (locked : bool) : hpropI block :=
  ∃ p, l ↦ BStore (CStore p (next_id s) locked) ∗ lseg queue_at p (queues s) None.

#[global] Arguments msg_at : simpl never.
#[global] Arguments msgs_at : simpl never.
#[global] Arguments queue_at : simpl never.
#[global] Arguments store_at : simpl never.

(** ** Typed loads, the mutex and the loops *)

Lemma wp_load_msg l m Φ :
  l ↦ BMsg m -∗ (l ↦ BMsg m -∗ Φ m) -∗ wp (load_msg (Some l)) Φ.
Proof.
  iIntros "Hl HΦ". iApply wp_bind. iApply (wp_load with "Hl"). iIntros "Hl".
  iApply wp_ret. by iApply "HΦ".
Qed.

Lemma wp_load_queue l q Φ :
  l ↦ BQueue q -∗ (l ↦ BQueue q -∗ Φ q) -∗ wp (load_queue (Some l)) Φ.
Proof.
  iIntros "Hl HΦ". iApply wp_bind. iApply (wp_load with "Hl"). iIntros "Hl".
  iApply wp_ret. by iApply "HΦ".
Qed.

Lemma wp_load_store l s Φ :
  l ↦ BStore s -∗ (l ↦ BStore s -∗ Φ s) -∗ wp (load_store (Some l)) Φ.
Proof.
  iIntros "Hl HΦ". iApply wp_bind. iApply (wp_load with "Hl"). iIntros "Hl".
  iApply wp_ret. by iApply "HΦ".
Qed.

Lemma wp_qs_lock l s Φ :
  store_at l s false -∗ (store_at l s true -∗ Φ tt) -∗ wp (qs_lock (Some l)) Φ.
Proof.
  iIntros "(%p & Hl & Hq) HΦ". iApply wp_bind. iApply (wp_load_store with "Hl"). iIntros "Hl".
  iApply (wp_store with "Hl"). iIntros "Hl". iApply "HΦ". iExists p. iFrame.
Qed.

Lemma wp_qs_unlock l s Φ :
  store_at l s true -∗ (store_at l s false -∗ Φ tt) -∗ wp (qs_unlock (Some l)) Φ.
Proof.
  iIntros "(%p & Hl & Hq) HΦ". iApply wp_bind. iApply (wp_load_store with "Hl"). iIntros "Hl".
  iApply (wp_store with "Hl"). iIntros "Hl". iApply "HΦ". iExists p. iFrame.
Qed.

(** Releasing the mutex and answering [r] ends every operation. *)
Lemma wp_unlock_ret {A} l s (r : A) Φ :
  store_at l s true -∗ (store_at l s false -∗ Φ r) -∗ wp (qs_unlock (Some l);; ret r) Φ.
Proof.
  iIntros "H HΦ". iApply wp_bind. iApply (wp_qs_unlock with "H"). iIntros "H".
  iApply wp_ret. by iApply "HΦ".
Qed.

Lemma msg_blocks l m n : owns_blocks (msg_at l m n) 1.
Proof. intros h (dp & H). revert h H. apply owns_blocks_pointsto. intros h _. lia. Qed.

Lemma queue_blocks l q n : owns_blocks (queue_at l q n) 1.
Proof.
  intros h (nm & hd & tl & H). revert h H. apply owns_blocks_pointsto. intros h _. lia.
Qed.

Lemma wp_name_test name l q n Φ :
  queue_at l q n -∗ (queue_at l q n -∗ Φ (name_match q name)) -∗
  wp (c_name_test name (Some l)) Φ.
Proof.
  iIntros "(%nm & %hd & %tl & Hl & Hn & Hm) HΦ". iApply wp_bind.
  iApply (wp_load_queue with "Hl"). iIntros "Hl". simpl.
  iApply (wp_key_eq with "Hn"). iIntros "Hn". iApply "HΦ". iExists nm, hd, tl. iFrame.
Qed.

Lemma wp_id_test id l q n Φ :
  queue_at l q n -∗ (queue_at l q n -∗ Φ (q_id q =? id)) -∗ wp (c_id_test id (Some l)) Φ.
Proof.
  iIntros "(%nm & %hd & %tl & Hl & Hn & Hm) HΦ". iApply wp_bind.
  iApply (wp_load_queue with "Hl"). iIntros "Hl". iApply wp_ret. iApply "HΦ".
  iExists nm, hd, tl. iFrame.
Qed.

Lemma wp_queue_next l q n Φ :
  queue_at l q n -∗ (queue_at l q n -∗ Φ n) -∗ wp (c_queue_next (Some l)) Φ.
Proof.
  iIntros "(%nm & %hd & %tl & Hl & Hn & Hm) HΦ". iApply wp_bind.
  iApply (wp_load_queue with "Hl"). iIntros "Hl". iApply wp_ret. iApply "HΦ".
  iExists nm, hd, tl. iFrame.
Qed.

Lemma wp_free_msg l m n Φ : msg_at l m n -∗ Φ n -∗ wp (c_free_msg (Some l)) Φ.
Proof.
  iIntros "(%dp & Hl & Hd) HΦ". iApply wp_bind. iApply (wp_load_msg with "Hl"). iIntros "Hl".
  iApply wp_bind. iApply (wp_free_bytes with "Hd").
  iApply wp_bind. iApply (wp_free with "Hl"). by iApply wp_ret.
Qed.

(** The messages of a queue, read from [head] to NULL. *)
Lemma msgs_list head tail ms : msgs_at head tail ms ⊢ lseg msg_at head ms None.
Proof.
  iIntros "[%H|(%ms' & %m & %t & %H & Hs & Hm)]"; [by destruct H as (-> & -> & _)|].
  destruct H as [-> _].
  iApply (lseg_snoc with "Hs Hm").
Qed.

Lemma wp_free_queue l q n Φ : queue_at l q n -∗ Φ n -∗ wp (c_free_queue (Some l)) Φ.
Proof.
  iIntros "(%nm & %hd & %tl & Hl & Hn & Hm) HΦ". rewrite msgs_list.
  iApply wp_bind. iApply (wp_load_queue with "Hl"). iIntros "Hl".
  cbn [cq_head cq_vm_id cq_name cq_next].
  iApply wp_bind. iApply (wp_list_fuel _ msg_blocks with "Hm"). iIntros (f) "%Hf Hm".
  iApply wp_bind. iApply (wp_list_release with "Hm"); [apply wp_free_msg|done|].
  iApply wp_bind. iApply wp_free_null. iApply wp_bind. iApply (wp_free with "Hn").
  iApply wp_bind. iApply (wp_free with "Hl"). by iApply wp_ret.
Qed.

Lemma wp_search_queues test f l s Φ :
  (forall l x n Φ, queue_at l x n -∗ (queue_at l x n -∗ Φ (f x)) -∗ wp (test (Some l)) Φ) ->
  store_at l s true -∗
  ((<affine> ⌜Forall (fun q => f q = false) (queues s)⌝ -∗ store_at l s true -∗ Φ None) ∧
   (∀ lq q n q1 q2, <affine> ⌜first_at f (queues s) q1 q q2⌝ -∗ queue_at lq q n -∗
      (∀ q', queue_at lq q' n -∗ store_at l (QueueStore (q1 ++ q' :: q2) (next_id s)) true) -∗
      Φ (Some lq))) -∗
  wp (c_search_queues test (Some l)) Φ.
Proof.
  iIntros (Ht) "(%p & Hl & Hq) HΦ".
  iApply wp_bind. iApply (wp_load_store with "Hl"). iIntros "Hl". cbn [cs_queues].
  iApply wp_bind. iApply (wp_list_fuel _ queue_blocks with "Hq"). iIntros (m) "%Hm Hq".
  iApply (wp_list_search with "Hq"); [apply Ht|apply wp_queue_next|done|]. iSplit.
  - iIntros "%Hn Hq". iDestruct "HΦ" as "[HΦ _]". iApply "HΦ"; [done|]. iExists p. iFrame.
  - iIntros (lq q n q1 q2) "%Hf Hq Hbk". iDestruct "HΦ" as "[_ HΦ]".
    iApply ("HΦ" with "[%] Hq"); [done|]. iIntros (q') "Hq". iExists p. iFrame. by iApply "Hbk".
Qed.

(** What the loops of [SharedQueue] answer when the search ends. *)
Lemma find_name_none l name :
  Forall (fun q => name_match q name = false) l -> find_name l name = None.
Proof. induction 1 as [|q l Hq _ IH]; simpl; [done|]. by rewrite Hq. Qed.

Lemma find_name_first l name l1 q l2 :
  first_at (fun q => name_match q name) l l1 q l2 -> find_name l name = Some q.
Proof. intros (-> & H1 & Hq). induction H1 as [|y l1 Hy _ IH]; simpl; by rewrite ?Hq ?Hy. Qed.

Lemma find_id_none l id : Forall (fun q => (q_id q =? id) = false) l -> find_id l id = None.
Proof. induction 1 as [|q l Hq _ IH]; simpl; [done|]. by rewrite Hq. Qed.

Lemma find_id_first l id l1 q l2 :
  first_at (fun q => q_id q =? id) l l1 q l2 ->
  find_id l id = Some q /\ forall q', update_id l id q' = l1 ++ q' :: l2.
Proof.
  intros (-> & H1 & Hq). induction H1 as [|y l1 Hy _ [IH IHu]]; simpl; rewrite ?Hq ?Hy; [done|].
  split; [done|]. intros q'. by rewrite IHu.
Qed.

Lemma store_same s q1 q q2 :
  queues s = q1 ++ q :: q2 -> QueueStore (q1 ++ q :: q2) (next_id s) = s.
Proof. intros <-. by destruct s. Qed.

(** ** The operations compute what those of [SharedQueue] compute *)

Definition store_opt (p : ptr) (s : option queue_store) : hpropI block :=
  match p, s with
  | None, None => emp
  | Some l, Some s => store_at l s false
  | _, _ => False
  end.

Lemma wp_queue_store_new ok lock_ok :
  emp ⊢ wp (c_queue_store_new ok lock_ok) (fun p => store_opt p (vwasm_queue_store_new ok lock_ok)).
Proof.
  iIntros "_". unfold c_queue_store_new, vwasm_queue_store_new. iApply wp_bind.
  destruct (ok 0%nat); [|iApply wp_alloc_fail; by iApply wp_ret].
  iApply wp_alloc_ok. iIntros (l) "Hl". simpl. iApply wp_bind. iApply (wp_store with "Hl").
  iIntros "Hl". destruct lock_ok; simpl.
  - iApply wp_ret. iExists None. by iFrame.
  - iApply wp_bind. iApply (wp_free with "Hl"). by iApply wp_ret.
Qed.

Lemma wp_queue_store_destroy p s :
  store_opt p s ⊢ wp (c_queue_store_destroy p) (fun q => <affine> ⌜q = None⌝).
Proof.
  iIntros "H". destruct p as [l|], s as [s|]; try done; [|by iApply wp_ret].
  iDestruct "H" as (p) "[Hl Hq]". unfold c_queue_store_destroy. simpl is_null. cbn iota.
  iApply wp_bind. iApply (wp_load_store with "Hl"). iIntros "Hl". cbn [cs_queues].
  iApply wp_bind. iApply (wp_list_fuel _ queue_blocks with "Hq"). iIntros (m) "%Hm Hq".
  iApply wp_bind. iApply (wp_list_release with "Hq"); [apply wp_free_queue|done|].
  iApply wp_bind. iApply (wp_load_store with "Hl"). iIntros "Hl". cbn [cs_locked].
  iApply wp_bind. iApply (wp_free with "Hl"). by iApply wp_ret.
Qed.

(** [head] is NULL exactly when there is no message. *)
Lemma msgs_head head tail ms :
  msgs_at head tail ms ⊢ <affine> ⌜is_null head = true <-> ms = []⌝ ∗ msgs_at head tail ms.
Proof.
  iIntros "[%H|(%ms' & %m & %t & %H & Hs & Hm)]".
  - destruct H as (-> & -> & ->). iSplitR; [done|]. by iLeft.
  - destruct H as (-> & ->). destruct ms' as [|m' ms'].
    + iDestruct "Hs" as %->. iSplitR; [by iPureIntro; split|]. iRight. iExists [], m, t. by iFrame.
    + iDestruct "Hs" as (l n) "(-> & Hm' & Hs)". iSplitR; [by iPureIntro; split|].
      iRight. iExists (m' :: ms'), m, t. iFrame "Hm". iSplitR; [done|]. iExists l, n. by iFrame.
Qed.

(** The fields of the queue block the operations look at. *)
Lemma wp_peek_queue lq q n Φ :
  queue_at lq q n -∗
  (∀ cq, <affine> ⌜cq_id cq = q_id q /\ cq_depth cq = q_depth q /\
            (is_null (cq_head cq) = true <-> q_msgs q = [])⌝ -∗ queue_at lq q n -∗ Φ cq) -∗
  wp (load_queue (Some lq)) Φ.
Proof.
  iIntros "(%nn & %hd & %tl & Hlq & Hn & Hm) HΦ".
  iApply (wp_load_queue with "Hlq"). iIntros "Hlq".
  iDestruct (msgs_head with "Hm") as "[%Hh Hm]".
  iApply "HΦ"; [done|]. iExists nn, hd, tl. iFrame.
Qed.

(** The queue found, given back unchanged, and the answer [r]. *)
Lemma wp_give_back {A} l s lq q n q1 q2 (r : A) Φ :
  queues s = q1 ++ q :: q2 ->
  queue_at lq q n -∗
  (∀ q', queue_at lq q' n -∗ store_at l (QueueStore (q1 ++ q' :: q2) (next_id s)) true) -∗
  (store_at l s false -∗ Φ r) -∗
  wp (qs_unlock (Some l);; ret r) Φ.
Proof.
  iIntros (Hs) "Hq Hbk HΦ". iApply (wp_unlock_ret with "[Hbk Hq] HΦ").
  rewrite -{2}(store_same _ _ _ _ Hs). by iApply "Hbk".
Qed.

Lemma wp_answer_id l s lq q n q1 q2 Φ :
  queues s = q1 ++ q :: q2 ->
  queue_at lq q n -∗
  (∀ q', queue_at lq q' n -∗ store_at l (QueueStore (q1 ++ q' :: q2) (next_id s)) true) -∗
  (store_at l s false -∗ Φ (q_id q)) -∗
  wp (cq <- load_queue (Some lq); qs_unlock (Some l);; ret (cq_id cq)) Φ.
Proof.
  iIntros (Hs) "Hq Hbk HΦ". iApply wp_bind. iApply (wp_peek_queue with "Hq").
  iIntros (cq) "%Hcq Hq". destruct Hcq as [-> _]. by iApply (wp_give_back with "Hq Hbk HΦ").
Qed.

Lemma wp_queue_resolve p s vm_id name :
  store_opt p s ⊢ wp (c_queue_resolve p vm_id name)
    (fun r => <affine> ⌜r = vwasm_queue_resolve s vm_id name⌝ ∗ store_opt p s).
Proof.
  iIntros "H". destruct p as [l|], s as [s|]; try done; [|iApply wp_ret; by iFrame].
  destruct name as [[|x name]|]; [iApply wp_ret; by iFrame| |iApply wp_ret; by iFrame].
  unfold c_queue_resolve, vwasm_queue_resolve. set (nm := x :: name).
  iApply wp_bind. iApply (wp_qs_lock with "H"). iIntros "H".
  iApply wp_bind. iApply (wp_search_queues with "H"); [apply wp_name_test|]. iSplit.
  - iIntros "%Hn H". rewrite find_name_none //. simpl.
    iApply (wp_unlock_ret with "H"). iIntros "H". by iFrame.
  - iIntros (lq q n q1 q2) "%Hf Hq Hbk". rewrite (find_name_first _ _ _ _ _ Hf). simpl.
    iApply (wp_answer_id with "Hq Hbk"); [apply Hf|]. iIntros "H". by iFrame.
Qed.

Lemma wp_queue_create ok l s name :
  store_at l s true ⊢ wp (c_queue_create ok (Some l) name)
    (fun r => ∃ s', <affine> ⌜(Some s', r) =
       if VWASM_QUEUE_MAX_COUNT <? next_id s then (Some s, 0)
       else if negb (ok 0%nat) then (Some s, 0)
       else if negb (ok 1%nat) then (Some s, 0)
       else (Some (QueueStore (Queue name (next_id s) [] 0 :: queues s) (u32 (next_id s + 1))),
             next_id s)⌝ ∗ store_at l s' false).
Proof.
  iIntros "(%p & Hl & Hq)".
  iApply wp_bind. iApply (wp_load_store with "Hl"). iIntros "Hl". cbn [cs_next_id].
  destruct (_ <? next_id s).
  { iApply (wp_unlock_ret l s with "[Hl Hq]"); [iExists p; iFrame|].
    iIntros "H". iExists s. by iFrame. }
  iApply wp_bind. destruct (ok 0%nat); simpl.
  2:{ iApply wp_alloc_fail. simpl. iApply (wp_unlock_ret l s with "[Hl Hq]"); [iExists p; iFrame|].
      iIntros "H". iExists s. by iFrame. }
  iApply wp_alloc_ok. iIntros (lq) "Hlq". simpl. iApply wp_bind. destruct (ok 1%nat); simpl.
  2:{ iApply (wp_malloc_copy_fail (name ++ [0]) (len name + 1)). simpl.
      iApply wp_bind. iApply (wp_free with "Hlq").
      iApply (wp_unlock_ret l s with "[Hl Hq]"); [iExists p; iFrame|].
      iIntros "H". iExists s. by iFrame. }
  iApply wp_malloc_name. iIntros (n) "Hn". simpl.
  iApply wp_bind. iApply (wp_load_store with "Hl"). iIntros "Hl".
  iApply wp_bind. iApply (wp_store with "Hl"). iIntros "Hl".
  iApply wp_bind. iApply (wp_store with "Hlq"). iIntros "Hlq".
  iApply wp_bind. iApply (wp_load_store with "Hl"). iIntros "Hl".
  iApply wp_bind. iApply (wp_store with "Hl"). iIntros "Hl".
  iApply wp_bind. iApply (wp_load_queue with "Hlq"). iIntros "Hlq". cbn.
  iApply (wp_unlock_ret l (QueueStore (Queue name (next_id s) [] 0 :: queues s)
    (u32 (next_id s + 1))) with "[Hl Hq Hlq Hn]").
  - iExists (Some lq). iFrame "Hl". iExists lq, p. iFrame "Hq". iSplitR; [done|].
    iExists n, None, None. iFrame. by iLeft.
  - iIntros "H". iExists _. by iFrame "H".
Qed.

Lemma wp_queue_register ok p s name :
  store_opt p s ⊢ wp (c_queue_register ok p name)
    (fun r => ∃ s', <affine> ⌜(s', r) = vwasm_queue_register ok s name⌝ ∗ store_opt p s').
Proof.
  iIntros "H". destruct p as [l|], s as [s|]; try done.
  2:{ iApply wp_ret. iExists None. by destruct name. }
  unfold c_queue_register, vwasm_queue_register.
  destruct name as [[|x name]|];
    [iApply wp_ret; iExists (Some s); by iFrame| |iApply wp_ret; iExists (Some s); by iFrame].
  set (nm := x :: name).
  destruct (_ <? len nm); [iApply wp_ret; iExists (Some s); by iFrame|].
  iApply wp_bind. iApply (wp_qs_lock with "H"). iIntros "H".
  iApply wp_bind. iApply (wp_search_queues with "H"); [apply wp_name_test|]. iSplit.
  - iIntros "%Hn H". rewrite find_name_none //. simpl.
    iApply (wp_wand with "[H]"); [iApply (wp_queue_create with "H")|].
    iIntros (r) "(%s' & %Hr & H)". iExists (Some s'). by iFrame.
  - iIntros (lq q n q1 q2) "%Hf Hq Hbk". rewrite (find_name_first _ _ _ _ _ Hf). simpl.
    iApply (wp_answer_id with "Hq Hbk"); [apply Hf|]. iIntros "H". iExists (Some s). by iFrame.
Qed.

(** ** The message list *)

Lemma wp_append lq q n lm m Φ :
  queue_at lq q n -∗ msg_at lm m None -∗
  (queue_at lq (Queue (q_name q) (q_id q) (q_msgs q ++ [m]) (u32 (q_depth q + 1))) n -∗ Φ tt) -∗
  wp (c_append (Some lq) (Some lm)) Φ.
Proof.
  iIntros "(%nn & %hd & %tl & Hlq & Hn & Hms) Hm HΦ".
  iApply wp_bind. iApply (wp_load_queue with "Hlq"). iIntros "Hlq". simpl.
  iApply wp_bind. iDestruct "Hms" as "[%H|(%ms' & %m' & %t & %H & Hs & Hm')]".
  - destruct H as (Hms & -> & ->). simpl. iApply (wp_store with "Hlq"). iIntros "Hlq".
    iApply wp_bind. iApply (wp_load_queue with "Hlq"). iIntros "Hlq". simpl.
    iApply (wp_store with "Hlq"). iIntros "Hlq". iApply "HΦ". iExists nn, _, _. iFrame.
    iRight. iExists [], m, lm. rewrite Hms. iFrame. iSplitR; done.
  - destruct H as (Hms & ->). simpl. iDestruct "Hm'" as (dp) "[Ht Hd]".
    iApply wp_bind. iApply (wp_load_msg with "Ht"). iIntros "Ht". simpl.
    iApply (wp_store with "Ht"). iIntros "Ht".
    iApply wp_bind. iApply (wp_load_queue with "Hlq"). iIntros "Hlq". simpl.
    iApply (wp_store with "Hlq"). iIntros "Hlq". iApply "HΦ". iExists nn, _, _. iFrame.
    iRight. iExists (ms' ++ [m']), m, lm. rewrite Hms. iFrame. iSplitR; [done|].
    iApply (lseg_snoc with "Hs"). iExists dp. iFrame.
Qed.

Lemma msgs_pop head tail m rest :
  msgs_at head tail (m :: rest) ⊢ ∃ lm next, <affine> ⌜head = Some lm⌝ ∗ msg_at lm m next ∗
    msgs_at next (if is_null next then None else tail) rest.
Proof.
  iIntros "[%H|(%ms' & %m' & %t & %H & Hs & Hm)]"; [by destruct H|].
  destruct H as [H ->]. destruct ms' as [|m2 ms']; simplify_eq/=.
  - iDestruct "Hs" as %->. iExists t, None. iFrame. iSplitR; [done|]. by iLeft.
  - iDestruct "Hs" as (l n) "(-> & Hm' & Hs)". iExists l, n. iFrame "Hm'". iSplitR; [done|].
    iAssert (msgs_at n (Some t) (ms' ++ [m'])) with "[Hs Hm]" as "H".
    { iRight. iExists ms', m', t. by iFrame. }
    iDestruct (msgs_head with "H") as "[%Hn H]".
    destruct (is_null n); [|done]. exfalso. destruct Hn as [Hn _]. by destruct ms'; specialize (Hn eq_refl).
Qed.

Lemma wp_pop lq q n m rest Φ :
  q_msgs q = m :: rest ->
  queue_at lq q n -∗
  (∀ lm next, queue_at lq (Queue (q_name q) (q_id q) rest (u32 (q_depth q - 1))) n -∗
     msg_at lm m next -∗ Φ (Some lm)) -∗
  wp (c_pop (Some lq)) Φ.
Proof.
  iIntros (Hq) "(%nn & %hd & %tl & Hlq & Hn & Hms) HΦ". rewrite Hq.
  iDestruct (msgs_pop with "Hms") as (lm next) "(-> & (%dp & Hm & Hd) & Hms)".
  iApply wp_bind. iApply (wp_load_queue with "Hlq"). iIntros "Hlq". simpl.
  iApply wp_bind. iApply (wp_load_msg with "Hm"). iIntros "Hm". simpl.
  iApply wp_bind. iApply (wp_store with "Hlq"). iIntros "Hlq". iApply wp_ret.
  iApply ("HΦ" $! lm next with "[Hlq Hn Hms]").
  - iExists nn, _, _. iFrame.
  - iExists dp. iFrame.
Qed.

(** Appending [m] to the queue found, and answering 0. *)
Lemma wp_append_answer l s lq q n q1 q2 lm m id r0 Φ :
  first_at (fun q => q_id q =? id) (queues s) q1 q q2 ->
  queue_at lq q n -∗
  (∀ q', queue_at lq q' n -∗ store_at l (QueueStore (q1 ++ q' :: q2) (next_id s)) true) -∗
  msg_at lm m None -∗
  (store_at l (QueueStore (update_id (queues s) id
     (Queue (q_name q) (q_id q) (q_msgs q ++ [m]) (u32 (q_depth q + 1)))) (next_id s)) false -∗
   Φ r0) -∗
  wp (c_append (Some lq) (Some lm);; qs_unlock (Some l);; ret (r0 : Z)) Φ.
Proof.
  iIntros (Hf) "Hq Hbk Hm HΦ". apply find_id_first in Hf as [_ Hu]. rewrite Hu.
  iApply wp_bind. iApply (wp_append with "Hq Hm"). iIntros "Hq".
  iApply (wp_unlock_ret with "[Hbk Hq] HΦ"). by iApply "Hbk".
Qed.

(** Every end of [c_enqueue_msg]: the store of [enqueue_cases]. *)
Lemma wp_enqueue_msg ok l s lq q nx q1 q2 id data :
  first_at (fun q => q_id q =? id) (queues s) q1 q q2 ->
  queue_at lq q nx -∗
  (∀ q', queue_at lq q' nx -∗ store_at l (QueueStore (q1 ++ q' :: q2) (next_id s)) true) -∗
  wp (c_enqueue_msg ok (Some l) (Some lq) data (len (default [] data)))
    (fun r => ∃ s', <affine> ⌜(Some s', r) =
       if negb (ok 0%nat) then (Some s, -1)
       else if match data with Some _ => 0 <? len (default [] data) | None => false end &&
               negb (ok 1%nat) then (Some s, -1)
       else (Some (QueueStore (update_id (queues s) id (Queue (q_name q) (q_id q)
               (q_msgs q ++ [msg_of data (len (default [] data))]) (u32 (q_depth q + 1))))
               (next_id s)), 0)⌝ ∗ store_at l s' false).
Proof.
  iIntros (Hf) "Hq Hbk". pose proof (proj1 Hf) as Hs. set (n := len (default [] data)).
  assert (n = len (default [] data)) as Hn by done. pose proof (len_nonneg (default [] data)).
  iApply wp_bind. destruct (ok 0%nat); simpl.
  2:{ iApply wp_alloc_fail. simpl. iApply (wp_give_back with "Hq Hbk"); [done|].
      iIntros "H". iExists s. by iFrame. }
  iApply wp_alloc_ok. iIntros (lm) "Hlm". simpl. destruct data as [d|]; simpl in Hn.
  2:{ iApply (wp_append_answer _ _ _ _ _ _ _ _ (QueueMsg None 0) with "Hq Hbk [Hlm]");
        [done|by iExists None; iFrame|].
      iIntros "H". iExists _. by iFrame "H". }
  unfold msg_of. destruct (0 <? n) eqn:E; btest; simpl.
  2:{ iApply (wp_append_answer _ _ _ _ _ _ _ _ (QueueMsg None 0) with "Hq Hbk [Hlm]");
        [done|by iExists None; iFrame|].
      iIntros "H". iExists _. by iFrame "H". }
  iApply wp_bind. destruct (ok 1%nat); simpl.
  2:{ iApply (wp_malloc_copy_fail d n). simpl. iApply wp_bind. iApply (wp_free with "Hlm").
      iApply (wp_give_back with "Hq Hbk"); [done|]. iIntros "H". iExists s. by iFrame. }
  iApply wp_malloc_copy_ok; [lia|]. iIntros (ld) "Hd". simpl.
  iApply wp_bind. iApply (wp_store with "Hlm"). iIntros "Hlm".
  iApply (wp_append_answer _ _ _ _ _ _ _ _ (QueueMsg (Some (take (Z.to_nat n) d)) n)
    with "Hq Hbk [Hlm Hd]"); [done|iExists (Some ld); iFrame|].
  iIntros "H". iExists _. by iFrame "H".
Qed.

Lemma wp_queue_enqueue ok p s id data :
  store_opt p s ⊢ wp (c_queue_enqueue ok p id data (len (default [] data)))
    (fun r => ∃ s', <affine> ⌜(s', r) =
       vwasm_queue_enqueue ok s id data (len (default [] data))⌝ ∗ store_opt p s').
Proof.
  iIntros "H". destruct p as [l|], s as [s|]; try done; [|iApply wp_ret; by iExists None].
  unfold c_queue_enqueue, vwasm_queue_enqueue. simpl orb.
  destruct (id =? 0); [iApply wp_ret; iExists (Some s); by iFrame|].
  destruct (_ <? len _); [iApply wp_ret; iExists (Some s); by iFrame|].
  iApply wp_bind. iApply (wp_qs_lock with "H"). iIntros "H".
  iApply wp_bind. iApply (wp_search_queues with "H"); [apply wp_id_test|]. iSplit.
  { iIntros "%Hid H". rewrite find_id_none //. simpl.
    iApply (wp_unlock_ret with "H"). iIntros "H". iExists (Some s). by iFrame. }
  iIntros (lq q nx q1 q2) "%Hf Hq Hbk". rewrite (proj1 (find_id_first _ _ _ _ _ Hf)). simpl is_null.
  cbn iota. iApply wp_bind. iApply (wp_peek_queue with "Hq"). iIntros (cq) "%Hcq Hq".
  destruct Hcq as (_ & -> & _). destruct (_ <=? q_depth q).
  { iApply (wp_give_back with "Hq Hbk"); [apply Hf|]. iIntros "H". iExists (Some s). by iFrame. }
  iApply (wp_wand with "[Hq Hbk]"); [by iApply (wp_enqueue_msg with "Hq Hbk")|].
  iIntros (r) "(%s' & %Hr & H)". iExists (Some s'). by iFrame.
Qed.

(** The message a successful dequeue hands to its caller. *)
Definition taken_at (r : option (ptr * Z)) (r' : option queue_msg) : hpropI block :=
  match r, r' with
  | None, None => emp
  | Some (p, n), Some m => <affine> ⌜n = m_len m⌝ ∗ bytes_at p (m_data m)
  | _, _ => False
  end.

Lemma wp_queue_dequeue p s id :
  store_opt p s ⊢ wp (c_queue_dequeue p id)
    (fun r => ∃ s' r', <affine> ⌜(s', r') = vwasm_queue_dequeue s id⌝ ∗ store_opt p s' ∗
       taken_at r r').
Proof.
  iIntros "H". destruct p as [l|], s as [s|]; try done; [|iApply wp_ret; by iExists None, None; iFrame].
  unfold c_queue_dequeue, vwasm_queue_dequeue. simpl orb.
  destruct (id =? 0); [iApply wp_ret; iExists (Some s), None; by iFrame|].
  iApply wp_bind. iApply (wp_qs_lock with "H"). iIntros "H".
  iApply wp_bind. iApply (wp_search_queues with "H"); [apply wp_id_test|]. iSplit.
  { iIntros "%Hid H". rewrite find_id_none //. simpl.
    iApply (wp_unlock_ret with "H"). iIntros "H". iExists (Some s), None. by iFrame. }
  iIntros (lq q nx q1 q2) "%Hf Hq Hbk". destruct (find_id_first _ _ _ _ _ Hf) as [-> Hu].
  simpl is_null. cbn iota. iApply wp_bind. iApply (wp_peek_queue with "Hq"). iIntros (cq) "%Hcq Hq".
  destruct Hcq as (_ & _ & Hh). destruct (q_msgs q) as [|m rest] eqn:Hm.
  { rewrite (proj2 Hh eq_refl). iApply (wp_give_back with "Hq Hbk"); [apply Hf|].
    iIntros "H". iExists (Some s), None. by iFrame. }
  destruct (is_null (cq_head cq)); [by destruct Hh as [Hh _]; specialize (Hh eq_refl)|].
  iApply wp_bind. iApply (wp_pop with "Hq"); [done|]. iIntros (lm next) "Hq (%dp & Hlm & Hd)".
  iApply wp_bind. iApply (wp_qs_unlock with "[Hbk Hq]"); [by iApply "Hbk"|]. iIntros "H".
  iApply wp_bind. iApply (wp_load_msg with "Hlm"). iIntros "Hlm".
  iApply wp_bind. iApply (wp_free with "Hlm"). iApply wp_ret.
  iExists (Some _), (Some m). rewrite Hu. iSplitR; [done|]. iFrame. by iFrame.
Qed.
