(* ===== verification/SharedLife.v ===== *)
(** * The life of the process-wide stores (src/proxy_wasm.c,
    src/proxy_wasm_shared.c)

    The three global pointers, created on first use under a mutex and released
    by [vwasm_proxy_wasm_destroy_shared].  The theorem of this file composes
    the heap-level stores: over any history of requests, with any allocations
    failing, the C code answers as the models on lists do, without a fault, and
    once the stores are destroyed the heap is what it was before. *)

From iris.proofmode Require Import proofmode.
From S2P Require Import Prelude Mem SharedData SharedQueue Metrics Ctx HostCalls.
From S2P Require Import Headers Properties HttpAddr Breaker HttpPool HttpParse HttpIo HttpCall.
From S2P Require Import Imports StorePool Runtime Engine Execute.
From S2P Require Import Heap SharedHeap QueueHeap.

(** ** The global pointers *)

Record c_globals := CGlobals {
  g_shared_data : ptr;
  g_queue_store : ptr;
  g_metric_store : ptr;
  g_locked : bool        (** [global_shared_mtx] *)
}.

Definition g_lock (g : c_globals) : outcome c_globals :=
  if g_locked g then Fault
  else Done (CGlobals (g_shared_data g) (g_queue_store g) (g_metric_store g) true).

Definition g_unlock (g : c_globals) : outcome c_globals :=
  if g_locked g
  then Done (CGlobals (g_shared_data g) (g_queue_store g) (g_metric_store g) false)
  else Fault.

(** Each getter tests the pointer before and after taking the mutex. *)
Definition c_get_shared_data (ok : oracle) (g : c_globals) : prog block c_globals :=
  if is_null (g_shared_data g) then
    g <- pure_ (g_lock g);
    g <- (if is_null (g_shared_data g) then
            p <- c_shared_data_new (fun i => ok i) (ok 1%nat);
            ret (CGlobals p (g_queue_store g) (g_metric_store g) (g_locked g))
          else ret g);
    pure_ (g_unlock g)
  else ret g.

Definition c_get_queue_store (ok : oracle) (g : c_globals) : prog block c_globals :=
  if is_null (g_queue_store g) then
    g <- pure_ (g_lock g);
    g <- (if is_null (g_queue_store g) then
            p <- c_queue_store_new (fun i => ok (2 + i)%nat) (ok 3%nat);
            ret (CGlobals (g_shared_data g) p (g_metric_store g) (g_locked g))
          else ret g);
    pure_ (g_unlock g)
  else ret g.

Definition c_get_metric_store (ok : oracle) (g : c_globals) : prog block c_globals :=
  if is_null (g_metric_store g) then
    g <- pure_ (g_lock g);
    g <- (if is_null (g_metric_store g) then
            p <- alloc (ok 4%nat) (BMetrics metric_store_new);
            ret (CGlobals (g_shared_data g) (g_queue_store g) p (g_locked g))
          else ret g);
    pure_ (g_unlock g)
  else ret g.

Definition c_destroy_shared (g : c_globals) : prog block c_globals :=
  g <- pure_ (g_lock g);
  g <- (if negb (is_null (g_shared_data g)) then
          p <- c_shared_data_destroy (g_shared_data g);
          ret (CGlobals None (g_queue_store g) (g_metric_store g) (g_locked g))
        else ret g);
  g <- (if negb (is_null (g_queue_store g)) then
          p <- c_queue_store_destroy (g_queue_store g);
          ret (CGlobals (g_shared_data g) None (g_metric_store g) (g_locked g))
        else ret g);
  g <- (if negb (is_null (g_metric_store g)) then
          free (g_metric_store g);;
          ret (CGlobals (g_shared_data g) (g_queue_store g) None (g_locked g))
        else ret g);
  pure_ (g_unlock g).

(** ** Requests

    What the contexts do with the stores, in the order the locks serialise it;
    each request carries the outcomes of its allocations.  The caller of get
    and of dequeue copies the block it is handed and frees it. *)

Inductive shared_req :=
| GetData (ok : oracle)
| GetQueues (ok : oracle)
| GetMetrics (ok : oracle)
| DataGet (ok : oracle) (key : option bytes)
| DataSet (ok : oracle) (key value : option bytes) (cas : Z)
| QRegister (ok : oracle) (name : option bytes)
| QResolve (vm_id name : option bytes)
| QEnqueue (ok : oracle) (id : Z) (data : option bytes)
| QDequeue (id : Z).

Inductive shared_resp :=
| Unit
| Code (r : Z)
| Got (r : option (option bytes * Z * Z))
| Taken (m : option queue_msg).

Definition serve_stores (s : stores) (q : shared_req) : stores * shared_resp :=
  match q with
  | GetData ok => (vwasm_proxy_wasm_get_shared_data ok s, Unit)
  | GetQueues ok => (vwasm_proxy_wasm_get_queue_store ok s, Unit)
  | GetMetrics ok => (vwasm_proxy_wasm_get_metric_store ok s, Unit)
  | DataGet ok k => (s, Got (vwasm_shared_data_get ok (c_shared_data s) k))
  | DataSet ok k v cas =>
      let '(sd, r) := vwasm_shared_data_set ok (c_shared_data s) k v (len (default [] v)) cas in
      (Stores sd (c_queue_store s) (c_metric_store s), Code r)
  | QRegister ok n =>
      let '(qs, r) := vwasm_queue_register ok (c_queue_store s) n in
      (Stores (c_shared_data s) qs (c_metric_store s), Code r)
  | QResolve vm n => (s, Code (vwasm_queue_resolve (c_queue_store s) vm n))
  | QEnqueue ok id d =>
      let '(qs, r) := vwasm_queue_enqueue ok (c_queue_store s) id d (len (default [] d)) in
      (Stores (c_shared_data s) qs (c_metric_store s), Code r)
  | QDequeue id =>
      let '(qs, m) := vwasm_queue_dequeue (c_queue_store s) id in
      (Stores (c_shared_data s) qs (c_metric_store s), Taken m)
  end.

(** The caller's copy of a block it owns, and its [free]. *)
Definition c_consume (p : ptr) : prog block (option bytes) :=
  v <- (if is_null p then ret None else b <- load_bytes p; ret (Some b));
  free p;;
  ret v.

Definition c_serve (g : c_globals) (q : shared_req) : prog block (c_globals * shared_resp) :=
  match q with
  | GetData ok => g <- c_get_shared_data ok g; ret (g, Unit)
  | GetQueues ok => g <- c_get_queue_store ok g; ret (g, Unit)
  | GetMetrics ok => g <- c_get_metric_store ok g; ret (g, Unit)
  | DataGet ok k =>
      r <- c_shared_data_get ok (g_shared_data g) k;
      match r with
      | None => ret (g, Got None)
      | Some (p, n, cas) => v <- c_consume p; ret (g, Got (Some (v, n, cas)))
      end
  | DataSet ok k v cas =>
      r <- c_shared_data_set ok (g_shared_data g) k v (len (default [] v)) cas;
      ret (g, Code r)
  | QRegister ok n => r <- c_queue_register ok (g_queue_store g) n; ret (g, Code r)
  | QResolve vm n => r <- c_queue_resolve (g_queue_store g) vm n; ret (g, Code r)
  | QEnqueue ok id d =>
      r <- c_queue_enqueue ok (g_queue_store g) id d (len (default [] d));
      ret (g, Code r)
  | QDequeue id =>
      r <- c_queue_dequeue (g_queue_store g) id;
      match r with
      | None => ret (g, Taken None)
      | Some (p, n) => v <- c_consume p; ret (g, Taken (Some (QueueMsg v n)))
      end
  end.

Fixpoint c_serve_all (g : c_globals) (qs : list shared_req)
    : prog block (c_globals * list shared_resp) :=
  match qs with
  | [] => ret (g, [])
  | q :: qs =>
      x <- c_serve g q;
      y <- c_serve_all x.1 qs;
      ret (y.1, x.2 :: y.2)
  end.

(** A process: the pointers NULL at first, the requests, the destruction. *)
Definition c_session (qs : list shared_req) : prog block (list shared_resp) :=
  x <- c_serve_all (CGlobals None None None false) qs;
  c_destroy_shared x.1;;
  ret x.2.

(** * Representation *)

Definition metrics_opt (p : ptr) (s : option metric_store) : hpropI block :=
  match p, s with
  | None, None => emp
  | Some l, Some s => l ↦ BMetrics s
  | _, _ => False
  end.

Definition stores_at (g : c_globals) (s : stores) : hpropI block :=
  <affine> ⌜g_locked g = false⌝ ∗ table_opt (g_shared_data g) (c_shared_data s) ∗
  store_opt (g_queue_store g) (c_queue_store s) ∗ metrics_opt (g_metric_store g) (c_metric_store s).

(** A pointer is NULL exactly when its store does not exist. *)
Lemma table_opt_null p s :
  table_opt p s ⊢ <affine> ⌜is_null p = match s with None => true | Some _ => false end⌝ ∗ table_opt p s.
Proof. iIntros "H". destruct p, s; try done; by iFrame. Qed.

Lemma store_opt_null p s :
  store_opt p s ⊢ <affine> ⌜is_null p = match s with None => true | Some _ => false end⌝ ∗ store_opt p s.
Proof. iIntros "H". destruct p, s; try done; by iFrame. Qed.

Lemma metrics_opt_null p s :
  metrics_opt p s ⊢
  <affine> ⌜is_null p = match s with None => true | Some _ => false end⌝ ∗ metrics_opt p s.
Proof. iIntros "H". destruct p, s; try done; by iFrame. Qed.

Lemma wp_consume p v Φ : bytes_at p v -∗ Φ v -∗ wp (c_consume p) Φ.
Proof.
  iIntros "Hp HΦ". iApply wp_bind. destruct p as [l|], v as [b|]; try done; simpl.
  - iApply wp_bind. iApply (wp_load_bytes with "Hp"). iIntros "Hp". iApply wp_ret.
    iApply wp_bind. iApply (wp_free with "Hp"). by iApply wp_ret.
  - iApply wp_ret. iApply wp_bind. iApply wp_free_null. by iApply wp_ret.
Qed.

(** ** The getters and the destruction *)

Lemma wp_get_shared_data ok g s :
  stores_at g s ⊢ wp (c_get_shared_data ok g)
    (fun g' => stores_at g' (vwasm_proxy_wasm_get_shared_data ok s)).
Proof.
  iIntros "(%Hl & Hd & Hq & Hm)". unfold c_get_shared_data, vwasm_proxy_wasm_get_shared_data.
  iDestruct (table_opt_null with "Hd") as "[%Hn Hd]". rewrite Hn.
  destruct (c_shared_data s) as [sd|] eqn:Es.
  { iApply wp_ret. iSplitR; [done|]. rewrite Es. iFrame. }
  iApply wp_bind. iApply wp_pure; [unfold g_lock; by rewrite Hl|]. iApply wp_bind. simpl. rewrite Hn.
  destruct (g_shared_data g); [done|].
  iApply wp_bind. iApply (wp_wand with "[Hd]"); [iApply (wp_shared_data_new with "Hd")|].
  iIntros (p) "Hd". iApply wp_ret. iApply wp_pure; [done|]. iSplitR; [done|]. iFrame.
Qed.

Lemma wp_get_queue_store ok g s :
  stores_at g s ⊢ wp (c_get_queue_store ok g)
    (fun g' => stores_at g' (vwasm_proxy_wasm_get_queue_store ok s)).
Proof.
  iIntros "(%Hl & Hd & Hq & Hm)". unfold c_get_queue_store, vwasm_proxy_wasm_get_queue_store.
  iDestruct (store_opt_null with "Hq") as "[%Hn Hq]". rewrite Hn.
  destruct (c_queue_store s) as [qs|] eqn:Es.
  { iApply wp_ret. iSplitR; [done|]. rewrite Es. iFrame. }
  iApply wp_bind. iApply wp_pure; [unfold g_lock; by rewrite Hl|]. iApply wp_bind. simpl. rewrite Hn.
  destruct (g_queue_store g); [done|].
  iApply wp_bind. iApply (wp_wand with "[Hq]"); [iApply (wp_queue_store_new with "Hq")|].
  iIntros (p) "Hq". iApply wp_ret. iApply wp_pure; [done|]. iSplitR; [done|]. iFrame.
Qed.

Lemma wp_get_metric_store ok g s :
  stores_at g s ⊢ wp (c_get_metric_store ok g)
    (fun g' => stores_at g' (vwasm_proxy_wasm_get_metric_store ok s)).
Proof.
  iIntros "(%Hl & Hd & Hq & Hm)". unfold c_get_metric_store, vwasm_proxy_wasm_get_metric_store.
  iDestruct (metrics_opt_null with "Hm") as "[%Hn Hm]". rewrite Hn.
  destruct (c_metric_store s) as [ms|] eqn:Es.
  { iApply wp_ret. iSplitR; [done|]. rewrite Es. iFrame. }
  iApply wp_bind. iApply wp_pure; [unfold g_lock; by rewrite Hl|]. iApply wp_bind. simpl. rewrite Hn.
  destruct (g_metric_store g); [done|]. iApply wp_bind. destruct (ok 4%nat).
  - iApply wp_alloc_ok. iIntros (l) "Hl". iApply wp_ret. iApply wp_pure; [done|].
    iSplitR; [done|]. by iFrame.
  - iApply wp_alloc_fail. iApply wp_ret. iApply wp_pure; [done|]. iSplitR; [done|]. by iFrame.
Qed.

Lemma wp_destroy_shared g s :
  stores_at g s ⊢ wp (c_destroy_shared g) (fun g' => <affine> ⌜g' = CGlobals None None None false⌝).
Proof.
  iIntros "(%Hl & Hd & Hq & Hm)". destruct g as [pd pq pm lk]. simpl in Hl. subst lk. cbn.
  iApply wp_bind. iApply wp_pure; [done|]. cbn.
  iApply wp_bind. iApply (wp_wand _ (fun g => <affine> ⌜g = CGlobals None pq pm true⌝)%I with "[Hd]").
  { destruct pd as [l|].
    - iApply wp_bind. iApply (wp_wand with "[Hd]"); [iApply (wp_shared_data_destroy with "Hd")|].
      iIntros (p) "_". by iApply wp_ret.
    - destruct (c_shared_data s); [done|]. by iApply wp_ret. }
  iIntros (g) "->". iApply wp_bind.
  iApply (wp_wand _ (fun g => <affine> ⌜g = CGlobals None None pm true⌝)%I with "[Hq]").
  { destruct pq as [l|].
    - iApply wp_bind. iApply (wp_wand with "[Hq]"); [iApply (wp_queue_store_destroy with "Hq")|].
      iIntros (p) "_". by iApply wp_ret.
    - destruct (c_queue_store s); [done|]. by iApply wp_ret. }
  iIntros (g) "->". iApply wp_bind.
  iApply (wp_wand _ (fun g => <affine> ⌜g = CGlobals None None None true⌝)%I with "[Hm]").
  { destruct pm as [l|], (c_metric_store s); try done; simpl.
    - iApply wp_bind. iApply (wp_free with "Hm"). by iApply wp_ret.
    - by iApply wp_ret. }
  iIntros (g) "->". by iApply wp_pure.
Qed.

(** ** Requests *)

Lemma wp_serve g s q :
  stores_at g s ⊢ wp (c_serve g q) (fun x =>
    <affine> ⌜x.2 = (serve_stores s q).2⌝ ∗ stores_at x.1 (serve_stores s q).1).
Proof.
  destruct q as [ok|ok|ok|ok k|ok k v cas|ok n|vm n|ok id d|id]; cbn [c_serve serve_stores].
  - iIntros "H". iApply wp_bind. iApply (wp_wand with "[H]"); [iApply (wp_get_shared_data with "H")|].
    iIntros (g') "H". iApply wp_ret. by iFrame.
  - iIntros "H". iApply wp_bind. iApply (wp_wand with "[H]"); [iApply (wp_get_queue_store with "H")|].
    iIntros (g') "H". iApply wp_ret. by iFrame.
  - iIntros "H". iApply wp_bind. iApply (wp_wand with "[H]"); [iApply (wp_get_metric_store with "H")|].
    iIntros (g') "H". iApply wp_ret. by iFrame.
  - iIntros "(%Hl & Hd & Hq & Hm)". iApply wp_bind.
    iApply (wp_wand with "[Hd]"); [iApply (wp_shared_data_get with "Hd")|].
    iIntros (r) "[Hd Hg]". destruct r as [[[p n] c]|],
      (vwasm_shared_data_get ok (c_shared_data s) k) as [[[v n'] c']|]; try done.
    + iDestruct "Hg" as "[%E Hp]". destruct E as [-> ->].
      iApply wp_bind. iApply (wp_consume with "Hp"). iApply wp_ret. by iFrame.
    + iApply wp_ret. by iFrame.
  - iIntros "(%Hl & Hd & Hq & Hm)". iApply wp_bind.
    iApply (wp_wand with "[Hd]"); [iApply (wp_shared_data_set with "Hd")|].
    iIntros (r) "(%sd & %E & Hd)". rewrite -E. iApply wp_ret. by iFrame.
  - iIntros "(%Hl & Hd & Hq & Hm)". iApply wp_bind.
    iApply (wp_wand with "[Hq]"); [iApply (wp_queue_register with "Hq")|].
    iIntros (r) "(%qs & %E & Hq)". rewrite -E. iApply wp_ret. by iFrame.
  - iIntros "(%Hl & Hd & Hq & Hm)". iApply wp_bind.
    iApply (wp_wand with "[Hq]"); [iApply (wp_queue_resolve with "Hq")|].
    iIntros (r) "(-> & Hq)". iApply wp_ret. by iFrame.
  - iIntros "(%Hl & Hd & Hq & Hm)". iApply wp_bind.
    iApply (wp_wand with "[Hq]"); [iApply (wp_queue_enqueue with "Hq")|].
    iIntros (r) "(%qs & %E & Hq)". rewrite -E. iApply wp_ret. by iFrame.
  - iIntros "(%Hl & Hd & Hq & Hm)". iApply wp_bind.
    iApply (wp_wand with "[Hq]"); [iApply (wp_queue_dequeue with "Hq")|].
    iIntros (r) "(%qs & %m & %E & Hq & Ht)". rewrite -E. destruct r as [[p n]|], m as [m|]; try done.
    + iDestruct "Ht" as "[-> Hp]". iApply wp_bind. iApply (wp_consume with "Hp").
      iApply wp_ret. iFrame. by destruct m.
    + iApply wp_ret. by iFrame.
Qed.

Lemma wp_serve_all qs g s :
  stores_at g s ⊢ wp (c_serve_all g qs) (fun x =>
    <affine> ⌜x.2 = (run serve_stores s qs).2⌝ ∗ stores_at x.1 (run serve_stores s qs).1).
Proof.
  revert g s. induction qs as [|q qs IH]; intros g s; cbn [c_serve_all run].
  - iIntros "H". iApply wp_ret. by iFrame.
  - iIntros "H". iApply wp_bind. iApply (wp_wand with "[H]"); [iApply (wp_serve with "H")|].
    iIntros ([g1 r]) "[-> H]". destruct (serve_stores s q) as [s1 r1]. cbn [fst snd].
    iApply wp_bind. iApply (wp_wand with "[H]"); [iApply (IH with "H")|].
    iIntros ([g2 rs]) "[-> H]". destruct (run serve_stores s1 qs) as [s2 rs']. cbn [fst snd].
    iApply wp_ret. by iFrame.
Qed.

(** ** Claims *)

(** C6 Refinement and memory safety of the shared stores: from any heap, for
    any sequence of requests by the contexts - creation on first use, get, set,
    register, resolve, enqueue, dequeue with any keys, values and ids - and
    whichever of their allocations fail, the pointer-level C code does not
    dereference a NULL or dangling pointer, read past a block, free a block
    twice, or take or release a lock out of turn; every answer is the one of
    the list-level models; and after [vwasm_proxy_wasm_destroy_shared] the heap
    is exactly what it was before the first request: nothing leaks and no block
    of another owner is touched. *)
Theorem shared_stores_memory_safe qs h :
  c_session qs h = Done ((run serve_stores (Stores None None None) qs).2, h).
Proof.
  destruct (wp_closed (c_session qs)
    (fun rs => rs = (run serve_stores (Stores None None None) qs).2) h) as (a & E & ->); [|done].
  iIntros "_". iApply wp_bind. iApply wp_wand.
  { iApply (wp_serve_all qs _ (Stores None None None)). by repeat (iSplitR; [done|]). }
  iIntros ([g rs]) "[-> H]". iApply wp_bind.
  iApply (wp_wand with "[H]"); [iApply (wp_destroy_shared with "H")|].
  iIntros (g') "_". by iApply wp_ret.
Qed.
