(* ===== verification/EngineLife.v ===== *)
(** * The life of an engine: what it allocates, starts and releases
    (src/wasm_engine.c, src/store_pool.c, src/http_pool.c)

    [Engine] models what the configuration functions compute.  Here the same
    functions act on a heap of resources: memory blocks, the objects of
    Wasmtime with the errors and traps its calls end with, open files and running
    threads; the types of the imports, which live only while one is defined, are
    not among them.  An engine of Wasmtime counts what
    was created from it and is still there, including the threads that use it;
    deleting it before those is a fault, as the comments of
    [vwasm_engine_destroy] demand.  The logic of [Heap] then accounts for every
    resource. *)

From iris.proofmode Require Import proofmode.
From S2P Require Import Prelude Mem SharedData SharedQueue Metrics Ctx HostCalls.
From S2P Require Import Headers Properties HttpAddr Breaker HttpPool HttpParse HttpIo HttpCall.
From S2P Require Import Imports StorePool Engine Heap.

(** ** Resources *)

Inductive res :=
| RMem                      (** [malloc], [calloc], [strdup] *)
| RConfig                   (** [wasm_config_t] *)
| RWasm (users : Z)         (** [wasm_engine_t] *)
| RLinker
| RModule
| RPre                      (** [wasmtime_instance_pre_t] *)
| RStore
| RError                    (** [wasmtime_error_t] *)
| RTrap                     (** [wasm_trap_t] *)
| RThread                   (** a thread that was not joined *)
| RFile.                    (** [FILE] *)

(** Objects and threads that use the engine of Wasmtime. *)
Definition use_wasm (w : ptr) : prog res unit :=
  r <- load w; match r with RWasm n => store w (RWasm (n + 1)) | _ => fault end.

Definition unuse_wasm (w : ptr) : prog res unit :=
  r <- load w; match r with RWasm n => store w (RWasm (n - 1)) | _ => fault end.

Definition obj_new (ok : bool) (w : ptr) (r : res) : prog res ptr :=
  if ok then use_wasm w;; alloc true r else alloc false r.

(** Deletion, and [pthread_join]: not of NULL. *)
Definition obj_delete (w p : ptr) : prog res unit :=
  _ <- load p;
  free p;;
  unuse_wasm w.

(** [wasm_engine_new_with_config] takes the configuration, also when it fails. *)
Definition wasm_new (ok : bool) (config : ptr) : prog res ptr :=
  free config;;
  alloc ok (RWasm 0).

Definition wasm_delete (w : ptr) : prog res unit :=
  r <- load w;
  match r with RWasm n => if n =? 0 then free w else fault | _ => fault end.

(** ** Errors and traps *)

(** How a call into Wasmtime ends. *)
Inductive ending := Returns | Errs | Traps.

Definition failure (trap : bool) : ending := if trap then Traps else Errs.

(** The error that such a call returns, NULL when there is none, and the variable
    [trap], which only a trap overwrites. *)
Definition wasm_call (x : ending) (trap : ptr) : prog res (ptr * ptr) :=
  match x with
  | Returns => ret (None, trap)
  | Errs => error <- alloc true RError; ret (error, trap)
  | Traps => trap <- alloc true RTrap; ret (None, trap)
  end.

(** [if (error != NULL) wasmtime_error_delete(error)], and the same for [trap]. *)
Definition error_delete (error : ptr) : prog res unit :=
  if is_null error then ret tt
  else r <- load error; match r with RError => free error | _ => fault end.

Definition wasm_trap_delete (trap : ptr) : prog res unit :=
  if is_null trap then ret tt
  else r <- load trap; match r with RTrap => free trap | _ => fault end.

(** Compiling a module and linking it: the object, or else the error. *)
Definition obj_try (ok : bool) (w : ptr) (r : res) : prog res (ptr * ptr) :=
  p <- obj_new ok w r;
  error <- alloc (negb ok) RError;
  ret (p, error).

(** The definition of a group of imports: the first failure ends it. *)
Definition define_imports (ok : bool) : prog res Z :=
  error <- alloc (negb ok) RError;
  if is_null error then ret 0 else error_delete error;; ret (-1).

(** ** Structures: the pointers they own *)

Record c_module := CModule { cm_name : bytes; cm_name_p : ptr; cm_pre : ptr; cm_module : ptr }.

(** [memory_snapshot] and [valid] of [struct vwasm_warm_instance]. *)
Record c_warm := CWarm { cw_snapshot : ptr; cw_valid : bool }.

Record c_pool := CPool {
  cp_pi : ptr;
  cp_states : ptr;
  cp_slots : ptr;
  cp_objects : ptr;
  cp_stores : list ptr       (** [store_objects[i].store] *)
}.

(** [struct vwasm_http_pool]; [ch_cache]: the key, the data and the structure of
    each cached response, the buckets one after the other. *)
Record c_http := CHttp {
  ch_pool : ptr;
  ch_conns : ptr;
  ch_dns : ptr;
  ch_breakers : ptr;
  ch_cache : list (ptr * ptr * ptr)
}.

Record c_timer := CTimer { tm_mem : ptr; tm_thread : ptr }.

Record c_engine := CEngine {
  ce_mem : ptr;
  ce_wasm : ptr;
  ce_linker : ptr;
  ce_thread : ptr;
  ce_modules : list c_module;
  ce_warm : list c_warm;
  ce_pools : list (option c_pool);
  ce_http : option c_http;
  ce_timers : list (option c_timer);
  ce_upstreams : option (ptr * list ptr)
}.

Definition with_modules (e : c_engine) (l : list c_module) : c_engine :=
  CEngine (ce_mem e) (ce_wasm e) (ce_linker e) (ce_thread e) l (ce_warm e) (ce_pools e) (ce_http e)
    (ce_timers e) (ce_upstreams e).
Definition with_pools (e : c_engine) (w : list c_warm) (l : list (option c_pool)) : c_engine :=
  CEngine (ce_mem e) (ce_wasm e) (ce_linker e) (ce_thread e) (ce_modules e) w l (ce_http e)
    (ce_timers e) (ce_upstreams e).
Definition with_http (e : c_engine) (p : option c_http) : c_engine :=
  CEngine (ce_mem e) (ce_wasm e) (ce_linker e) (ce_thread e) (ce_modules e) (ce_warm e) (ce_pools e) p
    (ce_timers e) (ce_upstreams e).
Definition with_timers (e : c_engine) (l : list (option c_timer)) : c_engine :=
  CEngine (ce_mem e) (ce_wasm e) (ce_linker e) (ce_thread e) (ce_modules e) (ce_warm e) (ce_pools e)
    (ce_http e) l (ce_upstreams e).
Definition with_upstreams (e : c_engine) (u : option (ptr * list ptr)) : c_engine :=
  CEngine (ce_mem e) (ce_wasm e) (ce_linker e) (ce_thread e) (ce_modules e) (ce_warm e) (ce_pools e)
    (ce_http e) (ce_timers e) u.

(** ** Threads *)

(** [reads]: the values the thread reads of [epoch_running]; past the list it
    reads 0.  An increment needs the engine of Wasmtime. *)
Fixpoint epoch_timer_thread (reads : list bool) (w : ptr) : prog res unit :=
  match reads with
  | true :: true :: reads =>
      r <- load w;
      match r with RWasm _ => epoch_timer_thread reads w | _ => fault end
  | true :: false :: reads => epoch_timer_thread reads w
  | _ => ret tt
  end.

(** A round of a tick thread: whether its store is created, how the instantiation
    ends, and how each call of an export ends. *)
Record round := Round { rd_store : bool; rd_inst : ending; rd_calls : list ending }.

(** [trap] is set to NULL before each call, and holds what it deleted after it. *)
Fixpoint tick_calls (l : list ending) (trap : ptr) : prog res ptr :=
  match l with
  | [] => ret trap
  | x :: l =>
      y <- wasm_call x None;
      error_delete y.1;;
      wasm_trap_delete y.2;;
      tick_calls l y.2
  end.

(** The rounds of the thread until it ends. *)
Fixpoint tick_rounds (l : list round) (trap w : ptr) : prog res unit :=
  match l with
  | [] => ret tt
  | r :: l =>
      s <- obj_new (rd_store r) w RStore;
      if is_null s then tick_rounds l trap w
      else
        x <- wasm_call (rd_inst r) trap;
        if negb (is_null x.1) || negb (is_null x.2) then
          error_delete x.1;;
          wasm_trap_delete x.2;;
          obj_delete w s;;
          tick_rounds l x.2 w
        else
          trap <- tick_calls (rd_calls r) x.2;
          obj_delete w s;;
          tick_rounds l trap w
  end.

(** What a tick thread does until it is joined, and what its uninitialized
    variable [trap] holds at first. *)
Record ticking := Ticking { tk_trap : ptr; tk_rounds : list round }.

(** ** Creation *)

Definition c_engine_new (ok : oracle) : prog res (option c_engine) :=
  e <- alloc (ok 0%nat) RMem;
  if is_null e then ret None
  else
    config <- alloc (ok 1%nat) RConfig;
    if is_null config then free e;; ret None
    else
      w <- wasm_new (ok 2%nat) config;
      if is_null w then free e;; ret None
      else
        linker <- obj_new (ok 3%nat) w RLinker;
        if is_null linker then wasm_delete w;; free e;; ret None
        else
          r <- define_imports (ok 4%nat);
          if negb (r =? 0) then obj_delete w linker;; wasm_delete w;; free e;; ret None
          else
            r <- define_imports (ok 5%nat);
            if negb (r =? 0) then obj_delete w linker;; wasm_delete w;; free e;; ret None
            else
              r <- define_imports (ok 6%nat);
              if negb (r =? 0) then obj_delete w linker;; wasm_delete w;; free e;; ret None
              else
                thread <- obj_new (ok 7%nat) w RThread;
                if is_null thread then obj_delete w linker;; wasm_delete w;; free e;; ret None
                else ret (Some (CEngine e w linker thread [] (replicate 64 (CWarm None false))
                                  (replicate 64 None) None (replicate 64 None) None)).

(** ** Modules *)

(** [ok]: the buffer, the compiler, the pre-instantiation, the name; [file] as
    in [Engine]. *)
Definition c_load_module (ok : oracle) (file : bytes -> option wasm_file) (e : c_engine)
    (name path : bytes) : prog res (c_engine * Z) :=
  if existsb (fun m => strcmp_eq (cm_name m) name) (ce_modules e) then ret (e, -1)
  else
    fp <- alloc (match file path with Some _ => true | None => false end) RFile;
    match file path with
    | None => ret (e, -1)
    | Some f =>
        if f_size f <=? 0 then free fp;; ret (e, -1)
        else
          bytes <- alloc (ok 0%nat) RMem;
          if is_null bytes then free fp;; ret (e, -1)
          else if negb (f_read f) then free bytes;; free fp;; ret (e, -1)
          else
            free fp;;
            module <- obj_try (ok 1%nat) (ce_wasm e) RModule;
            free bytes;;
            if negb (is_null module.2) then error_delete module.2;; ret (e, -1)
            else if MAX_MODULES <=? len (ce_modules e) then
              obj_delete (ce_wasm e) module.1;; ret (e, -1)
            else
              pre <- obj_try (ok 2%nat) (ce_wasm e) RPre;
              if negb (is_null pre.2) then
                error_delete pre.2;; obj_delete (ce_wasm e) module.1;; ret (e, -1)
              else
                module_name <- alloc (ok 3%nat) RMem;
                if is_null module_name then
                  obj_delete (ce_wasm e) pre.1;; obj_delete (ce_wasm e) module.1;; ret (e, -1)
                else
                  ret (with_modules e
                         (ce_modules e ++ [CModule (cstr name) module_name pre.1 module.1]), 0)
    end.

(** The index [find_module] leads to. *)
Definition c_find_module (e : c_engine) (name : bytes) : option nat :=
  option_map Z.to_nat (find_module_from (map cm_name (ce_modules e)) 0 name).

(** ** Warm instances and store pools *)

(** Instantiation and the callbacks of initialization, up to the first that fails:
    the variables [error] and [trap] then. *)
Fixpoint c_run_init (l : list ending) : prog res (ptr * ptr) :=
  match l with
  | [] => ret (None, None)
  | x :: l =>
      y <- wasm_call x None;
      if negb (is_null y.1) || negb (is_null y.2) then ret y else c_run_init l
  end.

(** [init]: how the instantiation and the callbacks end; [has_mem]: they leave a
    memory to take a snapshot of.  What [warm] pointed to before is overwritten. *)
Definition c_warm_create (ok : oracle) (init : list ending) (has_mem : bool) (w : ptr)
    : prog res (c_warm * Z) :=
  s <- obj_new (ok 0%nat) w RStore;
  if is_null s then ret (CWarm None false, -1)
  else
    y <- c_run_init init;
    if negb (is_null y.1) || negb (is_null y.2) || negb has_mem then
      error_delete y.1;; wasm_trap_delete y.2;; obj_delete w s;; ret (CWarm None false, -1)
    else
      snap <- alloc (ok 1%nat) RMem;
      if is_null snap then
        error_delete y.1;; wasm_trap_delete y.2;; obj_delete w s;; ret (CWarm None false, -1)
      else obj_delete w s;; ret (CWarm snap true, 0).

Definition c_warm_destroy (x : c_warm) : prog res c_warm :=
  (if negb (is_null (cw_snapshot x)) then free (cw_snapshot x) else ret tt);;
  ret (CWarm None false).

(** The store of slot [i], NULL when it or its instance could not be created;
    [traps i]: what fails is a trap, not an error. *)
Definition c_init_slot (ok traps : oracle) (i : nat) (w : ptr) : prog res ptr :=
  s <- obj_new (ok (6 + 2 * i)%nat) w RStore;
  if is_null s then ret None
  else
    x <- wasm_call (if ok (7 + 2 * i)%nat then Returns else failure (traps i)) None;
    if negb (is_null x.1) then error_delete x.1;; obj_delete w s;; ret None
    else if negb (is_null x.2) then wasm_trap_delete x.2;; obj_delete w s;; ret None
    else ret s.

(** The stores of [n] slots, the first of them slot [i]. *)
Fixpoint c_pool_slots (ok traps : oracle) (n i : nat) (w : ptr) : prog res (list ptr) :=
  match n with
  | O => ret []
  | S n =>
      s <- c_init_slot ok traps i w;
      l <- c_pool_slots ok traps n (S i) w;
      ret (s :: l)
  end.

Definition clamp_pool (pool_size : Z) : Z :=
  let pool_size := if pool_size <? VWASM_POOL_MIN_SIZE then VWASM_POOL_MIN_SIZE else pool_size in
  if VWASM_POOL_MAX_SIZE <? pool_size then VWASM_POOL_MAX_SIZE else pool_size.

Definition c_store_pool_new (ok traps : oracle) (pool_size : Z) (w : ptr) : prog res (option c_pool) :=
  let pool_size := clamp_pool pool_size in
  pi <- alloc (ok 2%nat) RMem;
  if is_null pi then ret None
  else
    states <- alloc (ok 3%nat) RMem;
    if is_null states then free pi;; ret None
    else
      slots <- alloc (ok 4%nat) RMem;
      if is_null slots then free states;; free pi;; ret None
      else
        objects <- alloc (ok 5%nat) RMem;
        if is_null objects then free slots;; free states;; free pi;; ret None
        else
          l <- c_pool_slots ok traps (Z.to_nat pool_size) 0 w;
          ret (Some (CPool pi states slots objects l)).

Fixpoint c_delete_stores (l : list ptr) (w : ptr) : prog res unit :=
  match l with
  | [] => ret tt
  | s :: l =>
      (if is_null s then ret tt else obj_delete w s);;
      c_delete_stores l w
  end.

Definition c_store_pool_destroy (p : option c_pool) (w : ptr) : prog res (option c_pool) :=
  match p with
  | None => ret None
  | Some p =>
      c_delete_stores (cp_stores p) w;;
      free (cp_objects p);;
      free (cp_slots p);;
      free (cp_states p);;
      free (cp_pi p);;
      ret None
  end.

(** [has_init]: the guest exports [_initialize]. *)
Definition c_init_pool (ok traps : oracle) (init : list ending) (has_mem has_init : bool) (e : c_engine)
    (name : bytes) (pool_size : Z) : prog res (c_engine * Z) :=
  match c_find_module e name with
  | None => ret (e, -1)
  | Some i =>
      if (Z.to_nat MAX_MODULES <=? i)%nat then ret (e, -1)
      else
        let pool_size := if pool_size =? 0 then VWASM_DEFAULT_STORE_POOL_SIZE else pool_size in
        x <- c_warm_create ok init has_mem (ce_wasm e);
        let e := with_pools e (<[i := x.1]> (ce_warm e)) (ce_pools e) in
        if negb (x.2 =? 0) then ret (e, -1)
        else if has_init then
          wm <- c_warm_destroy x.1;
          ret (with_pools e (<[i := wm]> (ce_warm e)) (ce_pools e), 0)
        else
          p <- c_store_pool_new ok traps pool_size (ce_wasm e);
          let e := with_pools e (ce_warm e) (<[i := p]> (ce_pools e)) in
          match p with
          | None =>
              wm <- c_warm_destroy x.1;
              ret (with_pools e (<[i := wm]> (ce_warm e)) (ce_pools e), -1)
          | Some _ => ret (e, 0)
          end
  end.

(** The loop of [vwasm_engine_destroy_pools] over the [n] modules from [i] on. *)
Fixpoint c_destroy_pools (n i : nat) (e : c_engine) : prog res c_engine :=
  match n with
  | O => ret e
  | S n =>
      p <- c_store_pool_destroy (default None (ce_pools e !! i)) (ce_wasm e);
      let e := with_pools e (ce_warm e) (<[i := p]> (ce_pools e)) in
      let x := default (CWarm None false) (ce_warm e !! i) in
      x <- (if cw_valid x then c_warm_destroy x else ret x);
      c_destroy_pools n (S i) (with_pools e (<[i := x]> (ce_warm e)) (ce_pools e))
  end.

(** ** The HTTP pool: its memory; its descriptors are in [Descriptors] *)

Fixpoint c_free_cache (l : list (ptr * ptr * ptr)) : prog res unit :=
  match l with
  | [] => ret tt
  | (key, data, entry) :: l =>
      free key;;
      free data;;
      free entry;;
      c_free_cache l
  end.

Definition c_http_destroy (p : option c_http) : prog res (option c_http) :=
  match p with
  | None => ret None
  | Some p =>
      (if negb (is_null (ch_conns p)) then free (ch_conns p) else ret tt);;
      free (ch_dns p);;
      free (ch_breakers p);;
      c_free_cache (ch_cache p);;
      free (ch_pool p);;
      ret None
  end.

Definition c_http_new (ok : oracle) : prog res (option c_http) :=
  pool <- alloc (ok 0%nat) RMem;
  if is_null pool then ret None
  else
    conns <- alloc (ok 1%nat) RMem;
    if is_null conns then free pool;; ret None
    else
      dns <- alloc (ok 2%nat) RMem;
      breakers <- alloc (ok 3%nat) RMem;
      let p := Some (CHttp pool conns dns breakers []) in
      if is_null dns || is_null breakers then c_http_destroy p
      else ret p.

(** [found]: the entry that has the key already, if any. *)
Definition c_cache_put (ok : oracle) (found : option nat) (p : c_http) : prog res c_http :=
  let with_cache l := CHttp (ch_pool p) (ch_conns p) (ch_dns p) (ch_breakers p) l in
  key <- alloc (ok 0%nat) RMem;
  if is_null key then ret p
  else
    match found ≫= fun i => ch_cache p !! i with
    | Some (k, data, entry) =>
        new_data <- alloc (ok 1%nat) RMem;
        if is_null new_data then free key;; ret p
        else
          free data;;
          free key;;
          ret (with_cache (<[default 0%nat found := (k, new_data, entry)]> (ch_cache p)))
    | None =>
        entry <- alloc (ok 1%nat) RMem;
        if is_null entry then free key;; ret p
        else
          data <- alloc (ok 2%nat) RMem;
          if is_null data then free key;; free entry;; ret p
          else ret (with_cache ((key, data, entry) :: ch_cache p))
    end.

Definition c_init_http_pool (ok : oracle) (e : c_engine) : prog res (c_engine * Z) :=
  p <- c_http_destroy (ce_http e);
  p <- c_http_new ok;
  ret (with_http e p, match p with Some _ => 0 | None => -1 end).

(** ** The allowlist *)

Fixpoint c_free_all (l : list ptr) : prog res unit :=
  match l with
  | [] => ret tt
  | p :: l => free p;; c_free_all l
  end.

Definition c_free_upstreams (u : option (ptr * list ptr)) : prog res unit :=
  match u with
  | None => ret tt
  | Some (p, l) => c_free_all l;; free p
  end.

(** The second pass; [None] when a copy could not be allocated, and everything
    is freed. *)
Fixpoint c_fill_list (ok : oracle) (toks : list bytes) (count : nat) (new_list dup : ptr)
    (l : list ptr) : prog res (option (list ptr)) :=
  match toks with
  | [] => free dup;; ret (Some l)
  | tok :: toks =>
      if (length l <? count)%nat then
        match skip_blank tok with
        | [] => c_fill_list ok toks count new_list dup l
        | _ =>
            s <- alloc (ok (3 + length l)%nat) RMem;
            if is_null s then c_free_all l;; free new_list;; free dup;; ret None
            else c_fill_list ok toks count new_list dup (l ++ [s])
        end
      else free dup;; ret (Some l)
  end.

Definition c_set_allowed_upstreams (ok : oracle) (e : c_engine) (upstream_list : option bytes)
    : prog res c_engine :=
  c_free_upstreams (ce_upstreams e);;
  let e := with_upstreams e None in
  match upstream_list with
  | None => ret e
  | Some s =>
      match cstr s with
      | [] => ret e
      | s =>
          dup <- alloc (ok 0%nat) RMem;
          if is_null dup then ret e
          else
            free dup;;
            let toks := strtok_all (length s) s in
            let count := count_tokens toks in
            if (count =? 0)%nat then ret e
            else
              new_list <- alloc (ok 1%nat) RMem;
              if is_null new_list then ret e
              else
                dup <- alloc (ok 2%nat) RMem;
                if is_null dup then free new_list;; ret e
                else
                  r <- c_fill_list ok toks count new_list dup [];
                  match r with
                  | None => ret e
                  | Some l => ret (with_upstreams e (Some (new_list, l)))
                  end
      end
  end.

(** ** Tick timers *)

(** [ticks]: what the thread did and still does before it sees [running] cleared. *)
Definition c_stop_timer (ticks : ticking) (w : ptr) (t : option c_timer) : prog res unit :=
  match t with
  | None => ret tt
  | Some t =>
      tick_rounds (tk_rounds ticks) (tk_trap ticks) w;;
      obj_delete w (tm_thread t);;
      free (tm_mem t)
  end.

Definition c_set_tick_period (ok : oracle) (ticks : ticking) (e : c_engine) (name : bytes)
    (period_ms : Z) : prog res (c_engine * Z) :=
  match c_find_module e name with
  | None => ret (e, -1)
  | Some i =>
      if (Z.to_nat MAX_MODULES <=? i)%nat then ret (e, -1)
      else
        c_stop_timer ticks (ce_wasm e) (default None (ce_timers e !! i));;
        let e := with_timers e (<[i := None]> (ce_timers e)) in
        if period_ms =? 0 then ret (e, 0)
        else
          tt_ <- alloc (ok 0%nat) RMem;
          if is_null tt_ then ret (e, -1)
          else
            thread <- obj_new (ok 1%nat) (ce_wasm e) RThread;
            if is_null thread then free tt_;; ret (e, -1)
            else ret (with_timers e (<[i := Some (CTimer tt_ thread)]> (ce_timers e)), 0)
  end.

Fixpoint c_stop_timers (n i : nat) (ticks : nat -> ticking) (e : c_engine) : prog res c_engine :=
  match n with
  | O => ret e
  | S n =>
      c_stop_timer (ticks i) (ce_wasm e) (default None (ce_timers e !! i));;
      c_stop_timers n (S i) ticks (with_timers e (<[i := None]> (ce_timers e)))
  end.

(** ** Destruction *)

Fixpoint c_delete_modules (l : list c_module) (w : ptr) : prog res unit :=
  match l with
  | [] => ret tt
  | m :: l =>
      free (cm_name_p m);;
      obj_delete w (cm_pre m);;
      obj_delete w (cm_module m);;
      c_delete_modules l w
  end.

(** [ticks] and [reads]: what the threads do until they are joined. *)
Definition c_engine_destroy (ticks : nat -> ticking) (reads : list bool) (e : option c_engine)
    : prog res (option c_engine) :=
  match e with
  | None => ret None
  | Some e =>
      e <- c_stop_timers (Z.to_nat MAX_MODULES) 0 ticks e;
      e <- c_destroy_pools (Z.to_nat MAX_MODULES) 0 e;
      p <- c_http_destroy (ce_http e);
      epoch_timer_thread reads (ce_wasm e);;
      obj_delete (ce_wasm e) (ce_thread e);;
      c_delete_modules (ce_modules e) (ce_wasm e);;
      obj_delete (ce_wasm e) (ce_linker e);;
      wasm_delete (ce_wasm e);;
      c_free_upstreams (ce_upstreams e);;
      free (ce_mem e);;
      ret None
  end.

(** ** Histories *)

Inductive engine_op :=
| LoadModule (ok : oracle) (file : bytes -> option wasm_file) (name path : bytes)
| InitPool (ok traps : oracle) (init : list ending) (has_mem has_init : bool) (name : bytes) (pool_size : Z)
| InitHttpPool (ok : oracle)
| CachePut (ok : oracle) (found : option nat)
| SetAllowedUpstreams (ok : oracle) (upstream_list : option bytes)
| SetTickPeriod (ok : oracle) (ticks : ticking) (name : bytes) (period_ms : Z).

Definition c_engine_op (e : c_engine) (q : engine_op) : prog res (c_engine * Z) :=
  match q with
  | LoadModule ok file name path => c_load_module ok file e name path
  | InitPool ok traps init m h name size => c_init_pool ok traps init m h e name size
  | InitHttpPool ok => c_init_http_pool ok e
  | CachePut ok found =>
      match ce_http e with
      | None => ret (e, 0)
      | Some p => p <- c_cache_put ok found p; ret (with_http e (Some p), 0)
      end
  | SetAllowedUpstreams ok l => e <- c_set_allowed_upstreams ok e l; ret (e, 0)
  | SetTickPeriod ok ticks name ms => c_set_tick_period ok ticks e name ms
  end.

Fixpoint c_engine_ops (e : c_engine) (qs : list engine_op) : prog res (c_engine * list Z) :=
  match qs with
  | [] => ret (e, [])
  | q :: qs =>
      x <- c_engine_op e q;
      y <- c_engine_ops x.1 qs;
      ret (y.1, x.2 :: y.2)
  end.

(** An engine from its creation to its destruction; the answers of the
    operations, [None] when it could not be created. *)
Definition c_engine_life (ok : oracle) (qs : list engine_op) (ticks : nat -> ticking)
    (reads : list bool) : prog res (option (list Z)) :=
  e <- c_engine_new ok;
  match e with
  | None => ret None
  | Some e =>
      x <- c_engine_ops e qs;
      _ <- c_engine_destroy ticks reads (Some x.1);
      ret (Some x.2)
  end.

(** * Representation *)

Definition sum_of {A} (f : A -> Z) (l : list A) : Z := foldr (fun x a => f x + a) 0 l.

Lemma sum_of_app {A} (f : A -> Z) l1 l2 : sum_of f (l1 ++ l2) = sum_of f l1 + sum_of f l2.
Proof. induction l1 as [|x l1 IH]; simpl; [done|]. unfold sum_of in *. simpl. lia. Qed.

Lemma sum_of_insert {A} (f : A -> Z) l i x y :
  l !! i = Some y -> sum_of f (<[i := x]> l) = sum_of f l - f y + f x.
Proof.
  revert i. induction l as [|z l IH]; intros [|i] H; simplify_eq/=; unfold sum_of in *; simpl; [lia|].
  rewrite (IH i H). lia.
Qed.

Lemma sum_of_zero {A} (f : A -> Z) l : Forall (fun x => f x = 0) l -> sum_of f l = 0.
Proof. induction 1 as [|x l Hx _ IH]; unfold sum_of in *; simpl; lia. Qed.

(** A resource that is there, and one that may be NULL. *)
Definition obj (p : ptr) (r : res) : hpropI res := ∃ l, <affine> ⌜p = Some l⌝ ∗ l ↦ r.

Definition opt_obj (p : ptr) (r : res) : hpropI res :=
  match p with None => emp | Some l => l ↦ r end.

Definition module_at (m : c_module) : hpropI res :=
  obj (cm_name_p m) RMem ∗ obj (cm_pre m) RPre ∗ obj (cm_module m) RModule.

Definition warm_at (x : c_warm) : hpropI res :=
  <affine> ⌜cw_valid x = negb (is_null (cw_snapshot x))⌝ ∗ opt_obj (cw_snapshot x) RMem.

Definition pool_at (p : option c_pool) : hpropI res :=
  match p with
  | None => emp
  | Some p => obj (cp_pi p) RMem ∗ obj (cp_states p) RMem ∗ obj (cp_slots p) RMem ∗
      obj (cp_objects p) RMem ∗ [∗ list] s ∈ cp_stores p, opt_obj s RStore
  end.

Definition response_at (x : ptr * ptr * ptr) : hpropI res :=
  obj x.1.1 RMem ∗ obj x.1.2 RMem ∗ obj x.2 RMem.

Definition http_at (p : option c_http) : hpropI res :=
  match p with
  | None => emp
  | Some p => obj (ch_pool p) RMem ∗ opt_obj (ch_conns p) RMem ∗ opt_obj (ch_dns p) RMem ∗
      opt_obj (ch_breakers p) RMem ∗ [∗ list] x ∈ ch_cache p, response_at x
  end.

Definition timer_at (t : option c_timer) : hpropI res :=
  match t with
  | None => emp
  | Some t => obj (tm_mem t) RMem ∗ obj (tm_thread t) RThread
  end.

Definition upstreams_at (u : option (ptr * list ptr)) : hpropI res :=
  match u with
  | None => emp
  | Some (p, l) => obj p RMem ∗ [∗ list] q ∈ l, obj q RMem
  end.

(** What uses the engine of Wasmtime. *)
Definition ptr_users (p : ptr) : Z := if is_null p then 0 else 1.
Definition pool_users (p : option c_pool) : Z :=
  match p with None => 0 | Some p => sum_of ptr_users (cp_stores p) end.
Definition timer_users (t : option c_timer) : Z := match t with None => 0 | Some _ => 1 end.

Definition users (e : c_engine) : Z :=
  2 + 2 * len (ce_modules e) + sum_of pool_users (ce_pools e) + sum_of timer_users (ce_timers e).

(** The engine and everything it owns. *)
Definition engine_at (e : c_engine) : hpropI res :=
  <affine> ⌜length (ce_warm e) = 64%nat /\ length (ce_pools e) = 64%nat /\
            length (ce_timers e) = 64%nat⌝ ∗
  obj (ce_mem e) RMem ∗ obj (ce_wasm e) (RWasm (users e)) ∗ obj (ce_linker e) RLinker ∗
  obj (ce_thread e) RThread ∗
  ([∗ list] m ∈ ce_modules e, module_at m) ∗ ([∗ list] x ∈ ce_warm e, warm_at x) ∗
  ([∗ list] p ∈ ce_pools e, pool_at p) ∗ http_at (ce_http e) ∗
  ([∗ list] t ∈ ce_timers e, timer_at t) ∗ upstreams_at (ce_upstreams e).

#[global] Arguments obj : simpl never.
#[global] Arguments opt_obj : simpl never.
#[global] Arguments module_at : simpl never.
#[global] Arguments warm_at : simpl never.
#[global] Arguments pool_at : simpl never.
#[global] Arguments http_at : simpl never.
#[global] Arguments timer_at : simpl never.
#[global] Arguments upstreams_at : simpl never.
#[global] Arguments users : simpl never.
#[global] Arguments sum_of : simpl never.
#[global] Arguments engine_at : simpl never.

(** ** Rules *)

Lemma obj_some l r : l ↦ r ⊢ obj (Some l) r.
Proof. iIntros "H". iExists l. by iFrame. Qed.

Lemma obj_nonnull p r : obj p r ⊢ <affine> ⌜is_null p = false⌝ ∗ obj p r.
Proof. iIntros "(%l & -> & H)". iSplitR; [done|]. by iApply obj_some. Qed.

Lemma obj_opt p r : obj p r ⊢ opt_obj p r.
Proof. by iIntros "(%l & -> & H)". Qed.

#[export] Instance opt_obj_null r : Affine (opt_obj None r).
Proof. unfold opt_obj. apply _. Qed.

Lemma wp_alloc (ok : bool) (r : res) (Φ : ptr -> hpropI res) :
  (if ok then (∀ l, l ↦ r -∗ Φ (Some l))%I else Φ None) -∗ wp (alloc ok r) Φ.
Proof. iIntros "H". destruct ok; [by iApply wp_alloc_ok|by iApply wp_alloc_fail]. Qed.

Lemma wp_free_obj p r Φ : obj p r -∗ Φ tt -∗ wp (free p) Φ.
Proof. iIntros "(%l & -> & H) HΦ". iApply (wp_free with "H HΦ"). Qed.

Lemma wp_free_opt p r Φ : opt_obj p r -∗ Φ tt -∗ wp (free p) Φ.
Proof.
  iIntros "H HΦ". destruct p as [l|]; [iApply (wp_free with "H HΦ")|].
  iApply wp_free_null. iExact "HΦ".
Qed.

Lemma wp_use w n Φ :
  obj w (RWasm n) -∗ (obj w (RWasm (n + 1)) -∗ Φ tt) -∗ wp (use_wasm w) Φ.
Proof.
  iIntros "(%l & -> & H) HΦ". iApply wp_bind. iApply (wp_load with "H"). iIntros "H".
  iApply (wp_store with "H"). iIntros "H". iApply "HΦ". by iApply obj_some.
Qed.

Lemma wp_obj_new (ok : bool) w n r (Φ : ptr -> hpropI res) :
  obj w (RWasm n) -∗
  (if ok then (∀ p, obj w (RWasm (n + 1)) -∗ obj p r -∗ Φ p)%I
   else (obj w (RWasm n) -∗ Φ None)%I) -∗
  wp (obj_new ok w r) Φ.
Proof.
  iIntros "H HΦ". unfold obj_new. destruct ok.
  - iApply wp_bind. iApply (wp_use with "H"). iIntros "H". iApply wp_alloc_ok. iIntros (l) "Hl".
    iApply ("HΦ" with "H"). by iApply obj_some.
  - iApply wp_alloc_fail. by iApply "HΦ".
Qed.

Lemma wp_obj_delete w n p r Φ :
  obj w (RWasm n) -∗ obj p r -∗ (obj w (RWasm (n - 1)) -∗ Φ tt) -∗ wp (obj_delete w p) Φ.
Proof.
  iIntros "(%l & -> & H) (%l' & -> & Hp) HΦ".
  iApply wp_bind. iApply (wp_load with "Hp"). iIntros "Hp".
  iApply wp_bind. iApply (wp_free with "Hp").
  iApply wp_bind. iApply (wp_load with "H"). iIntros "H".
  iApply (wp_store with "H"). iIntros "H". iApply "HΦ". by iApply obj_some.
Qed.

(** ** Errors and traps *)

(** A call with [trap] NULL: what it leaves in the variables is there to delete. *)
Lemma wp_wasm_call x Φ :
  (∀ y, opt_obj y.1 RError -∗ opt_obj y.2 RTrap -∗ 
     <affine> ⌜(x <> Traps -> y.2 = None) /\ (is_null y.1 = false -> y.2 = None)⌝ -∗ Φ y) -∗
  wp (wasm_call x None) Φ.
Proof.
  iIntros "HΦ". destruct x; cbn [wasm_call].
  - iApply wp_ret. by iApply "HΦ".
  - iApply wp_bind. iApply wp_alloc. iIntros (l) "Hl". iApply wp_ret. by iApply ("HΦ" $! (Some l, None) with "Hl").
  - iApply wp_bind. iApply wp_alloc. iIntros (l) "Hl". iApply wp_ret. by iApply ("HΦ" $! (None, Some l) with "[] Hl").
Qed.

Lemma wp_error_delete p Φ : opt_obj p RError -∗ Φ tt -∗ wp (error_delete p) Φ.
Proof.
  iIntros "H HΦ". unfold error_delete. destruct p as [l|]; cbn [is_null]; [|by iApply wp_ret].
  iApply wp_bind. iApply (wp_load with "H"). iIntros "H". iApply (wp_free with "H HΦ").
Qed.

Lemma wp_trap_delete p Φ : opt_obj p RTrap -∗ Φ tt -∗ wp (wasm_trap_delete p) Φ.
Proof.
  iIntros "H HΦ". unfold wasm_trap_delete. destruct p as [l|]; cbn [is_null]; [|by iApply wp_ret].
  iApply wp_bind. iApply (wp_load with "H"). iIntros "H". iApply (wp_free with "H HΦ").
Qed.

Lemma opt_obj_gone p r : is_null p = true -> opt_obj p r ⊢ emp.
Proof. by destruct p. Qed.

Lemma wp_obj_try (ok : bool) w n r (Φ : ptr * ptr -> hpropI res) :
  obj w (RWasm n) -∗
  (if ok then (∀ p, obj w (RWasm (n + 1)) -∗ obj p r -∗ Φ (p, None))%I
   else (∀ q, obj w (RWasm n) -∗ obj q RError -∗ Φ (None, q))%I) -∗
  wp (obj_try ok w r) Φ.
Proof.
  iIntros "H HΦ". iApply wp_bind. iApply (wp_obj_new with "H"). destruct ok.
  - iIntros (p) "H Hp". iApply wp_bind. iApply wp_alloc. cbn. iApply wp_ret. iApply ("HΦ" with "H Hp").
  - iIntros "H". iApply wp_bind. iApply wp_alloc. cbn. iIntros (l) "Hl". iApply wp_ret.
    iApply ("HΦ" with "H"). by iApply obj_some.
Qed.

Lemma wp_define_imports (ok : bool) Φ : Φ (if ok then 0 else -1) -∗ wp (define_imports ok) Φ.
Proof.
  iIntros "HΦ". iApply wp_bind. iApply wp_alloc. destruct ok; cbn; [by iApply wp_ret|].
  iIntros (l) "Hl". iApply wp_bind. iApply (wp_error_delete (Some l) with "Hl"). by iApply wp_ret.
Qed.

(** A store that may be NULL. *)
Lemma wp_store_delete w n s Φ :
  obj w (RWasm n) -∗ opt_obj s RStore -∗ (obj w (RWasm (n - ptr_users s)) -∗ Φ tt) -∗
  wp (if is_null s then ret tt else obj_delete w s) Φ.
Proof.
  iIntros "H Hs HΦ". destruct s as [l|]; simpl.
  - iApply (wp_obj_delete with "H [Hs] HΦ"). by iApply obj_some.
  - iApply wp_ret. rewrite Z.sub_0_r. by iApply "HΦ".
Qed.

Lemma wp_wasm_delete w Φ : obj w (RWasm 0) -∗ Φ tt -∗ wp (wasm_delete w) Φ.
Proof.
  iIntros "(%l & -> & H) HΦ". iApply wp_bind. iApply (wp_load with "H"). iIntros "H". simpl.
  iApply (wp_free with "H HΦ").
Qed.

(** ** Opening the engine: the part an operation works on, and how to close *)

Lemma engine_open_modules e :
  engine_at e ⊢ obj (ce_wasm e) (RWasm (users e)) ∗
    ((∀ n, <affine> ⌜n = users e⌝ -∗ obj (ce_wasm e) (RWasm n) -∗ engine_at e) ∧
     (∀ m n, <affine> ⌜n = (users e + 2)%Z⌝ -∗ obj (ce_wasm e) (RWasm n) -∗ module_at m -∗
        engine_at (with_modules e (ce_modules e ++ [m])))).
Proof.
  iIntros "(%Hl & Hmem & $ & Hlk & Hth & Hms & Hwm & Hps & Hh & Hts & Hu)". iSplit.
  - iIntros (n) "-> Hw". iSplitR; [done|]. iFrame.
  - iIntros (m n) "-> Hw Hm". iSplitR; [done|]. cbn. iFrame.
    assert (users (with_modules e (ce_modules e ++ [m])) = users e + 2) as ->.
    { unfold users. cbn. rewrite len_app. change (len [m]) with 1. lia. }
    by iFrame.
Qed.

Lemma engine_open_pool e i :
  (i < 64)%nat ->
  engine_at e ⊢ ∃ p x, <affine> ⌜ce_pools e !! i = Some p /\ ce_warm e !! i = Some x⌝ ∗
    obj (ce_wasm e) (RWasm (users e)) ∗ pool_at p ∗ warm_at x ∗
    (∀ p' x' n, <affine> ⌜n = (users e - pool_users p + pool_users p')%Z⌝ -∗
       obj (ce_wasm e) (RWasm n) -∗ pool_at p' -∗ warm_at x' -∗
       engine_at (with_pools e (<[i := x']> (ce_warm e)) (<[i := p']> (ce_pools e)))).
Proof.
  iIntros (Hi) "(%Hl & Hmem & Hw & Hlk & Hth & Hms & Hwm & Hps & Hh & Hts & Hu)".
  destruct Hl as (Hlw & Hlp & Hlt).
  destruct (lookup_lt_is_Some_2 (ce_pools e) i) as [p Hp]; [lia|].
  destruct (lookup_lt_is_Some_2 (ce_warm e) i) as [x Hx]; [lia|].
  iExists p, x. iSplitR; [done|]. iFrame "Hw".
  iDestruct (big_sepL_insert_acc with "Hps") as "[$ Hps]"; [done|].
  iDestruct (big_sepL_insert_acc with "Hwm") as "[$ Hwm]"; [done|].
  iIntros (p' x' n) "-> Hw Hp Hx". iSpecialize ("Hps" with "Hp"). iSpecialize ("Hwm" with "Hx").
  iSplitR; [iPureIntro; cbn; by rewrite !length_insert|]. cbn. iFrame.
  assert (users (with_pools e (<[i := x']> (ce_warm e)) (<[i := p']> (ce_pools e))) =
    users e - pool_users p + pool_users p') as ->; [|done].
  unfold users. cbn. rewrite (sum_of_insert _ _ _ _ _ Hp). lia.
Qed.

Lemma engine_open_timer e i :
  (i < 64)%nat ->
  engine_at e ⊢ ∃ t, <affine> ⌜ce_timers e !! i = Some t⌝ ∗
    obj (ce_wasm e) (RWasm (users e)) ∗ timer_at t ∗
    (∀ t' n, <affine> ⌜n = (users e - timer_users t + timer_users t')%Z⌝ -∗
       obj (ce_wasm e) (RWasm n) -∗ timer_at t' -∗
       engine_at (with_timers e (<[i := t']> (ce_timers e)))).
Proof.
  iIntros (Hi) "(%Hl & Hmem & Hw & Hlk & Hth & Hms & Hwm & Hps & Hh & Hts & Hu)".
  destruct Hl as (Hlw & Hlp & Hlt).
  destruct (lookup_lt_is_Some_2 (ce_timers e) i) as [t Ht]; [lia|].
  iExists t. iSplitR; [done|]. iFrame "Hw".
  iDestruct (big_sepL_insert_acc with "Hts") as "[$ Hts]"; [done|].
  iIntros (t' n) "-> Hw Ht". iSpecialize ("Hts" with "Ht").
  iSplitR; [iPureIntro; cbn; by rewrite length_insert|]. cbn. iFrame.
  assert (users (with_timers e (<[i := t']> (ce_timers e))) =
    users e - timer_users t + timer_users t') as ->; [|done].
  unfold users. cbn. rewrite (sum_of_insert _ _ _ _ _ Ht). lia.
Qed.

Lemma engine_open_http e :
  engine_at e ⊢ http_at (ce_http e) ∗ (∀ p, http_at p -∗ engine_at (with_http e p)).
Proof.
  iIntros "(%Hl & Hmem & Hw & Hlk & Hth & Hms & Hwm & Hps & $ & Hts & Hu)".
  iIntros (p) "Hp". iSplitR; [done|]. iFrame.
Qed.

Lemma engine_open_upstreams e :
  engine_at e ⊢ upstreams_at (ce_upstreams e) ∗
    (∀ u, upstreams_at u -∗ engine_at (with_upstreams e u)).
Proof.
  iIntros "(%Hl & Hmem & Hw & Hlk & Hth & Hms & Hwm & Hps & Hh & Hts & $)".
  iIntros (u) "Hu". iSplitR; [done|]. iFrame.
Qed.

Lemma sep_replicate {A} (P : A -> hpropI res) x n :
  (emp ⊢ P x) -> ⊢ [∗ list] y ∈ replicate n x, P y.
Proof. intros HP. induction n as [|n IH]; simpl; [done|]. iSplitL; [by iApply HP|iApply IH]. Qed.

(** ** Creation *)

Lemma wp_engine_new ok :
  emp ⊢ wp (c_engine_new ok) (fun o =>
    match o with
    | None => emp
    | Some e => engine_at e ∗ <affine> ⌜ce_modules e = [] /\
        ce_warm e = replicate 64 (CWarm None false) /\ ce_pools e = replicate 64 None⌝
    end).
Proof.
  assert (forall w l lk, obj w (RWasm (0 + 1)) ∗ obj lk RLinker ∗ l ↦ RMem ⊢
    wp (obj_delete w lk;; wasm_delete w;; free (Some l);; ret None)
       (fun o : option c_engine => match o with None => emp | Some e => engine_at e ∗
          <affine> ⌜ce_modules e = [] /\ ce_warm e = replicate 64 (CWarm None false) /\
          ce_pools e = replicate 64 None⌝ end)) as Hfail.
  { intros w l lk. iIntros "(Hw & Hlk & Hl)". iApply wp_bind.
    iApply (wp_obj_delete with "Hw Hlk"). iIntros "Hw".
    iApply wp_bind. iApply (wp_wasm_delete with "Hw"). iApply wp_bind. iApply (wp_free with "Hl").
    by iApply wp_ret. }
  iIntros "_". iApply wp_bind. iApply wp_alloc. destruct (ok 0%nat); [|by iApply wp_ret].
  iIntros (l) "Hl". simpl. iApply wp_bind. iApply wp_alloc.
  destruct (ok 1%nat); [|simpl; iApply wp_bind; iApply (wp_free with "Hl"); by iApply wp_ret].
  iIntros (lc) "Hc". simpl. iApply wp_bind. iApply wp_bind. iApply (wp_free with "Hc").
  iApply wp_alloc.
  destruct (ok 2%nat); [|simpl; iApply wp_bind; iApply (wp_free with "Hl"); by iApply wp_ret].
  iIntros (w) "Hw". iDestruct (obj_some with "Hw") as "Hw". simpl. iApply wp_bind. iApply (wp_obj_new with "Hw").
  destruct (ok 3%nat).
  2:{ iIntros "Hw". simpl. iApply wp_bind. iApply (wp_wasm_delete with "Hw").
      iApply wp_bind. iApply (wp_free with "Hl"). by iApply wp_ret. }
  iIntros (lk) "Hw Hlk". iDestruct (obj_nonnull with "Hlk") as "[-> Hlk]".
  iApply wp_bind. iApply wp_define_imports. destruct (ok 4%nat); [|iApply Hfail; iFrame].
  iApply wp_bind. iApply wp_define_imports. destruct (ok 5%nat); [|iApply Hfail; iFrame].
  iApply wp_bind. iApply wp_define_imports. destruct (ok 6%nat); [|iApply Hfail; iFrame]. cbn [negb Z.eqb].
  iApply wp_bind. iApply (wp_obj_new with "Hw").
  destruct (ok 7%nat); [|iIntros "Hw"; iApply Hfail; iFrame].
  iIntros (th) "Hw Hth". iDestruct (obj_nonnull with "Hth") as "[-> Hth]".
  iApply wp_ret. iSplitL; [|done]. iSplitR; [done|]. iSplitL "Hl"; [by iApply obj_some|].
  iFrame. cbn [ce_modules ce_warm ce_pools ce_http ce_timers ce_upstreams]. iSplitR; [done|].
  iSplitL; [iApply (sep_replicate warm_at (CWarm None false) 64); by iIntros "_"; iSplitR|].
  iSplitL; [by iApply (sep_replicate pool_at None 64)|]. iSplitR; [done|].
  iSplitL; [by iApply (sep_replicate timer_at None 64)|done].
Qed.

(** ** Modules *)

(** Every failure of loading gives back what was created. *)
Lemma wp_load_module ok file e name path :
  engine_at e ⊢ wp (c_load_module ok file e name path) (fun x => engine_at x.1 ∗
    <affine> ⌜x.1 = e \/ exists m, x.1 = with_modules e (ce_modules e ++ [m])⌝).
Proof.
  iIntros "H". unfold c_load_module.
  destruct (existsb _ _); [iApply wp_ret; iFrame; by iLeft|].
  iApply wp_bind. iApply wp_alloc. destruct (file path) as [f|]; [|iApply wp_ret; iFrame; by iLeft].
  iIntros (fp) "Hf". simpl. destruct (f_size f <=? 0).
  { iApply wp_bind. iApply (wp_free with "Hf"). iApply wp_ret. iFrame. by iLeft. }
  iApply wp_bind. iApply wp_alloc. destruct (ok 0%nat); simpl.
  2:{ iApply wp_bind. iApply (wp_free with "Hf"). iApply wp_ret. iFrame. by iLeft. }
  iIntros (b) "Hb". simpl. destruct (f_read f); simpl.
  2:{ iApply wp_bind. iApply (wp_free with "Hb"). iApply wp_bind. iApply (wp_free with "Hf").
      iApply wp_ret. iFrame. by iLeft. }
  iApply wp_bind. iApply (wp_free with "Hf").
  iDestruct (engine_open_modules with "H") as "[Hw Hbk]".
  iApply wp_bind. iApply (wp_obj_try with "Hw"). destruct (ok 1%nat).
  2:{ iIntros (q) "Hw Hq". iApply wp_bind. iApply (wp_free with "Hb"). cbn [fst snd].
      iDestruct (obj_nonnull with "Hq") as "[-> Hq]". cbn [negb]. iDestruct (obj_opt with "Hq") as "Hq".
      iApply wp_bind. iApply (wp_error_delete with "Hq"). iApply wp_ret.
      iSplitL; [|by iLeft]. iDestruct "Hbk" as "[Hbk _]". by iApply ("Hbk" with "[%] Hw"). }
  iIntros (md) "Hw Hmd". cbn [fst snd is_null negb].
  iApply wp_bind. iApply (wp_free with "Hb"). destruct (_ <=? _).
  { iApply wp_bind. iApply (wp_obj_delete with "Hw Hmd"). iIntros "Hw". iApply wp_ret.
    iSplitL; [|by iLeft]. iDestruct "Hbk" as "[Hbk _]". iApply ("Hbk" with "[%] Hw"). lia. }
  iApply wp_bind. iApply (wp_obj_try with "Hw"). destruct (ok 2%nat).
  2:{ iIntros (q) "Hw Hq". cbn [fst snd]. iDestruct (obj_nonnull with "Hq") as "[-> Hq]". cbn [negb].
      iDestruct (obj_opt with "Hq") as "Hq". iApply wp_bind. iApply (wp_error_delete with "Hq").
      iApply wp_bind. iApply (wp_obj_delete with "Hw Hmd"). iIntros "Hw". iApply wp_ret. iSplitL; [|by iLeft]. iDestruct "Hbk" as "[Hbk _]".
      iApply ("Hbk" with "[%] Hw"). lia. }
  iIntros (pre) "Hw Hpre". cbn [fst snd is_null negb].
  iApply wp_bind. iApply wp_alloc. destruct (ok 3%nat); simpl.
  2:{ iApply wp_bind. iApply (wp_obj_delete with "Hw Hpre"). iIntros "Hw".
      iApply wp_bind. iApply (wp_obj_delete with "Hw Hmd"). iIntros "Hw".
      iApply wp_ret. iSplitL; [|by iLeft]. iDestruct "Hbk" as "[Hbk _]".
      iApply ("Hbk" with "[%] Hw"). lia. }
  iIntros (nm) "Hnm". iDestruct (obj_some with "Hnm") as "Hnm". simpl. iApply wp_ret.
  iSplitL; [|iPureIntro; right; by eexists]. iDestruct "Hbk" as "[_ Hbk]".
  iApply ("Hbk" $! (CModule (cstr name) (Some nm) pre md) with "[%] Hw"); [lia|]. iFrame.
Qed.

(** ** Warm instances and store pools *)

Lemma wp_run_init l Φ :
  (∀ y, opt_obj y.1 RError -∗ opt_obj y.2 RTrap -∗ Φ y) -∗ wp (c_run_init l) Φ.
Proof.
  induction l as [|x l IH]; iIntros "HΦ"; cbn [c_run_init]; [iApply wp_ret; by iApply "HΦ"|].
  iApply wp_bind. iApply wp_wasm_call. iIntros (y) "He Ht _".
  destruct (negb (is_null y.1) || negb (is_null y.2)) eqn:E; [iApply wp_ret; iApply ("HΦ" with "He Ht")|].
  apply orb_false_iff in E as [E1%negb_false_iff E2%negb_false_iff].
  rewrite (opt_obj_gone _ _ E1) (opt_obj_gone _ _ E2). by iApply IH.
Qed.

(** The label [fail] of the function: everything is released. *)
Lemma wp_warm_fail e t s w n :
  obj w (RWasm (n + 1)) -∗ obj s RStore -∗ opt_obj e RError -∗ opt_obj t RTrap -∗
  wp (error_delete e;; wasm_trap_delete t;; obj_delete w s;; ret (CWarm None false, -1)) (fun x =>
    obj w (RWasm n) ∗ warm_at x.1 ∗ <affine> ⌜x.2 = 0 -> cw_valid x.1 = true⌝).
Proof.
  iIntros "Hw Hs He Ht". iApply wp_bind. iApply (wp_error_delete with "He").
  iApply wp_bind. iApply (wp_trap_delete with "Ht").
  iApply wp_bind. iApply (wp_obj_delete with "Hw Hs"). rewrite Z.add_simpl_r. iIntros "Hw".
  iApply wp_ret. iFrame. by iSplitR.
Qed.

Lemma wp_warm_create ok init has_mem w n :
  obj w (RWasm n) ⊢ wp (c_warm_create ok init has_mem w) (fun x =>
    obj w (RWasm n) ∗ warm_at x.1 ∗ <affine> ⌜x.2 = 0 -> cw_valid x.1 = true⌝).
Proof.
  iIntros "Hw". iApply wp_bind. iApply (wp_obj_new with "Hw"). destruct (ok 0%nat).
  2:{ iIntros "Hw". iApply wp_ret. iFrame. by iSplitR. }
  iIntros (s) "Hw Hs". iDestruct (obj_nonnull with "Hs") as "[-> Hs]".
  iApply wp_bind. iApply wp_run_init. iIntros (y) "He Ht".
  destruct (_ || negb has_mem) eqn:E; [iApply (wp_warm_fail with "Hw Hs He Ht")|].
  apply orb_false_iff in E as [[E1%negb_false_iff E2%negb_false_iff]%orb_false_iff _].
  iApply wp_bind. iApply wp_alloc. destruct (ok 1%nat); [|iApply (wp_warm_fail with "Hw Hs He Ht")].
  rewrite (opt_obj_gone _ _ E1) (opt_obj_gone _ _ E2).
  iIntros (l) "Hl". simpl. iApply wp_bind. iApply (wp_obj_delete with "Hw Hs").
  rewrite Z.add_simpl_r. iIntros "Hw". iApply wp_ret. iFrame "Hw".
  iSplitL; [|done]. iSplitR; [done|]. iExact "Hl".
Qed.

Lemma wp_warm_destroy x Φ : warm_at x -∗ (Φ (CWarm None false)) -∗ wp (c_warm_destroy x) Φ.
Proof.
  iIntros "[_ Hx] HΦ". iApply wp_bind. destruct x as [[l|] v]; simpl.
  - iApply (wp_free with "Hx"). by iApply wp_ret.
  - iApply wp_ret. iApply wp_ret. iExact "HΦ".
Qed.

Lemma warm_idle : ⊢ warm_at (CWarm None false).
Proof. by iSplitR. Qed.

Lemma wp_init_slot ok traps i w n :
  obj w (RWasm n) ⊢ wp (c_init_slot ok traps i w) (fun s =>
    obj w (RWasm (n + ptr_users s)) ∗ opt_obj s RStore).
Proof.
  iIntros "Hw". iApply wp_bind. iApply (wp_obj_new with "Hw"). destruct (ok (6 + 2 * i)%nat).
  2:{ iIntros "Hw". iApply wp_ret. cbn. rewrite Z.add_0_r. by iFrame. }
  iIntros (s) "Hw Hs". iDestruct (obj_nonnull with "Hs") as "[%Hs Hs]". rewrite Hs.
  iApply wp_bind. iApply wp_wasm_call. iIntros ([e t]) "He Ht [_ %Hone]". cbn [fst snd] in *.
  assert (obj w (RWasm (n + 1)) -∗ obj s RStore -∗ wp (obj_delete w s;; ret None) (fun s' =>
    obj w (RWasm (n + ptr_users s')) ∗ opt_obj s' RStore)) as Hdel.
  { iIntros "Hw Hs". iApply wp_bind. iApply (wp_obj_delete with "Hw Hs"). rewrite Z.add_simpl_r. iIntros "Hw".
    iApply wp_ret. cbn. rewrite Z.add_0_r. by iFrame. }
  destruct (is_null e) eqn:Ee; cbn [negb].
  - rewrite (opt_obj_gone _ _ Ee). destruct (is_null t) eqn:Et; cbn [negb].
    + rewrite (opt_obj_gone _ _ Et). iApply wp_ret. unfold ptr_users. rewrite Hs. iFrame "Hw". by iApply obj_opt.
    + iApply wp_bind. iApply (wp_trap_delete with "Ht"). iApply (Hdel with "Hw Hs").
  - rewrite (Hone eq_refl). iApply wp_bind. iApply (wp_error_delete with "He"). iApply (Hdel with "Hw Hs").
Qed.

Lemma wp_pool_slots ok traps k i w n :
  obj w (RWasm n) ⊢ wp (c_pool_slots ok traps k i w) (fun l =>
    obj w (RWasm (n + sum_of ptr_users l)) ∗ [∗ list] s ∈ l, opt_obj s RStore).
Proof.
  revert i n. induction k as [|k IH]; intros i n; cbn [c_pool_slots].
  { iIntros "Hw". iApply wp_ret. rewrite Z.add_0_r. by iFrame. }
  iIntros "Hw". iApply wp_bind. iApply (wp_wand with "[Hw]"); [iApply (wp_init_slot with "Hw")|].
  iIntros (s) "[Hw Hs]". iApply wp_bind. iApply (wp_wand with "[Hw]"); [iApply (IH with "Hw")|].
  iIntros (l) "[Hw Hl]". iApply wp_ret. rewrite -Z.add_assoc. by iFrame.
Qed.

Lemma wp_store_pool_new ok traps size w n :
  obj w (RWasm n) ⊢ wp (c_store_pool_new ok traps size w) (fun p =>
    obj w (RWasm (n + pool_users p)) ∗ pool_at p).
Proof.
  iIntros "Hw". unfold c_store_pool_new. cbv zeta. iApply wp_bind. iApply wp_alloc.
  destruct (ok 2%nat); [|iApply wp_ret; cbn; rewrite Z.add_0_r; by iFrame].
  iIntros (l1) "H1". cbn [is_null]. iApply wp_bind. iApply wp_alloc. destruct (ok 3%nat); cbn [is_null].
  2:{ iApply wp_bind. iApply (wp_free with "H1"). iApply wp_ret. cbn. rewrite Z.add_0_r. by iFrame. }
  iIntros (l2) "H2". cbn [is_null]. iApply wp_bind. iApply wp_alloc. destruct (ok 4%nat); cbn [is_null].
  2:{ iApply wp_bind. iApply (wp_free with "H2"). iApply wp_bind. iApply (wp_free with "H1").
      iApply wp_ret. cbn. rewrite Z.add_0_r. by iFrame. }
  iIntros (l3) "H3". cbn [is_null]. iApply wp_bind. iApply wp_alloc. destruct (ok 5%nat); cbn [is_null].
  2:{ iApply wp_bind. iApply (wp_free with "H3"). iApply wp_bind. iApply (wp_free with "H2").
      iApply wp_bind. iApply (wp_free with "H1"). iApply wp_ret. cbn. rewrite Z.add_0_r. by iFrame. }
  iIntros (l4) "H4". cbn [is_null]. iApply wp_bind.
  iApply (wp_wand with "[Hw]"); [iApply (wp_pool_slots with "Hw")|].
  iIntros (l) "[Hw Hl]". iApply wp_ret. iFrame "Hw". rewrite /pool_at /=. iFrame "Hl".
  iSplitL "H1"; [by iApply obj_some|]. iSplitL "H2"; [by iApply obj_some|].
  iSplitL "H3"; by iApply obj_some.
Qed.

Lemma wp_delete_stores l w n Φ :
  obj w (RWasm n) -∗ ([∗ list] s ∈ l, opt_obj s RStore) -∗
  (obj w (RWasm (n - sum_of ptr_users l)) -∗ Φ tt) -∗ wp (c_delete_stores l w) Φ.
Proof.
  revert n. induction l as [|s l IH]; intros n; iIntros "Hw Hl HΦ"; cbn [c_delete_stores].
  { iApply wp_ret. rewrite Z.sub_0_r. by iApply "HΦ". }
  iDestruct "Hl" as "[Hs Hl]". iApply wp_bind. iApply (wp_store_delete with "Hw Hs"). iIntros "Hw".
  iApply (IH with "Hw Hl"). replace (n - ptr_users s - sum_of ptr_users l) with
    (n - sum_of ptr_users (s :: l)) by (unfold sum_of; simpl; lia). iExact "HΦ".
Qed.

Lemma wp_store_pool_destroy p w n Φ :
  obj w (RWasm n) -∗ pool_at p -∗ (obj w (RWasm (n - pool_users p)) -∗ Φ None) -∗
  wp (c_store_pool_destroy p w) Φ.
Proof.
  iIntros "Hw Hp HΦ". destruct p as [p|]; cbn [c_store_pool_destroy pool_users].
  - iDestruct "Hp" as "(H1 & H2 & H3 & H4 & Hs)".
    iApply wp_bind. iApply (wp_delete_stores with "Hw Hs"). iIntros "Hw".
    iApply wp_bind. iApply (wp_free_obj with "H4"). iApply wp_bind. iApply (wp_free_obj with "H3").
    iApply wp_bind. iApply (wp_free_obj with "H2"). iApply wp_bind. iApply (wp_free_obj with "H1").
    iApply wp_ret. by iApply "HΦ".
  - rewrite Z.sub_0_r. iApply wp_ret. rewrite /pool_at. by iApply "HΦ".
Qed.

(** The module found by a name. *)
Lemma find_module_from_some l j name i :
  find_module_from l j name = Some i -> exists n, i = j + Z.of_nat n /\
    exists m, l !! n = Some m /\ cstr m = cstr name.
Proof.
  revert j. induction l as [|m l IH]; intros j; simpl; [done|].
  destruct (strcmp_eq m name) eqn:E.
  - intros [= <-]. exists 0%nat. split; [lia|]. exists m. split; [done|].
    unfold strcmp_eq, bytes_eqb in E. by apply bool_decide_eq_true in E.
  - intros H. apply IH in H as (n & -> & m' & Hm & Hc). exists (S n). split; [lia|]. by exists m'.
Qed.

Lemma c_find_module_some e name i :
  c_find_module e name = Some i ->
  exists m, ce_modules e !! i = Some m /\ cstr (cm_name m) = cstr name.
Proof.
  unfold c_find_module. destruct (find_module_from _ _ _) as [z|] eqn:E; [|done]. intros [= <-].
  apply find_module_from_some in E as (n & -> & x & Hx & Hc).
  rewrite list_lookup_fmap in Hx. replace (Z.to_nat (0 + Z.of_nat n)) with n by lia.
  destruct (ce_modules e !! n) as [m|]; simplify_eq/=. by exists m.
Qed.

(** Modules whose names are not in [used] have no pool and no snapshot. *)
Definition idle (used : list bytes) (e : c_engine) : Prop :=
  forall i, (i < 64)%nat ->
    (forall m, ce_modules e !! i = Some m -> cstr (cm_name m) ∉ used) ->
    ce_pools e !! i = Some None /\ ce_warm e !! i = Some (CWarm None false).

Lemma idle_mono used e name : idle used e -> idle (name :: used) e.
Proof. intros H i Hi Hm. apply H; [done|]. intros m Hl. specialize (Hm m Hl). set_solver. Qed.

Lemma idle_pool used e name i x p :
  idle used e -> c_find_module e name = Some i ->
  idle (cstr name :: used) (with_pools e (<[i := x]> (ce_warm e)) (<[i := p]> (ce_pools e))).
Proof.
  intros H Hf j Hj Hm. destruct (c_find_module_some _ _ _ Hf) as (m & Hl & Hc). cbn in *.
  destruct (decide (i = j)) as [<-|Hne]; [specialize (Hm m Hl); set_solver|].
  rewrite !list_lookup_insert_ne //. apply H; [done|]. intros m' Hm'. specialize (Hm m' Hm'). set_solver.
Qed.

Lemma with_pools_twice e a b c d : with_pools (with_pools e a b) c d = with_pools e c d.
Proof. done. Qed.

(** Any engine with the pool and the snapshot of one module replaced. *)
Lemma wp_init_pool ok traps init has_mem has_init e name size used :
  idle used e -> cstr name ∉ used ->
  engine_at e ⊢ wp (c_init_pool ok traps init has_mem has_init e name size) (fun x =>
    engine_at x.1 ∗ <affine> ⌜idle (cstr name :: used) x.1⌝).
Proof.
  iIntros (Hidle Hname) "H". unfold c_init_pool.
  destruct (c_find_module e name) as [i|] eqn:Hf.
  2:{ iApply wp_ret. iFrame. iPureIntro. by apply idle_mono. }
  destruct (Nat.leb_spec (Z.to_nat MAX_MODULES) i) as [|Hi].
  { iApply wp_ret. iFrame. iPureIntro. by apply idle_mono. }
  change (Z.to_nat MAX_MODULES) with 64%nat in Hi.
  destruct (c_find_module_some _ _ _ Hf) as (m & Hl & Hc).
  destruct (Hidle i Hi) as [Hp Hx]; [intros m' Hm'; simplify_eq; by rewrite Hc|].
  iDestruct (engine_open_pool e i Hi with "H") as (p x) "(%E & Hw & Hpool & Hwarm & Hbk)".
  destruct E as [Ep Ex]. simplify_eq. iDestruct "Hwarm" as "[_ _]". iAssert emp%I with "[Hpool]" as "_"; [iExact "Hpool"|].
  cbn [pool_users]. cbv zeta.
  iApply wp_bind. iApply (wp_wand with "[Hw]"); [iApply (wp_warm_create with "Hw")|].
  iIntros ([x r]) "(Hw & Hx & %Hv)". cbn [fst snd] in *.
  assert (<[i := None]> (ce_pools e) = ce_pools e) as Hsame by by apply list_insert_id.
  assert (forall x, idle (cstr name :: used) (with_pools e (<[i := x]> (ce_warm e)) (ce_pools e))) as Hid.
  { intros y. rewrite -Hsame. by apply idle_pool. }
  destruct (negb (r =? 0)).
  { iApply wp_ret. iSplitL; [|iPureIntro; apply Hid]. iSpecialize ("Hbk" $! None x). rewrite Hsame.
    iApply ("Hbk" with "[%] Hw [//] Hx"). cbn [pool_users]. lia. }
  destruct has_init.
  { iApply wp_bind. iApply (wp_warm_destroy with "Hx"). iApply wp_ret. cbn. rewrite list_insert_insert_eq.
    iSplitL; [|iPureIntro; apply Hid]. iSpecialize ("Hbk" $! None (CWarm None false)). rewrite Hsame.
    iApply ("Hbk" with "[%] Hw [//] []"); [cbn [pool_users]; lia|iApply warm_idle]. }
  iApply wp_bind. iApply (wp_wand with "[Hw]"); [iApply (wp_store_pool_new with "Hw")|].
  iIntros (p) "[Hw Hp]". cbn. destruct p as [p|].
  - iApply wp_ret. cbn. rewrite with_pools_twice. iSplitL; [|iPureIntro; by apply idle_pool].
    iApply ("Hbk" with "[%] Hw Hp Hx"). cbn. lia.
  - iApply wp_bind. iApply (wp_warm_destroy with "Hx"). iApply wp_ret. cbn.
    rewrite !with_pools_twice list_insert_insert_eq. iSplitL; [|iPureIntro; by apply idle_pool].
    iApply ("Hbk" with "[%] Hw Hp []"); [cbn; lia|iApply warm_idle].
Qed.

(** ** The HTTP pool *)

Lemma wp_free_cache l Φ : ([∗ list] x ∈ l, response_at x) -∗ Φ tt -∗ wp (c_free_cache l) Φ.
Proof.
  induction l as [|[[k d] en] l IH]; iIntros "Hl HΦ"; cbn [c_free_cache]; [by iApply wp_ret|].
  iDestruct "Hl" as "[(Hk & Hd & He) Hl]". iApply wp_bind. iApply (wp_free_obj with "Hk").
  iApply wp_bind. iApply (wp_free_obj with "Hd"). iApply wp_bind. iApply (wp_free_obj with "He").
  iApply (IH with "Hl HΦ").
Qed.

Lemma wp_http_destroy p Φ : http_at p -∗ Φ None -∗ wp (c_http_destroy p) Φ.
Proof.
  iIntros "Hp HΦ". destruct p as [p|]; cbn [c_http_destroy].
  2:{ iApply wp_ret. rewrite /http_at. iExact "HΦ". }
  iDestruct "Hp" as "(H1 & H2 & H3 & H4 & H5)". iApply wp_bind.
  iApply (wp_wand _ (fun _ => emp)%I with "[H2]").
  { destruct (ch_conns p) as [l|]; cbn; [by iApply (wp_free with "H2")|by iApply wp_ret]. }
  iIntros (u) "_". iApply wp_bind. iApply (wp_free_opt with "H3").
  iApply wp_bind. iApply (wp_free_opt with "H4").
  iApply wp_bind. iApply (wp_free_cache with "H5").
  iApply wp_bind. iApply (wp_free_obj with "H1"). by iApply wp_ret.
Qed.

Lemma wp_http_new ok : emp ⊢ wp (c_http_new ok) http_at.
Proof.
  iIntros "_". iApply wp_bind. iApply wp_alloc. destruct (ok 0%nat); [|by iApply wp_ret].
  iIntros (l1) "H1". cbn [is_null]. iApply wp_bind. iApply wp_alloc. destruct (ok 1%nat).
  2:{ cbn [is_null]. iApply wp_bind. iApply (wp_free with "H1"). by iApply wp_ret. }
  iIntros (l2) "H2". cbn [is_null]. iDestruct (obj_some with "H1") as "H1".
  iAssert (opt_obj (Some l2) RMem) with "H2" as "H2".
  assert (forall (b : bool) Φ, (∀ p, opt_obj p RMem -∗ Φ p) -∗ wp (alloc b RMem) Φ) as Ha.
  { intros b Φ. iIntros "H". iApply wp_alloc. destruct b; [iIntros (l) "Hl"; by iApply "H"|by iApply "H"]. }
  iApply wp_bind. iApply Ha. iIntros (p3) "H3". iApply wp_bind. iApply Ha. iIntros (p4) "H4".
  cbv zeta. destruct (is_null p3 || is_null p4).
  - iApply (wp_http_destroy (Some _) with "[H1 H2 H3 H4]"); [|done].
    rewrite /http_at /=. by iFrame "H1 H2 H3 H4".
  - iApply wp_ret. rewrite /http_at /=. by iFrame "H1 H2 H3 H4".
Qed.

Lemma wp_init_http_pool ok e :
  engine_at e ⊢ wp (c_init_http_pool ok e) (fun x => engine_at x.1 ∗
    <affine> ⌜exists p, x.1 = with_http e p⌝).
Proof.
  iIntros "H". iDestruct (engine_open_http with "H") as "[Hp Hbk]".
  iApply wp_bind. iApply (wp_http_destroy with "Hp").
  iApply wp_bind. iApply (wp_wand _ http_at); [by iApply wp_http_new|]. iIntros (p) "Hp".
  iApply wp_ret. iSplitL; [by iApply "Hbk"|]. iPureIntro. by exists p.
Qed.

Lemma wp_cache_put ok found p :
  http_at (Some p) ⊢ wp (c_cache_put ok found p) (fun p' => http_at (Some p')).
Proof.
  iIntros "(H1 & H2 & H3 & H4 & H5)". unfold c_cache_put. cbv zeta. iApply wp_bind. iApply wp_alloc.
  destruct (ok 0%nat); [|iApply wp_ret; rewrite /http_at; iFrame "H1 H2 H3 H4 H5"].
  iIntros (k) "Hk". cbn [is_null]. destruct (found ≫= _) as [[[k' d] en]|] eqn:Ef.
  - destruct found as [i|]; [|done]. cbn in Ef.
    iDestruct (big_sepL_insert_acc with "H5") as "[(Hk' & Hd & He) Hbk]"; [exact Ef|].
    iApply wp_bind. iApply wp_alloc. destruct (ok 1%nat); cbn [is_null].
    + iIntros (nd) "Hnd". cbn [is_null]. iApply wp_bind. iApply (wp_free_obj with "Hd").
      iApply wp_bind. iApply (wp_free with "Hk"). iApply wp_ret. rewrite /http_at /=.
      iFrame "H1 H2 H3 H4". iApply "Hbk". iFrame "Hk' He". by iApply obj_some.
    + iApply wp_bind. iApply (wp_free with "Hk"). iApply wp_ret. rewrite /http_at.
      iFrame "H1 H2 H3 H4". iSpecialize ("Hbk" $! (k', d, en)). rewrite list_insert_id //.
      iApply "Hbk". iFrame "Hk' Hd He".
  - iApply wp_bind. iApply wp_alloc. destruct (ok 1%nat); cbn [is_null].
    2:{ iApply wp_bind. iApply (wp_free with "Hk"). iApply wp_ret. rewrite /http_at.
        iFrame "H1 H2 H3 H4 H5". }
    iIntros (en) "He". cbn [is_null]. iApply wp_bind. iApply wp_alloc. destruct (ok 2%nat); cbn [is_null].
    + iIntros (d) "Hd". iApply wp_ret. rewrite /http_at /=. iFrame "H1 H2 H3 H4 H5".
      iSplitL "Hk"; [by iApply obj_some|]. iSplitL "Hd"; by iApply obj_some.
    + iApply wp_bind. iApply (wp_free with "Hk"). iApply wp_bind. iApply (wp_free with "He").
      iApply wp_ret. rewrite /http_at. iFrame "H1 H2 H3 H4 H5".
Qed.

(** ** The allowlist *)

Lemma wp_free_all l Φ : ([∗ list] q ∈ l, obj q RMem) -∗ Φ tt -∗ wp (c_free_all l) Φ.
Proof.
  induction l as [|q l IH]; iIntros "Hl HΦ"; cbn [c_free_all]; [by iApply wp_ret|].
  iDestruct "Hl" as "[Hq Hl]". iApply wp_bind. iApply (wp_free_obj with "Hq"). iApply (IH with "Hl HΦ").
Qed.

Lemma wp_free_upstreams u Φ : upstreams_at u -∗ Φ tt -∗ wp (c_free_upstreams u) Φ.
Proof.
  iIntros "Hu HΦ". destruct u as [[p l]|]; cbn [c_free_upstreams].
  - iDestruct "Hu" as "[Hp Hl]". iApply wp_bind. iApply (wp_free_all with "Hl").
    iApply (wp_free_obj with "Hp HΦ").
  - iApply wp_ret. rewrite /upstreams_at. iExact "HΦ".
Qed.

Lemma wp_fill_list ok toks count new_list dup l :
  obj new_list RMem -∗ obj dup RMem -∗ ([∗ list] q ∈ l, obj q RMem) -∗
  wp (c_fill_list ok toks count new_list dup l) (fun r =>
    match r with None => emp | Some l => obj new_list RMem ∗ [∗ list] q ∈ l, obj q RMem end).
Proof.
  revert l. induction toks as [|t toks IH]; intros l; iIntros "Hn Hd Hl"; cbn [c_fill_list].
  { iApply wp_bind. iApply (wp_free_obj with "Hd"). iApply wp_ret. iFrame. }
  destruct (_ <? _)%nat.
  2:{ iApply wp_bind. iApply (wp_free_obj with "Hd"). iApply wp_ret. iFrame. }
  destruct (skip_blank t); [by iApply (IH with "Hn Hd Hl")|].
  iApply wp_bind. iApply wp_alloc. destruct (ok _); cbn [is_null].
  - iIntros (s) "Hs". iApply (IH with "Hn Hd"). rewrite big_sepL_app. iFrame "Hl".
    cbn. iSplitL; [|done]. by iApply obj_some.
  - iApply wp_bind. iApply (wp_free_all with "Hl"). iApply wp_bind. iApply (wp_free_obj with "Hn").
    iApply wp_bind. iApply (wp_free_obj with "Hd"). by iApply wp_ret.
Qed.

Lemma wp_set_allowed_upstreams ok e s :
  engine_at e ⊢ wp (c_set_allowed_upstreams ok e s) (fun e' => engine_at e' ∗
    <affine> ⌜exists u, e' = with_upstreams e u⌝).
Proof.
  iIntros "H". iDestruct (engine_open_upstreams with "H") as "[Hu Hbk]".
  iApply wp_bind. iApply (wp_free_upstreams with "Hu"). cbv zeta.
  assert ((∀ u, upstreams_at u -∗ engine_at (with_upstreams e u)) ⊢
    wp (ret (with_upstreams e None)) (fun e' => engine_at e' ∗
      <affine> ⌜exists u, e' = with_upstreams e u⌝)) as Hnone.
  { iIntros "Hbk". iApply wp_ret. iSplitL; [by iApply "Hbk"|]. iPureIntro. by exists None. }
  destruct s as [s|]; [|by iApply Hnone]. destruct (cstr s) as [|c t]; [by iApply Hnone|].
  iApply wp_bind. iApply wp_alloc. destruct (ok 0%nat); [|by iApply Hnone].
  iIntros (d) "Hd". cbn [is_null]. iApply wp_bind. iApply (wp_free with "Hd").
  destruct (_ =? 0)%nat; [by iApply Hnone|].
  iApply wp_bind. iApply wp_alloc. destruct (ok 1%nat); [|by iApply Hnone].
  iIntros (nl) "Hn". cbn [is_null]. iApply wp_bind. iApply wp_alloc. destruct (ok 2%nat); cbn [is_null].
  2:{ iApply wp_bind. iApply (wp_free with "Hn"). by iApply Hnone. }
  iIntros (d2) "Hd". cbn [is_null]. iDestruct (obj_some with "Hn") as "Hn".
  iDestruct (obj_some with "Hd") as "Hd". iApply wp_bind.
  iApply (wp_wand with "[Hn Hd]"); [by iApply (wp_fill_list _ _ _ _ _ [] with "Hn Hd")|].
  iIntros ([l|]) "Hl"; [|by iApply Hnone]. iApply wp_ret.
  iSplitL; [by iApply "Hbk"|]. iPureIntro. by eexists.
Qed.

(** ** Threads and tick timers *)

Lemma wp_epoch_thread reads w n Φ :
  obj w (RWasm n) -∗ (obj w (RWasm n) -∗ Φ tt) -∗ wp (epoch_timer_thread reads w) Φ.
Proof.
  remember (length reads) as k eqn:Hk. revert reads Hk.
  induction (lt_wf k) as [k _ IH]. intros reads ->. iIntros "Hw HΦ".
  destruct reads as [|[] [|[] reads]]; cbn [epoch_timer_thread]; try (iApply wp_ret; by iApply "HΦ").
  - iDestruct "Hw" as (l) "[-> Hw]". iApply wp_bind. iApply (wp_load with "Hw"). iIntros "Hw".
    iApply (IH (length reads) ltac:(simpl; lia) reads eq_refl with "[Hw] HΦ"). by iApply obj_some.
  - iApply (IH (length reads) ltac:(simpl; lia) reads eq_refl with "Hw HΦ").
Qed.

(** A round that leaves no trap behind for the next, and a thread with only such
    rounds whose variable [trap] is NULL by chance. *)
Definition calm (r : round) : Prop := rd_inst r <> Traps /\ List.last (rd_calls r) Returns <> Traps.
Definition quiet (t : ticking) : Prop := tk_trap t = None /\ Forall calm (tk_rounds t).

Lemma wp_tick_calls l trap Φ :
  (∀ t, <affine> ⌜(l = [] -> trap = None) -> List.last l Returns <> Traps -> t = None⌝ -∗ Φ t) -∗ wp (tick_calls l trap) Φ.
Proof.
  revert trap. induction l as [|x l IH]; intros trap; iIntros "HΦ"; cbn [tick_calls].
  { iApply wp_ret. iApply "HΦ". iPureIntro. intros H _. by apply H. }
  iApply wp_bind. iApply wp_wasm_call. iIntros (y) "He Ht [%Hx _]".
  iApply wp_bind. iApply (wp_error_delete with "He"). iApply wp_bind. iApply (wp_trap_delete with "Ht").
  iApply IH. iIntros (t) "%Ht". iApply "HΦ". iPureIntro. intros _ Hl.
  destruct l as [|x' l]; [|by apply Ht]. apply Ht; [|done]. intros _. apply Hx. by intros ->.
Qed.

Lemma wp_tick_rounds l w n Φ :
  Forall calm l ->
  obj w (RWasm n) -∗ (obj w (RWasm n) -∗ Φ tt) -∗ wp (tick_rounds l None w) Φ.
Proof.
  intros Hl. induction Hl as [|r l [Hr Hc] _ IH]; iIntros "Hw HΦ"; cbn [tick_rounds];
    [iApply wp_ret; by iApply "HΦ"|].
  iApply wp_bind. iApply (wp_obj_new with "Hw"). destruct (rd_store r).
  2:{ iIntros "Hw". cbn [is_null]. iApply (IH with "Hw HΦ"). }
  iIntros (s) "Hw Hs". iDestruct (obj_nonnull with "Hs") as "[-> Hs]".
  iApply wp_bind. iApply wp_wasm_call. iIntros ([e t]) "He Ht [%Ht _]". cbn [fst snd] in *.
  rewrite (Ht Hr). destruct (negb (is_null e) || _) eqn:E.
  - iApply wp_bind. iApply (wp_error_delete with "He"). iApply wp_bind. iApply wp_ret.
    iApply wp_bind. iApply (wp_obj_delete with "Hw Hs"). rewrite Z.add_simpl_r. iIntros "Hw".
    iApply (IH with "Hw HΦ").
  - apply orb_false_iff in E as [E%negb_false_iff _]. rewrite (opt_obj_gone _ _ E).
    iApply wp_bind. iApply wp_tick_calls. iIntros (t') "%Ht'". rewrite (Ht' (fun _ => eq_refl) Hc).
    iApply wp_bind. iApply (wp_obj_delete with "Hw Hs"). rewrite Z.add_simpl_r. iIntros "Hw".
    iApply (IH with "Hw HΦ").
Qed.

Lemma wp_stop_timer ticks w n t Φ :
  quiet ticks ->
  obj w (RWasm n) -∗ timer_at t -∗ (obj w (RWasm (n - timer_users t)) -∗ Φ tt) -∗
  wp (c_stop_timer ticks w t) Φ.
Proof.
  intros [Htrap Hrounds].
  iIntros "Hw Ht HΦ". destruct t as [t|]; cbn [c_stop_timer timer_users].
  - iDestruct "Ht" as "[Hm Hth]". rewrite Htrap.
    iApply wp_bind. iApply (wp_tick_rounds _ _ _ _ Hrounds with "Hw"). iIntros "Hw".
    iApply wp_bind. iApply (wp_obj_delete with "Hw Hth"). iIntros "Hw".
    iApply (wp_free_obj with "Hm"). by iApply "HΦ".
  - rewrite Z.sub_0_r. iApply wp_ret. rewrite /timer_at. by iApply "HΦ".
Qed.

Lemma wp_set_tick_period ok ticks e name ms :
  quiet ticks ->
  engine_at e ⊢ wp (c_set_tick_period ok ticks e name ms) (fun x => engine_at x.1 ∗
    <affine> ⌜exists l, x.1 = with_timers e l⌝).
Proof.
  intros Hq. assert (exists l, e = with_timers e l) as Hsame by (exists (ce_timers e); by destruct e).
  iIntros "H". unfold c_set_tick_period.
  destruct (c_find_module e name) as [i|]; [|iApply wp_ret; by iFrame].
  destruct (Nat.leb_spec (Z.to_nat MAX_MODULES) i) as [|Hi]; [iApply wp_ret; by iFrame|].
  iDestruct (engine_open_timer e i Hi with "H") as (t) "(%Ht & Hw & Ht & Hbk)". rewrite Ht.
  iApply wp_bind. iApply (wp_stop_timer _ _ _ _ _ Hq with "Hw Ht"). iIntros "Hw". cbv zeta.
  destruct (ms =? 0).
  { iApply wp_ret. iSplitL; [|iPureIntro; by eexists]. iApply ("Hbk" $! None with "[%] Hw [//]"). cbn. lia. }
  iApply wp_bind. iApply wp_alloc. destruct (ok 0%nat); cbn [is_null].
  2:{ iApply wp_ret. iSplitL; [|iPureIntro; by eexists]. iApply ("Hbk" $! None with "[%] Hw [//]"). cbn. lia. }
  iIntros (l) "Hl". cbn [is_null]. iApply wp_bind. iApply (wp_obj_new with "Hw"). destruct (ok 1%nat).
  2:{ iIntros "Hw". cbn [is_null]. iApply wp_bind. iApply (wp_free with "Hl"). iApply wp_ret.
      iSplitL; [|iPureIntro; by eexists]. iApply ("Hbk" $! None with "[%] Hw [//]"). cbn. lia. }
  iIntros (th) "Hw Hth". iDestruct (obj_nonnull with "Hth") as "[-> Hth]". iApply wp_ret. cbn.
  rewrite list_insert_insert_eq. iSplitL; [|iPureIntro; by eexists].
  iApply ("Hbk" $! (Some (CTimer (Some l) th)) with "[%] Hw"); [cbn; lia|].
  rewrite /timer_at /=. iFrame "Hth". by iApply obj_some.
Qed.

(** ** Destruction *)

Lemma wp_stop_timers n i ticks e Φ :
  (forall i, quiet (ticks i)) ->
  (i + n = 64)%nat -> (forall j, (j < i)%nat -> ce_timers e !! j = Some None) ->
  engine_at e -∗
  (∀ l, <affine> ⌜forall j, (j < 64)%nat -> l !! j = Some None⌝ -∗ engine_at (with_timers e l) -∗
     Φ (with_timers e l)) -∗
  wp (c_stop_timers n i ticks e) Φ.
Proof.
  intros Hq. revert i e Φ. induction n as [|n IH]; intros i e Φ Hi Hj; iIntros "H HΦ"; cbn [c_stop_timers].
  { iApply wp_ret. assert (e = with_timers e (ce_timers e)) as E by by destruct e.
    iSpecialize ("HΦ" $! (ce_timers e)). rewrite -E. iApply ("HΦ" with "[%] H").
    intros j Hlt. apply Hj. lia. }
  iDestruct (engine_open_timer e i with "H") as (t) "(%Ht & Hw & Ht & Hbk)"; [lia|]. rewrite Ht.
  iApply wp_bind. iApply (wp_stop_timer _ _ _ _ _ (Hq i) with "Hw Ht"). iIntros "Hw".
  iApply (IH (S i) with "[Hbk Hw]"); [lia| |..].
  - intros j Hlt. cbn. destruct (decide (j = i)) as [->|].
    + apply list_lookup_insert_eq. by eapply lookup_lt_Some.
    + rewrite list_lookup_insert_ne //. apply Hj. lia.
  - iApply ("Hbk" $! None with "[%] Hw [//]"). cbn. lia.
  - iIntros (l) "%Hl H". iApply ("HΦ" with "[%] H"). done.
Qed.

Lemma wp_destroy_pools n i e Φ :
  (i + n = 64)%nat ->
  (forall j, (j < i)%nat -> ce_pools e !! j = Some None /\ ce_warm e !! j = Some (CWarm None false)) ->
  engine_at e -∗
  (∀ wl pl, <affine> ⌜forall j, (j < 64)%nat ->
       pl !! j = Some None /\ wl !! j = Some (CWarm None false)⌝ -∗
     engine_at (with_pools e wl pl) -∗ Φ (with_pools e wl pl)) -∗
  wp (c_destroy_pools n i e) Φ.
Proof.
  revert i e Φ. induction n as [|n IH]; intros i e Φ Hi Hj; iIntros "H HΦ"; cbn [c_destroy_pools].
  { iApply wp_ret. assert (e = with_pools e (ce_warm e) (ce_pools e)) as E by by destruct e.
    iSpecialize ("HΦ" $! (ce_warm e) (ce_pools e)). rewrite -E. iApply ("HΦ" with "[%] H").
    intros j Hlt. apply Hj. lia. }
  iDestruct (engine_open_pool e i with "H") as (p x) "(%E & Hw & Hp & Hx & Hbk)"; [lia|].
  destruct E as [Ep Ex]. rewrite Ep /=.
  iApply wp_bind. iApply (wp_store_pool_destroy with "Hw Hp"). iIntros "Hw". cbn. rewrite Ex /=.
  iApply wp_bind. iApply (wp_wand _ (fun y => <affine> ⌜y = CWarm None false⌝)%I with "[Hx]").
  { destruct x as [sn v]. destruct v; cbn; [by iApply (wp_warm_destroy with "Hx")|].
    iDestruct "Hx" as "[%Hv Hx]". destruct sn as [l|]; [done|]. iApply wp_ret. done. }
  iIntros (y) "->". rewrite with_pools_twice.
  iApply (IH (S i) with "[Hbk Hw]"); [lia| |..].
  - intros j Hlt. cbn. destruct (decide (j = i)) as [->|].
    + split; apply list_lookup_insert_eq; by eapply lookup_lt_Some.
    + rewrite !list_lookup_insert_ne //. apply Hj. lia.
  - iApply ("Hbk" $! None with "[%] Hw [//] []"); [cbn; lia|iApply warm_idle].
  - iIntros (wl pl) "%Hl H". rewrite with_pools_twice. iApply ("HΦ" with "[%] H"). done.
Qed.

Lemma wp_delete_modules l w n Φ :
  obj w (RWasm n) -∗ ([∗ list] m ∈ l, module_at m) -∗ (obj w (RWasm (n - 2 * len l)) -∗ Φ tt) -∗
  wp (c_delete_modules l w) Φ.
Proof.
  revert n. induction l as [|m l IH]; intros n; iIntros "Hw Hl HΦ"; cbn [c_delete_modules].
  { iApply wp_ret. change (len (@nil c_module)) with 0. rewrite Z.mul_0_r Z.sub_0_r. by iApply "HΦ". }
  iDestruct "Hl" as "[(Hn & Hp & Hm) Hl]". iApply wp_bind. iApply (wp_free_obj with "Hn").
  iApply wp_bind. iApply (wp_obj_delete with "Hw Hp"). iIntros "Hw".
  iApply wp_bind. iApply (wp_obj_delete with "Hw Hm"). iIntros "Hw". iApply (IH with "Hw Hl").
  replace (n - 1 - 1 - 2 * len l) with (n - 2 * len (m :: l)) by (rewrite len_cons; lia).
  iExact "HΦ".
Qed.

Lemma sep_replicate_emp {A} (P : A -> hpropI res) x n :
  (P x ⊢ emp) -> ([∗ list] y ∈ replicate n x, P y) ⊢ emp.
Proof.
  intros HP. induction n as [|n IH]; simpl; [done|]. iIntros "[H1 H2]".
  iDestruct (HP with "H1") as "_". by iApply IH.
Qed.

Lemma eq_replicate {A} (l : list A) n x :
  length l = n -> (forall j, (j < n)%nat -> l !! j = Some x) -> l = replicate n x.
Proof.
  intros Hn Hl. apply list_eq. intros j. destruct (decide (j < n)%nat) as [Hj|Hj].
  - rewrite Hl // lookup_replicate_2 //.
  - rewrite !lookup_ge_None_2 // ?length_replicate; lia.
Qed.

(** When pools and timers are gone, the modules, the linker and the epoch
    thread are all that uses the engine of Wasmtime. *)
Lemma users_idle e :
  ce_pools e = replicate 64 None -> ce_timers e = replicate 64 None ->
  users e = 2 + 2 * len (ce_modules e).
Proof.
  intros Hp Ht. unfold users. rewrite Hp Ht.
  rewrite !(sum_of_zero _ (replicate _ _)); [lia|by apply Forall_replicate..].
Qed.

Lemma wp_engine_destroy ticks reads e :
  (forall i, quiet (ticks i)) ->
  engine_at e ⊢ wp (c_engine_destroy ticks reads (Some e)) (fun _ => emp).
Proof.
  iIntros (Hq) "H". unfold c_engine_destroy. change (Z.to_nat MAX_MODULES) with 64%nat.
  iApply wp_bind. iApply (wp_stop_timers _ _ _ _ _ Hq with "H"); [lia|intros j Hj; lia|]. iIntros (tl) "%Ht H".
  iApply wp_bind. iApply (wp_destroy_pools with "H"); [lia|intros j Hj; lia|].
  iIntros (wl pl) "%Hp H".
  iDestruct "H" as "(%Hl & Hmem & Hw & Hlk & Hth & Hms & Hwm & Hps & Hh & Hts & Hu)".
  destruct Hl as (Hlw & Hlp & Hlt). cbn in Hlw, Hlp, Hlt.
  assert (pl = replicate 64 None) as Epl by (apply eq_replicate; [done|]; intros j Hj; by apply Hp).
  assert (tl = replicate 64 None) as Etl by by apply eq_replicate.
  assert (wl = replicate 64 (CWarm None false)) as Ewl
    by (apply eq_replicate; [done|]; intros j Hj; by apply Hp).
  rewrite users_idle //. cbn.
  rewrite Epl Etl Ewl. iDestruct (sep_replicate_emp with "Hps") as "_"; [done|].
  iDestruct (sep_replicate_emp with "Hts") as "_"; [done|].
  iDestruct (sep_replicate_emp with "Hwm") as "_"; [by iIntros "[_ _]"|].
  iApply wp_bind. iApply (wp_http_destroy with "Hh").
  iApply wp_bind. iApply (wp_epoch_thread with "Hw"). iIntros "Hw".
  iApply wp_bind. iApply (wp_obj_delete with "Hw Hth"). iIntros "Hw".
  iApply wp_bind. iApply (wp_delete_modules with "Hw Hms"). iIntros "Hw".
  iApply wp_bind. iApply (wp_obj_delete with "Hw Hlk"). iIntros "Hw".
  replace (2 + 2 * len (ce_modules e) - 1 - 2 * len (ce_modules e) - 1) with 0 by lia.
  iApply wp_bind. iApply (wp_wasm_delete with "Hw").
  iApply wp_bind. iApply (wp_free_upstreams with "Hu").
  iApply wp_bind. iApply (wp_free_obj with "Hmem"). by iApply wp_ret.
Qed.

(** ** Histories *)

(** The modules an operation initializes the pool of. *)
Definition pooled (q : engine_op) : list bytes :=
  match q with InitPool _ _ _ _ _ name _ => [cstr name] | _ => [] end.

(** The tick thread it stops, if any, leaves no trap behind. *)
Definition quiet_op (q : engine_op) : Prop :=
  match q with SetTickPeriod _ ticks _ _ => quiet ticks | _ => True end.

Lemma wp_engine_op q e used :
  idle used e -> quiet_op q -> Forall (fun n => n ∉ used) (pooled q) ->
  engine_at e ⊢ wp (c_engine_op e q) (fun x => engine_at x.1 ∗
    <affine> ⌜idle (pooled q ++ used) x.1⌝).
Proof.
  intros Hidle Hticks Hq.
  destruct q as [ok file name path|ok traps i m h name size|ok|ok fnd|ok l|ok ticks name ms];
    cbn [c_engine_op pooled quiet_op app] in *; iIntros "H".
  - iApply (wp_wand with "[H]"); [iApply (wp_load_module with "H")|]. iIntros ([e' r]) "[$ %H]".
    iPureIntro. cbn in *. destruct H as [->|[m ->]]; [done|]. intros j Hj Hm. apply Hidle; [done|].
    intros m' Hm'. apply Hm. cbn. by apply lookup_app_l_Some.
  - iApply (wp_init_pool _ _ _ _ _ _ _ _ used Hidle (Forall_inv Hq) with "H").
  - iApply (wp_wand with "[H]"); [iApply (wp_init_http_pool with "H")|]. iIntros ([e' r]) "[$ %H]".
    iPureIntro. cbn in *. by destruct H as [p ->].
  - destruct (ce_http e) as [p|] eqn:Ep; [|iApply wp_ret; by iFrame].
    iDestruct (engine_open_http with "H") as "[Hp Hbk]". rewrite Ep. iApply wp_bind.
    iApply (wp_wand with "[Hp]"); [iApply (wp_cache_put with "Hp")|]. iIntros (p') "Hp".
    iApply wp_ret. iSplitL; [by iApply "Hbk"|done].
  - iApply wp_bind. iApply (wp_wand with "[H]"); [iApply (wp_set_allowed_upstreams with "H")|].
    iIntros (e') "[H %E]". iApply wp_ret. iFrame. iPureIntro. by destruct E as [u ->].
  - iApply (wp_wand with "[H]"); [iApply (wp_set_tick_period _ _ _ _ _ Hticks with "H")|]. iIntros ([e' r]) "[$ %H]".
    iPureIntro. cbn in *. by destruct H as [p ->].
Qed.

Lemma wp_engine_ops qs e used :
  idle used e -> Forall quiet_op qs -> NoDup (mjoin (pooled <$> qs) ++ used) ->
  engine_at e ⊢ wp (c_engine_ops e qs) (fun x => engine_at x.1).
Proof.
  revert e used. induction qs as [|q qs IH]; intros e used Hidle Hqs Hnd; cbn [c_engine_ops].
  { iIntros "H". by iApply wp_ret. }
  apply list.Forall_cons_1 in Hqs as [Hq Hqs]. cbn in Hnd. iIntros "H". iApply wp_bind. iApply (wp_wand with "[H]").
  { iApply (wp_engine_op with "H"); [done..|]. apply list.Forall_forall. intros n Hn.
    rewrite -(assoc_L (++)) in Hnd. apply list.NoDup_app in Hnd as (_ & Hd & _).
    specialize (Hd n Hn). set_solver. }
  iIntros ([e' r]) "[H %He']". cbn [fst snd] in *. iApply wp_bind.
  iApply (wp_wand with "[H]"); [iApply (IH with "H"); [done..|]|].
  - eapply NoDup_Permutation_proper; [|exact Hnd]. solve_Permutation.
  - iIntros ([e2 rs]) "H". iApply wp_ret. iFrame.
Qed.

(** Every life of an engine ends with the heap it started from, if no module is
    given a store pool twice and the tick threads leave no trap behind. *)
Lemma engine_life_done ok qs ticks reads h :
  NoDup (mjoin (pooled <$> qs)) -> Forall quiet_op qs -> (forall i, quiet (ticks i)) ->
  exists r, c_engine_life ok qs ticks reads h = Done (r, h).
Proof.
  intros Hnd Hqs Hq. destruct (wp_closed (c_engine_life ok qs ticks reads) (fun _ => True) h)
    as (r & E & _); [|by exists r].
  iIntros "_". iApply wp_bind. iApply wp_wand; [by iApply (wp_engine_new ok)|].
  iIntros ([e|]) "H"; [|by iApply wp_ret]. iDestruct "H" as "[H %He]".
  iApply wp_bind. iApply (wp_wand with "[H]").
  { iApply (wp_engine_ops qs e [] with "H"); [|done|by rewrite right_id_L].
    destruct He as (_ & Ew & Ep). intros j Hj _. by rewrite Ew Ep !lookup_replicate_2. }
  iIntros ([e' rs]) "H". iApply wp_bind. iApply (wp_wand with "[H]").
  { iApply (wp_engine_destroy _ _ _ Hq with "H"). }
  iIntros (o) "_". by iApply wp_ret.
Qed.

(** A second [set_store_pool_size] for a module overwrites the pointers to its
    pool and its snapshot: the stores of the first pool are never deleted and
    are still there when the engine is. *)
Lemma second_pool_leaks :
  c_engine_life all_ok
    [LoadModule all_ok (fun _ => Some (WasmFile 8 true)) (str "auth") (str "auth.wasm");
     InitPool all_ok all_ok [] true false (str "auth") 8; InitPool all_ok all_ok [] true false (str "auth") 8]
    (fun _ => Ticking None []) [] ∅ = Fault.
Proof. vm_compute. reflexivity. Qed.

(** A tick that traps leaves the deleted trap in the variable of the thread, and
    the next round deletes it again; so does the first round with whatever the
    variable holds at the start. *)
Lemma stale_trap_deleted :
  let life t := c_engine_life all_ok
    [LoadModule all_ok (fun _ => Some (WasmFile 8 true)) (str "auth") (str "auth.wasm");
     SetTickPeriod all_ok (Ticking None []) (str "auth") 100] (fun _ => t) [] ∅ in
  life (Ticking None [Round true Returns [Traps]]) = Done (Some [0; 0], ∅) /\
  life (Ticking None [Round true Returns [Traps]; Round true Returns [Returns]]) = Fault /\
  life (Ticking (Some 1000%positive) [Round true Returns [Returns]]) = Fault.
Proof. vm_compute. done. Qed.
