(* ===== verification/EngineValues.v ===== *)
(** * The engine with its resources computes what the engine of values does

    [Engine] models what an engine contains, [EngineLife] what it owns.  Both
    translate the same functions; here the second is shown to refine the first:
    under the same outcomes of allocations, files, Wasmtime and threads, each
    operation answers the same, and afterwards the modules, the snapshots, the
    stores of the pools, the HTTP pool, the timers and the allowlist that one
    owns are those the other contains. *)

From iris.proofmode Require Import proofmode.
From S2P Require Import Prelude Mem SharedData SharedQueue Metrics Ctx HostCalls.
From S2P Require Import Headers Properties HttpAddr Breaker HttpPool HttpParse HttpIo HttpCall.
From S2P Require Import Imports StorePool Engine Heap EngineLife.

(** ** Uses of an engine *)

(** What VCL and the host functions do with an engine, with the outcomes of
    everything that can fail; [traps]: which failing calls into Wasmtime fail with
    a trap, first the warm instance, then the slots of the pool. *)
Inductive usage :=
| Configure (q : setup) (traps : oracle)
| SetPeriod (ok : oracle) (ticks : ticking) (name : bytes) (ms : Z)
| Cache (ok : oracle) (found : option nat).

Section Usage.
Context `{W : Wasm}.

(** In [Engine]. *)
Definition use_value (v : option vwasm_engine) (u : usage) : option vwasm_engine * Z :=
  match u, v with
  | Configure q _, _ => configure v q
  | SetPeriod ok _ name ms, Some e =>
      match vwasm_engine_set_tick_period ok (ok 1%nat) None (Some (tick_view e)) (Some name) ms with
      | Done (Some t, r) => (Some (set_timers e (tick_timers t)), r)
      | _ => (v, -1)
      end
  | SetPeriod _ _ _ _, None => (v, -1)
  | Cache _ _, _ => (v, 0)
  end.

(** The outcomes of [vwasm_engine_init_pool] in the order of its calls: the
    store and the snapshot of the warm instance, the four blocks of the pool,
    then the store and the instance of each slot. *)
Definition pool_oracle (k : nat) (snap_ok : bool) (ok : oracle) : oracle :=
  fun j =>
    match j with
    | 0 => store_new k
    | 1 => snap_ok
    | 2 | 3 | 4 | 5 => ok (j - 2)
    | _ =>
        let i := ((j - 6) / 2) in
        if Nat.even j then store_new i else match instantiate i with Some _ => true | None => false end
    end%nat.

(** How the instantiation of the warm instance and its callbacks end; those that
    return before one fails leave nothing behind. *)
Definition init_endings (k : nat) (trap : bool) : list ending :=
  match instantiate k with
  | None => [failure trap]
  | Some x =>
      match run_init (probe_exports x) x 0 0 with
      | None => [Returns; failure trap]
      | Some _ => [Returns]
      end
  end.

(** The same operation in [EngineLife]; the setters of plain fields and calls
    with a NULL name own nothing, and only answer. *)
Definition lower (u : usage) : engine_op + Z :=
  match u with
  | Configure (Engine.SetAllowedUpstreams ok l) _ => inl (SetAllowedUpstreams ok l)
  | Configure (Engine.LoadModule ok file (Some name) (Some path)) _ =>
      inl (LoadModule ok file name path)
  | Configure (Engine.LoadModule _ _ _ _) _ => inr (-1)
  | Configure (Engine.InitPool k snap_ok ok (Some name) size) traps =>
      let wm := vwasm_warm_instance_create k true true None None in
      inl (InitPool (pool_oracle k snap_ok ok) (fun i => traps (S i)) (init_endings k (traps 0%nat))
             (wm.2 =? 0) (has_initialize wm.1) name size)
  | Configure (Engine.InitPool _ _ _ None _) _ => inr (-1)
  | Configure (Engine.InitHttpPool ok size) _ => inl (InitHttpPool ok)
  | Configure _ _ => inr 0
  | SetPeriod ok ticks name ms => inl (SetTickPeriod ok ticks name ms)
  | Cache ok found => inl (CachePut ok found)
  end.

Definition lowered (us : list usage) : list engine_op :=
  omap (fun u => match lower u with inl q => Some q | inr _ => None end) us.

(** The engine after a sequence of uses, and the answers of those that are
    operations of [EngineLife]. *)
Fixpoint use_values (v : option vwasm_engine) (us : list usage) : option vwasm_engine * list Z :=
  match us with
  | [] => (v, [])
  | u :: us =>
      let '(v, r) := use_value v u in
      let '(v, rs) := use_values v us in
      (v, match lower u with inl _ => r :: rs | inr _ => rs end)
  end.
End Usage.

(** ** The relation *)

Definition present {A} (o : option A) : bool := match o with Some _ => true | None => false end.

(** What an engine owns: the names of its modules, the valid snapshots, for
    each pool which slots have a store, whether there is an HTTP pool, which
    timers run, and how long the allowlist is. *)
Definition owned (e : c_engine) :=
  (map cm_name (ce_modules e), cw_valid <$> ce_warm e,
   option_map (fun p => map (fun s => negb (is_null s)) (cp_stores p)) <$> ce_pools e,
   present (ce_http e), present <$> ce_timers e,
   option_map (fun u => length u.2) (ce_upstreams e)).

Definition contained `{W : Wasm} (v : vwasm_engine) :=
  (modules v, valid <$> warm_instances v,
   option_map (fun p => map (fun s => present (ps_store s)) (store_objects p)) <$> pools v,
   present (http_pool v), present <$> timers v,
   option_map length (e_allowed_upstreams (conf v))).

Definition mirrors `{W : Wasm} (e : c_engine) (v : vwasm_engine) : Prop :=
  owned e = contained v /\ length (timers v) = 64%nat.

(** * Partial correctness *)

Section Yields.
Context {A C : Type}.

(** Every result satisfies [Q]. *)
Definition yields {A} (m : prog res A) (Q : A -> Prop) : Prop :=
  forall h a h', m h = Done (a, h') -> Q a.

Lemma yields_ret (a : A) (Q : A -> Prop) : Q a -> yields (ret a) Q.
Proof. by intros HQ h a' h' [= <- <-]. Qed.

Lemma yields_fault (Q : A -> Prop) : yields fault Q.
Proof. done. Qed.

Lemma yields_bind (R : A -> Prop) (m : prog res A) (k : A -> prog res C) (Q : C -> Prop) :
  yields m R -> (forall a, R a -> yields (k a) Q) -> yields (bind m k) Q.
Proof.
  intros Hm Hk h c h'. unfold bind. destruct (m h) as [[a h1]|] eqn:E; [|done]. cbn [obind].
  apply Hk. by eapply Hm.
Qed.

(** A call whose result does not matter. *)
Lemma yields_skip (m : prog res A) (k : A -> prog res C) (Q : C -> Prop) :
  (forall a, yields (k a) Q) -> yields (bind m k) Q.
Proof. intros Hk. by apply (yields_bind (fun _ => True)). Qed.

Lemma yields_mono (m : prog res A) (P Q : A -> Prop) :
  yields m P -> (forall a, P a -> Q a) -> yields m Q.
Proof. intros Hm HPQ h a h' E. by eapply HPQ, Hm. Qed.
End Yields.

Lemma yields_alloc ok r : yields (alloc ok r) (fun p => is_null p = negb ok).
Proof. intros h p h'. unfold alloc. destruct ok; by intros [= <- <-]. Qed.

Lemma yields_obj_new ok w r : yields (obj_new ok w r) (fun p => is_null p = negb ok).
Proof. unfold obj_new. destruct ok; [apply yields_skip; intros _|]; apply yields_alloc. Qed.

Lemma yields_obj_try ok w r :
  yields (obj_try ok w r) (fun x => is_null x.2 = ok).
Proof.
  apply yields_skip. intros p. eapply yields_bind; [apply yields_alloc|]. intros q Hq. apply yields_ret.
  cbn. by rewrite Hq negb_involutive.
Qed.

Lemma yields_define ok : yields (define_imports ok) (fun r => r = if ok then 0 else -1).
Proof.
  eapply yields_bind; [apply yields_alloc|]. intros q Hq. cbn beta in Hq. rewrite Hq negb_involutive.
  destruct ok; [by apply yields_ret|]. apply yields_skip. intros _. by apply yields_ret.
Qed.

(** A call with [trap] NULL fails exactly when it leaves something. *)
Definition failed (y : ptr * ptr) : bool := negb (is_null y.1) || negb (is_null y.2).

Lemma yields_wasm_call x :
  yields (wasm_call x None) (fun y => failed y = match x with Returns => false | _ => true end).
Proof.
  destruct x; cbn [wasm_call]; [by apply yields_ret|..];
    (eapply yields_bind; [apply yields_alloc|]); intros p Hp; apply yields_ret; cbn in Hp |- *; by rewrite /failed /= Hp.
Qed.

Lemma yields_wasm_new ok c : yields (wasm_new ok c) (fun p => is_null p = negb ok).
Proof. apply yields_skip. intros _. apply yields_alloc. Qed.

(** One step through a program: the outcome of an allocation decides the test
    that follows it. *)
Ltac fresh_ptr L :=
  eapply yields_bind; [apply L|];
  let p := fresh "p" in let Hp := fresh "Hp" in
  intros p Hp; cbn beta in Hp; rewrite ?Hp;
  match type of Hp with _ = negb ?b => destruct b eqn:? end; cbn [negb] in *.

Ltac walk :=
  repeat lazymatch goal with
  | |- yields (ret _) _ => apply yields_ret
  | |- yields fault _ => apply yields_fault
  | |- yields (bind (alloc _ _) _) _ => fresh_ptr yields_alloc
  | |- yields (bind (obj_new _ _ _) _) _ => fresh_ptr yields_obj_new
  | |- yields (bind (wasm_new _ _) _) _ => fresh_ptr yields_wasm_new
  | |- yields (bind (free _) _) _ => apply yields_skip; intros _
  | |- yields (bind (obj_delete _ _) _) _ => apply yields_skip; intros _
  | |- yields (bind (wasm_delete _) _) _ => apply yields_skip; intros _
  | |- yields (bind (error_delete _) _) _ => apply yields_skip; intros _
  | |- yields (bind (wasm_trap_delete _) _) _ => apply yields_skip; intros _
  | |- yields (bind (define_imports ?b) _) _ =>
      eapply yields_bind; [apply yields_define|]; intros ? ->; destruct b eqn:?; cbn [negb Z.eqb]
  | |- yields (bind (obj_try ?b _ _) _) _ =>
      eapply yields_bind; [apply yields_obj_try|];
      let x := fresh "x" in let Hx := fresh "Hx" in
      intros x Hx; cbn beta in Hx; rewrite ?Hx; destruct b eqn:?; cbn [negb] in *
  | |- yields (if ?b then _ else _) _ => destruct b eqn:?
  end.

(** * The operations *)

Section Refinement.
Context `{W : Wasm}.

(** An answer and an engine that agree with those of [Engine]. *)
Definition same (o : option vwasm_engine * Z) (x : c_engine * Z) : Prop :=
  exists v, o = (Some v, x.2) /\ mirrors x.1 v.

Lemma same_done v r e : mirrors e v -> same (Some v, r) (e, r).
Proof. by exists v. Qed.

Lemma existsb_map {A B} (f : A -> B) (p : B -> bool) l :
  existsb p (map f l) = existsb (fun x => p (f x)) l.
Proof. induction l as [|a l IH]; [done|]. simpl. by rewrite IH. Qed.

Lemma mirrors_names e v : mirrors e v -> modules v = map cm_name (ce_modules e).
Proof. intros [E _]. by injection E. Qed.

Lemma new_mirrors ok :
  yields (c_engine_new ok) (fun x =>
    match x with Some e => exists v, vwasm_engine_new ok = Some v /\ mirrors e v
    | None => vwasm_engine_new ok = None end).
Proof.
  unfold c_engine_new, vwasm_engine_new. walk; try done. all: eexists; split; [done|]; split; done.
Qed.

(** Afterwards: one component changed on both sides, the others are the same. *)
Ltac mirror :=
  match goal with H : mirrors _ _ |- _ =>
    let Ho := fresh "Ho" in let Ht := fresh "Ht" in destruct H as [Ho Ht];
    injection Ho as ? ? ? ? ? ?;
    split; [unfold owned, contained; cbn; rewrite ?map_app ?list_fmap_insert /=;
            repeat match goal with H : ?x = _ |- context [?x] => rewrite H end; try done
           |rewrite ?length_insert; done]
  end.

Lemma load_mirrors ok file e v name path :
  mirrors e v ->
  yields (c_load_module ok file e name path)
    (same (configure (Some v) (Engine.LoadModule ok file (Some name) (Some path)))).
Proof.
  intros Hm. unfold c_load_module. cbn [configure]. unfold vwasm_engine_load_module.
  rewrite (mirrors_names _ _ Hm) existsb_map /len length_map. cbv zeta.
  destruct (file path) as [f|]; walk; try by apply same_done.
  apply same_done. mirror.
Qed.

Lemma yields_http_destroy p : yields (c_http_destroy p) (fun x => x = None).
Proof. destruct p; unfold c_http_destroy; [do 5 (apply yields_skip; intros _)|]; by apply yields_ret. Qed.

Lemma http_new_mirrors ok n t :
  yields (c_http_new ok) (fun p => present p = present (vwasm_http_pool_new ok n t)).
Proof.
  unfold c_http_new, vwasm_http_pool_new. cbv zeta. walk; try done.
  all: eapply yields_mono; [apply yields_http_destroy|by intros ? ->].
Qed.

Lemma http_mirrors ok n e v :
  mirrors e v ->
  yields (c_init_http_pool ok e) (same (configure (Some v) (Engine.InitHttpPool ok n))).
Proof.
  intros Hm. unfold c_init_http_pool. cbn [configure vwasm_engine_init_http_pool].
  apply yields_skip. intros _. set (q := vwasm_http_pool_new ok _ _).
  apply (yields_bind (fun p => present p = present q)); [apply http_new_mirrors|].
  intros p Hp. apply yields_ret. destruct p as [p|], q as [q|]; try done; apply same_done; mirror.
Qed.

Lemma fill_mirrors ok toks count new_list dup l :
  yields (c_fill_list ok toks count new_list dup l) (fun r =>
    option_map length r = option_map (fun l' => (length l + length l')%nat) (fill_list ok toks (length l) count)).
Proof.
  revert l. induction toks as [|tok toks IH]; intros l; cbn [c_fill_list fill_list]; walk.
  - cbn. by rewrite Nat.add_0_r.
  - apply IH.
  - eapply yields_mono; [apply IH|]. intros r. rewrite length_app /= Nat.add_1_r. intros ->.
    destruct (fill_list _ _ _ _) as [l'|]; [|done]. cbn. f_equal. lia.
  - apply yields_skip. intros _. by walk.
  - cbn. by rewrite Nat.add_0_r.
Qed.

Lemma upstreams_mirrors ok e v s :
  mirrors e v ->
  yields (bind (c_set_allowed_upstreams ok e s) (fun e => ret (e, 0)))
    (same (configure (Some v) (Engine.SetAllowedUpstreams ok s))).
Proof.
  intros Hm. apply (yields_bind (fun e' => same (configure (Some v) (Engine.SetAllowedUpstreams ok s)) (e', 0)));
    [|intros e' He; by apply yields_ret].
  unfold c_set_allowed_upstreams. apply yields_skip. intros _. cbn [configure vwasm_engine_set_allowed_upstreams].
  unfold parse_allowlist. cbv zeta.
  destruct s as [s|]; [|walk; apply same_done; mirror].
  destruct (cstr s) as [|x q]; walk; try (apply same_done; mirror; fail).
  eapply yields_bind; [apply fill_mirrors|]. intros r. cbn [length]. set (w := fill_list _ _ _ _).
  destruct r as [l|], w as [w|]; try done; intros El; apply yields_ret, same_done; mirror.
  by injection El as ->.
Qed.

Lemma find_mirrors e v name :
  mirrors e v ->
  c_find_module e name = option_map Z.to_nat (find_module (tick_view v) name) /\
  forall idx, find_module (tick_view v) name = Some idx -> 0 <= idx.
Proof.
  intros Hm. unfold c_find_module, find_module, tick_view. cbn [module_names].
  rewrite (mirrors_names _ _ Hm). split; [done|]. intros idx E.
  apply (proj1 (find_module_from_spec _ _ _)) in E as (n & -> & _). lia.
Qed.

Lemma index_test idx :
  0 <= idx -> (Z.to_nat MAX_MODULES <=? Z.to_nat idx)%nat = (idx <? 0) || (MAX_MODULES <=? idx).
Proof.
  intros H. rewrite (proj2 (Z.ltb_ge _ _)) //. cbn [orb].
  destruct (Z.leb_spec MAX_MODULES idx), (Nat.leb_spec (Z.to_nat MAX_MODULES) (Z.to_nat idx)); lia.
Qed.

(** Stopping the timer of a module on a worker thread clears it. *)
Lemma stop_timer v idx :
  length (timers v) = 64%nat -> 0 <= idx < MAX_MODULES ->
  match tick_timers (tick_view v) !! Z.to_nat idx with
  | None => Fault
  | Some None => Done (tick_view v)
  | Some (Some _) =>
      if bool_decide (None = Some idx) then Fault
      else Done (TickEngine (module_names (tick_view v))
                   (<[Z.to_nat idx := None]> (tick_timers (tick_view v))))
  end = Done (TickEngine (modules v) (<[Z.to_nat idx := None]> (timers v))).
Proof.
  intros Hl Hi. cbn [tick_view tick_timers module_names]. unfold MAX_MODULES in Hi.
  destruct (lookup_lt_is_Some_2 (timers v) (Z.to_nat idx)) as [[t|] E]; [lia|by rewrite E|].
  rewrite E list_insert_id //.
Qed.

Lemma period_mirrors ok ticks e v name ms :
  mirrors e v ->
  yields (c_set_tick_period ok ticks e name ms) (same (use_value (Some v) (SetPeriod ok ticks name ms))).
Proof.
  intros Hm. destruct (find_mirrors _ _ name Hm) as [Ef Hpos].
  unfold c_set_tick_period, use_value, vwasm_engine_set_tick_period. rewrite Ef.
  destruct (find_module _ _) as [idx|]; cbn [option_map]; [|by apply yields_ret, same_done; mirror].
  specialize (Hpos _ eq_refl). rewrite (index_test _ Hpos).
  destruct ((idx <? 0) || (MAX_MODULES <=? idx)) eqn:Ei; [by apply yields_ret, same_done; mirror|].
  rewrite (stop_timer v idx); [|apply Hm|lia]. apply yields_skip. intros _. cbn [obind]. cbv zeta.
  walk; apply same_done; mirror.
Qed.

Lemma cache_mirrors ok fnd e v :
  mirrors e v ->
  yields (c_engine_op e (CachePut ok fnd)) (same (use_value (Some v) (Cache ok fnd))).
Proof.
  intros Hm. cbn [c_engine_op use_value]. destruct (ce_http e) as [p|] eqn:E;
    [apply yields_skip; intros p'|]; apply yields_ret, same_done; [mirror|done].
  by rewrite -H2 E.
Qed.

Lemma run_init_mirrors l :
  yields (c_run_init l) (fun y => failed y = existsb (fun x => match x with Returns => false | _ => true end) l).
Proof.
  induction l as [|x l IH]; cbn [c_run_init]; [by apply yields_ret|].
  eapply yields_bind; [apply yields_wasm_call|]. intros y Hy. cbn beta in Hy. fold (failed y). rewrite Hy.
  destruct x; [exact IH|by apply yields_ret..].
Qed.

Lemma warm_mirrors k snap_ok ok trap w :
  let wm := vwasm_warm_instance_create k true true None None in
  let wm' := vwasm_warm_instance_create k true snap_ok None None in
  yields (c_warm_create (pool_oracle k snap_ok ok) (init_endings k trap) (wm.2 =? 0) w) (fun x =>
    x.2 = wm'.2 /\ cw_valid x.1 = valid wm'.1 /\ (x.2 = 0 -> wm'.1 = wm.1)).
Proof.
  cbv zeta. unfold c_warm_create, vwasm_warm_instance_create. cbn [negb pool_oracle].
  destruct (store_new k) eqn:Es; cbn [negb snd].
  2: { walk; done. }
  fresh_ptr yields_obj_new; [|done].
  eapply yields_bind; [apply run_init_mirrors|]. intros y Hy. cbn beta in Hy. fold (failed y). rewrite Hy.
  unfold init_endings. destruct (instantiate k) as [x|]; [|by destruct trap; walk].
  destruct (run_init _ _ _ _) as [x'|]; [|by destruct trap; walk]. cbn [existsb orb].
  destruct (export_memory x'); [|walk; done]. cbn [negb].
  destruct (memory_data x') as [[|b m]|]; [walk; done| |walk; done].
  destruct snap_ok; walk; done.
Qed.

Lemma slot_outcomes k snap_ok ok i :
  pool_oracle k snap_ok ok (6 + 2 * i) = store_new i /\
  pool_oracle k snap_ok ok (7 + 2 * i) = present (instantiate i).
Proof.
  assert (forall j, pool_oracle k snap_ok ok (6 + j) =
    if Nat.even j then store_new (j / 2)%nat else present (instantiate (j / 2)%nat)) as H.
  { intros j. cbn [pool_oracle Nat.add Nat.even]. cbv zeta.
    by replace (S (S (S (S (S (S j))))) - 6)%nat with j by lia. }
  split; [rewrite H Nat.even_even Nat.mul_comm Nat.div_mul //|].
  change (7 + 2 * i)%nat with (6 + (1 + 2 * i))%nat. rewrite H Nat.even_add Nat.even_even.
  by rewrite Nat.mul_comm Nat.div_add.
Qed.

Lemma slot_mirrors k snap_ok ok traps i w :
  yields (c_init_slot (pool_oracle k snap_ok ok) traps i w)
    (fun s => negb (is_null s) = present (pool_init_slot i)).
Proof.
  unfold c_init_slot, pool_init_slot. destruct (slot_outcomes k snap_ok ok i) as [-> ->].
  eapply yields_bind; [apply yields_obj_new|]. intros p Hp. cbn beta in Hp. rewrite Hp.
  destruct (store_new i); cbn [negb]; [|by apply yields_ret].
  eapply yields_bind; [apply yields_wasm_call|]. intros [er tr]. unfold failed. cbn [fst snd].
  destruct (instantiate i); cbn [present]; [|unfold failure; destruct (traps i)];
    destruct (is_null er), (is_null tr); cbn [negb orb]; intros Hy; try done; walk; by rewrite ?Hp.
Qed.

Lemma slots_mirrors k snap_ok ok traps n i w wm :
  yields (c_pool_slots (pool_oracle k snap_ok ok) traps n i w) (fun l =>
    map (fun s => negb (is_null s)) l = map (fun s => present (ps_store s)) (init_slots n i wm).1).
Proof.
  revert i. induction n as [|n IH]; intros i; cbn [c_pool_slots init_slots]; [by walk|].
  eapply yields_bind; [apply slot_mirrors|]. intros s Hs. cbn beta in Hs.
  eapply yields_bind; [apply IH|]. intros l Hl. cbn beta in Hl. apply yields_ret. simpl.
  rewrite Hs Hl. destruct (init_slots n (S i) wm) as [ps b].
  unfold pool_init_slot. destruct (store_new i); [|done]. cbn [negb].
  destruct (instantiate i); [|done]. by destruct (should_restore _ _).
Qed.

Lemma pool_mirrors k snap_ok ok traps size w wm :
  yields (c_store_pool_new (pool_oracle k snap_ok ok) traps size w) (fun p =>
    option_map (fun p => map (fun s => negb (is_null s)) (cp_stores p)) p =
    option_map (fun p => map (fun s => present (ps_store s)) (store_objects p))
      (vwasm_store_pool_new ok true size wm)).
Proof.
  unfold c_store_pool_new, vwasm_store_pool_new, clamp_pool. cbv zeta.
  cbn [pool_oracle negb Nat.sub]. walk; try done.
  eapply yields_bind; [apply (slots_mirrors _ _ _ _ _ _ _ wm)|]. intros l Hl. apply yields_ret.
  cbn [option_map cp_stores orb]. rewrite Hl. by destruct (init_slots _ _ _) as [ps b].
Qed.

Lemma yields_warm_destroy x : yields (c_warm_destroy x) (fun y => y = CWarm None false).
Proof. apply yields_skip. intros _. by apply yields_ret. Qed.

Lemma init_mirrors k snap_ok ok traps trap e v name size :
  let wm := vwasm_warm_instance_create k true true None None in
  mirrors e v ->
  yields (c_init_pool (pool_oracle k snap_ok ok) traps (init_endings k trap) (wm.2 =? 0) (has_initialize wm.1) e name size)
    (same (configure (Some v) (Engine.InitPool k snap_ok ok (Some name) size))).
Proof.
  cbv zeta. intros Hm. destruct (find_mirrors _ _ name Hm) as [Ef Hpos].
  unfold c_init_pool. cbn [configure]. unfold vwasm_engine_init_pool. rewrite Ef.
  destruct (find_module _ _) as [idx|]; cbn [option_map]; [|by apply yields_ret, same_done].
  specialize (Hpos _ eq_refl). rewrite (index_test _ Hpos).
  destruct ((idx <? 0) || (MAX_MODULES <=? idx)); [by apply yields_ret, same_done|]. cbv zeta.
  eapply yields_bind; [apply warm_mirrors|]. intros [x r] (Hr & Hv & Hh). cbn [fst snd] in *.
  destruct (vwasm_warm_instance_create k true snap_ok None None) as [wm' r']. cbn [fst snd] in *. subst r'.
  destruct (negb (r =? 0)) eqn:Er; [apply yields_ret, same_done; mirror|].
  rewrite -Hh; [|lia]. clear Hh. destruct (has_initialize wm').
  { eapply yields_bind; [apply yields_warm_destroy|]. intros y ->. apply yields_ret, same_done.
    mirror. }
  eapply yields_bind; [apply (pool_mirrors _ _ _ _ _ _ (Some wm'))|]. intros p Hp. cbn beta in Hp.
  revert Hp. set (p' := vwasm_store_pool_new ok true _ _).
  destruct p as [p|], p' as [p'|]; try done; intros Hp.
  - apply yields_ret, same_done. mirror.
    by injection Hp as ->.
  - eapply yields_bind; [apply yields_warm_destroy|]. intros y ->. apply yields_ret, same_done.
    mirror.
Qed.

(** ** Histories *)

(** Each operation of [EngineLife] refines the same operation of [Engine]. *)
Lemma op_mirrors u q e v :
  lower u = inl q -> mirrors e v -> yields (c_engine_op e q) (same (use_value (Some v) u)).
Proof.
  intros Hq Hm.
  destruct u as [[b|ms|ms|ok l|n|md|ok file [name|] [path|]|k snap_ok ok [name|] size|ok size] traps
                |ok ticks name ms|ok fnd]; cbn in Hq; simplify_eq; cbn [c_engine_op].
  - by apply upstreams_mirrors.
  - by apply load_mirrors.
  - by apply init_mirrors.
  - by apply http_mirrors.
  - by apply period_mirrors.
  - by apply cache_mirrors.
Qed.

(** The other uses change nothing an engine owns. *)
Lemma plain_mirrors u r e v :
  lower u = inr r -> mirrors e v -> exists v', use_value (Some v) u = (Some v', r) /\ mirrors e v'.
Proof.
  intros Hq Hm.
  destruct u as [[b|ms|ms|ok l|n|md|ok file [name|] [path|]|k snap_ok ok [name|] size|ok size] traps
                |ok ticks name ms|ok fnd]; cbn in Hq; simplify_eq; cbn [use_value configure];
    try (eexists; split; [reflexivity|]; (mirror || done)).
Qed.

Lemma ops_mirror us e v :
  mirrors e v ->
  yields (c_engine_ops e (lowered us)) (fun x =>
    exists v', use_values (Some v) us = (Some v', x.2) /\ mirrors x.1 v').
Proof.
  revert e v. induction us as [|u us IH]; intros e v Hm.
  { apply yields_ret. by exists v. }
  unfold lowered. cbn [omap list_omap use_values]. fold (lowered us).
  destruct (lower u) as [q|r] eqn:Eq.
  - cbn [c_engine_ops]. eapply yields_bind; [by eapply op_mirrors|].
    intros [e1 r] (v1 & Ev & H1). cbn [fst snd] in *. rewrite Ev.
    eapply yields_bind; [by apply IH|]. intros [e2 rs] (v2 & Ev2 & H2). cbn [fst snd] in *.
    apply yields_ret. rewrite Ev2. by exists v2.
  - destruct (plain_mirrors _ _ _ _ Eq Hm) as (v1 & -> & H1).
    eapply yields_mono; [by apply IH|]. intros x (v2 & -> & H2). by exists v2.
Qed.

(** The answers of a life in [Engine]. *)
Definition life_answers (ok : oracle) (us : list usage) : option (list Z) :=
  (fun v => (use_values (Some v) us).2) <$> vwasm_engine_new ok.

Lemma life_mirrors ok us ticks reads :
  yields (c_engine_life ok (lowered us) ticks reads) (fun r => r = life_answers ok us).
Proof.
  unfold c_engine_life, life_answers. eapply yields_bind; [apply new_mirrors|].
  intros [e|].
  - intros (v & -> & Hm). eapply yields_bind; [by apply ops_mirror|].
    intros x (v' & Ev & _). apply yields_skip. intros _. apply yields_ret. cbn. by rewrite Ev.
  - intros ->. by apply yields_ret.
Qed.

(** ** Claims *)

(** C8 Resource safety and refinement of the engine: whatever fails on the way
    - any allocation, a file, a module that does not compile or link, imports that
    cannot be defined, a thread that cannot be started, a warm instance or slots of
    a pool that cannot be instantiated or initialized, with an error or with a
    trap - an engine that is created, configured by any sequence of calls, given
    tick periods and cached responses, with at most one store pool initialization
    per module name, and destroyed has released every block, module, pre-instance,
    linker, store, error, trap, file and thread, and the Wasmtime engine, exactly
    once, uses none after its release, deletes the Wasmtime engine only when no
    store, module, linker or thread uses it any more, and leaves the rest of the
    heap alone; it answers as the engine of values does; and at each point of its
    life what it owns mirrors what that one contains.  The tick threads must find
    NULL in their uninitialized variable [trap] and leave no trap in it from one
    round to the next: [stale_trap_deleted] shows what happens otherwise.
    Executions of requests are not among the operations. *)
Theorem engine_refines_values ok us ticks reads h :
  NoDup (mjoin (pooled <$> lowered us)) -> Forall quiet_op (lowered us) -> (forall i, quiet (ticks i)) ->
  c_engine_life ok (lowered us) ticks reads h = Done (life_answers ok us, h) /\
  forall e v h1 x h2, mirrors e v -> c_engine_ops e (lowered us) h1 = Done (x, h2) ->
    exists v', use_values (Some v) us = (Some v', x.2) /\ mirrors x.1 v'.
Proof.
  intros Hnd Hus Hq. split.
  - destruct (engine_life_done ok (lowered us) ticks reads h Hnd Hus Hq) as [r E].
    by rewrite E (life_mirrors _ _ _ _ _ _ _ E).
  - intros e v h1 x h2 Hm. by apply ops_mirror.
Qed.
End Refinement.

(** A module with a pool of 8 stores and a timer, an allowlist, and an attempt
    to use a module that was not loaded; a tick that fails with an error. *)
Definition sample_ticks : ticking :=
  Ticking None [Round true Returns [Returns; Traps; Returns]; Round false Returns []; Round true Errs [];
                Round true Returns [Errs]].

Definition sample_uses : list usage :=
  [ Configure (Engine.LoadModule all_ok (fun _ => Some (WasmFile 8 true)) (Some (str "auth"))
                 (Some (str "auth.wasm"))) all_ok;
    Configure (Engine.SetMemoryLimit 65536) all_ok;
    Configure (Engine.InitPool 0 true all_ok (Some (str "auth")) 8) all_ok;
    Configure (Engine.InitPool 0 true all_ok (Some (str "none")) 8) all_ok;
    SetPeriod all_ok sample_ticks (str "auth") 100;
    Configure (Engine.SetAllowedUpstreams all_ok (Some (str "a:80, b"))) all_ok ].

Lemma engine_refines_values_witness :
  c_engine_life all_ok (lowered (W := toy_wasm) sample_uses) (fun _ => sample_ticks)
    [true; true; false] ∅ = Done (Some [0; 0; -1; 0; 0], ∅).
Proof.
  assert (quiet sample_ticks) as Hq by (split; [done|]; repeat constructor; done).
  destruct (engine_refines_values (W := toy_wasm) all_ok sample_uses (fun _ => sample_ticks)
              [true; true; false] ∅) as [E _].
  - vm_compute. apply (bool_decide_unpack _). vm_compute. exact I.
  - repeat constructor; done.
  - intros _. exact Hq.
  - etransitivity; [exact E|]. vm_compute. reflexivity.
Defined.
